(* ===== verification/_CoqProject ===== *)
-Q . S2P
Prelude.v
RunQueue.v
RunQueueSpec.v
RunQueueYield.v
RunQueueLife.v
RunQueueSim.v
LogText.v
CText.v
SyncFuncs.v
LogDefs.v
Options.v
BinLog.v
BinLogRead.v
BinLogThms.v
LogFiles.v
TidMap.v
NonDetSet.v
Scheduler.v
SchedInv.v
SchedWake.v
SchedNext.v
SchedOps.v
SchedLife.v
SchedSys.v
SchedRun.v
SchedThms.v
SchedMachine.v
SchedSteady.v
RtState.v
TxtLog.v
TxtLogThms.v
SchedTurns.v
Proc.v
RtBase.v
RtRuntime.v
RtReturns.v
RtTls.v
RtSync.v
BusyWait.v
Rdtsc.v
RtAnnot.v
RtThread.v
RtNet.v
Hooks.v
RtProg.v
Interpose.v
HooksSpace.v
RtDisc.v
SchedClock.v
RtDet.v
RtApp.v
RtRun.v
HooksThms.v
RtRecv.v
RtTime.v
RtThms.v
RtMachine.v
RtRaces.v
RtLog.v
RtStamps.v
RtOrder.v
RecordSer.v
RecordLog.v
LogDet.v
RtTurn.v
RtLogic.v
RtRwLock.v
DelayFile.v
RtTasks.v
SyncStats.v
Console.v
Profiler.v
ProfilerThms.v
RandIntercept.v
RandThms.v
CodeGen.v
CodeGenThms.v
