(* ===== verification/Prelude.v ===== *)
(** * xtern, the deterministic multithreading runtime of minSMT

    xtern interposes on the pthread, socket and sleep functions of a program and makes
    every synchronisation happen in one fixed order: a thread synchronises only while it
    has the turn, and the turn goes round a run queue.  This library models the runtime
    (src/include/tern, src/lib/runtime, src/lib/common) without XTERN_PLUS_DBUG and proves
    what makes it correct.

    ** Parts of the program and the files that model them

    - Run queue (include/tern/runtime/run-queue.h): RunQueue.v models the intrusive linked
      list on a heap of cells; RunQueueSpec.v has its representation invariant;
      RunQueueYield.v the priority of yielding threads; RunQueueLife.v creation and
      deletion of elements; RunQueueSim.v the refinement of an abstract queue.
    - Thread ids (TidMap of include/tern/runtime/scheduler.h): TidMap.v.  Threads outside
      the schedule (non-det-thread-set.h): NonDetSet.v.
    - Scheduler (RRScheduler of lib/runtime/record-scheduler.cpp, record-scheduler.h,
      scheduler.h, scheduler.cpp): Scheduler.v has the state [sched] and one definition per
      operation, in an error monad over the state.  SchedInv.v, SchedWake.v, SchedNext.v,
      SchedOps.v and SchedLife.v prove an invariant and a specification of each operation;
      SchedSys.v the executions (a step relation on calls), SchedRun.v executable runs;
      SchedThms.v the properties; SchedTurns.v that turns are never duplicated;
      SchedClock.v which calls advance the turn counter.  SchedMachine.v has an abstract
      specification, the queue machine, which the operations of the code implement as long
      as no thread is in a system call; SchedSteady.v has the effect of each operation as a
      corollary.  RtMachine.v runs the programs of the runtime on the machine.
    - Table of synchronisation functions (syncfuncs.def.h, syncfuncs.h, syncfuncs.cpp):
      SyncFuncs.v.  Run-time options (the header generated from default.options is a
      parameter): Options.v.
    - Logs (logdefs.h, record-log.h, record-log.cpp): LogDefs.v, BinLog.v, BinLogRead.v
      and BinLogThms.v for the binary log; LogText.v, TxtLog.v and TxtLogThms.v for the two
      text logs; LogFiles.v for the logger of each thread and the name of its file.
      CText.v has what the sources use of std::string, fgets and fscanf.
    - Runtime (RecorderRT of lib/runtime/record-runtime.cpp, record-runtime.h,
      runtime-stat.h): RtState.v has the globals, the thread-local variables and the POSIX
      objects; Proc.v the programs and their interleavings; RtBase.v the common macros
      SCHED_TIMER_* and BLOCK_TIMER_*, times and turns; RtRuntime.v the base class
      (lib/runtime/runtime.cpp); RtSync.v mutexes, reader-writer locks, barriers, condition
      variables and semaphores; RtAnnot.v annotations and sleeping, with the busy wait of
      BusyWait.v (busywait.c); RtThread.v threads, the idle thread (helper.cpp), fork and
      exec; RtNet.v the blocking system calls; DelayFile.v the file of delays and
      InstallRuntime; SyncStats.v the statistics that progEnd prints; Rdtsc.v the log of
      cycle counters (rdtsc.cpp); Console.v the times of update_time, check_options,
      RuntimeStat::print, RRScheduler::dump and the exported functions tern_log_*.
    - The serializer that lets whoever comes first run (RecordSerializer of
      record-scheduler.h) and RecorderRT over it: RecordSer.v, with its log in RecordLog.v.
    - Hooks (lib/runtime/hooks.cpp, lib/common/space.cpp): the space and the common form of
      a hook are in RtBase.v, the hooks in RtThread.v and Hooks.v.  Begin and end of a
      program (helper.cpp, dync_hook/spec_hooks.cpp): RtProg.v.
    - Interposition library (dync_hook: the templates of the taken-over functions,
      annotation_hooks.cpp, get_eip, __libc_start_main, finding the C library) and the
      stubs of xtern-annot.cpp: Interpose.v.  The generator that
      instantiates the templates (code_gen.cpp): CodeGen.v, with CodeGenThms.v.
    - Two libraries of their own, which count threads like the runtime and share its file
      formats but not its state: the balance profiler (balanceprofiler/balance-profiler.c)
      is Profiler.v, and the interceptor of the evaluation (eval/rand-intercept) is
      RandIntercept.v on the same thread-local state; ProfilerThms.v and RandThms.v have
      their executions and properties.

    ** How the parts interact

    An application calls a function that interpose.so defines: in App space it calls a
    hook, in Sys space the C library.  A hook enters the system space and calls a method of the runtime.  A method is a
    program ([prog] of Proc.v): a tree of atomic operations, each a call of the scheduler,
    a step on the globals, a step on thread-local variables or an input.  The scheduler's
    calls run the definitions of Scheduler.v.  A process is a set of threads with their
    programs and one world; its executions are all interleavings of the operations.  Where
    a call must wait for something, its operation has no step until it can return: getTurn
    until the turn has been posted, a semaphore until it is above 0.  What comes from
    outside (the clock, system calls, handles of new threads, get_caller) is a list of
    inputs per thread.  Where the source reads shared state without the turn, the
    operation is [Free]; everything else on shared state is done with the turn.

    Errors are values ([error] below): failed assertions (of a build without NDEBUG; with
    [ndebug] they are skipped and the code goes on), NULL and dangling pointers, indices
    out of range, uninitialised reads, exit.  Integers are Z with their wrap-around written
    out where the width can matter ([u32], [s32], [u64] ...).

    ** What the theorems show

    - The scheduler: every call the runtime may make runs to its end without error
      ([SchedThms.scheduler_safe]); the turn is exclusive; the queue is served round robin
      and fairly; signals, broadcasts and timeouts wake exactly the threads they should.
      The scheduler implements the queue machine, so that a run of the machine predicts
      what the log of every execution says (RtMachine.v).
    - The run queue implements a list with a yield counter ([RunQueueSim]).
    - The runtime: executions of threads that synchronise are deterministic
      ([RtThms.runtime_deterministic], by the turn discipline of RtDisc.v and RtDet.v for
      the applications of RtApp.v); what pthread_mutex_lock, pthread_mutex_unlock,
      pthread_cond_wait, pthread_barrier_wait, sem_wait and sem_post do at a turn (RtLogic.v,
      with the rules of RtTurn.v and RtReturns.v), and the methods of reader-writer locks
      (RtRwLock.v); the conversion of times (RtTime.v); the
      loop of recv ends (RtRecv.v); the log entries have the arguments the loggers read
      (RtLog.v) and increasing turn numbers (RtOrder.v, by the discipline of RtStamps.v).
    - Over the first-come-first-served serializer the order is not determined, but the log
      has it: its turn numbers increase, and a thread sleeps on a condition variable only
      if it is logged as waiting there (RecordLog.v).
    - The hooks: the spaces are kept apart and the hooks of functions that do not set errno
      do not disturb it (HooksThms.v, with the logics of RtTls.v and HooksSpace.v).
    - The text logs are read back as they were written, and equal test logs mean equal
      schedules; the binary log is read back if its records fit in the file, and the logger
      fails otherwise, with NDEBUG at the first record of a new file (BinLogThms.v); no
      thread's log is overwritten by another one (LogFiles.v); the files of the test logger
      are the same in every execution of threads that synchronise, whatever the
      interleaving and the times (LogDet.v).
    - With delays enforced, a task whose entry in the table of delays is above 50
      microseconds and longer than the task is delayed by what is missing, others are not
      (RtTasks.v); the table is what the file says
      (DelayFile.v); the statistics are the numbers of calls of all threads but thread 1
      (SyncStats.v); and the log of cycle counters is complete (Rdtsc.v).
    - While it measures, the profiler does not change results or errno, except that
      pthread_barrier_destroy crashes; with limits, a step waits for what is missing of its
      limit, or the program aborts (ProfilerThms.v); the turns in the logs of the
      interceptor are unique however the calls overlap (RandThms.v).
    - The code generator replaces, splits and terminates as it should (CodeGenThms.v).
    - Executions that show what goes wrong: a race of two pthread_creates and a policy that
      is not deterministic (RtRaces.v, with the executable processes of RtRun.v), a counter
      that wraps, a log that is never extended and others, listed with the findings.

    The claims carry the numbers C1, C2, ... in their doc comments.

    ** Bounds and fuel

    Loops of the source over queues and lists are structural or bounded by the number of
    heap cells, which is enough because the representation invariant bounds the length of
    a queue ([iter_loop], [yield_walk]).  Loops without a bound (a lock that is tried again,
    recv, the idle thread) are the node [Iter] of a program, one step each; [run n] and
    [greedy n] run a program for at most [n] steps and say when they stop early.  The
    readers of numbers and logs take as fuel the length of their input.  The loops of the
    code generator that follow its input take the length of the input, which
    [CodeGenThms.convert_terminates] shows to be enough; [CodeGen.replace] and
    [DelayFile.read_entries] need not end, and theorems say when they do.  The loops of
    timeval_normalize run as often as their microseconds have seconds, after which
    [BusyWait.carry_down_exit] and [BusyWait.carry_up_exit] show that they have ended.

    ** Not modelled

    - The branches for dbug; the macro ENFORCE_DELAY, which nothing uses.
    - The calls of update_time and record_rdtsc_op in the methods of the runtime: what
      they measure is only logged, and their definitions are in Console.v and Rdtsc.v.
    - Reading options; unwinding the stack for get_caller, whose result is an input.
    - Spinning and the mutex and condition variable inside wait_t: handing over the turn is
      one atomic post and one guarded take.
    - Of dync_hook: dlopen and dlsym themselves; the functions of the C library are
      parameters.
    - balance-profiler-with-args.c, which does not compile; eval/find-hotspot, a pass over
      data structures of LLVM; apps and the tests, which are not part of the runtime. *)
From Stdlib Require Export ZArith Lia.
From stdpp Require Export prelude strings gmap.

#[global] Open Scope Z_scope.

(** ** Machine integers *)
Declare Scope mach_scope.
Delimit Scope mach_scope with mach.

Definition u32 (z : Z) : Z := z mod 2 ^ 32.
Definition u64 (z : Z) : Z := z mod 2 ^ 64.
(** conversion to a signed 32-bit / 64-bit [int] / [int64_t] (two's complement) *)
Definition s32 (z : Z) : Z := (z + 2 ^ 31) mod 2 ^ 32 - 2 ^ 31.
Definition s64 (z : Z) : Z := (z + 2 ^ 63) mod 2 ^ 64 - 2 ^ 63.
Definition s16 (z : Z) : Z := (z + 2 ^ 15) mod 2 ^ 16 - 2 ^ 15.

Notation "x '+u32' y" := (u32 (x + y)) (at level 50, left associativity) : mach_scope.
Notation "x '-u32' y" := (u32 (x - y)) (at level 50, left associativity) : mach_scope.
Notation "x '+u64' y" := (u64 (x + y)) (at level 50, left associativity) : mach_scope.
Notation "x '-u64' y" := (u64 (x - y)) (at level 50, left associativity) : mach_scope.
Open Scope mach_scope.

(** [a & m] used as a C condition *)
Definition flag_set (a m : Z) : bool := negb (Z.land a m =? 0).

(** ** Results of code that can fail *)
Inductive error : Type :=
| NullDeref                      (* a NULL pointer is dereferenced *)
| UseAfterFree                   (* a freed heap cell is accessed *)
| OutOfBounds                    (* an array index is outside the array *)
| EmptyContainer                 (* front of an empty container *)
| AssertFail (msg : string)      (* a failed assert() of a build without NDEBUG *)
| ProcessExit (code : Z)         (* exit(code) *)
| ThreadExit                     (* pthread_exit *)
| UninitRead                     (* an indeterminate value is read *)
| WouldBlock                     (* a call that cannot return yet *)
| OutOfFuel.                     (* a loop ran longer than the given bound *)

Inductive res (A : Type) : Type :=
| Ok (a : A)
| Err (e : error).
Arguments Ok {A} a.
Arguments Err {A} e.

Definition is_ok {A} (r : res A) : bool := match r with Ok _ => true | Err _ => false end.

(** ** State and error monad: stateful code as explicit state passing *)
Definition M (S A : Type) : Type := S -> res (A * S).

#[global] Instance M_ret S : MRet (M S) := fun A a s => Ok (a, s).
#[global] Instance M_bind S : MBind (M S) := fun A B k m s =>
  match m s with
  | Ok (a, s') => k a s'
  | Err e => Err e
  end.

Definition get {S} : M S S := fun s => Ok (s, s).
Definition gets {S A} (f : S -> A) : M S A := fun s => Ok (f s, s).
Definition put {S} (s : S) : M S unit := fun _ => Ok (tt, s).
Definition modify {S} (f : S -> S) : M S unit := fun s => Ok (tt, f s).
Definition fail {S A} (e : error) : M S A := fun _ => Err e.
Definition when {S} (b : bool) (m : M S unit) : M S unit := if b then m else mret tt.
(** run [m] on a part of a larger state *)
Definition zoom {S T A} (g : S -> T) (p : T -> S -> S) (m : M T A) : M S A := fun s =>
  match m (g s) with
  | Ok (a, t) => Ok (a, p t s)
  | Err e => Err e
  end.
(** [assert(b)]: nothing when NDEBUG is defined *)
Definition cassert {S} (ndebug b : bool) (msg : string) : M S unit :=
  if b || ndebug then mret tt else fail (AssertFail msg).

(** the loop [for (x : l) f(x)] *)
Fixpoint for_each {S A} (f : A -> M S unit) (l : list A) : M S unit :=
  match l with
  | [] => mret tt
  | x :: l' => f x ;; for_each f l'
  end.

(** ** Weakest preconditions: [wpx X m Q s] says that [m] run from [s] returns a value
    and a state that satisfy [Q], or stops with an error that satisfies [X]; [wp]
    allows no error *)
Definition wpx {S A} (X : error -> Prop) (m : M S A) (Q : A -> S -> Prop) (s : S) : Prop :=
  match m s with
  | Ok (a, s') => Q a s'
  | Err e => X e
  end.
Definition no_error (_ : error) : Prop := False.
Abbreviation wp := (wpx no_error).

Section wp_lemmas.
Context {S : Type} {X : error -> Prop}.
Implicit Type s : S.

Lemma wp_ret {A} (a : A) Q s : Q a s -> wpx X (mret a) Q s.
Proof. done. Qed.
Lemma wp_bind {A B} (m : M S A) (k : A -> M S B) Q s :
  wpx X m (fun a s' => wpx X (k a) Q s') s -> wpx X (m ≫= k) Q s.
Proof. unfold wpx, mbind, M_bind. by destruct (m s) as [[a s']|e]. Qed.
Lemma wp_bind_inv {A B} (m : M S A) (k : A -> M S B) Q s :
  wpx X (m ≫= k) Q s -> wpx X m (fun a s' => wpx X (k a) Q s') s.
Proof. unfold wpx, mbind, M_bind. by destruct (m s) as [[a s']|e]. Qed.
Lemma wp_mono {A} (m : M S A) (P Q : A -> S -> Prop) s :
  wpx X m P s -> (forall a s', P a s' -> Q a s') -> wpx X m Q s.
Proof. unfold wpx. destruct (m s) as [[a s']|e]; auto. Qed.
Lemma wp_use {A} (m : M S A) (P Q : A -> S -> Prop) s :
  wp m P s -> (forall a s', P a s' -> Q a s') -> wpx X m Q s.
Proof. unfold wpx. destruct (m s) as [[a s']|e]; [auto|done]. Qed.
Lemma wp_fail {A} e (Q : A -> S -> Prop) s : X e -> wpx X (fail e) Q s.
Proof. done. Qed.
Lemma wp_gets {A} (f : S -> A) Q s : Q (f s) s -> wpx X (gets f) Q s.
Proof. done. Qed.
Lemma wp_get Q s : Q s s -> wpx X get Q s.
Proof. done. Qed.
Lemma wp_put s' Q s : Q tt s' -> wpx X (put s') Q s.
Proof. done. Qed.
Lemma wp_modify f Q s : Q tt (f s) -> wpx X (modify f) Q s.
Proof. done. Qed.
Lemma wp_when b (m : M S unit) Q s :
  (b = true -> wpx X m Q s) -> (b = false -> Q tt s) -> wpx X (when b m) Q s.
Proof. destruct b; intros H1 H2; [by apply H1 | by apply H2]. Qed.
Lemma wp_if {A} (b : bool) (m1 m2 : M S A) Q s :
  (b = true -> wpx X m1 Q s) -> (b = false -> wpx X m2 Q s) ->
  wpx X (if b then m1 else m2) Q s.
Proof. destruct b; auto. Qed.
Lemma wp_cassert nd b msg Q s : b = true -> Q tt s -> wpx X (cassert nd b msg) Q s.
Proof. intros ->. done. Qed.
Lemma wp_zoom {T A} (g : S -> T) (p : T -> S -> S) (m : M T A) Q s :
  wpx X m (fun a t => Q a (p t s)) (g s) -> wpx X (zoom g p m) Q s.
Proof. unfold wpx, zoom. by destruct (m (g s)) as [[a t]|e]. Qed.
Lemma wp_elim {A} (m : M S A) Q s :
  wp m Q s -> exists a s', m s = Ok (a, s') /\ Q a s'.
Proof. unfold wpx. destruct (m s) as [[a s']|e]; [eauto|done]. Qed.
Lemma wp_intro {A} (m : M S A) (Q : A -> S -> Prop) s a s' :
  m s = Ok (a, s') -> Q a s' -> wpx X m Q s.
Proof. unfold wpx. by intros ->. Qed.
Lemma wp_and {A} (m : M S A) (P Q : A -> S -> Prop) s :
  wp m P s -> wpx X m Q s -> wpx X m (fun a s' => P a s' /\ Q a s') s.
Proof. unfold wpx. destruct (m s) as [[a s']|e]; [auto|done]. Qed.
Lemma wp_both {A} (m : M S A) (Q R : A -> S -> Prop) s :
  wpx X m Q s -> wp m (fun a s' => Q a s' -> R a s') s -> wp m R s.
Proof. unfold wpx. destruct (m s) as [[a s']|e]; [auto|done]. Qed.
Lemma wp_bind_ret {A B} (m : M S unit) (a : A) (k : A -> M S B) Q s :
  wpx X (m ;; k a) Q s -> wpx X ((m ;; mret a) ≫= k) Q s.
Proof. unfold wpx, mbind, M_bind, mret, M_ret. by destruct (m s) as [[b s1]|]. Qed.
(** regroup the first steps of a sequence *)
Lemma wp_bind_assoc2 {A} (m1 m2 : M S unit) (k : M S A) Q s :
  wpx X ((m1 ;; m2) ;; k) Q s -> wpx X (m1 ;; m2 ;; k) Q s.
Proof. unfold wpx, mbind, M_bind. by destruct (m1 s) as [[a s1]|]. Qed.
Lemma wp_bind_assoc3 {A} (m1 m2 m3 : M S unit) (k : M S A) Q s :
  wpx X (((m1 ;; m2) ;; m3) ;; k) Q s -> wpx X (m1 ;; m2 ;; m3 ;; k) Q s.
Proof.
  unfold wpx, mbind, M_bind. destruct (m1 s) as [[a s1]|]; [|done].
  destruct (m2 s1) as [[b s2]|]; [|done]. by destruct (m3 s2) as [[c s3]|].
Qed.
(** an invariant kept by every iteration is kept by the loop *)
Lemma wp_for_each {A} (f : A -> M S unit) (l : list A) (I : list A -> S -> Prop) s :
  (forall x l' s', I (x :: l') s' -> wpx X (f x) (fun _ s'' => I l' s'') s') ->
  I l s -> wpx X (for_each f l) (fun _ s' => I [] s') s.
Proof.
  intros Hf. revert s. induction l as [|x l IH]; intros s HI; simpl; [done|].
  apply wp_bind. eapply wp_mono; [by apply Hf|]. simpl. auto.
Qed.
End wp_lemmas.

(** ** Automation *)
Create HintDb minsmt.
Create Rewrite HintDb mach.

(** linear arithmetic with quotients and remainders by constants *)
Ltac dlia := Z.div_mod_to_equations; lia.

(** hook that a component extends with the steps of its own primitives *)
Ltac wp_hook := fail.

(** one monadic step of a [wp] goal *)
Ltac wp_step :=
  lazymatch goal with
  | |- wpx _ (mret _) _ _ => apply wp_ret
  | |- wpx _ (mbind _ _) _ _ => apply wp_bind
  | |- wpx _ get _ _ => apply wp_get
  | |- wpx _ (gets _) _ _ => apply wp_gets
  | |- wpx _ (put _) _ _ => apply wp_put
  | |- wpx _ (modify _) _ _ => apply wp_modify
  | |- wpx _ (zoom _ _ _) _ _ => apply wp_zoom
  | |- wpx _ (when _ _) _ _ => apply wp_when
  | |- wpx _ _ _ _ => wp_hook
  end; cbn beta.
Ltac wp_steps := repeat wp_step.

(** use a specification of the first call and keep going with its result *)
Tactic Notation "wp_apply" uconstr(H) := eapply wp_mono; [eapply H|].

(** ** Lists *)
Section list_lemmas.
Context {A : Type}.
Implicit Types (l k : list A) (x y : A).

Lemma head_app_ne l k : l <> [] -> head (l ++ k) = head l.
Proof. by destruct l. Qed.
Lemma NoDup_snoc l x : NoDup l -> x ∉ l -> NoDup (l ++ [x]).
Proof.
  intros Hl Hx. apply NoDup_app. repeat split; [done| |apply NoDup_singleton].
  intros y Hy ->%list_elem_of_singleton. done.
Qed.
Lemma NoDup_rot l x : NoDup (x :: l) -> NoDup (l ++ [x]).
Proof. rewrite NoDup_cons. intros [Hx Hl]. by apply NoDup_snoc. Qed.
End list_lemmas.

(** a duplicate-free list of integers in [0, n) has at most n elements *)
Lemma NoDup_bounded_length (l : list Z) (n : Z) :
  NoDup l -> Forall (fun t => 0 <= t < n) l -> Z.of_nat (length l) <= Z.max n 0.
Proof.
  intros Hnd Hb.
  assert (l ⊆ seqZ 0 n) as Hsub.
  { intros x Hx. apply elem_of_seqZ. rewrite Forall_forall in Hb. specialize (Hb x Hx). lia. }
  pose proof (submseteq_length _ _ (NoDup_submseteq _ _ Hnd Hsub)) as Hlen.
  rewrite length_seqZ in Hlen. lia.
Qed.

(** ** Machine-integer lemmas *)
Lemma u32_small z : 0 <= z < 2 ^ 32 -> u32 z = z.
Proof. apply Z.mod_small. Qed.
Lemma u64_small z : 0 <= z < 2 ^ 64 -> u64 z = z.
Proof. apply Z.mod_small. Qed.
Lemma u32_range z : 0 <= u32 z < 2 ^ 32.
Proof. apply Z.mod_pos_bound. lia. Qed.
Lemma u64_range z : 0 <= u64 z < 2 ^ 64.
Proof. apply Z.mod_pos_bound. lia. Qed.
Lemma s32_small z : - 2 ^ 31 <= z < 2 ^ 31 -> s32 z = z.
Proof. intros. unfold s32. rewrite Z.mod_small; lia. Qed.
Lemma s16_small z : - 2 ^ 15 <= z < 2 ^ 15 -> s16 z = z.
Proof. intros. unfold s16. rewrite Z.mod_small; lia. Qed.
Lemma s64_small z : - 2 ^ 63 <= z < 2 ^ 63 -> s64 z = z.
Proof. intros. unfold s64. rewrite Z.mod_small; lia. Qed.

#[export] Hint Rewrite u32_small u64_small s32_small s64_small using lia : mach.
#[export] Hint Resolve NoDup_snoc NoDup_rot u32_range u64_range : minsmt.
