(* ===== verification/RunQueue.v ===== *)
(** * The run queue: [tern::run_queue] of include/tern/runtime/run-queue.h

    The queue is an intrusive doubly linked list: its cells are the [runq_elem]
    objects that [create_thd_elem] allocates, one per thread, and [tid_map] finds
    the cell of a thread.  Two queues (the scheduler's [runq] and [hp_runq]) share
    one heap of cells, so the operations run on a heap and a queue.  A pointer is
    [option loc], [None] being NULL.  The operations translate the header with
    DEBUG_RUN_QUEUE undefined, as the header leaves it: its ASSERT and DBG_ macros
    are empty.

    [rq_inv] is the representation invariant; the [_spec] lemmas show that the
    operations refine the operations on a list of thread ids. *)
From S2P Require Import Prelude.

Definition MAX_THREAD_NUM : Z := 5000.

Definition loc : Type := positive.

Inductive THD_STATUS : Type :=
| RUNNABLE            (* can do any regular sync operation *)
| RUNNING_REG         (* has got a turn *)
| RUNNING_INTER_PRO   (* has got a turn and is about to call an inter-process operation *)
| INTER_PRO_STOP.     (* stopped in an inter-process operation *)

#[export] Instance THD_STATUS_eq_dec : EqDecision THD_STATUS.
Proof. solve_decision. Defined.

Record runq_elem : Type := Elem {
  e_tid : Z;
  e_status : THD_STATUS;
  e_prev : option loc;
  e_next : option loc;
  e_last_yield : bool
}.

(** constructor [runq_elem(int tid)] *)
Definition new_elem (tid : Z) : runq_elem := Elem tid RUNNABLE None None false.

Definition set_status (st : THD_STATUS) (e : runq_elem) : runq_elem :=
  Elem (e_tid e) st (e_prev e) (e_next e) (e_last_yield e).
Definition set_prev (p : option loc) (e : runq_elem) : runq_elem :=
  Elem (e_tid e) (e_status e) p (e_next e) (e_last_yield e).
Definition set_next (p : option loc) (e : runq_elem) : runq_elem :=
  Elem (e_tid e) (e_status e) (e_prev e) p (e_last_yield e).
Definition set_last_yield (b : bool) (e : runq_elem) : runq_elem :=
  Elem (e_tid e) (e_status e) (e_prev e) (e_next e) b.

Record run_queue : Type := RunQueue {
  q_head : option loc;
  q_tail : option loc;
  q_num_elements : Z;          (* size_t *)
  q_tid_map : gmap Z loc;      (* tid_map[MAX_THREAD_NUM]; absent is NULL *)
  q_num_yield_elem : Z         (* size_t *)
}.

(** live cells, and the next address [new] returns *)
Record heap : Type := Heap { cells : gmap loc runq_elem; brk : loc }.

(** the state of an operation: the shared heap and the queue it runs on *)
Record rqs : Type := RQS { r_heap : heap; r_q : run_queue }.

Definition R (A : Type) : Type := M rqs A.

(** ** Memory *)
Definition load (p : option loc) : R runq_elem := fun s =>
  match p with
  | None => Err NullDeref
  | Some l => match cells (r_heap s) !! l with
              | Some e => Ok (e, s)
              | None => Err UseAfterFree
              end
  end.

Definition upd_cell (l : loc) (e : runq_elem) (s : rqs) : rqs :=
  RQS (Heap (<[l := e]> (cells (r_heap s))) (brk (r_heap s))) (r_q s).

(** [p->field = v] *)
Definition store (p : option loc) (f : runq_elem -> runq_elem) : R unit :=
  e ← load p;
  match p with
  | None => fail NullDeref
  | Some l => modify (upd_cell l (f e))
  end.

Definition set_q (f : run_queue -> run_queue) : R unit :=
  modify (fun s => RQS (r_heap s) (f (r_q s))).
Definition with_head (p : option loc) (q : run_queue) : run_queue :=
  RunQueue p (q_tail q) (q_num_elements q) (q_tid_map q) (q_num_yield_elem q).
Definition with_tail (p : option loc) (q : run_queue) : run_queue :=
  RunQueue (q_head q) p (q_num_elements q) (q_tid_map q) (q_num_yield_elem q).
Definition with_num_elements (n : Z) (q : run_queue) : run_queue :=
  RunQueue (q_head q) (q_tail q) n (q_tid_map q) (q_num_yield_elem q).
Definition with_tid_map (m : gmap Z loc) (q : run_queue) : run_queue :=
  RunQueue (q_head q) (q_tail q) (q_num_elements q) m (q_num_yield_elem q).
Definition with_num_yield (n : Z) (q : run_queue) : run_queue :=
  RunQueue (q_head q) (q_tail q) (q_num_elements q) (q_tid_map q) n.

Definition in_range (tid : Z) : bool := (0 <=? tid) && (tid <? MAX_THREAD_NUM).

(** [tid_map[tid]] as an expression and as the target of an assignment *)
Definition tid_map_get (tid : Z) : R (option loc) :=
  if in_range tid then gets (fun s => q_tid_map (r_q s) !! tid) else fail OutOfBounds.
Definition tid_map_set (tid : Z) (p : option loc) : R unit :=
  if in_range tid
  then set_q (fun q => with_tid_map (partial_alter (fun _ => p) tid (q_tid_map q)) q)
  else fail OutOfBounds.

(** ** Operations *)

(** get_my_elem: only reads the pointer *)
Definition get_my_elem (my_tid : Z) : R (option loc) := tid_map_get my_tid.

Definition create_thd_elem (tid : Z) : R (option loc) :=
  s ← get;
  let elem := brk (r_heap s) in
  put (RQS (Heap (<[elem := new_elem tid]> (cells (r_heap s))) (Pos.succ elem)) (r_q s)) ;;
  tid_map_set tid (Some elem) ;;
  mret (Some elem).

Definition set_thd_elem (tid : Z) (elem : option loc) : R unit := tid_map_set tid elem.

Definition del_thd_elem (tid : Z) : R unit :=
  elem ← tid_map_get tid;
  tid_map_set tid None ;;
  _ ← load elem;                     (* pthread_spin_destroy(&(elem->spin_lock)) *)
  match elem with
  | None => fail NullDeref
  | Some l => modify (fun s => RQS (Heap (delete l (cells (r_heap s))) (brk (r_heap s))) (r_q s))
  end.

(** membership test by links *)
Definition q_in (tid : Z) : R bool :=
  elem ← tid_map_get tid;
  e ← load elem;
  if bool_decide (e_prev e <> None) || bool_decide (e_next e <> None) then mret true
  else
    q ← gets r_q;
    mret (bool_decide (q_head q = elem) && bool_decide (q_tail q = elem)).

Definition deep_clear : R unit :=
  set_q (fun q => with_num_yield 0 (with_num_elements 0 (with_tail None (with_head None q)))) ;;
  for_each (fun i =>
    p ← tid_map_get i;
    match p with
    | None => mret tt
    | Some _ =>
        e ← load p;
        store p (fun e => set_prev None (set_next None e)) ;;
        del_thd_elem (e_tid e)
    end) (seqZ 0 MAX_THREAD_NUM).

Definition q_size : R Z := gets (fun s => q_num_elements (r_q s)).
Definition q_empty : R bool := n ← q_size; mret (n =? 0).

(** erase(position): [None] is end() *)
Definition q_erase (position : option loc) : R (option loc) :=
  match position with
  | None => mret None
  | Some _ =>
      c ← load position;
      let ret := e_next c in
      (if decide (e_prev c = None) then mret tt
       else c ← load position; store (e_prev c) (set_next (e_next c))) ;;
      c ← load position;
      (if decide (e_next c = None) then mret tt
       else store (e_next c) (set_prev (e_prev c))) ;;
      q ← gets r_q;
      (if decide (q_head q = position)
       then c ← load position; set_q (with_head (e_next c)) else mret tt) ;;
      (if decide (q_tail q = position)
       then c ← load position; set_q (with_tail (e_prev c)) else mret tt) ;;
      store position (fun e => set_prev None (set_next None e)) ;;
      set_q (fun q => with_num_elements (q_num_elements q -u64 1) q) ;;
      c ← load position;
      when (e_last_yield c) (set_q (fun q => with_num_yield (q_num_yield_elem q -u64 1) q)) ;;
      mret ret
  end.

Definition q_push_back (tid : Z) : R unit :=
  elem ← tid_map_get tid;
  q ← gets r_q;
  (if decide (q_head q = None) then
     set_q (fun q => with_tail elem (with_head elem q))
   else
     store elem (set_prev (q_tail q)) ;;
     store (q_tail q) (set_next elem) ;;
     set_q (with_tail elem)) ;;
  set_q (fun q => with_num_elements (q_num_elements q +u64 1) q).

(** the while loop of insert_yield; [int count] is compared as a size_t *)
Fixpoint yield_walk (fuel : nat) (cur : option loc) (count : Z) (non_yield_found : bool)
  : R (option loc) :=
  match fuel with
  | O => fail OutOfFuel
  | S fuel' =>
      c ← load cur;
      q ← gets r_q;
      match e_next c with
      | None => mret cur
      | Some _ =>
          if (u64 count <? q_num_yield_elem q) || negb non_yield_found then
            n ← load (e_next c);
            if e_last_yield n then yield_walk fuel' (e_next c) (count + 1) non_yield_found
            else yield_walk fuel' (e_next c) count true
          else mret cur
      end
  end.

(** "insert after cur" and the counter update that follows it *)
Definition yield_link (elem cur : option loc) : R unit :=
  c ← load cur;
  let next_to_cur := e_next c in
  store cur (set_next elem) ;;
  store elem (set_prev cur) ;;
  store elem (set_next next_to_cur) ;;
  (if decide (next_to_cur = None) then mret tt else store next_to_cur (set_prev elem)) ;;
  q ← gets r_q;
  (if decide (cur = q_tail q) then set_q (with_tail elem) else mret tt) ;;
  set_q (fun q => with_num_yield (q_num_yield_elem q +u64 1) q).

Definition insert_yield (tid : Z) : R unit :=
  elem ← tid_map_get tid;
  store elem (set_last_yield true) ;;
  q ← gets r_q;
  (if decide (q_head q = None) then
     set_q (fun q => with_tail elem (with_head elem q))
   else
     hd ← load (q_head q);
     s ← get;
     cur ← yield_walk (S (size (cells (r_heap s)))) (q_head q)
             (if e_last_yield hd then 1 else 0) (negb (e_last_yield hd));
     yield_link elem cur) ;;
  set_q (fun q => with_num_elements (q_num_elements q +u64 1) q).

Definition q_front : R Z :=
  q ← gets r_q;
  e ← load (q_head q);
  mret (e_tid e).

Definition q_front_elem : R (option loc) := gets (fun s => q_head (r_q s)).

Definition q_push_front (tid : Z) : R unit :=
  elem ← tid_map_get tid;
  q ← gets r_q;
  (if decide (q_head q = None) then
     set_q (fun q => with_tail elem (with_head elem q))
   else
     store elem (set_next (q_head q)) ;;
     set_q (with_head elem)) ;;
  set_q (fun q => with_num_elements (q_num_elements q +u64 1) q).

Definition q_pop_front : R unit :=
  q ← gets r_q;
  let elem := q_head q in
  e ← load elem;
  (if e_last_yield e then
     set_q (fun q => with_num_yield (q_num_yield_elem q -u64 1) q) ;;
     store elem (set_last_yield false)
   else mret tt) ;;
  set_q (with_head (e_next e)) ;;
  store elem (fun e => set_prev None (set_next None e)) ;;
  q ← gets r_q;
  when (bool_decide (q_head q = None)) (set_q (with_tail None)) ;;
  set_q (fun q => with_num_elements (q_num_elements q -u64 1) q).

(** the constructor: memset of tid_map, then deep_clear *)
Definition empty_queue : run_queue := RunQueue None None 0 ∅ 0.
Definition new_run_queue (h : heap) : res (unit * rqs) :=
  deep_clear (RQS h (RunQueue None None 0 ∅ 0)).

Definition empty_heap : heap := Heap ∅ 1%positive.
