(* ===== verification/RunQueueSpec.v ===== *)
(** * Representation invariant of the run queue and the refinement of its
    operations to operations on lists of thread ids *)
From S2P Require Import Prelude RunQueue.

Implicit Types (h : gmap loc runq_elem) (l c : loc) (ls : list loc) (ts : list Z) (t : Z).

(** ** Linked lists in the heap *)

(** the cell after [l], if any, points back to [l] *)
Definition prev_ok h l ls : Prop :=
  match ls with
  | [] => True
  | l' :: _ => exists e, h !! l' = Some e /\ e_prev e = Some l
  end.

(** the cells [ls] are linked in this order; the [prev] of the first cell is not
    constrained ([pop_front] leaves a stale pointer there) *)
Fixpoint chain h ls : Prop :=
  match ls with
  | [] => True
  | l :: ls' => (exists e, h !! l = Some e /\ e_next e = head ls') /\ prev_ok h l ls' /\ chain h ls'
  end.

(** a heap whose cells on [ls] have the same links *)
Definition same_links h h' ls : Prop :=
  forall l e, l ∈ ls -> h !! l = Some e ->
    exists e', h' !! l = Some e' /\ e_next e' = e_next e /\ e_prev e' = e_prev e.

Lemma chain_same_links h h' ls : same_links h h' ls -> chain h ls -> chain h' ls.
Proof.
  induction ls as [|l ls IH]; intros Hs; simpl; [done|].
  intros ((e & He & Hn) & Hp & Hc). split_and!.
  - destruct (Hs l e) as (e' & He' & Hn' & _); [set_solver|done|]. exists e'. by rewrite Hn'.
  - destruct ls as [|l' ls]; [done|]. destruct Hp as (e1 & He1 & Hp1).
    destruct (Hs l' e1) as (e' & He' & _ & Hp'); [set_solver|done|]. exists e'. by rewrite Hp'.
  - apply IH; [|done]. intros x ex Hx. apply Hs. set_solver.
Qed.

Lemma chain_frame h h' ls :
  (forall l, l ∈ ls -> h' !! l = h !! l) -> chain h ls -> chain h' ls.
Proof.
  intros Hf. apply chain_same_links. intros l e Hl He. exists e. by rewrite Hf.
Qed.

Lemma chain_lookup h ls l : chain h ls -> l ∈ ls -> exists e, h !! l = Some e.
Proof.
  induction ls as [|x ls IH]; simpl; intros Hc Hl; [set_solver|].
  destruct Hc as ((e & He & _) & _ & Hc). apply elem_of_cons in Hl as [->|Hl]; eauto.
Qed.

Lemma chain_next h ls1 c ls2 :
  chain h (ls1 ++ c :: ls2) -> exists e, h !! c = Some e /\ e_next e = head ls2.
Proof. induction ls1 as [|x ls1 IH]; simpl; naive_solver. Qed.

Lemma chain_app_r h ls1 ls2 : chain h (ls1 ++ ls2) -> chain h ls2.
Proof. induction ls1 as [|x ls1 IH]; simpl; naive_solver. Qed.

(** ** Inserting a cell after the cell [c] *)
Section chain_insert.
Context (h h' : gmap loc runq_elem) (c l : loc) (ls2 : list loc).
Context (Hlink : exists e, h !! c = Some e /\ h' !! c = Some (set_next (Some l) e)).
Context (Hnew : exists e, h' !! l = Some e /\ e_prev e = Some c /\ e_next e = head ls2).
Context (Hback : forall x e, head ls2 = Some x -> h !! x = Some e ->
                             h' !! x = Some (set_prev (Some l) e)).

Lemma chain_insert_here :
  (forall x, x ∈ tail ls2 -> h' !! x = h !! x) -> NoDup ls2 ->
  chain h (c :: ls2) -> chain h' (c :: l :: ls2).
Proof using Hlink Hnew Hback.
  intros Hf Hnd ((e & He & Hn) & Hp & Hc).
  destruct Hlink as (e0 & He0 & He0'). destruct Hnew as (en & Hen & Hpn & Hnn).
  simpl. split_and!.
  - by eexists.
  - eauto.
  - eauto.
  - destruct ls2 as [|x ls]; [done|]. destruct Hp as (ex & Hex & _).
    exists (set_prev (Some l) ex). eauto.
  - destruct ls2 as [|x ls]; [done|]. destruct Hc as ((ex & Hex & Hnx) & Hpx & Hc).
    apply NoDup_cons in Hnd as [Hx Hnd]. split_and!.
    + exists (set_prev (Some l) ex). eauto.
    + destruct ls as [|y ls]; [done|]. destruct Hpx as (ey & Hey & Hpy).
      exists ey. split; [|done]. rewrite Hf; [done|]. simpl. set_solver.
    + eapply chain_frame; [|done]. intros y Hy. apply Hf. done.
Qed.

Lemma chain_insert ls1 :
  NoDup (ls1 ++ c :: ls2) ->
  (forall x, x ∈ ls1 -> h' !! x = h !! x) ->
  (forall x, x ∈ tail ls2 -> h' !! x = h !! x) ->
  chain h (ls1 ++ c :: ls2) -> chain h' (ls1 ++ c :: l :: ls2).
Proof using Hlink Hnew Hback.
  intros Hnd Hf1 Hf2. induction ls1 as [|x ls1 IH]; simpl.
  - apply chain_insert_here; [done|]. by apply NoDup_cons in Hnd as [_ ?].
  - simpl in Hnd. apply NoDup_cons in Hnd as [Hx Hnd].
    intros ((e & He & Hn) & Hp & Hc). split_and!.
    + exists e. split; [rewrite Hf1; [done|set_solver]|]. rewrite Hn. by destruct ls1.
    + destruct ls1 as [|y ls1]; simpl in *.
      * destruct Hlink as (ec & Hec & Hec'). destruct Hp as (ec1 & Hec1 & Hp1).
        simplify_eq. by eexists.
      * destruct Hp as (ey & Hey & Hpy). exists ey.
        split; [rewrite Hf1; [done|set_solver]|done].
    + apply IH; [done| |done]. intros y Hy. apply Hf1. set_solver.
Qed.
End chain_insert.

(** ** The representation invariant *)

(** what never changes while the queues are relinked *)
Definition elem_core (o : option runq_elem) : option (Z * THD_STATUS) :=
  (fun e => (e_tid e, e_status e)) <$> o.

Record rq_wf (H : heap) (q : run_queue) : Prop := {
  wf_map : forall t l, q_tid_map q !! t = Some l ->
             0 <= t < MAX_THREAD_NUM /\ exists e, cells H !! l = Some e /\ e_tid e = t;
  wf_brk : forall l, is_Some (cells H !! l) -> (l < brk H)%positive
}.

Record rq_rep (H : heap) (q : run_queue) (ts : list Z) (ls : list loc) : Prop := {
  rep_map : Forall2 (fun t l => q_tid_map q !! t = Some l) ts ls;
  rep_head : q_head q = head ls;
  rep_tail : q_tail q = last ls;
  rep_chain : chain (cells H) ls;
  rep_nodup : NoDup ts;
  rep_num : q_num_elements q = Z.of_nat (length ts)
}.

(** The queue [q] holds the threads [ts], front first; the threads of [others] are
    linked in another queue of the same heap, and a thread in neither has no links. *)
Record rq_inv (H : heap) (q : run_queue) (ts others : list Z) : Prop := {
  inv_wf : rq_wf H q;
  inv_rep : exists ls, rq_rep H q ts ls;
  inv_det : forall t l e, q_tid_map q !! t = Some l -> t ∉ ts -> t ∉ others ->
              cells H !! l = Some e ->
              e_prev e = None /\ e_next e = None /\ e_last_yield e = false
}.

(** An operation on a queue that changes links of the cells of [T] only. *)
Record touched (T : list Z) (s s' : rqs) : Prop := {
  tch_map : q_tid_map (r_q s') = q_tid_map (r_q s);
  tch_brk : brk (r_heap s') = brk (r_heap s);
  tch_core : forall l, elem_core (cells (r_heap s') !! l) = elem_core (cells (r_heap s) !! l);
  tch_frame : forall t l, q_tid_map (r_q s) !! t = Some l -> t ∉ T ->
                cells (r_heap s') !! l = cells (r_heap s) !! l
}.

(** the yield mark of a thread *)
Definition q_flag (s : rqs) (t : Z) : bool :=
  match q_tid_map (r_q s) !! t ≫= fun l => cells (r_heap s) !! l with
  | Some e => e_last_yield e
  | None => false
  end.

Lemma wp_load {X} p l e Q (s : rqs) :
  p = Some l -> cells (r_heap s) !! l = Some e -> Q e s -> wpx X (load p) Q s.
Proof. intros -> He HQ. unfold wpx, load. by rewrite He. Qed.

Lemma wp_store {X} p l e f Q (s : rqs) :
  p = Some l -> cells (r_heap s) !! l = Some e -> Q tt (upd_cell l (f e) s) ->
  wpx X (store p f) Q s.
Proof. intros -> He HQ. unfold store. wp_step. by eapply wp_load. Qed.

Lemma wp_tid_map_get {X} t Q (s : rqs) :
  0 <= t < MAX_THREAD_NUM -> Q (q_tid_map (r_q s) !! t) s -> wpx X (tid_map_get t) Q s.
Proof.
  intros Ht HQ. unfold tid_map_get.
  replace (in_range t) with true; [done|]. unfold in_range. symmetry. lia.
Qed.

Lemma wp_set_q {X} f Q (s : rqs) : Q tt (RQS (r_heap s) (f (r_q s))) -> wpx X (set_q f) Q s.
Proof. done. Qed.

Ltac wp_hook ::=
  lazymatch goal with
  | |- wpx _ (set_q _) _ _ => apply wp_set_q
  end.

(** compute the record projections of the run-queue state *)
Ltac rq_simpl :=
  cbn [r_heap r_q cells brk q_head q_tail q_num_elements q_tid_map q_num_yield_elem
       with_head with_tail with_num_elements with_tid_map with_num_yield upd_cell].

Section inv_facts.
Context (H : heap) (q : run_queue).

Lemma wf_inj t1 t2 l : rq_wf H q ->
  q_tid_map q !! t1 = Some l -> q_tid_map q !! t2 = Some l -> t1 = t2.
Proof.
  intros Hwf H1 H2. destruct (wf_map _ _ Hwf _ _ H1) as (_ & e1 & He1 & <-).
  destruct (wf_map _ _ Hwf _ _ H2) as (_ & e2 & He2 & <-). by simplify_eq.
Qed.

Lemma wf_range t l : rq_wf H q -> q_tid_map q !! t = Some l -> 0 <= t < MAX_THREAD_NUM.
Proof. intros Hwf Hl. by destruct (wf_map _ _ Hwf _ _ Hl). Qed.

Lemma rep_elem ts ls t l : rq_wf H q -> rq_rep H q ts ls ->
  q_tid_map q !! t = Some l -> l ∈ ls <-> t ∈ ts.
Proof.
  intros Hwf Hrep Ht. split; intros Hin.
  - apply list_elem_of_lookup in Hin as [i Hi].
    destruct (Forall2_lookup_r _ _ _ _ _ (rep_map _ _ _ _ Hrep) Hi) as (t' & Ht' & Hm).
    rewrite (wf_inj _ _ _ Hwf Ht Hm). by eapply list_elem_of_lookup_2.
  - apply list_elem_of_lookup in Hin as [i Hi].
    destruct (Forall2_lookup_l _ _ _ _ _ (rep_map _ _ _ _ Hrep) Hi) as (l' & Hl' & Hm).
    simplify_eq. by eapply list_elem_of_lookup_2.
Qed.

Lemma rep_locs_nodup ts ls : rq_wf H q -> rq_rep H q ts ls -> NoDup ls.
Proof.
  intros Hwf Hrep. pose proof (rep_map _ _ _ _ Hrep) as Hm.
  pose proof (rep_nodup _ _ _ _ Hrep) as Hnd. clear Hrep.
  induction Hm as [|t l ts ls Htl Hm IH]; [constructor|].
  apply NoDup_cons in Hnd as [Ht Hnd]. apply NoDup_cons. split; [|auto].
  intros Hl. apply Ht. apply list_elem_of_lookup in Hl as [i Hi].
  destruct (Forall2_lookup_r _ _ _ _ _ Hm Hi) as (t' & Ht' & Hm').
  rewrite (wf_inj _ _ _ Hwf Htl Hm'). by eapply list_elem_of_lookup_2.
Qed.

Lemma inv_bound ts ot : rq_inv H q ts ot -> Z.of_nat (length ts) <= MAX_THREAD_NUM.
Proof.
  intros [Hwf [ls Hrep] _]. unfold MAX_THREAD_NUM.
  pose proof (NoDup_bounded_length ts 5000) as Hb.
  rewrite Z.max_l in Hb by lia. apply Hb; [apply Hrep|].
  apply Forall_forall. intros t Ht. apply list_elem_of_lookup in Ht as [i Hi].
  destruct (Forall2_lookup_l _ _ _ _ _ (rep_map _ _ _ _ Hrep) Hi) as (l & _ & Hl).
  by eapply wf_range.
Qed.

(** the cell of a thread of the queue *)
Lemma inv_mem ts ot t : rq_inv H q ts ot -> t ∈ ts ->
  exists l e, q_tid_map q !! t = Some l /\ cells H !! l = Some e /\ e_tid e = t.
Proof.
  intros [Hwf [ls Hrep] _] Ht. apply list_elem_of_lookup in Ht as [i Hi].
  destruct (Forall2_lookup_l _ _ _ _ _ (rep_map _ _ _ _ Hrep) Hi) as (l & _ & Hl).
  destruct (wf_map _ _ Hwf _ _ Hl) as (_ & e & He & Het). eauto.
Qed.
End inv_facts.

Lemma rq_wf_touched T (s s' : rqs) :
  touched T s s' -> rq_wf (r_heap s) (r_q s) -> rq_wf (r_heap s') (r_q s').
Proof.
  intros [Hm Hb Hc _] [Hwf Hbrk]. split.
  - intros t l. rewrite Hm. intros Hl. destruct (Hwf _ _ Hl) as (Hr & e & He & Het).
    split; [done|]. specialize (Hc l). rewrite He in Hc. simpl in Hc.
    destruct (cells (r_heap s') !! l) as [e'|]; simpl in Hc; [|done]. exists e'.
    by simplify_eq.
  - intros l [e' He']. rewrite Hb. apply Hbrk. specialize (Hc l). rewrite He' in Hc.
    destruct (cells (r_heap s) !! l); [eauto|done].
Qed.

Lemma touched_refl T s : touched T s s.
Proof. by split. Qed.

Lemma touched_trans T s1 s2 s3 : touched T s1 s2 -> touched T s2 s3 -> touched T s1 s3.
Proof.
  intros [H1 H2 H3 H4] [K1 K2 K3 K4]. split; try congruence.
  intros t l Hl Ht. rewrite (K4 t) by congruence. eauto.
Qed.

Lemma touched_mono T T' s s' : touched T s s' -> T ⊆ T' -> touched T' s s'.
Proof. intros [] HT. split; try done. intros t l Hl Ht. eauto. Qed.

(** ** Inserting the cell of thread [t] after the cell of thread [tc] *)
Section inv_insert.
Context (H : heap) (q : run_queue) (ts1 ts2 ot : list Z) (tc t : Z) (c l : loc).
Context (Hinv : rq_inv H q (ts1 ++ tc :: ts2) ot).
Context (Hc : q_tid_map q !! tc = Some c) (Hl : q_tid_map q !! t = Some l).
Context (Hfresh : t ∉ (ts1 ++ tc :: ts2)).
Context (s' : rqs) (ec el el' : runq_elem).
Context (Hec : cells H !! c = Some ec) (Hel : cells H !! l = Some el).
Context (Hec' : cells (r_heap s') !! c = Some (set_next (Some l) ec)).
Context (Hel' : cells (r_heap s') !! l = Some el').
Context (Hlinks : e_prev el' = Some c /\ e_next el' = e_next ec /\
                  e_tid el' = e_tid el /\ e_status el' = e_status el).
Context (Hback : forall x e, e_next ec = Some x -> cells H !! x = Some e ->
                   cells (r_heap s') !! x = Some (set_prev (Some l) e)).
Context (Hother : forall x, x <> c -> x <> l -> e_next ec <> Some x ->
                   cells (r_heap s') !! x = cells H !! x).
Context (Hbrk : brk (r_heap s') = brk H).
Context (Hmap : q_tid_map (r_q s') = q_tid_map q).
Context (Hhead : q_head (r_q s') = q_head q).
Context (Htail : q_tail (r_q s') = if decide (q_tail q = Some c) then Some l else q_tail q).
Context (Hnum : q_num_elements (r_q s') = u64 (q_num_elements q + 1)).

Lemma insert_locs : exists ls1 ls2,
  rq_rep H q (ts1 ++ tc :: ts2) (ls1 ++ c :: ls2) /\
  Forall2 (fun t l => q_tid_map q !! t = Some l) ts1 ls1 /\
  Forall2 (fun t l => q_tid_map q !! t = Some l) ts2 ls2 /\
  NoDup (ls1 ++ c :: ls2) /\ (l ∉ ls1 ++ c :: ls2) /\ e_next ec = head ls2.
Proof using Hinv Hc Hl Hfresh Hec.
  destruct Hinv as [Hwf [ls Hrep] _].
  pose proof (rep_map _ _ _ _ Hrep) as Hm.
  apply Forall2_app_inv_l in Hm as (ls1 & ls' & F1 & F2 & ->).
  apply Forall2_cons_inv_l in F2 as (c' & ls2 & Hc' & F2 & ->).
  simplify_eq. exists ls1, ls2. split_and!; try done.
  - by eapply rep_locs_nodup.
  - intros Hin. apply Hfresh. by eapply rep_elem.
  - destruct (chain_next _ _ _ _ (rep_chain _ _ _ _ Hrep)) as (e & He & Hn). by simplify_eq.
Qed.

Lemma insert_touched : touched (t :: ts1 ++ tc :: ts2) (RQS H q) s'.
Proof using Hinv Hc Hl Hfresh Hec Hel Hec' Hel' Hlinks Hback Hother Hbrk Hmap.
  clear Htail Hnum Hhead.
  destruct insert_locs as (ls1 & ls2 & Hrep & _ & _ & Hnd & Hnl & Hn).
  pose proof (inv_wf _ _ _ _ Hinv) as Hwf.
  assert (Hx : forall x, e_next ec = Some x -> x ∈ ls2) by
    (intros x; rewrite Hn; destruct ls2; simpl; set_solver).
  split; simpl; [done|done| |].
  - intros x. destruct (decide (x = c)) as [->|Hxc]; [by rewrite Hec', Hec|].
    destruct (decide (x = l)) as [->|Hxl].
    { rewrite Hel', Hel. simpl. destruct Hlinks as (_ & _ & -> & ->). done. }
    destruct (decide (e_next ec = Some x)) as [Hxn|Hxn]; [|by rewrite Hother].
    destruct (chain_lookup _ _ x (rep_chain _ _ _ _ Hrep)) as [ex Hex];
      [specialize (Hx x Hxn); set_solver|].
    by rewrite (Hback x ex Hxn Hex), Hex.
  - intros t' x Ht' Hnin.
    assert (x ∉ (ls1 ++ c :: ls2)).
    { rewrite (rep_elem _ _ _ _ _ _ Hwf Hrep Ht'). set_solver. }
    apply Hother; [set_solver| |intros Hxn; specialize (Hx x Hxn); set_solver].
    intros ->. assert (t' = t) by (by eapply wf_inj). set_solver.
Qed.

Lemma insert_inv : rq_inv (r_heap s') (r_q s') (ts1 ++ tc :: t :: ts2) ot.
Proof using All.
  pose proof insert_touched as Htch.
  destruct insert_locs as (ls1 & ls2 & Hrep & F1 & F2 & Hnd & Hnl & Hn).
  pose proof (inv_wf _ _ _ _ Hinv) as Hwf. split.
  - by eapply (rq_wf_touched _ (RQS H q)).
  - exists (ls1 ++ c :: l :: ls2). split.
    + rewrite Hmap. apply Forall2_app; [done|]. by repeat constructor.
    + rewrite Hhead, (rep_head _ _ _ _ Hrep). by destruct ls1.
    + rewrite Htail, (rep_tail _ _ _ _ Hrep).
      destruct ls2 as [|y ls2' _] using rev_ind; [rewrite !last_app; simpl; by rewrite decide_True|].
      rewrite (last_app ls1), last_cons, last_snoc.
      rewrite decide_False; [by rewrite last_app, !last_cons, last_snoc|].
      intros [= ->]. apply NoDup_app in Hnd as (_ & _ & Hnd).
      apply NoDup_cons in Hnd as [Hcl _]. set_solver.
    + eapply (chain_insert (cells H)); eauto.
      * exists el'. destruct Hlinks as (-> & -> & _). by rewrite Hn.
      * intros x e Hx. apply Hback. by rewrite Hn.
      * intros x Hx. apply NoDup_app in Hnd as (_ & Hd & _). apply Hother.
        -- intros ->. apply (Hd c); set_solver.
        -- intros ->. set_solver.
        -- rewrite Hn. intros Hx2. apply (Hd x Hx). destruct ls2; simpl in *; set_solver.
      * intros x Hx. apply NoDup_app in Hnd as (_ & _ & Hnd).
        apply NoDup_cons in Hnd as [Hcl Hnd2]. destruct ls2 as [|y ls2]; [set_solver|].
        simpl in *. apply NoDup_cons in Hnd2 as [Hy _]. apply Hother; [set_solver..|].
        rewrite Hn. set_solver.
      * by apply Hrep.
    + pose proof (rep_nodup _ _ _ _ Hrep) as Hnt.
      eapply (NoDup_Permutation_proper (t :: ts1 ++ tc :: ts2)); [|by constructor].
      by rewrite <-!Permutation_middle, (Permutation_swap t tc).
    + pose proof (inv_bound _ _ _ _ Hinv) as Hb. unfold MAX_THREAD_NUM in Hb.
      rewrite Hnum, (rep_num _ _ _ _ Hrep). rewrite !length_app in *. cbn [length] in *.
      rewrite u64_small; lia.
  - rewrite Hmap. intros t' x e Ht' Hnin Hot' He.
    rewrite (tch_frame _ _ _ Htch t' x Ht') in He by set_solver.
    eapply (inv_det _ _ _ _ Hinv); eauto. set_solver.
Qed.

Lemma insert_flag t' : t' <> t -> q_flag s' t' = q_flag (RQS H q) t'.
Proof using All.
  intros Ht'. unfold q_flag. rq_simpl. rewrite Hmap.
  destruct (q_tid_map q !! t') as [x|] eqn:Hx; simpl; [|done].
  pose proof (inv_wf _ _ _ _ Hinv) as Hwf.
  destruct (decide (x = c)) as [->|Hxc]; [by rewrite Hec', Hec|].
  destruct (decide (x = l)) as [->|Hxl]; [by destruct Ht'; eapply wf_inj|].
  destruct (decide (e_next ec = Some x)) as [Hxn|Hxn]; [|by rewrite Hother].
  destruct (wf_map _ _ Hwf _ _ Hx) as (_ & ex & Hex & _).
  by rewrite (Hback x ex Hxn Hex), Hex.
Qed.
End inv_insert.

Lemma inv_others_weaken H q t ts ot :
  t ∈ ts -> rq_inv H q ts (t :: ot) -> rq_inv H q ts ot.
Proof.
  intros Ht [Hw Hr Hd]. split; [done..|]. intros t' x e Hx Ht' Hot. apply (Hd _ _ _ Hx Ht').
  intros [->|?]%elem_of_cons; done.
Qed.

(** Updates of a cell that keep its links. *)
Lemma inv_upd_links H q ts ot l e e' :
  rq_inv H q ts ot -> cells H !! l = Some e ->
  e_tid e' = e_tid e -> e_next e' = e_next e -> e_prev e' = e_prev e ->
  (forall t, q_tid_map q !! t = Some l -> t ∉ ts -> t ∉ ot -> e_last_yield e' = e_last_yield e) ->
  rq_inv (Heap (<[l := e']> (cells H)) (brk H)) q ts ot.
Proof.
  intros Hinv He Ht Hn Hp Hly. destruct (inv_wf _ _ _ _ Hinv) as [Hw Hb].
  destruct (inv_rep _ _ _ _ Hinv) as [ls Hrep]. split.
  - split; simpl.
    + intros t x Hx. destruct (Hw _ _ Hx) as (Hr & ex & Hex & Het). split; [done|].
      destruct (decide (x = l)) as [->|]; [|rewrite lookup_insert_ne by done; eauto].
      rewrite lookup_insert_eq. simplify_eq. eauto.
    + intros x. destruct (decide (x = l)) as [->|]; [|rewrite lookup_insert_ne by done; auto].
      intros _. apply Hb. eauto.
  - exists ls. destruct Hrep as [R1 R2 R3 R4 R5 R6]. split; try done. simpl.
    eapply chain_same_links; [|done]. intros x ex Hx Hex.
    destruct (decide (x = l)) as [->|]; [|rewrite lookup_insert_ne by done; eauto].
    rewrite lookup_insert_eq. simplify_eq. eauto.
  - intros t x ex Hx Hts Hot Hex. simpl in Hex. destruct (decide (x = l)) as [->|].
    + rewrite lookup_insert_eq in Hex. simplify_eq. rewrite Hp, Hn, (Hly t Hx Hts Hot).
      eapply (inv_det _ _ _ _ Hinv); eauto.
    + rewrite lookup_insert_ne in Hex by done. eapply (inv_det _ _ _ _ Hinv); eauto.
Qed.

(** [elem->status = st] *)
Lemma inv_set_status H q ts ot l e st :
  rq_inv H q ts ot -> cells H !! l = Some e ->
  rq_inv (Heap (<[l := set_status st e]> (cells H)) (brk H)) q ts ot.
Proof. intros. by eapply inv_upd_links. Qed.

(** A thread alone in the queue. *)
Lemma inv_single H q t l ot q' : rq_inv H q [] ot ->
  q_tid_map q !! t = Some l -> (exists e, cells H !! l = Some e /\ e_next e = None) ->
  q_head q' = Some l -> q_tail q' = Some l -> q_tid_map q' = q_tid_map q ->
  q_num_elements q' = u64 (q_num_elements q + 1) -> rq_inv H q' [t] ot.
Proof.
  intros Hinv Hl He Hh Ht Hm Hnum. destruct (inv_wf _ _ _ _ Hinv) as [Hw Hb]. split.
  - split; [by rewrite Hm|done].
  - exists [l]. split; simpl; try done.
    + rewrite Hm. by repeat constructor.
    + apply NoDup_singleton.
    + destruct (inv_rep _ _ _ _ Hinv) as [ls Hrep].
      by rewrite Hnum, (rep_num _ _ _ _ Hrep).
  - rewrite Hm. intros t' x e Hx Ht' Hot. eapply (inv_det _ _ _ _ Hinv); eauto. set_solver.
Qed.

(** ** Reading the queue *)

Lemma inv_front H q t ts ot : rq_inv H q (t :: ts) ot ->
  exists l e, q_head q = Some l /\ q_tid_map q !! t = Some l /\
              cells H !! l = Some e /\ e_tid e = t.
Proof.
  intros [Hwf [ls Hrep] _]. pose proof (rep_map _ _ _ _ Hrep) as Hm.
  apply Forall2_cons_inv_l in Hm as (l & ls' & Hl & _ & ->).
  destruct (wf_map _ _ Hwf _ _ Hl) as (_ & e & He & Het).
  exists l, e. by rewrite (rep_head _ _ _ _ Hrep).
Qed.

Lemma inv_head_nil H q ts ot : rq_inv H q ts ot -> q_head q = None <-> ts = [].
Proof.
  intros [_ [ls Hrep] _]. rewrite (rep_head _ _ _ _ Hrep).
  pose proof (rep_map _ _ _ _ Hrep) as Hm. destruct Hm; naive_solver.
Qed.

Lemma q_front_spec H q t ts ot : rq_inv H q (t :: ts) ot ->
  q_front (RQS H q) = Ok (t, RQS H q).
Proof.
  intros (l & e & Hh & _ & He & <-)%inv_front.
  unfold q_front, mbind, M_bind, gets, load. simpl. by rewrite Hh, He.
Qed.

Lemma q_size_spec H q ts ot : rq_inv H q ts ot ->
  q_size (RQS H q) = Ok (Z.of_nat (length ts), RQS H q).
Proof.
  intros [_ [ls Hrep] _]. unfold q_size, gets. simpl. by rewrite (rep_num _ _ _ _ Hrep).
Qed.

Lemma q_empty_spec H q ts ot : rq_inv H q ts ot ->
  q_empty (RQS H q) = Ok (bool_decide (ts = []), RQS H q).
Proof.
  intros Hinv. unfold q_empty, mbind, M_bind. rewrite (q_size_spec _ _ _ _ Hinv).
  unfold mret, M_ret. by destruct ts.
Qed.

(** the links of the elements tell membership apart *)
Lemma q_in_spec H q ts ot t l : rq_inv H q ts ot ->
  q_tid_map q !! t = Some l -> t ∉ ot ->
  q_in t (RQS H q) = Ok (bool_decide (t ∈ ts), RQS H q).
Proof.
  intros Hinv Hl Hot. pose proof (inv_wf _ _ _ _ Hinv) as Hwf.
  destruct (wf_map _ _ Hwf _ _ Hl) as (Hr & e & He & _).
  destruct (inv_rep _ _ _ _ Hinv) as [ls Hrep].
  assert (Hr' : in_range t = true) by (unfold in_range; lia).
  unfold q_in, tid_map_get. rewrite Hr'.
  unfold mbind, M_bind, gets, load, mret, M_ret. simpl. rewrite Hl, He.
  destruct (decide (t ∈ ts)) as [Hin|Hin].
  - rewrite (bool_decide_true (t ∈ ts)) by done. destruct (_ || _) eqn:Hb; [done|].
    apply orb_false_iff in Hb as [Hp%bool_decide_eq_false Hn%bool_decide_eq_false].
    apply (rep_elem _ _ _ _ _ _ Hwf Hrep Hl) in Hin.
    apply list_elem_of_split in Hin as (ls1 & ls2 & ->).
    destruct (chain_next _ _ _ _ (rep_chain _ _ _ _ Hrep)) as (e1 & He1 & Hn1). simplify_eq.
    destruct ls2 as [|y ls2]; [|rewrite Hn1 in Hn; by destruct Hn].
    destruct ls1 as [|x ls1 _] using rev_ind.
    + simpl. rewrite (rep_head _ _ _ _ Hrep), (rep_tail _ _ _ _ Hrep). simpl.
      by rewrite bool_decide_true.
    + exfalso. apply Hp. rewrite <-app_assoc in Hrep. simpl in Hrep.
      pose proof (chain_app_r _ _ _ (rep_chain _ _ _ _ Hrep)) as Hc.
      destruct Hc as (_ & (e2 & He2 & Hp2) & _). simplify_eq. by rewrite Hp2.
  - rewrite (bool_decide_false (t ∈ ts)) by done.
    destruct (inv_det _ _ _ _ Hinv _ _ _ Hl Hin Hot He) as (-> & -> & _).
    rewrite !bool_decide_false by auto. simpl. f_equal. f_equal.
    rewrite bool_decide_false; [done|]. intros Hh. apply Hin.
    rewrite (rep_head _ _ _ _ Hrep) in Hh. apply (rep_elem _ _ _ _ _ _ Hwf Hrep Hl).
    destruct ls; simplify_eq; set_solver.
Qed.

(** ** Changing the queue *)

(** Unlinking the first cell. *)
Section inv_pop.
Context (H : heap) (q : run_queue) (t : Z) (ts ot : list Z) (l : loc) (ls : list loc).
Context (Hinv : rq_inv H q (t :: ts) ot) (Hrep : rq_rep H q (t :: ts) (l :: ls)).
Context (e : runq_elem) (He : cells H !! l = Some e).

Let H' : heap :=
  Heap (<[l := set_prev None (set_next None (set_last_yield false e))]> (cells H)) (brk H).

Lemma pop_map : q_tid_map q !! t = Some l.
Proof using Hrep. pose proof (rep_map _ _ _ _ Hrep) as Hm. by inversion Hm. Qed.

Lemma pop_touched q' : q_tid_map q' = q_tid_map q -> touched [t] (RQS H q) (RQS H' q').
Proof using Hinv Hrep He.
  intros Hq. split; rq_simpl; [done|done| |].
  - intros x. destruct (decide (x = l)) as [->|Hx]; simpl; [|by rewrite lookup_insert_ne].
    by rewrite lookup_insert_eq, He.
  - intros t' x Hx Ht'. rq_simpl. simpl. rewrite lookup_insert_ne; [done|]. intros <-. apply Ht'.
    rewrite (wf_inj _ _ _ _ _ (inv_wf _ _ _ _ Hinv) Hx pop_map). set_solver.
Qed.

Lemma pop_inv q' :
  q_head q' = e_next e -> q_tail q' = last ls -> q_tid_map q' = q_tid_map q ->
  q_num_elements q' = u64 (q_num_elements q - 1) -> rq_inv H' q' ts ot.
Proof using Hinv Hrep He.
  intros Hh Ht Hm Hnum. pose proof (inv_wf _ _ _ _ Hinv) as Hwf.
  pose proof (rep_chain _ _ _ _ Hrep) as Hc. pose proof (rep_nodup _ _ _ _ Hrep) as Hnt.
  apply NoDup_cons in Hnt as [_ Hnt].
  destruct (chain_next _ [] _ _ Hc) as (e0 & He0 & Hn). simplify_eq.
  pose proof (rep_locs_nodup _ _ _ _ Hwf Hrep) as Hnd. apply NoDup_cons in Hnd as [Hl _].
  pose proof (inv_bound _ _ _ _ Hinv) as Hb. unfold MAX_THREAD_NUM in Hb. cbn [length] in Hb.
  split; [exact (rq_wf_touched _ _ _ (pop_touched q' Hm) Hwf)| |].
  - exists ls. split; [|by rewrite Hh|done| |done|].
    + rewrite Hm. pose proof (rep_map _ _ _ _ Hrep) as F. by inversion F.
    + apply (chain_app_r _ [l]) in Hc. eapply chain_frame; [|done].
      intros x Hx. apply lookup_insert_ne. set_solver.
    + rewrite Hnum, (rep_num _ _ _ _ Hrep). cbn [length]. rewrite u64_small; lia.
  - rewrite Hm. intros t' x e1 Hx Ht' Hot He1.
    destruct (decide (x = l)) as [->|Hx']; simpl in He1.
    + rewrite lookup_insert_eq in He1. by simplify_eq.
    + rewrite lookup_insert_ne in He1 by done. eapply (inv_det _ _ _ _ Hinv); eauto.
      intros [->|?]%elem_of_cons; [|done]. pose proof pop_map. by simplify_eq.
Qed.

Lemma pop_flag q' : q_tid_map q' = q_tid_map q -> q_flag (RQS H' q') t = false.
Proof using Hrep.
  intros Hm. unfold q_flag. rq_simpl. rewrite Hm, pop_map. simpl. by rewrite lookup_insert_eq.
Qed.
End inv_pop.

Lemma pop_front_spec H q t ts ot : rq_inv H q (t :: ts) ot ->
  wp q_pop_front (fun _ s' =>
    rq_inv (r_heap s') (r_q s') ts ot /\ touched [t] (RQS H q) s' /\ q_flag s' t = false /\
    q_num_yield_elem (r_q s') =
      if q_flag (RQS H q) t then u64 (q_num_yield_elem q - 1) else q_num_yield_elem q)
    (RQS H q).
Proof.
  intros Hinv. destruct (inv_rep _ _ _ _ Hinv) as [ls Hrep].
  pose proof (rep_map _ _ _ _ Hrep) as Hm.
  apply Forall2_cons_inv_l in Hm as (l & ls' & _ & _ & ->).
  pose proof (rep_chain _ _ _ _ Hrep) as Hc. destruct (chain_next _ [] _ _ Hc) as (e & He & Hn).
  pose proof (rep_head _ _ _ _ Hrep) as Hh. pose proof (rep_tail _ _ _ _ Hrep) as Ht.
  assert (Htl : if bool_decide (e_next e = None) then last ls' = None else q_tail q = last ls').
  { rewrite Hn, Ht. by destruct ls'. }
  assert (Hsame : e_last_yield e = false -> set_prev None (set_next None e) =
                    set_prev None (set_next None (set_last_yield false e)))
    by (destruct e; simpl; by intros ->).
  assert (Hfl : q_flag (RQS H q) t = e_last_yield e).
  { unfold q_flag. simpl. rewrite (pop_map _ _ _ _ _ _ Hrep). simpl. by rewrite He. }
  rewrite Hfl. unfold q_pop_front. do 2 wp_step. rq_simpl. wp_step. eapply wp_load; [done..|].
  wp_step. apply wp_if; intros Hly; wp_steps.
  - eapply wp_store; [done..|]. wp_steps. eapply wp_store; [done|rq_simpl; by simplify_map_eq|].
    wp_steps; rq_simpl; intros Hnx; rewrite Hnx in Htl; wp_steps; rq_simpl;
      rewrite insert_insert_eq;
      (split_and!; [eapply pop_inv|eapply pop_touched|eapply pop_flag|by rewrite Hly]; eauto).
  - eapply wp_store; [done..|].
    wp_steps; rq_simpl; intros Hnx; rewrite Hnx in Htl; wp_steps; rq_simpl;
      rewrite (Hsame Hly);
      (split_and!; [eapply pop_inv|eapply pop_touched|eapply pop_flag|by rewrite Hly]; eauto).
Qed.

Lemma push_back_spec H q t l ts ot : rq_inv H q ts ot ->
  q_tid_map q !! t = Some l -> t ∉ ts -> t ∉ ot ->
  wp (q_push_back t) (fun _ s' =>
    rq_inv (r_heap s') (r_q s') (ts ++ [t]) ot /\ touched (t :: ts) (RQS H q) s' /\
    (forall t', q_flag s' t' = q_flag (RQS H q) t') /\
    q_num_yield_elem (r_q s') = q_num_yield_elem q) (RQS H q).
Proof.
  intros Hinv Hl Hts Hot. pose proof (inv_wf _ _ _ _ Hinv) as Hwf.
  destruct (wf_map _ _ Hwf _ _ Hl) as (Hr & e & He & _).
  destruct (inv_det _ _ _ _ Hinv _ _ _ Hl Hts Hot He) as (Hep & Hen & _).
  unfold q_push_back. wp_step. apply wp_tid_map_get; [done|]. rq_simpl. rewrite Hl.
  do 3 wp_step. rq_simpl. case_decide as Hh.
  - apply (inv_head_nil _ _ _ _ Hinv) in Hh as ->. wp_steps. rq_simpl. split_and!; try done.
    eapply inv_single; eauto.
  - destruct ts as [|tc ts1 _] using rev_ind; [by destruct Hh; apply (inv_head_nil _ _ _ _ Hinv)|].
    destruct (inv_mem _ _ _ _ tc Hinv) as (c & ec & Hc & Hec & _); [set_solver|].
    destruct (insert_locs H q ts1 [] ot tc t c l Hinv Hc Hl Hts ec Hec)
      as (ls1 & ls2 & Hrep & _ & F2 & _ & Hnl & Hn).
    apply Forall2_nil_inv_l in F2 as ->. simpl in Hn.
    pose proof (rep_tail _ _ _ _ Hrep) as Ht. rewrite last_snoc in Ht.
    assert (Hcl : c <> l) by set_solver.
    wp_steps. eapply wp_store; [done..|]. wp_steps. rewrite Ht.
    eapply wp_store; [done|rq_simpl; by rewrite lookup_insert_ne|]. wp_steps. rq_simpl.
    rewrite <-app_assoc. simpl.
    match goal with |- _ /\ touched _ _ ?x /\ _ => set (s' := x) end.
    assert (Hec' : cells (r_heap s') !! c = Some (set_next (Some l) ec))
      by apply lookup_insert_eq.
    assert (Hel' : cells (r_heap s') !! l = Some (set_prev (Some c) e)).
    { simpl. rewrite lookup_insert_ne by done. apply lookup_insert_eq. }
    assert (Hlinks : e_prev (set_prev (Some c) e) = Some c /\
      e_next (set_prev (Some c) e) = e_next ec /\ e_tid (set_prev (Some c) e) = e_tid e /\
      e_status (set_prev (Some c) e) = e_status e) by (simpl; by rewrite Hen, Hn).
    assert (Hback : forall x ex, e_next ec = Some x -> cells H !! x = Some ex ->
      cells (r_heap s') !! x = Some (set_prev (Some l) ex)) by (by rewrite Hn).
    assert (Hother : forall x, x <> c -> x <> l -> e_next ec <> Some x ->
      cells (r_heap s') !! x = cells H !! x).
    { intros x Hxc Hxl _. simpl. by rewrite !lookup_insert_ne. }
    assert (Htail : q_tail (r_q s') = if decide (q_tail q = Some c) then Some l else q_tail q)
      by (rewrite Ht; by rewrite decide_True).
    split_and!; [| | |done].
    + change (rq_inv (r_heap s') (r_q s') (ts1 ++ [tc; t]) ot). by eapply insert_inv.
    + by eapply insert_touched.
    + intros t'. destruct (decide (t' = t)) as [->|].
      * unfold q_flag. cbn [r_q r_heap]. change (q_tid_map (r_q s')) with (q_tid_map q).
        rewrite Hl. cbn [mbind option_bind]. by rewrite Hel', He.
      * by eapply (insert_flag _ _ ts1 [] ot tc t c l).
Qed.
