(* ===== verification/RunQueueYield.v ===== *)
(** * Priority of yielding threads: [run_queue::insert_yield]

    [yield_pos] is the position [insert_yield] chooses, as a function of the yield
    marks of the queued threads and of the counter [num_yield_elem];
    [insert_yield_spec] shows that the linked-list code inserts there. *)
From S2P Require Import Prelude RunQueue RunQueueSpec.

(** the steps the while loop takes over the marks after the current cell *)
Fixpoint yield_steps (fs : list bool) (num count : Z) (nyf : bool) : nat :=
  match fs with
  | [] => 0
  | f :: fs' =>
      if (count <? num) || negb nyf
      then S (yield_steps fs' num (if f then count + 1 else count) (nyf || negb f))
      else 0
  end.

Definition yield_pos (fs : list bool) (num : Z) : nat :=
  match fs with
  | [] => 0
  | f :: fs' => S (yield_steps fs' num (if f then 1 else 0) (negb f))
  end.

Lemma yield_steps_le fs num count nyf : (yield_steps fs num count nyf <= length fs)%nat.
Proof.
  revert count nyf. induction fs as [|f fs IH]; intros count nyf; simpl; [done|].
  destruct (_ || _); [|lia]. pose proof (IH (if f then count + 1 else count) (nyf || negb f)). lia.
Qed.

(** the mark of a cell *)
Definition has_flag (s : rqs) (l : loc) (f : bool) : Prop :=
  exists e, cells (r_heap s) !! l = Some e /\ e_last_yield e = f.

Lemma yield_walk_spec fuel s c ls fs count nyf :
  (length ls < fuel)%nat -> chain (cells (r_heap s)) (c :: ls) ->
  Forall2 (has_flag s) ls fs ->
  0 <= count -> count + Z.of_nat (length ls) < 2 ^ 64 ->
  yield_walk fuel (Some c) count nyf s =
    Ok ((c :: ls) !! yield_steps fs (q_num_yield_elem (r_q s)) count nyf, s).
Proof.
  revert c ls fs count nyf. induction fuel as [|fuel IH]; intros c ls fs count nyf; [lia|].
  intros Hlen Hc Hf Hc0 Hc1. destruct (chain_next _ [] _ _ Hc) as (e & He & Hn).
  simpl. unfold mbind, M_bind, gets, mret, M_ret. unfold load at 1. rewrite He, Hn.
  destruct ls as [|x ls]; simpl.
  - by apply Forall2_nil_inv_l in Hf as ->.
  - apply Forall2_cons_inv_l in Hf as (f & fs' & (ex & Hex & Hfx) & Hf & ->).
    cbn [length] in *. apply (chain_app_r _ [c]) in Hc. rewrite u64_small by lia. simpl.
    destruct ((count <? _) || negb nyf) eqn:Hb; [|done].
    unfold load. rewrite Hex, Hfx.
    destruct f; rewrite (IH x ls fs'); try done; try lia; rewrite ?orb_true_r, ?orb_false_r; done.
Qed.

Lemma chain_size h ls : chain h ls -> NoDup ls -> (length ls <= size h)%nat.
Proof.
  intros Hc Hnd. rewrite <-(size_list_to_set (C := gset loc) ls) by done.
  rewrite <-size_dom. apply subseteq_size. intros l Hl.
  apply elem_of_list_to_set in Hl. destruct (chain_lookup _ _ _ Hc Hl) as [e He].
  by apply elem_of_dom_2 in He.
Qed.

Lemma rep_flags s ts ls :
  rq_wf (r_heap s) (r_q s) ->
  Forall2 (fun t l => q_tid_map (r_q s) !! t = Some l) ts ls ->
  Forall2 (has_flag s) ls (q_flag s <$> ts).
Proof.
  intros Hwf Hm. induction Hm as [|t l ts ls Hl Hm IH]; simpl; constructor; [|done].
  destruct (wf_map _ _ Hwf _ _ Hl) as (_ & e & He & _). exists e. split; [done|].
  unfold q_flag. rewrite Hl. simpl. by rewrite He.
Qed.

(** the cell the loop stops at *)
Lemma insert_point s ts ot t0 ts' :
  rq_inv (r_heap s) (r_q s) ts ot -> ts = t0 :: ts' ->
  exists l0 e0 ts1 tc c ts2,
    q_head (r_q s) = Some l0 /\ cells (r_heap s) !! l0 = Some e0 /\
    ts = ts1 ++ tc :: ts2 /\ q_tid_map (r_q s) !! tc = Some c /\
    yield_walk (S (size (cells (r_heap s)))) (Some l0)
      (if e_last_yield e0 then 1 else 0) (negb (e_last_yield e0)) s = Ok (Some c, s) /\
    ts1 ++ [tc] = take (yield_pos (q_flag s <$> ts) (q_num_yield_elem (r_q s))) ts.
Proof.
  intros Hinv ->. pose proof (inv_wf _ _ _ _ Hinv) as Hwf.
  destruct (inv_rep _ _ _ _ Hinv) as [ls Hrep].
  pose proof (rep_map _ _ _ _ Hrep) as Hm.
  apply Forall2_cons_inv_l in Hm as (l0 & ls' & Hl0 & Hm & ->).
  pose proof (rep_chain _ _ _ _ Hrep) as Hc.
  pose proof (rep_locs_nodup _ _ _ _ Hwf Hrep) as Hnd.
  destruct (chain_next _ [] _ _ Hc) as (e0 & He0 & _).
  pose proof (chain_size _ _ Hc Hnd) as Hsz.
  pose proof (inv_bound _ _ _ _ Hinv) as Hb. unfold MAX_THREAD_NUM in Hb.
  pose proof (Forall2_length _ _ _ Hm) as Hlen. cbn [length] in *.
  set (n := yield_steps (q_flag s <$> ts') (q_num_yield_elem (r_q s))
              (if e_last_yield e0 then 1 else 0) (negb (e_last_yield e0))).
  assert (Hn : (n <= length ts')%nat)
    by (etrans; [apply yield_steps_le|by rewrite length_fmap]).
  destruct (lookup_lt_is_Some_2 (t0 :: ts') n) as [tc Htc]; [simpl; lia|].
  destruct (Forall2_lookup_l _ _ _ _ _ (rep_map _ _ _ _ Hrep) Htc) as (c & Hlc & Hmc).
  exists l0, e0, (take n (t0 :: ts')), tc, c, (drop (S n) (t0 :: ts')). split_and!; try done.
  - by rewrite (rep_head _ _ _ _ Hrep).
  - by rewrite take_drop_middle.
  - rewrite (yield_walk_spec _ _ _ ls' (q_flag s <$> ts')); try done; try lia.
    + fold n. by rewrite Hlc.
    + by apply rep_flags.
    + destruct (e_last_yield e0); lia.
    + destruct (e_last_yield e0); lia.
  - rewrite <-take_S_r by done. f_equal. unfold yield_pos. simpl.
    unfold q_flag at 2 3. rewrite Hl0. simpl. rewrite He0. done.
Qed.

(** lookups in the cells after a sequence of stores *)
Ltac map_solve :=
  intros; simplify_eq; simpl;
  rewrite ?lookup_insert_eq, ?lookup_insert_ne by congruence;
  rewrite ?lookup_insert_eq, ?lookup_insert_ne by congruence;
  rewrite ?lookup_insert_eq, ?lookup_insert_ne by congruence;
  rewrite ?decide_True by congruence; rewrite ?decide_False by congruence; try done.

Ltac yield_finish Hpost d :=
  wp_steps; rq_simpl; destruct d as [Hdt|Hdt]; wp_steps;
  match goal with |- _ /\ touched _ _ ?y /\ _ =>
    destruct (Hpost y) as (P1 & P2 & P3 & P4); [..|done] end; try done; map_solve.

Lemma yield_link_spec H q ts1 tc ts2 ot t c l :
  rq_inv H q (ts1 ++ tc :: ts2) ot -> (t ∉ ts1 ++ tc :: ts2) ->
  q_tid_map q !! tc = Some c -> q_tid_map q !! t = Some l ->
  wp (yield_link (Some l) (Some c) ;;
      set_q (fun q => with_num_elements (q_num_elements q +u64 1) q)) (fun _ s' =>
    rq_inv (r_heap s') (r_q s') (ts1 ++ tc :: t :: ts2) ot /\
    touched (t :: ts1 ++ tc :: ts2) (RQS H q) s' /\
    q_flag s' t = q_flag (RQS H q) t /\
    (forall t', t' <> t -> q_flag s' t' = q_flag (RQS H q) t') /\
    q_num_yield_elem (r_q s') = u64 (q_num_yield_elem q + 1)) (RQS H q).
Proof.
  intros Hinv Hts Hc Hl. pose proof (inv_wf _ _ _ _ Hinv) as Hwf.
  destruct (wf_map _ _ Hwf _ _ Hl) as (_ & e & He & _).
  destruct (wf_map _ _ Hwf _ _ Hc) as (_ & ec & Hec & _).
  destruct (insert_locs H q ts1 ts2 ot tc t c l Hinv Hc Hl Hts ec Hec)
    as (ls1 & ls2 & Hrep & _ & F2 & Hnd & Hnl & Hn).
  pose proof (rep_tail _ _ _ _ Hrep) as Ht.
  assert (Hcl : c <> l) by set_solver.
  assert (Hx : forall x, e_next ec = Some x ->
                 x <> c /\ x <> l /\ exists ex, cells H !! x = Some ex).
  { intros x Hx. rewrite Hn in Hx. destruct ls2 as [|y ls2]; simpl in Hx; simplify_eq.
    apply NoDup_app in Hnd as (_ & _ & Hnd). apply NoDup_cons in Hnd as [Hcx _].
    split_and!; [set_solver..|]. apply (chain_lookup _ _ _ (rep_chain _ _ _ _ Hrep)). set_solver. }
  set (el' := set_next (e_next ec) (set_prev (Some c) e)).
  assert (Hpost : forall s',
    cells (r_heap s') !! c = Some (set_next (Some l) ec) ->
    cells (r_heap s') !! l = Some el' ->
    (forall x ex, e_next ec = Some x -> cells H !! x = Some ex ->
       cells (r_heap s') !! x = Some (set_prev (Some l) ex)) ->
    (forall x, x <> c -> x <> l -> e_next ec <> Some x ->
       cells (r_heap s') !! x = cells H !! x) ->
    brk (r_heap s') = brk H -> q_tid_map (r_q s') = q_tid_map q ->
    q_head (r_q s') = q_head q ->
    q_tail (r_q s') = (if decide (q_tail q = Some c) then Some l else q_tail q) ->
    q_num_elements (r_q s') = u64 (q_num_elements q + 1) ->
    rq_inv (r_heap s') (r_q s') (ts1 ++ tc :: t :: ts2) ot /\
    touched (t :: ts1 ++ tc :: ts2) (RQS H q) s' /\
    q_flag s' t = q_flag (RQS H q) t /\
    (forall t', t' <> t -> q_flag s' t' = q_flag (RQS H q) t')).
  { intros s' P1 P2 P3 P4 P5 P6 P7 P8 P9. split_and!.
    - by eapply (insert_inv _ _ ts1 ts2 ot tc t c l) with (ec := ec) (el' := el').
    - by eapply (insert_touched _ _ ts1 ts2 ot tc t c l) with (ec := ec) (el' := el').
    - unfold q_flag. rq_simpl. rewrite P6, Hl. simpl. by rewrite P2, He.
    - intros t' Ht'.
      by eapply (insert_flag _ _ ts1 ts2 ot tc t c l) with (ec := ec) (el' := el'). }
  unfold yield_link. do 2 wp_step. eapply wp_load; [done..|]. wp_step.
  eapply wp_store; [done..|]. wp_step.
  eapply wp_store; [done|rq_simpl; by rewrite lookup_insert_ne|]. wp_step.
  eapply wp_store; [done|rq_simpl; by rewrite lookup_insert_eq|]. wp_step. rq_simpl.
  destruct (e_next ec) as [x|] eqn:Hec0.
  - destruct (Hx x eq_refl) as (Hxc & Hxl & ex & Hex). simpl.
    eapply wp_store; [done|rq_simpl; simpl; by rewrite !lookup_insert_ne|]. wp_step.
    yield_finish Hpost (decide (Some c = q_tail q)).
  - simpl. yield_finish Hpost (decide (Some c = q_tail q)).
Qed.

(** [elem->last_yield = true] for a thread that is in no queue *)
Lemma mark_spec H q t l ts ot e (s' := RQS (Heap (<[l := set_last_yield true e]> (cells H)) (brk H)) q) :
  rq_inv H q ts ot -> q_tid_map q !! t = Some l -> t ∉ ts -> t ∉ ot ->
  cells H !! l = Some e ->
  rq_inv (r_heap s') q ts (t :: ot) /\ touched [t] (RQS H q) s' /\ q_flag s' t = true /\
  (forall t', t' <> t -> q_flag s' t' = q_flag (RQS H q) t').
Proof.
  intros Hinv Hl Hts Hot He. pose proof (inv_wf _ _ _ _ Hinv) as Hwf. split_and!.
  - eapply inv_upd_links; [|done..|].
    + destruct Hinv as [W [ls Rp] D]. split; [done|by exists ls|].
      intros t' x ex Hx Ht' Hot'. eapply D; eauto. set_solver.
    + intros t' Ht' _ Hot'. destruct Hot'. rewrite (wf_inj _ _ _ _ _ Hwf Ht' Hl). set_solver.
  - split; simpl; [done|done| |].
    + intros x. destruct (decide (x = l)) as [->|]; [|by rewrite lookup_insert_ne].
      by rewrite lookup_insert_eq, He.
    + intros t' x Hx Ht'. rewrite lookup_insert_ne; [done|]. intros <-. apply Ht'.
      rewrite (wf_inj _ _ _ _ _ Hwf Hx Hl). set_solver.
  - unfold q_flag. simpl. rewrite Hl. simpl. by rewrite lookup_insert_eq.
  - intros t' Ht'. unfold q_flag. simpl. destruct (q_tid_map q !! t') as [x|] eqn:Hx; [|done].
    simpl. rewrite lookup_insert_ne; [done|]. intros <-. apply Ht'. by eapply wf_inj.
Qed.

Lemma insert_yield_spec H q t l ts ot : rq_inv H q ts ot ->
  q_tid_map q !! t = Some l -> t ∉ ts -> t ∉ ot ->
  let n := yield_pos (q_flag (RQS H q) <$> ts) (q_num_yield_elem q) in
  wp (insert_yield t) (fun _ s' =>
    rq_inv (r_heap s') (r_q s') (take n ts ++ t :: drop n ts) ot /\
    touched (t :: ts) (RQS H q) s' /\ q_flag s' t = true /\
    (forall t', t' <> t -> q_flag s' t' = q_flag (RQS H q) t') /\
    q_num_yield_elem (r_q s') =
      if decide (ts = []) then q_num_yield_elem q else u64 (q_num_yield_elem q + 1)) (RQS H q).
Proof.
  intros Hinv Hl Hts Hot n. pose proof (inv_wf _ _ _ _ Hinv) as Hwf.
  destruct (wf_map _ _ Hwf _ _ Hl) as (Hr & e & He & _).
  destruct (inv_det _ _ _ _ Hinv _ _ _ Hl Hts Hot He) as (Hep & Hen & _).
  destruct (mark_spec H q t l ts ot e Hinv Hl Hts Hot He) as (Hinv1 & Htch1 & Hft & Hfo).
  set (H1 := Heap (<[l := set_last_yield true e]> (cells H)) (brk H)) in *.
  unfold insert_yield. wp_step. apply wp_tid_map_get; [done|]. rq_simpl. rewrite Hl.
  wp_step. eapply wp_store; [done..|]. do 3 wp_step.
  change (upd_cell l (set_last_yield true e) (RQS H q)) with (RQS H1 q). rq_simpl.
  case_decide as Hh.
  - apply (inv_head_nil _ _ _ _ Hinv) in Hh as ->. wp_steps. rq_simpl. simpl.
    split_and!; [|by destruct Htch1|done..].
    apply (inv_others_weaken _ _ t); [set_solver|]. eapply inv_single; eauto.
    exists (set_last_yield true e). split; [apply lookup_insert_eq|done].
  - destruct ts as [|t0 ts']; [by destruct Hh; apply (inv_head_nil _ _ _ _ Hinv)|].
    destruct (insert_point (RQS H1 q) _ _ t0 ts' Hinv1 eq_refl)
      as (l0 & e0 & ts1 & tc & c & ts2 & Hl0 & He0 & Hsplit & Hc & Hwalk & Htake).
    simpl in Hl0. rewrite Hl0. wp_step. eapply wp_load; [done..|]. do 3 wp_step.
    rq_simpl. simpl in Hwalk. eapply wp_intro; [apply Hwalk|]. apply wp_bind_inv.
    assert (Hnn : n = yield_pos (q_flag (RQS H1 q) <$> t0 :: ts') (q_num_yield_elem q)).
    { unfold n. f_equal. apply list_fmap_ext. intros i x Hx. symmetry. apply Hfo.
      intros ->. apply Hts. by eapply list_elem_of_lookup_2. }
    cbn [r_q] in Htake. rewrite <-Hnn in Htake. rewrite Hsplit in Hinv1, Hts.
    eapply wp_mono; [by eapply yield_link_spec|]. cbn beta.
    intros _ s' (P1 & P2 & P3 & P4 & P5).
    assert (Hn : take n (t0 :: ts') ++ t :: drop n (t0 :: ts') = ts1 ++ tc :: t :: ts2).
    { assert (drop n (t0 :: ts') = ts2) as ->.
      { apply (app_inv_head (take n (t0 :: ts'))).
        by rewrite take_drop, <-Htake, <-app_assoc, Hsplit. }
      by rewrite <-Htake, <-app_assoc. }
    split_and!.
    + rewrite Hn. apply (inv_others_weaken _ _ t); [set_solver|done].
    + rewrite Hsplit. eapply touched_trans; [eapply touched_mono; [apply Htch1|set_solver]|done].
    + by rewrite P3.
    + intros t' Ht'. by rewrite P4, Hfo.
    + done.
Qed.

(** ** Where a yielding thread goes *)

(** the number of marks *)
Definition yields (fs : list bool) : Z := Z.of_nat (length (filter (fun b => b = true) fs)).

(** position [n] is behind every marked thread and behind some unmarked one *)
Definition yield_place (fs : list bool) (n : nat) : Prop :=
  (true ∉ drop n fs) /\ (n = length fs \/ false ∈ take n fs).

Lemma yields_cons f fs : yields (f :: fs) = (if f then 1 else 0) + yields fs.
Proof. unfold yields. rewrite filter_cons. destruct f; simpl; lia. Qed.
Lemma yields_nonneg fs : 0 <= yields fs.
Proof. unfold yields. lia. Qed.
Lemma yields_zero fs : yields fs = 0 <-> true ∉ fs.
Proof.
  induction fs as [|f fs IH]; [split; [set_solver|done]|].
  rewrite yields_cons. pose proof (yields_nonneg fs). destruct f; set_solver by lia.
Qed.

Lemma yield_steps_correct fs num count nyf : count + yields fs = num ->
  let k := yield_steps fs num count nyf in
  (true ∉ drop k fs) /\ (nyf = true \/ k = length fs \/ false ∈ take k fs) /\
  forall j, (j < k)%nat -> ~ ((true ∉ drop j fs) /\ (nyf = true \/ false ∈ take j fs)).
Proof.
  revert count nyf. induction fs as [|f fs IH]; intros count nyf Hc; simpl.
  { split_and!; [set_solver|auto|lia]. }
  rewrite yields_cons in Hc. pose proof (yields_nonneg fs) as Hnn.
  destruct ((count <? num) || negb nyf) eqn:Hb.
  - destruct (IH (if f then count + 1 else count) (nyf || negb f)) as (I1 & I2 & I3);
      [destruct f; lia|].
    set (k := yield_steps _ _ _ _) in *. split_and!; [done| |].
    + simpl. destruct nyf; [by left|right]. destruct f; simpl in I2; [|set_solver].
      destruct I2 as [?|[->|?]]; [done|auto|set_solver].
    + intros [|j] Hj; simpl.
      * intros [Hd Hn]. apply orb_true_iff in Hb as [Hb|Hb]; [|destruct nyf; set_solver].
        assert (yields (f :: fs) = 0) as K by (by apply yields_zero). rewrite yields_cons in K. lia.
      * intros [Hd Hn]. apply (I3 j); [lia|]. split; [done|]. destruct nyf; [by left|].
        destruct f; simpl; set_solver.
  - apply orb_false_iff in Hb as [Hb Hn]. destruct nyf; [|done].
    split_and!; [|by left|lia]. apply (yields_zero (f :: fs)). rewrite yields_cons. destruct f; lia.
Qed.

Lemma yield_pos_correct fs : let n := yield_pos fs (yields fs) in
  yield_place fs n /\ (fs <> [] -> (0 < n)%nat) /\ (n <= length fs)%nat /\
  forall j, (0 < j < n)%nat -> ~ yield_place fs j.
Proof.
  destruct fs as [|f fs]; simpl.
  { split_and!; try done; [|lia]. split; [set_solver|by left]. }
  destruct (yield_steps_correct fs (yields (f :: fs)) (if f then 1 else 0) (negb f)) as (I1 & I2 & I3).
  { rewrite yields_cons. done. }
  pose proof (yield_steps_le fs (yields (f :: fs)) (if f then 1 else 0) (negb f)) as Hle.
  set (k := yield_steps _ _ _ _) in *. split_and!; [|lia|lia|].
  - split; [done|]. simpl. destruct f; simpl in I2; [|set_solver].
    destruct I2 as [?|[->|?]]; [done|auto|set_solver].
  - intros [|j] Hj [Hd Hn]; [lia|]. simpl in *. apply (I3 j); [lia|]. split; [done|].
    destruct f; simpl; [|by left]. right. destruct Hn as [Hn|Hn]; [lia|set_solver].
Qed.

(** once the counter exceeds the queue length the walk runs to the tail *)
Lemma yield_pos_saturated fs num : Z.of_nat (length fs) <= num -> yield_pos fs num = length fs.
Proof.
  destruct fs as [|f fs]; simpl; [done|]. intros Hn. f_equal.
  assert (H : forall fs count nyf, count + Z.of_nat (length fs) <= num ->
                yield_steps fs num count nyf = length fs).
  { clear. induction fs as [|f fs IH]; intros count nyf Hc; simpl; [done|]. cbn [length] in Hc.
    rewrite (proj2 (Z.ltb_lt count num)) by lia. simpl. f_equal. apply IH. destruct f; lia. }
  apply H. destruct f; lia.
Qed.
