(* ===== verification/RunQueueLife.v ===== *)
(** * Life cycle of the run queue's elements

    [create_thd_elem] adds the element of a new thread; [deep_clear] (called by the
    constructor and by the child of a fork) empties a queue and frees the elements
    of every thread in its [tid_map]. *)
From S2P Require Import Prelude RunQueue RunQueueSpec.

Lemma wp_tid_map_set {X} t p Q (s : rqs) :
  0 <= t < MAX_THREAD_NUM ->
  Q tt (RQS (r_heap s) (with_tid_map (partial_alter (fun _ => p) t (q_tid_map (r_q s))) (r_q s))) ->
  wpx X (tid_map_set t p) Q s.
Proof.
  intros Ht HQ. unfold tid_map_set.
  replace (in_range t) with true; [done|]. unfold in_range. symmetry. lia.
Qed.

(** a new cell at a fresh address changes nothing the queue depends on *)
Lemma inv_new_elem H q ts ot t :
  rq_inv H q ts ot -> 0 <= t < MAX_THREAD_NUM -> q_tid_map q !! t = None ->
  rq_inv (Heap (<[brk H := new_elem t]> (cells H)) (Pos.succ (brk H)))
         (with_tid_map (<[t := brk H]> (q_tid_map q)) q) ts ot.
Proof.
  intros Hinv Ht Hnew. destruct (inv_wf _ _ _ _ Hinv) as [Hw Hb].
  destruct (inv_rep _ _ _ _ Hinv) as [ls Hrep].
  assert (Hfresh : cells H !! brk H = None).
  { destruct (cells H !! brk H) as [e|] eqn:E; [|done].
    specialize (Hb (brk H) (mk_is_Some _ _ E)). lia. }
  split.
  - split; simpl.
    + intros t' l. destruct (decide (t' = t)) as [->|].
      * rewrite lookup_insert_eq. intros [= <-]. split; [done|]. rewrite lookup_insert_eq. eauto.
      * rewrite lookup_insert_ne by done. intros Hl. destruct (Hw _ _ Hl) as (? & e & He & ?).
        split; [done|]. exists e. rewrite lookup_insert_ne by congruence. done.
    + intros l. destruct (decide (l = brk H)) as [->|]; [lia|].
      rewrite lookup_insert_ne by done. intros Hl%Hb. lia.
  - exists ls. destruct Hrep as [R1 R2 R3 R4 R5 R6]. split; try done; simpl.
    + eapply Forall2_impl; [done|]. intros t' l Hl. simpl in *.
      rewrite lookup_insert_ne by congruence. done.
    + eapply chain_frame; [|done]. intros l Hl. apply lookup_insert_ne. intros <-.
      destruct (chain_lookup _ _ _ R4 Hl). congruence.
  - simpl. intros t' l e. destruct (decide (t' = t)) as [->|].
    + rewrite lookup_insert_eq. intros [= <-] _ _. rewrite lookup_insert_eq. by intros [= <-].
    + rewrite lookup_insert_ne by done. intros Hl Hts Hot.
      destruct (Hw _ _ Hl) as (_ & e' & He' & _).
      rewrite lookup_insert_ne by congruence. eapply (inv_det _ _ _ _ Hinv); eauto.
Qed.

Lemma create_thd_elem_spec H q ts ot t :
  rq_inv H q ts ot -> 0 <= t < MAX_THREAD_NUM -> q_tid_map q !! t = None ->
  wp (create_thd_elem t) (fun p s' =>
    p = Some (brk H) /\
    s' = RQS (Heap (<[brk H := new_elem t]> (cells H)) (Pos.succ (brk H)))
             (with_tid_map (<[t := brk H]> (q_tid_map q)) q) /\
    rq_inv (r_heap s') (r_q s') ts ot) (RQS H q).
Proof.
  intros Hinv Ht Hnew. unfold create_thd_elem. wp_steps. apply wp_tid_map_set; [done|].
  wp_steps. split_and!; [done|done|]. by apply inv_new_elem.
Qed.

(** ** deep_clear *)


Record clear_inv (H : heap) (q : run_queue) (l : list Z) (s : rqs) : Prop := {
  cl_q : r_q s = RunQueue None None 0 (filter (fun kv => kv.1 ∈ l) (q_tid_map q)) 0;
  cl_cells : forall t x, t ∈ l -> q_tid_map q !! t = Some x ->
               cells (r_heap s) !! x = cells H !! x;
  cl_gone : forall t x, t ∉ l -> q_tid_map q !! t = Some x -> cells (r_heap s) !! x = None;
  cl_frame : forall x, (forall t, q_tid_map q !! t <> Some x) ->
               cells (r_heap s) !! x = cells H !! x;
  cl_brk : brk (r_heap s) = brk H
}.

Lemma filter_drop_key (m : gmap Z loc) i l : i ∉ l ->
  delete i (filter (fun kv : Z * loc => kv.1 ∈ i :: l) m) =
    filter (fun kv : Z * loc => kv.1 ∈ l) m.
Proof.
  intros Hi. apply map_eq. intros t. destruct (decide (t = i)) as [->|Ht].
  - rewrite lookup_delete_eq. symmetry. apply map_lookup_filter_None. right. intros x _. done.
  - rewrite lookup_delete_ne by done. apply option_eq. intros x.
    rewrite !map_lookup_filter_Some. simpl. set_solver.
Qed.

Lemma clear_step H q i l s :
  rq_wf H q -> i ∉ l -> 0 <= i < MAX_THREAD_NUM -> clear_inv H q (i :: l) s ->
  wp (p ← tid_map_get i;
      match p with
      | None => mret tt
      | Some _ =>
          e ← load p;
          store p (fun e => set_prev None (set_next None e)) ;;
          del_thd_elem (e_tid e)
      end) (fun _ s' => clear_inv H q l s') s.
Proof.
  intros Hwf Hil Hi [Iq Ic Ig If Ib]. wp_step. apply wp_tid_map_get; [done|].
  rewrite Iq. rq_simpl.
  assert (Hlk : filter (fun kv : Z * loc => kv.1 ∈ i :: l) (q_tid_map q) !! i = q_tid_map q !! i).
  { destruct (q_tid_map q !! i) as [x|] eqn:E.
    - apply map_lookup_filter_Some. split; [done|simpl; set_solver].
    - apply map_lookup_filter_None. by left. }
  rewrite Hlk. destruct (q_tid_map q !! i) as [x|] eqn:E.
  - destruct (wf_map _ _ Hwf _ _ E) as (_ & e & He & Het).
    assert (Hx : cells (r_heap s) !! x = Some e) by (rewrite (Ic i); [done|set_solver|done]).
    wp_step. eapply wp_load; [done..|]. wp_step. eapply wp_store; [done..|].
    rewrite Het. unfold del_thd_elem. wp_step. apply wp_tid_map_get; [done|].
    rq_simpl. rewrite Iq. rq_simpl. rewrite Hlk. wp_step. apply wp_tid_map_set; [done|].
    wp_step. eapply wp_load; [done|rq_simpl; apply lookup_insert_eq|]. wp_steps. rq_simpl.
    assert (Hothers : forall t y, t <> i -> q_tid_map q !! t = Some y -> y <> x).
    { intros t y Ht Hy ->. apply Ht. by eapply wf_inj. }
    rewrite delete_insert_eq. split; rq_simpl.
    + rewrite Iq. unfold with_tid_map. simpl. f_equal. by apply filter_drop_key.
    + intros t y Ht Hy. rewrite lookup_delete_ne; [apply (Ic t); [set_solver|done]|].
      assert (t <> i) by (by intros ->). intros <-. by eapply Hothers.
    + intros t y Ht Hy. destruct (decide (y = x)) as [->|]; [by rewrite lookup_delete_eq|].
      rewrite lookup_delete_ne by done. apply (Ig t); [|done].
      intros [->|?]%elem_of_cons; [by simplify_eq|done].
    + intros y Hy. rewrite lookup_delete_ne; [by apply If|]. intros <-. by apply (Hy i).
    + done.
  - wp_steps. split; [|set_solver| |done|done].
    + rewrite Iq. f_equal. rewrite <-(filter_drop_key _ i l) by done.
      symmetry. apply delete_id. by rewrite Hlk.
    + intros t y Ht Hy. apply (Ig t); [|done].
      intros [->|?]%elem_of_cons; [by simplify_eq|done].
Qed.

Lemma deep_clear_spec H q : rq_wf H q ->
  wp deep_clear (fun _ s' =>
    r_q s' = empty_queue /\ brk (r_heap s') = brk H /\
    (forall t x, q_tid_map q !! t = Some x -> cells (r_heap s') !! x = None) /\
    (forall x, (forall t, q_tid_map q !! t <> Some x) ->
       cells (r_heap s') !! x = cells H !! x)) (RQS H q).
Proof.
  intros Hwf. unfold deep_clear. do 2 wp_step. rq_simpl.
  assert (Hseq : forall i, i ∈ seqZ 0 MAX_THREAD_NUM <-> 0 <= i < MAX_THREAD_NUM).
  { intros i. rewrite elem_of_seqZ. lia. }
  assert (Hnd : NoDup (seqZ 0 MAX_THREAD_NUM)) by apply NoDup_seqZ.
  revert Hseq Hnd. generalize (seqZ 0 MAX_THREAD_NUM). intros l0 Hseq Hnd0.
  set (I l s := clear_inv H q l s /\ NoDup l /\ forall i, i ∈ l -> 0 <= i < MAX_THREAD_NUM).
  eapply wp_mono; [eapply (wp_for_each _ _ I)|].
  - intros i l s (HI & Hnd & Hl). apply NoDup_cons in Hnd as [Hi Hnd].
    eapply wp_mono; [eapply clear_step; try done; apply Hl; set_solver|].
    intros [] s' HI'. split_and!; [done|done|set_solver].
  - split_and!; [|done|apply Hseq].
    assert (Hall : forall t x, q_tid_map q !! t = Some x -> t ∈ l0).
    { intros t x Hx. apply Hseq. by eapply wf_range. }
    split; simpl; try done.
    + unfold with_num_yield, with_num_elements, with_tail, with_head. simpl. f_equal.
      symmetry. apply map_filter_id. eauto.
    + intros t x Ht Hx. exfalso. eauto.
  - intros _ s' ([Iq Ic Ig If Ib] & _). split_and!; [|done| |done].
    + rewrite Iq. unfold empty_queue. f_equal. apply map_empty. intros t.
      apply map_lookup_filter_None. right. simpl. set_solver.
    + intros t x. apply Ig. set_solver.
Qed.

(** the constructor builds the empty queue and touches no cell *)
Lemma new_run_queue_spec H : (forall l, is_Some (cells H !! l) -> (l < brk H)%positive) ->
  exists s, new_run_queue H = Ok (tt, s) /\ r_q s = empty_queue /\
    (forall x, cells (r_heap s) !! x = cells H !! x) /\ brk (r_heap s) = brk H.
Proof.
  intros Hb. destruct (wp_elim _ _ _ (deep_clear_spec H empty_queue
    (Build_rq_wf H empty_queue ltac:(set_solver) Hb))) as ([] & s & Hs & Hq & Hbr & _ & Hf).
  exists s. split; [exact Hs|]. split; [exact Hq|]. split; [|exact Hbr].
  intros x. apply Hf. done.
Qed.
