(* ===== verification/RunQueueSim.v ===== *)
(** * The run queue implements a queue of threads

    [aqueue] is the abstract queue: the registered threads, the queued threads in
    order with their yield marks, and the counter of marks.  [aq_step] says what each
    operation promises and when it may be called.  The linked-list code of
    run-queue.h simulates it: every sequence of calls the abstract queue allows runs
    without touching a NULL or freed element and ends in a state that represents the
    abstract result. *)
From S2P Require Import Prelude RunQueue RunQueueSpec RunQueueYield RunQueueLife.

Record aqueue : Type := AQ {
  aq_reg : gset Z;             (* threads that have an element *)
  aq_q : list (Z * bool);      (* queued threads, front first, with the last_yield mark *)
  aq_yields : Z                (* num_yield_elem *)
}.

Definition aq_empty : aqueue := AQ ∅ [] 0.

Inductive qop : Type :=
| OpCreate (tid : Z)
| OpPushBack (tid : Z)
| OpYield (tid : Z)
| OpPopFront.

Definition can_enqueue (t : Z) (a : aqueue) : bool :=
  bool_decide (t ∈ aq_reg a) && bool_decide (t ∉ (aq_q a).*1).

Definition aq_step (op : qop) (a : aqueue) : option aqueue :=
  match op with
  | OpCreate t =>
      if bool_decide (t ∉ aq_reg a) && in_range t
      then Some (AQ ({[ t ]} ∪ aq_reg a) (aq_q a) (aq_yields a)) else None
  | OpPushBack t =>
      if can_enqueue t a
      then Some (AQ (aq_reg a) (aq_q a ++ [(t, false)]) (aq_yields a)) else None
  | OpYield t =>
      if can_enqueue t a then
        let n := yield_pos (aq_q a).*2 (aq_yields a) in
        Some (AQ (aq_reg a) (take n (aq_q a) ++ (t, true) :: drop n (aq_q a))
                 (if decide (aq_q a = []) then aq_yields a else aq_yields a +u64 1))
      else None
  | OpPopFront =>
      match aq_q a with
      | [] => None
      | (t, f) :: q => Some (AQ (aq_reg a) q (if f then aq_yields a -u64 1 else aq_yields a))
      end
  end.

Fixpoint aq_run (ops : list qop) (a : aqueue) : option aqueue :=
  match ops with
  | [] => Some a
  | op :: ops' => aq_step op a ≫= aq_run ops'
  end.

(** the calls on the linked list *)
Definition run_op (op : qop) : R unit :=
  match op with
  | OpCreate t => _ ← create_thd_elem t; mret tt
  | OpPushBack t => q_push_back t
  | OpYield t => insert_yield t
  | OpPopFront => q_pop_front
  end.
Definition run_ops : list qop -> R unit := for_each run_op.

(** the simulation relation *)
Record sim (s : rqs) (a : aqueue) : Prop := {
  sim_inv : rq_inv (r_heap s) (r_q s) (aq_q a).*1 [];
  sim_flags : q_flag s <$> (aq_q a).*1 = (aq_q a).*2;
  sim_reg : dom (q_tid_map (r_q s)) = aq_reg a;
  sim_num : q_num_yield_elem (r_q s) = aq_yields a
}.

Lemma touched_flag T s s' t : touched T s s' -> t ∉ T -> q_flag s' t = q_flag s t.
Proof.
  intros [Hm _ _ Hf] Ht. unfold q_flag. rewrite Hm.
  destruct (q_tid_map (r_q s) !! t) as [l|] eqn:E; [|done]. simpl. by rewrite (Hf t).
Qed.

Lemma flags_ext s s' (ts : list Z) : (forall t, t ∈ ts -> q_flag s' t = q_flag s t) ->
  q_flag s' <$> ts = q_flag s <$> ts.
Proof.
  intros H. apply list_fmap_ext. intros i t Ht. apply H. by eapply list_elem_of_lookup_2.
Qed.

Lemma can_enqueue_spec s a t : sim s a -> can_enqueue t a = true ->
  (exists l, q_tid_map (r_q s) !! t = Some l) /\ t ∉ (aq_q a).*1.
Proof.
  intros Hs [Hr%bool_decide_eq_true Hq%bool_decide_eq_true]%andb_true_iff. split; [|done].
  rewrite <-(sim_reg _ _ Hs) in Hr. by apply elem_of_dom in Hr.
Qed.

(** a thread outside the queue is not marked *)
Lemma sim_unmarked s a t l : sim s a -> q_tid_map (r_q s) !! t = Some l ->
  t ∉ (aq_q a).*1 -> q_flag s t = false.
Proof.
  intros Hs Hl Ht. unfold q_flag. rewrite Hl. simpl.
  destruct (cells (r_heap s) !! l) as [e|] eqn:E; [|done].
  by destruct (inv_det _ _ _ _ (sim_inv _ _ Hs) t l e Hl Ht) as (_ & _ & ?); [set_solver|done|].
Qed.

Lemma sim_create s a t : sim s a -> (t ∉ aq_reg a) -> in_range t = true ->
  wp (run_op (OpCreate t)) (fun _ s' => sim s' (AQ ({[ t ]} ∪ aq_reg a) (aq_q a) (aq_yields a))) s.
Proof.
  intros Hs Ht Hr. destruct s as [H q]. pose proof (sim_inv _ _ Hs) as Hi. simpl in Hi.
  assert (Hnone : q_tid_map q !! t = None)
    by (apply not_elem_of_dom; pose proof (sim_reg _ _ Hs) as Hd; simpl in Hd; by rewrite Hd).
  assert (Hr' : 0 <= t < MAX_THREAD_NUM) by (unfold in_range in Hr; lia).
  unfold run_op. wp_step.
  eapply wp_mono; [by eapply create_thd_elem_spec|]. cbn beta. intros p s' (_ & -> & Hi').
  wp_steps. split; [done| |simpl; by rewrite dom_insert_L, <-(sim_reg _ _ Hs)|apply Hs].
  cbn [aq_q]. rewrite <-(sim_flags _ _ Hs). apply flags_ext. intros t' Ht'. unfold q_flag. simpl.
  destruct (inv_mem _ _ _ _ t' Hi Ht') as (l & e & Hl & He & _).
  rewrite lookup_insert_ne by congruence. rewrite Hl. simpl.
  rewrite lookup_insert_ne; [done|]. intros <-.
  pose proof (wf_brk _ _ (inv_wf _ _ _ _ Hi) _ (mk_is_Some _ _ He)). lia.
Qed.

Lemma sim_push s a t : sim s a -> can_enqueue t a = true ->
  wp (q_push_back t) (fun _ s' =>
    sim s' (AQ (aq_reg a) (aq_q a ++ [(t, false)]) (aq_yields a))) s.
Proof.
  intros Hs He. destruct (can_enqueue_spec _ _ _ Hs He) as [[l Hl] Ht].
  pose proof (sim_unmarked _ _ _ _ Hs Hl Ht) as Hf. destruct s as [H q].
  eapply wp_mono; [eapply push_back_spec; [apply Hs|done|done|set_solver]|]. cbn beta.
  intros _ s' (P1 & P2 & P3 & P4). split; simpl.
  - by rewrite fmap_app.
  - rewrite !fmap_app, <-(sim_flags _ _ Hs). simpl. rewrite P3, Hf. f_equal. by apply flags_ext.
  - rewrite (tch_map _ _ _ P2). apply Hs.
  - rewrite P4. apply Hs.
Qed.

Lemma sim_yield s a t n : sim s a -> can_enqueue t a = true ->
  n = yield_pos (aq_q a).*2 (aq_yields a) ->
  wp (insert_yield t) (fun _ s' =>
    sim s' (AQ (aq_reg a) (take n (aq_q a) ++ (t, true) :: drop n (aq_q a))
               (if decide (aq_q a = []) then aq_yields a else aq_yields a +u64 1))) s.
Proof.
  intros Hs He ->. destruct (can_enqueue_spec _ _ _ Hs He) as [[l Hl] Ht]. destruct s as [H q].
  eapply wp_mono; [eapply insert_yield_spec; [apply Hs|done|done|set_solver]|]. cbn beta.
  rewrite (sim_flags _ _ Hs). pose proof (sim_num _ _ Hs) as Hnum. simpl in Hnum. rewrite Hnum.
  set (n := yield_pos _ _). intros _ s' (P1 & P2 & P3 & P4 & P5). split; simpl.
  - rewrite fmap_app, fmap_cons, fmap_take, fmap_drop. done.
  - rewrite !fmap_app, !fmap_cons. simpl. rewrite P3.
    rewrite (fmap_take fst), (fmap_drop fst), (fmap_take snd), (fmap_drop snd).
    rewrite <-(sim_flags _ _ Hs), <-(fmap_take (q_flag _)), <-(fmap_drop (q_flag _)).
    f_equal; [|f_equal].
    + apply flags_ext. intros t' Ht'%subseteq_take. apply P4. congruence.
    + apply flags_ext. intros t' Ht'%subseteq_drop. apply P4. congruence.
  - rewrite (tch_map _ _ _ P2). apply Hs.
  - rewrite P5. destruct (aq_q a); done.
Qed.

Lemma sim_pop s a t f q : sim s a -> aq_q a = (t, f) :: q ->
  wp q_pop_front (fun _ s' =>
    sim s' (AQ (aq_reg a) q (if f then aq_yields a -u64 1 else aq_yields a))) s.
Proof.
  intros Hs Hq. destruct s as [H rq]. pose proof (sim_inv _ _ Hs) as Hi.
  pose proof (sim_flags _ _ Hs) as Hf. rewrite Hq in Hi, Hf. simpl in *.
  injection Hf as Hft Hf. eapply wp_mono; [by eapply pop_front_spec|]. cbn beta.
  pose proof (sim_num _ _ Hs) as Hnum. simpl in Hnum. rewrite Hft, Hnum.
  intros _ s' (P1 & P2 & P3 & P4). split; simpl; [done| | |done].
  - etrans; [|exact Hf]. apply flags_ext. intros t' Ht'. eapply touched_flag; [done|].
    destruct (inv_rep _ _ _ _ Hi) as [ls Hrep].
    pose proof (rep_nodup _ _ _ _ Hrep) as Hnd. apply NoDup_cons in Hnd as [Hnd _]. set_solver.
  - rewrite (tch_map _ _ _ P2). apply Hs.
Qed.

Lemma sim_step op s a a' : sim s a -> aq_step op a = Some a' ->
  wp (run_op op) (fun _ s' => sim s' a') s.
Proof.
  intros Hs. destruct op as [t|t|t|]; cbn [aq_step].
  - destruct (bool_decide _) eqn:Hb; simpl; [|done]. destruct (in_range t) eqn:Hr; [|done].
    intros [= <-]. apply sim_create; [done| |done]. by apply bool_decide_eq_true in Hb.
  - destruct (can_enqueue t a) eqn:He; [|done]. intros [= <-]. by apply sim_push.
  - destruct (can_enqueue t a) eqn:He; [|done]. intros [= <-]. by eapply sim_yield.
  - destruct (aq_q a) as [|[t f] q] eqn:Hq; [done|]. intros [= <-]. by eapply sim_pop.
Qed.

Lemma sim_run ops s a a' : sim s a -> aq_run ops a = Some a' ->
  wp (run_ops ops) (fun _ s' => sim s' a') s.
Proof.
  revert s a. induction ops as [|op ops IH]; intros s a Hs; simpl; [by intros [= <-]|].
  intros Ha. apply bind_Some in Ha as (a1 & Ha1 & Ha'). unfold run_ops. simpl. wp_step.
  eapply wp_mono; [by eapply sim_step|]. intros [] s' Hs'. by eapply IH.
Qed.

Lemma sim_empty : sim (RQS empty_heap empty_queue) aq_empty.
Proof.
  split; simpl; try done. split.
  - split; simpl; [set_solver|]. intros l [e He]. set_solver.
  - exists []. split; simpl; try done; constructor.
  - set_solver.
Qed.

(** what the observers return in a state that represents [a] *)
Definition observes (s : rqs) (a : aqueue) : Prop :=
  q_size s = Ok (Z.of_nat (length (aq_q a)), s) /\
  q_empty s = Ok (bool_decide (aq_q a = []), s) /\
  (forall t f q, aq_q a = (t, f) :: q -> q_front s = Ok (t, s)) /\
  (forall t, t ∈ aq_reg a -> q_in t s = Ok (bool_decide (t ∈ (aq_q a).*1), s)).

Lemma sim_observes s a : sim s a -> observes s a.
Proof.
  intros Hs. destruct s as [H q]. pose proof (sim_inv _ _ Hs) as Hi. simpl in Hi. split_and!.
  - rewrite (q_size_spec _ _ _ _ Hi). by rewrite length_fmap.
  - rewrite (q_empty_spec _ _ _ _ Hi). do 2 f_equal. by destruct (aq_q a) as [|[]].
  - intros t f q' Hq. rewrite Hq in Hi. by eapply q_front_spec.
  - intros t Ht. rewrite <-(sim_reg _ _ Hs) in Ht. apply elem_of_dom in Ht as [l Hl].
    eapply q_in_spec; [done|done|set_solver].
Qed.

(** a sample execution, for the witnesses *)
Definition sample_ops : list qop :=
  [OpCreate 0; OpCreate 1; OpCreate 2; OpPushBack 0; OpPushBack 1; OpPushBack 2; OpPopFront;
   OpYield 0; OpPopFront].
Definition final (r : res (unit * rqs)) : rqs :=
  match r with Ok (_, s) => s | Err _ => RQS empty_heap empty_queue end.
Definition sample_state : rqs := final (run_ops sample_ops (RQS empty_heap empty_queue)).

Lemma sim_final ops a : aq_run ops aq_empty = Some a ->
  sim (final (run_ops ops (RQS empty_heap empty_queue))) a.
Proof.
  intros Ha. destruct (wp_elim _ _ _ (sim_run _ _ _ _ sim_empty Ha)) as ([] & s & Hs & Hsim).
  by rewrite Hs.
Qed.

(** ** Properties *)

(** C5: the linked list refines the abstract queue of threads.  Any sequence of
    create_thd_elem, push_back, insert_yield and pop_front calls that the abstract
    queue allows, started on the empty queue, runs to the end without a NULL or
    freed-element access, its final state represents the abstract queue, and size(),
    empty(), front() and in() report what the abstract queue holds. *)
Theorem run_queue_refines ops a :
  aq_run ops aq_empty = Some a ->
  exists s, run_ops ops (RQS empty_heap empty_queue) = Ok (tt, s) /\ sim s a /\ observes s a.
Proof.
  intros Ha. destruct (wp_elim _ _ _ (sim_run _ _ _ _ sim_empty Ha)) as ([] & s & Hs & Hsim).
  exists s. split_and!; [done|done|by apply sim_observes].
Qed.

Lemma run_queue_refines_witness :
  exists s, run_ops (sample_ops ++ [OpYield 1]) (RQS empty_heap empty_queue) = Ok (tt, s) /\
    sim s (AQ {[ 0; 1; 2 ]} [(0, true); (2, false); (1, true)] 2) /\
    observes s (AQ {[ 0; 1; 2 ]} [(0, true); (2, false); (1, true)] 2).
Proof. apply (run_queue_refines (sample_ops ++ [OpYield 1])). vm_compute. reflexivity. Defined.

(** where insert_yield puts a thread while num_yield_elem counts the marked threads
    of the queue: behind every thread that yielded and behind at least one that did
    not (at the tail when all yielded), and no earlier place qualifies. *)
Theorem insert_yield_priority H q t l ts :
  rq_inv H q ts [] -> q_tid_map q !! t = Some l -> t ∉ ts ->
  q_num_yield_elem q = yields (q_flag (RQS H q) <$> ts) ->
  exists n s', insert_yield t (RQS H q) = Ok (tt, s') /\
    rq_inv (r_heap s') (r_q s') (take n ts ++ t :: drop n ts) [] /\
    yield_place (q_flag (RQS H q) <$> ts) n /\ (ts <> [] -> (0 < n)%nat) /\
    (forall j, (0 < j < n)%nat -> ~ yield_place (q_flag (RQS H q) <$> ts) j) /\
    (ts <> [] -> q_num_yield_elem (r_q s') =
       yields (q_flag s' <$> (take n ts ++ t :: drop n ts))).
Proof.
  intros Hinv Hl Ht Hnum.
  destruct (wp_elim _ _ _ (insert_yield_spec _ _ _ _ _ _ Hinv Hl Ht ltac:(set_solver)))
    as ([] & s' & Hs & P1 & P2 & P3 & P4 & P5). rewrite Hnum in *.
  destruct (yield_pos_correct (q_flag (RQS H q) <$> ts)) as (C1 & C2 & C3 & C4).
  set (n := yield_pos _ _) in *. exists n, s'. split_and!; [done|done|done| |done|].
  - intros Hne. apply C2. by destruct ts.
  - intros Hne. rewrite decide_False in P5 by done. rewrite P5.
    assert (Hp : q_flag s' <$> (take n ts ++ t :: drop n ts) ≡ₚ true :: (q_flag (RQS H q) <$> ts)).
    { rewrite fmap_app, fmap_cons, <-Permutation_middle, P3. constructor.
      rewrite <-fmap_app, take_drop. rewrite (flags_ext (RQS H q) s'); [done|].
      intros t' Ht'. apply P4. congruence. }
    unfold yields. rewrite Hp, filter_cons_True by done. cbn [length].
    pose proof (inv_bound _ _ _ _ Hinv) as Hb. unfold MAX_THREAD_NUM in Hb.
    pose proof (length_filter (fun b => b = true) (q_flag (RQS H q) <$> ts)) as Hf.
    rewrite length_fmap in Hf. rewrite u64_small; lia.
Qed.

Lemma insert_yield_priority_witness :
  let s := sample_state in
  exists n s', insert_yield 1 (RQS (r_heap s) (r_q s)) = Ok (tt, s') /\
    rq_inv (r_heap s') (r_q s') (take n [0; 2] ++ 1 :: drop n [0; 2]) [] /\
    yield_place [true; false] n.
Proof.
  intros s.
  destruct (insert_yield_priority (r_heap s) (r_q s) 1 2%positive [0; 2])
    as (n & s' & H1 & H2 & H3 & _).
  - assert (Hs : aq_run sample_ops aq_empty = Some (AQ {[ 0; 1; 2 ]} [(0, true); (2, false)] 1))
      by (vm_compute; reflexivity).
    exact (sim_inv _ _ (sim_final _ _ Hs)).
  - vm_compute. reflexivity.
  - set_solver by lia.
  - vm_compute. reflexivity.
  - exists n, s'. split_and!; [exact H1|exact H2|exact H3].
Defined.

(** a thread that yields while the queue is empty is marked but not counted: when it
    leaves the queue, pop_front decrements num_yield_elem below zero (to SIZE_MAX),
    and from then on, whatever the marks, insert_yield walks to the tail until the
    counter has wrapped back. *)
Theorem yield_counter_underflow s t :
  sim s (AQ (aq_reg aq_empty ∪ {[ t ]}) [] 0) ->
  exists s', run_ops [OpYield t; OpPopFront] s = Ok (tt, s') /\
    sim s' (AQ (aq_reg aq_empty ∪ {[ t ]}) [] (2 ^ 64 - 1)) /\
    forall fs, Z.of_nat (length fs) < 2 ^ 64 ->
      yield_pos fs (q_num_yield_elem (r_q s')) = length fs.
Proof.
  intros Hs. set (a := AQ _ [] (2 ^ 64 - 1)).
  assert (Ha : aq_run [OpYield t; OpPopFront] (AQ (aq_reg aq_empty ∪ {[ t ]}) [] 0) = Some a).
  { simpl. unfold can_enqueue. simpl. rewrite bool_decide_true by set_solver. done. }
  destruct (wp_elim _ _ _ (sim_run _ _ _ _ Hs Ha)) as ([] & s' & Hs' & Hsim).
  exists s'. split_and!; [done|done|]. intros fs Hfs. rewrite (sim_num _ _ Hsim).
  apply yield_pos_saturated. simpl. lia.
Qed.

Lemma yield_counter_underflow_witness :
  exists s', run_ops [OpYield 0; OpPopFront]
      (final (run_ops [OpCreate 0] (RQS empty_heap empty_queue))) = Ok (tt, s') /\
    q_num_yield_elem (r_q s') = 2 ^ 64 - 1.
Proof.
  destruct (yield_counter_underflow (final (run_ops [OpCreate 0] (RQS empty_heap empty_queue))) 0)
    as (s' & H1 & H2 & _).
  - apply (sim_final [OpCreate 0]). vm_compute. reflexivity.
  - exists s'. split; [exact H1|exact (sim_num _ _ H2)].
Defined.

(** erase() of the first element is not safe: pop_front leaves the [prev] of the new
    head pointing at the popped element, so after [0;1;2] has been rotated to [1;2;0]
    erasing the head 1 writes through that stale pointer and makes element 0, the
    tail, point back to 2: the list becomes cyclic although its size is 2. *)
Theorem erase_stale_head :
  let s := final (run_ops [OpCreate 0; OpCreate 1; OpCreate 2; OpPushBack 0; OpPushBack 1;
                           OpPushBack 2; OpPopFront; OpPushBack 0]
                          (RQS empty_heap empty_queue)) in
  exists s', q_erase (q_head (r_q s)) s = Ok (Some 3%positive, s') /\
    q_num_elements (r_q s') = 2 /\ q_tail (r_q s') = Some 1%positive /\
    (e_next <$> cells (r_heap s') !! 3%positive) = Some (Some 1%positive) /\
    (e_next <$> cells (r_heap s') !! 1%positive) = Some (Some 3%positive).
Proof. eexists. vm_compute. repeat split. Qed.
