(* ===== verification/LogText.v ===== *)
(** * Numbers and lines of text: what the C++ streams of the text logs print

    [print_base] prints a number the way std::hex and std::dec do; [read_base] and
    [split] are the reader's side. *)
From Stdlib Require Import Ascii.
From S2P Require Import Prelude.
Open Scope string_scope.
Open Scope Z_scope.

Definition digit (d : Z) : Ascii.ascii :=
  Ascii.ascii_of_N (Z.to_N (if d <? 10 then 48 + d else 87 + d)).
Definition undigit (c : Ascii.ascii) : Z :=
  let n := Z.of_N (Ascii.N_of_ascii c) in if n <? 58 then n - 48 else n - 87.

(** the digits of [n >= 0] in front of [acc]; [fuel] bounds their number *)
Fixpoint digits (fuel : nat) (b n : Z) (acc : string) : string :=
  match fuel with
  | 0%nat => acc
  | S fuel' =>
      let acc := String (digit (n mod b)) acc in
      if n / b =? 0 then acc else digits fuel' b (n / b) acc
  end.
Definition print_base (b n : Z) : string := digits (S (Z.to_nat (Z.log2 n))) b n "".
Definition print_hex : Z -> string := print_base 16.
Definition print_dec (n : Z) : string :=
  if n <? 0 then String "-"%char (print_base 10 (- n)) else print_base 10 n.

(** setfill('0') << setw(w) *)
Fixpoint zeros (k : nat) (s : string) : string :=
  match k with 0%nat => s | S k' => String "0"%char (zeros k' s) end.
Definition pad (w : nat) (s : string) : string := zeros (w - String.length s) s.

Fixpoint read_digits (b v : Z) (s : string) : Z :=
  match s with "" => v | String c s' => read_digits b (v * b + undigit c) s' end.
Definition read_base (b : Z) (s : string) : Z := read_digits b 0 s.
Definition read_dec (s : string) : Z :=
  match s with String "-"%char s' => - read_base 10 s' | _ => read_base 10 s end.

(** the pieces of [s] between the characters [c] *)
Fixpoint split (c : Ascii.ascii) (s : string) : list string :=
  match s with
  | "" => [""]
  | String a s' =>
      if Ascii.eqb a c then "" :: split c s'
      else match split c s' with
           | w :: ws => String a w :: ws
           | [] => [String a ""]
           end
  end.

(** ** Facts *)
Fixpoint all_chars (p : Ascii.ascii -> bool) (s : string) : bool :=
  match s with "" => true | String c s' => p c && all_chars p s' end.
Definition lacks (c : Ascii.ascii) : string -> bool := all_chars (fun a => negb (Ascii.eqb a c)).

Lemma split_app c w : forall s, lacks c w = true -> split c (w +:+ String c s) = w :: split c s.
Proof.
  unfold lacks. induction w as [|a w IH]; intros s H; simpl in *; [by rewrite Ascii.eqb_refl|].
  apply andb_true_iff in H as [Ha Hw]. apply negb_true_iff in Ha. rewrite Ha. by rewrite IH.
Qed.
Lemma split_last c w : lacks c w = true -> split c w = [w].
Proof.
  unfold lacks. induction w as [|a w IH]; intros H; simpl in *; [done|].
  apply andb_true_iff in H as [Ha Hw]. apply negb_true_iff in Ha. by rewrite Ha, IH.
Qed.
Lemma all_chars_app p s1 s2 : all_chars p (s1 +:+ s2) = all_chars p s1 && all_chars p s2.
Proof. induction s1 as [|c s1 IH]; simpl; [done|]. by rewrite IH, andb_assoc. Qed.
Lemma lacks_app c s1 s2 : lacks c (s1 +:+ s2) = lacks c s1 && lacks c s2.
Proof. apply all_chars_app. Qed.
Lemma str_app_assoc (s1 s2 s3 : string) : (s1 +:+ s2) +:+ s3 = s1 +:+ (s2 +:+ s3).
Proof. induction s1 as [|c s1 IH]; [done|]. unfold String.append in *. by rewrite IH. Qed.
Lemma str_app_nil (s : string) : s +:+ "" = s.
Proof. induction s as [|c s IH]; [done|]. unfold String.append in *. by rewrite IH. Qed.

Lemma undigit_digit d : 0 <= d < 16 -> undigit (digit d) = d.
Proof.
  intros H. assert (Hd : In d (seqZ 0 16)) by (apply list_elem_of_In, elem_of_seqZ; lia).
  repeat (destruct Hd as [<-|Hd]; [done|]). done.
Qed.
Definition is_digit (c : Ascii.ascii) : bool :=
  negb (Ascii.eqb c " "%char || Ascii.eqb c ":"%char || Ascii.eqb c "010"%char || Ascii.eqb c "-"%char ||
        Ascii.eqb c "009"%char).
Lemma digit_is_digit d : 0 <= d < 16 -> is_digit (digit d) = true.
Proof.
  intros H. assert (Hd : In d (seqZ 0 16)) by (apply list_elem_of_In, elem_of_seqZ; lia).
  repeat (destruct Hd as [<-|Hd]; [done|]). done.
Qed.
Lemma all_chars_mono (p q : Ascii.ascii -> bool) s : (forall c, p c = true -> q c = true) ->
  all_chars p s = true -> all_chars q s = true.
Proof.
  intros H. induction s as [|c s IH]; simpl; [done|]. rewrite !andb_true_iff. intros [H1 H2]. auto.
Qed.

Section base.
Context (b : Z) (Hb : 2 <= b <= 16).

Lemma read_digits_digits fuel : forall n acc v, 0 <= n < 2 ^ Z.of_nat fuel ->
  read_digits b 0 (digits fuel b n acc) = read_digits b n acc \/ fuel = 0%nat /\ v = 0.
Proof using Hb.
  induction fuel as [|fuel IH]; intros n acc v Hn; [|left].
  { assert (n = 0) as -> by lia. by left. }
  cbn [digits]. cbv zeta. assert (Hm : 0 <= n mod b < b) by (apply Z.mod_pos_bound; lia).
  assert (Hdiv : n = b * (n / b) + n mod b) by (apply Z.div_mod; lia).
  destruct (n / b =? 0) eqn:Hq.
  - apply Z.eqb_eq in Hq. cbn [read_digits]. rewrite undigit_digit by lia. f_equal. lia.
  - apply Z.eqb_neq in Hq. rewrite Nat2Z.inj_succ, Z.pow_succ_r in Hn by lia.
    assert (0 <= n / b) by (apply Z.div_pos; lia).
    assert (n / b < 2 ^ Z.of_nat fuel) by (apply Z.div_lt_upper_bound; nia).
    destruct (IH (n / b) (String (digit (n mod b)) acc) 1 ltac:(lia)) as [->|[_ ?]]; [|done].
    cbn [read_digits]. rewrite undigit_digit by lia. f_equal. lia.
Qed.

Lemma log2_fuel n : 0 <= n -> 0 <= n < 2 ^ Z.of_nat (S (Z.to_nat (Z.log2 n))).
Proof using Type.
  intros Hn. split; [done|]. rewrite Nat2Z.inj_succ, Z2Nat.id by apply Z.log2_nonneg.
  destruct (decide (n = 0)) as [->|]; [done|]. apply Z.log2_spec. lia.
Qed.

Lemma read_print n : 0 <= n -> read_base b (print_base b n) = n.
Proof using Hb.
  intros Hn. unfold read_base, print_base.
  by destruct (read_digits_digits _ n "" 1 (log2_fuel n Hn)) as [->|[? _]].
Qed.

Lemma digits_chars fuel : forall n acc, 0 <= n -> all_chars is_digit acc = true ->
  all_chars is_digit (digits fuel b n acc) = true.
Proof using Hb.
  induction fuel as [|fuel IH]; intros n acc Hn Hacc; cbn [digits]; [done|]. cbv zeta.
  assert (Hm : 0 <= n mod b < b) by (apply Z.mod_pos_bound; lia).
  assert (Hc : all_chars is_digit (String (digit (n mod b)) acc) = true).
  { simpl. rewrite digit_is_digit by lia. done. }
  destruct (_ =? 0); [done|]. apply IH; [apply Z.div_pos; lia|done].
Qed.
Lemma print_chars n : 0 <= n -> all_chars is_digit (print_base b n) = true.
Proof using Hb. intros Hn. by apply digits_chars. Qed.

Lemma read_zeros k s : read_digits b 0 (zeros k s) = read_digits b 0 s.
Proof using Type. induction k; simpl; auto. Qed.
Lemma read_pad w s : read_base b (pad w s) = read_base b s.
Proof using Type. apply read_zeros. Qed.
End base.

Lemma zeros_chars k s : all_chars is_digit s = true -> all_chars is_digit (zeros k s) = true.
Proof. intros H. induction k; simpl; auto. Qed.
Lemma pad_chars w s : all_chars is_digit s = true -> all_chars is_digit (pad w s) = true.
Proof. apply zeros_chars. Qed.

Lemma digits_lack c s : c = " "%char \/ c = ":"%char \/ c = "010"%char -> all_chars is_digit s = true ->
  lacks c s = true.
Proof.
  intros Hc. apply all_chars_mono. intros a. unfold is_digit. rewrite !negb_true_iff, !orb_false_iff.
  intros [[[[H1 H2] H3] _] _]. by destruct Hc as [->|[->| ->]].
Qed.

Lemma read_print_dec n : read_dec (print_dec n) = n.
Proof.
  unfold print_dec, read_dec. destruct (Z.ltb_spec n 0).
  - rewrite read_print; lia.
  - pose proof (print_chars 10 ltac:(lia) n ltac:(lia)) as Hc.
    assert (Hr : read_base 10 (print_base 10 n) = n) by (apply read_print; lia).
    destruct (print_base 10 n) as [|a s] eqn:Hp; [done|]. simpl in Hc.
    destruct (Ascii.eqb a "-"%char) eqn:Ha.
    + apply Ascii.eqb_eq in Ha as ->. done.
    + rewrite <-Hr. clear -Ha. destruct a as [[] [] [] [] [] [] [] []]; done.
Qed.
Lemma print_dec_no_tab n : lacks "009"%char (print_dec n) = true.
Proof.
  assert (Hb : forall k, 0 <= k -> lacks "009"%char (print_base 10 k) = true).
  { intros k Hk. eapply all_chars_mono; [|by apply print_chars]. intros a. unfold is_digit.
    rewrite !negb_true_iff, !orb_false_iff. by intros [_ H]. }
  unfold print_dec. destruct (Z.ltb_spec n 0); [|by apply Hb]. specialize (Hb (- n) ltac:(lia)).
  unfold lacks in *. simpl. by rewrite Hb.
Qed.
Lemma print_dec_lacks c n : c = " "%char \/ c = ":"%char \/ c = "010"%char -> lacks c (print_dec n) = true.
Proof.
  intros Hc. unfold print_dec. destruct (Z.ltb_spec n 0).
  - assert (lacks c (print_base 10 (- n)) = true) as H1 by (apply digits_lack, print_chars; [done|lia|lia]).
    unfold lacks in *. simpl. rewrite H1. by destruct Hc as [->|[->| ->]].
  - apply digits_lack, print_chars; [done|lia|lia].
Qed.
