(* ===== verification/CText.v ===== *)
(** * Text as the tools of the repository handle it: std::string and the input functions
    fgets and fscanf of the C library

    A std::string, and what is left of an input stream, is a list of characters. *)
From Stdlib Require Import Ascii.
From S2P Require Import Prelude LogText.
#[global] Open Scope list_scope.
#[global] Open Scope Z_scope.

Abbreviation text := (list Ascii.ascii).
(** a string literal *)
Definition txt : string -> text := String.list_ascii_of_string.

(** ** std::string *)

(** [st.find(pat)], None for npos *)
Fixpoint find (pat st : text) : option nat :=
  if decide (pat `prefix_of` st) then Some 0%nat
  else match st with [] => None | _ :: st' => S <$> find pat st' end.
(** [st.replace(p, n, tobe)] for a position inside [st] *)
Definition splice (st : text) (p n : nat) (tobe : text) : text := take p st ++ tobe ++ drop (p + n) st.

(** isspace in the C locale: blank, \t, \n, \v, \f, \r *)
Definition is_space (c : Ascii.ascii) : bool :=
  let n := Z.of_N (Ascii.N_of_ascii c) in (n =? 32) || ((9 <=? n) && (n <=? 13)).
Fixpoint skip_while (p : Ascii.ascii -> bool) (st : text) : text :=
  match st with [] => [] | c :: st' => if p c then skip_while p st' else st end.
Fixpoint take_while (p : Ascii.ascii -> bool) (st : text) : text :=
  match st with [] => [] | c :: st' => if p c then c :: take_while p st' else [] end.
(** [st.erase(st.find_last_not_of(" \t\n\r\f\v") + 1)] *)
Definition rstrip (st : text) : text := reverse (skip_while is_space (reverse st)).

(** ** fgets *)
Definition newline : Ascii.ascii := "010"%char.
(** at most [n] characters, up to and with the first newline; what is left *)
Fixpoint get_line (n : nat) (fin : text) : text * text :=
  match n, fin with
  | S n', c :: fin' =>
      if Ascii.eqb c newline then ([c], fin')
      else let '(l, rest) := get_line n' fin' in (c :: l, rest)
  | _, _ => ([], fin)
  end.
(** [fgets(buffer, size, fin)]: None for NULL, at the end of the file *)
Definition fgets (size : nat) (fin : text) : option (text * text) :=
  match fin with [] => None | _ => Some (get_line (pred size) fin) end.
(** the C string at the start of a buffer *)
Definition c_str (buffer : text) : text := take_while (fun c => negb (Ascii.eqb c "000"%char)) buffer.

(** ** fscanf *)
Definition is_dec (c : Ascii.ascii) : bool :=
  let n := Z.of_N (Ascii.N_of_ascii c) in (48 <=? n) && (n <=? 57).
(** %s, without the leading white space *)
Definition scan_word (fin : text) : option (text * text) :=
  match take_while (fun c => negb (is_space c)) fin with
  | [] => None
  | w => Some (w, drop (length w) fin)
  end.
Definition value (ds : text) : Z := fold_left (fun v c => v * 10 + undigit c) ds 0.
Definition scan_unsigned (s : text) : option (Z * text) :=
  match take_while is_dec s with [] => None | ds => Some (value ds, drop (length ds) s) end.
(** an optional sign and digits; None for a matching failure, which has read the sign *)
Definition is_sign (c : Ascii.ascii) : bool := Ascii.eqb c "-"%char || Ascii.eqb c "+"%char.
Definition skip_sign (fin : text) : text :=
  match fin with c :: s => if is_sign c then s else fin | [] => [] end.
Definition scan_number (fin : text) : option (Z * text) :=
  match scan_unsigned (skip_sign fin) with
  | Some (v, rest) =>
      Some (match fin with c :: _ => if Ascii.eqb c "-"%char then - v else v | [] => v end, rest)
  | None => None
  end.
(** %d and %u with glibc: strtol and strtoul saturate, then the value is cut to 32 bits *)
Definition as_int (v : Z) : Z := s32 (Z.max (- 2 ^ 63) (Z.min v (2 ^ 63 - 1))).
Definition as_uint (v : Z) : Z := u32 (if Z.abs v <? 2 ^ 64 then v else 2 ^ 64 - 1).
Definition skip_space : text -> text := skip_while is_space.

(** ** Facts *)
Section find.
Implicit Types pat st a b : text.

Lemma find_Some pat st p : find pat st = Some p ->
  st = take p st ++ pat ++ drop (p + length pat) st.
Proof.
  revert p. induction st as [|c st IH]; intros p; simpl; case_decide as Hp.
  - intros [= <-]. destruct Hp as [k Hk]. by destruct pat.
  - done.
  - intros [= <-]. destruct Hp as [k ->]. simpl. by rewrite drop_app_length.
  - destruct (find pat st) as [q|] eqn:Hq; [|done]. intros [= <-]. simpl. f_equal. by apply IH.
Qed.
Lemma find_None pat st : find pat st = None -> forall a b, st <> a ++ pat ++ b.
Proof.
  induction st as [|c st IH]; simpl; case_decide as Hp; try done.
  - intros _ a b Heq. apply Hp. symmetry in Heq. apply app_eq_nil in Heq as [-> Heq]. by exists b.
  - destruct (find pat st) eqn:Hq; [done|]. intros _ a b Heq. destruct a as [|x a]; simplify_eq/=.
    + apply Hp. exists b. done.
    + by eapply IH.
Qed.
Lemma find_app pat a b : exists p, find pat (a ++ pat ++ b) = Some p.
Proof.
  destruct (find pat _) as [p|] eqn:H; [by exists p|]. by destruct (find_None _ _ H a b).
Qed.
(** no occurrence starts before the position found *)
Lemma find_first pat st p i : find pat st = Some p -> (i < p)%nat -> ~ pat `prefix_of` drop i st.
Proof.
  revert p i. induction st as [|c st IH]; intros p i; simpl; case_decide as Hp; intros Hf Hi; simplify_eq/=; try lia.
  destruct (find pat st) as [q|] eqn:Hq; simplify_eq/=. destruct i as [|i]; [done|]. simpl. apply (IH q); [done|lia].
Qed.
End find.

Lemma skip_while_le p st : (length (skip_while p st) <= length st)%nat.
Proof. induction st as [|c st IH]; simpl; [done|]. destruct (p c); simpl; lia. Qed.
Lemma get_line_split n fin : fin = (get_line n fin).1 ++ (get_line n fin).2.
Proof.
  revert fin. induction n as [|n IH]; intros [|c fin]; simpl; [done..|].
  destruct (Ascii.eqb c newline); [done|]. specialize (IH fin). destruct (get_line n fin) as [l r]. simpl in *. by f_equal.
Qed.
Lemma fgets_split size fin l rest : fgets size fin = Some (l, rest) -> fin = l ++ rest.
Proof.
  unfold fgets. destruct fin as [|c fin]; [done|]. intros Hf.
  pose proof (get_line_split (pred size) (c :: fin)) as Hs. injection Hf as Hf. by rewrite Hf in Hs.
Qed.
Lemma fgets_lt size fin l rest : (2 <= size)%nat -> fgets size fin = Some (l, rest) -> (length rest < length fin)%nat.
Proof.
  intros Hs Hf. pose proof (f_equal length (fgets_split _ _ _ _ Hf)) as Hl. rewrite length_app in Hl.
  assert (l <> []) as Hne; [|destruct l; [done|simpl in Hl; lia]].
  unfold fgets in Hf. destruct fin as [|c fin]; [done|]. destruct size as [|[|n]]; [lia..|]. simpl in Hf.
  destruct (Ascii.eqb c newline); [|destruct (get_line n fin)]; by simplify_eq.
Qed.

(** *** Numbers *)
Lemma value_read ds v : fold_left (fun v c => v * 10 + undigit c) (txt ds) v = read_digits 10 v ds.
Proof. revert v. induction ds as [|c ds IH]; intros v; simpl; [done|]. apply IH. Qed.
Lemma digits_dec fuel : forall n acc, 0 <= n -> forallb is_dec (txt acc) = true -> forallb is_dec (txt (digits fuel 10 n acc)) = true.
Proof.
  induction fuel as [|fuel IH]; intros n acc Hn Ha; cbn [digits]; [done|]. cbv zeta.
  assert (forallb is_dec (txt (String (digit (n mod 10)) acc)) = true) as Hc.
  { simpl. rewrite Ha, andb_true_r.
    assert (Hd : In (n mod 10) (seqZ 0 10)) by (apply list_elem_of_In, elem_of_seqZ; dlia).
    repeat (destruct Hd as [<-|Hd]; [done|]). done. }
  destruct (_ =? 0); [done|]. apply IH; [apply Z.div_pos; lia|done].
Qed.
Lemma digits_nonempty fuel n acc : (fuel <> 0)%nat -> txt (digits fuel 10 n acc) <> [].
Proof.
  intros Hf. destruct fuel as [|fuel]; [done|]. clear Hf. revert n acc. induction fuel as [|fuel IH]; intros n acc.
  - cbn [digits]. cbv zeta. by destruct (_ =? 0).
  - cbn [digits]. cbv zeta. destruct (_ =? 0); [done|]. apply IH.
Qed.
Lemma take_while_all p l r : forallb p l = true -> take_while p r = [] -> take_while p (l ++ r) = l.
Proof.
  intros Hl Hr. induction l as [|c l IH]; simpl in *; [done|].
  apply andb_true_iff in Hl as [-> Hl]. by rewrite IH.
Qed.
(** [rest] does not continue a number *)
Definition ends_number (rest : text) : bool := match rest with [] => true | c :: _ => negb (is_dec c) end.
Lemma take_while_end rest : ends_number rest = true -> take_while is_dec rest = [].
Proof. destruct rest as [|c rest]; simpl; [done|]. by destruct (is_dec c). Qed.
Lemma print_base_dec n : 0 <= n -> forallb is_dec (txt (print_base 10 n)) = true.
Proof. intros Hn. by apply digits_dec. Qed.
Lemma print_base_nonempty n : txt (print_base 10 n) <> [].
Proof. by apply digits_nonempty. Qed.
Lemma scan_digits n rest : 0 <= n -> ends_number rest = true ->
  scan_unsigned (txt (print_base 10 n) ++ rest) = Some (n, rest).
Proof.
  intros Hn Hr. unfold scan_unsigned. pose proof (print_base_nonempty n) as Hne.
  rewrite take_while_all by (by apply print_base_dec || by apply take_while_end).
  destruct (txt (print_base 10 n)) as [|c ds] eqn:Hc; [done|]. rewrite <-Hc, drop_app_length.
  unfold value. rewrite value_read.
  change (Some (read_base 10 (print_base 10 n), rest) = Some (n, rest)). by rewrite read_print by lia.
Qed.
Lemma dec_not_sign c : is_dec c = true -> Ascii.eqb c "-"%char = false /\ is_sign c = false /\ is_space c = false.
Proof. destruct c as [[] [] [] [] [] [] [] []]; done. Qed.
(** the first character of a printed number *)
Lemma print_base_head n : 0 <= n -> exists c ds, txt (print_base 10 n) = c :: ds /\ is_dec c = true.
Proof.
  intros Hn. pose proof (print_base_nonempty n). pose proof (print_base_dec n Hn) as Hd.
  destruct (txt _) as [|c ds]; [done|]. simpl in Hd. apply andb_true_iff in Hd as [Hd _]. by exists c, ds.
Qed.
Lemma scan_print_dec n rest : ends_number rest = true -> scan_number (txt (print_dec n) ++ rest) = Some (n, rest).
Proof.
  intros Hr. unfold print_dec, scan_number. destruct (Z.ltb_spec n 0).
  - change (txt (String "-"%char (print_base 10 (- n))) ++ rest) with ("-"%char :: (txt (print_base 10 (- n)) ++ rest)).
    unfold skip_sign. change (is_sign "-"%char) with true. cbv iota. rewrite scan_digits by (done || lia). simpl. do 2 f_equal. lia.
  - destruct (print_base_head n) as (c & ds & Hc & Hd); [done|]. pose proof (scan_digits n rest ltac:(done) Hr) as Hs.
    rewrite Hc in *. apply dec_not_sign in Hd as (H1 & H2 & _). simpl in *. by rewrite H2, Hs, H1.
Qed.
Lemma skip_space_number n rest : skip_space (txt (print_dec n) ++ rest) = txt (print_dec n) ++ rest.
Proof.
  unfold print_dec. destruct (Z.ltb_spec n 0); [done|]. destruct (print_base_head n) as (c & ds & Hc & Hd); [done|].
  rewrite Hc. apply dec_not_sign in Hd as (_ & _ & Hd). unfold skip_space. simpl. by rewrite Hd.
Qed.
Lemma skip_while_idemp p st : skip_while p (skip_while p st) = skip_while p st.
Proof. induction st as [|c st IH]; simpl; [done|]. destruct (p c) eqn:Hc; [done|]. simpl. by rewrite Hc. Qed.
Lemma skip_space_idemp st : skip_space (skip_space st) = skip_space st.
Proof. apply skip_while_idemp. Qed.
