(* ===== verification/SyncFuncs.v ===== *)
(** * The table of synchronisation functions: include/tern/syncfuncs.def.h,
    include/tern/syncfuncs.h and lib/common/syncfuncs.cpp

    [all_syncs] lists the functions in the order of the table; the number of a function
    is its position, counted from first_sync = 1. *)
From S2P Require Import Prelude.

Inductive sync_kind : Type := Synchronization | BlockingSyscall | TernUser | TernAuto.

(** the enumerators, in a module: many of them are names of C functions *)
Module syncfunc.
Inductive t : Type :=
| not_sync | pthread_create | pthread_join | pthread_detach | pthread_cancel | pthread_exit
| pthread_mutex_init | pthread_mutex_lock | pthread_mutex_unlock | pthread_mutex_trylock
| pthread_mutex_timedlock | pthread_mutex_destroy | pthread_rwlock_rdlock
| pthread_rwlock_tryrdlock | pthread_rwlock_trywrlock | pthread_rwlock_wrlock
| pthread_rwlock_unlock | pthread_rwlock_destroy | pthread_rwlock_init | pthread_cond_wait
| pthread_cond_timedwait | pthread_cond_broadcast | pthread_cond_signal
| pthread_barrier_init | pthread_barrier_wait | pthread_barrier_destroy | sem_init
| sem_post | sem_wait | sem_trywait | sem_timedwait | socket | listen | accept | accept4
| connect | gethostbyname | gethostbyname_r | getaddrinfo | freeaddrinfo | gethostbyaddr
| inet_ntoa | strtok | send | sendto | sendmsg | recv | recvfrom | recvmsg | shutdown
| getpeername | getsockopt | setsockopt | pipe | fcntl | close | read | write | pread
| pwrite | select | poll | bind | kill | fork | execv | sched_yield | wait | waitpid | time
| clock_getres | clock_gettime | clock_settime | gettimeofday | settimeofday | sleep
| usleep | nanosleep | epoll_wait | epoll_create | epoll_ctl | sigwait | fgets
| tern_symbolic | tern_dummy_sync | tern_ext_get_turn | tern_ext_put_turn | tern_set_flag
| tern_thread_begin | tern_thread_end | tern_task_begin | tern_task_end | tern_lineup_init
| tern_lineup_destroy | tern_lineup_start | tern_lineup_end | tern_lineup
| tern_non_det_start | tern_non_det_end | tern_fix_up | tern_fix_down | tern_idle.
End syncfunc.

#[export] Instance syncfunc_eq_dec : EqDecision syncfunc.t.
Proof. solve_decision. Defined.

(** the rows of the table: the function, its kind and its name *)
Definition table : list (syncfunc.t * sync_kind * string) := [
  (syncfunc.pthread_create, Synchronization, "pthread_create");
  (syncfunc.pthread_join, Synchronization, "pthread_join");
  (syncfunc.pthread_detach, Synchronization, "pthread_detach");
  (syncfunc.pthread_cancel, Synchronization, "pthread_cancel");
  (syncfunc.pthread_exit, Synchronization, "pthread_exit");
  (syncfunc.pthread_mutex_init, Synchronization, "pthread_mutex_init");
  (syncfunc.pthread_mutex_lock, Synchronization, "pthread_mutex_lock");
  (syncfunc.pthread_mutex_unlock, Synchronization, "pthread_mutex_unlock");
  (syncfunc.pthread_mutex_trylock, Synchronization, "pthread_mutex_trylock");
  (syncfunc.pthread_mutex_timedlock, Synchronization, "pthread_mutex_timedlock");
  (syncfunc.pthread_mutex_destroy, Synchronization, "pthread_mutex_destroy");
  (syncfunc.pthread_rwlock_rdlock, Synchronization, "pthread_rwlock_rdlock");
  (syncfunc.pthread_rwlock_tryrdlock, Synchronization, "pthread_rwlock_tryrdlock");
  (syncfunc.pthread_rwlock_trywrlock, Synchronization, "pthread_rwlock_trywrlock");
  (syncfunc.pthread_rwlock_wrlock, Synchronization, "pthread_rwlock_wrlock");
  (syncfunc.pthread_rwlock_unlock, Synchronization, "pthread_rwlock_unlock");
  (syncfunc.pthread_rwlock_destroy, Synchronization, "pthread_rwlock_destroy");
  (syncfunc.pthread_rwlock_init, Synchronization, "pthread_rwlock_init");
  (syncfunc.pthread_cond_wait, Synchronization, "pthread_cond_wait");
  (syncfunc.pthread_cond_timedwait, Synchronization, "pthread_cond_timedwait");
  (syncfunc.pthread_cond_broadcast, Synchronization, "pthread_cond_broadcast");
  (syncfunc.pthread_cond_signal, Synchronization, "pthread_cond_signal");
  (syncfunc.pthread_barrier_init, Synchronization, "pthread_barrier_init");
  (syncfunc.pthread_barrier_wait, Synchronization, "pthread_barrier_wait");
  (syncfunc.pthread_barrier_destroy, Synchronization, "pthread_barrier_destroy");
  (syncfunc.sem_init, Synchronization, "sem_init");
  (syncfunc.sem_post, Synchronization, "sem_post");
  (syncfunc.sem_wait, Synchronization, "sem_wait");
  (syncfunc.sem_trywait, Synchronization, "sem_trywait");
  (syncfunc.sem_timedwait, Synchronization, "sem_timedwait");
  (syncfunc.socket, Synchronization, "socket");
  (syncfunc.listen, Synchronization, "listen");
  (syncfunc.accept, BlockingSyscall, "accept");
  (syncfunc.accept4, BlockingSyscall, "accept4");
  (syncfunc.connect, BlockingSyscall, "connect");
  (syncfunc.gethostbyname, Synchronization, "gethostbyname");
  (syncfunc.gethostbyname_r, Synchronization, "gethostbyname_r");
  (syncfunc.getaddrinfo, Synchronization, "getaddrinfo");
  (syncfunc.freeaddrinfo, Synchronization, "freeaddrinfo");
  (syncfunc.gethostbyaddr, Synchronization, "gethostbyaddr");
  (syncfunc.inet_ntoa, Synchronization, "inet_ntoa");
  (syncfunc.strtok, Synchronization, "strtok");
  (syncfunc.send, Synchronization, "send");
  (syncfunc.sendto, Synchronization, "sendto");
  (syncfunc.sendmsg, Synchronization, "sendmsg");
  (syncfunc.recv, BlockingSyscall, "recv");
  (syncfunc.recvfrom, BlockingSyscall, "recvfrom");
  (syncfunc.recvmsg, BlockingSyscall, "recvmsg");
  (syncfunc.shutdown, Synchronization, "shutdown");
  (syncfunc.getpeername, Synchronization, "getpeername");
  (syncfunc.getsockopt, Synchronization, "getsockopt");
  (syncfunc.setsockopt, Synchronization, "setsockopt");
  (syncfunc.pipe, BlockingSyscall, "pipe");
  (syncfunc.fcntl, Synchronization, "fcntl");
  (syncfunc.close, Synchronization, "close");
  (syncfunc.read, BlockingSyscall, "read");
  (syncfunc.write, Synchronization, "write");
  (syncfunc.pread, BlockingSyscall, "pread");
  (syncfunc.pwrite, Synchronization, "pwrite");
  (syncfunc.select, BlockingSyscall, "select");
  (syncfunc.poll, Synchronization, "poll");
  (syncfunc.bind, Synchronization, "bind");
  (syncfunc.kill, Synchronization, "kill");
  (syncfunc.fork, Synchronization, "fork");
  (syncfunc.execv, Synchronization, "execv");
  (syncfunc.sched_yield, Synchronization, "sched_yield");
  (syncfunc.wait, Synchronization, "wait");
  (syncfunc.waitpid, Synchronization, "waitpid");
  (syncfunc.time, Synchronization, "time");
  (syncfunc.clock_getres, Synchronization, "clock_getres");
  (syncfunc.clock_gettime, Synchronization, "clock_gettime");
  (syncfunc.clock_settime, Synchronization, "clock_settime");
  (syncfunc.gettimeofday, Synchronization, "gettimeofday");
  (syncfunc.settimeofday, Synchronization, "settimeofday");
  (syncfunc.sleep, BlockingSyscall, "sleep");
  (syncfunc.usleep, BlockingSyscall, "usleep");
  (syncfunc.nanosleep, BlockingSyscall, "nanosleep");
  (syncfunc.epoll_wait, BlockingSyscall, "epoll_wait");
  (syncfunc.epoll_create, Synchronization, "epoll_create");
  (syncfunc.epoll_ctl, Synchronization, "epoll_ctl");
  (syncfunc.sigwait, BlockingSyscall, "sigwait");
  (syncfunc.fgets, BlockingSyscall, "fgets");
  (syncfunc.tern_symbolic, TernUser, "tern_symbolic");
  (syncfunc.tern_dummy_sync, TernUser, "tern_dummy_sync");
  (syncfunc.tern_ext_get_turn, TernUser, "tern_ext_get_turn");
  (syncfunc.tern_ext_put_turn, TernUser, "tern_ext_put_turn");
  (syncfunc.tern_set_flag, TernUser, "tern_set_flag");
  (syncfunc.tern_thread_begin, TernAuto, "tern_thread_begin");
  (syncfunc.tern_thread_end, TernAuto, "tern_thread_end");
  (syncfunc.tern_task_begin, TernUser, "tern_task_begin");
  (syncfunc.tern_task_end, TernUser, "tern_task_end");
  (syncfunc.tern_lineup_init, TernUser, "tern_lineup_init");
  (syncfunc.tern_lineup_destroy, TernUser, "tern_lineup_destroy");
  (syncfunc.tern_lineup_start, TernUser, "tern_lineup_start");
  (syncfunc.tern_lineup_end, TernUser, "tern_lineup_end");
  (syncfunc.tern_lineup, TernUser, "tern_lineup");
  (syncfunc.tern_non_det_start, TernUser, "tern_non_det_start");
  (syncfunc.tern_non_det_end, TernUser, "tern_non_det_end");
  (syncfunc.tern_fix_up, TernAuto, "tern_fix_up");
  (syncfunc.tern_fix_down, TernAuto, "tern_fix_down");
  (syncfunc.tern_idle, TernAuto, "tern_idle")].

Definition not_sync : Z := 0.
Definition first_sync : Z := 1.
Definition num_syncs : Z := 1 + Z.of_nat (length table).

(** [name[]] and [nameInTern[]] *)
Definition name : list string := (fun r => r.2) <$> table.
Definition nameInTern : list string :=
  (fun r => match r.1.2 with
            | TernAuto => r.2
            | TernUser => String.append r.2 "_real"
            | _ => String.append "tern_" r.2
            end) <$> table.
Definition kind : list sync_kind := (fun r => r.1.2) <$> table.

(** the number of a function *)
Definition index_of (f : syncfunc.t) : Z :=
  match list_find (fun r => r.1.1 = f) table with
  | Some (i, _) => first_sync + Z.of_nat i
  | None => not_sync
  end.

(** [a[nr]] for an array whose entry 0 belongs to not_sync, after the assertion that
    [nr] is a function *)
Definition entry {A} (a : list A) (nr : Z) : res A :=
  if (first_sync <=? nr) && (nr <? num_syncs) then
    match a !! Z.to_nat (nr - first_sync) with
    | Some x => Ok x
    | None => Err OutOfBounds
    end
  else Err (AssertFail "first_sync <= nr && nr < num_syncs").

Definition getName (nr : Z) : res string := entry name nr.
Definition getTernName (nr : Z) : res string := entry nameInTern nr.

Definition has_kind (ks : list sync_kind) (nr : Z) : res bool :=
  match entry kind nr with
  | Ok k => Ok (existsb (fun k' => match k, k' with
                  | Synchronization, Synchronization | BlockingSyscall, BlockingSyscall
                  | TernUser, TernUser | TernAuto, TernAuto => true
                  | _, _ => false end) ks)
  | Err e => Err e
  end.
Definition isSync : Z -> res bool := has_kind [Synchronization].
Definition isBlockingSyscall : Z -> res bool := has_kind [BlockingSyscall].
Definition isTern : Z -> res bool := has_kind [TernUser; TernAuto].
Definition isTernUser : Z -> res bool := has_kind [TernUser].
Definition isTernAuto : Z -> res bool := has_kind [TernAuto].

(** the loop of getNameID and getTernNameID from number [i] on *)
Fixpoint name_loop (names : list string) (i : Z) (s : string) : Z :=
  match names with
  | [] => not_sync
  | n :: names' => if String.eqb s n then i else name_loop names' (i + 1) s
  end.
Definition getNameID (s : string) : Z := name_loop name first_sync s.
Definition getTernNameID (s : string) : Z := name_loop nameInTern first_sync s.

(** ** The names identify the functions *)
Lemma name_loop_spec names : NoDup names -> forall (i : Z) (k : nat) (s : string),
  names !! k = Some s -> name_loop names i s = i + Z.of_nat k.
Proof.
  induction 1 as [|n names Hn Hnd IH]; intros i k s Hk; [done|]. simpl.
  destruct k as [|k]; simpl in Hk.
  - simplify_eq. rewrite String.eqb_refl. lia.
  - destruct (String.eqb_spec s n) as [->|]; [by apply list_elem_of_lookup_2 in Hk|].
    rewrite (IH _ k) by done. lia.
Qed.

Lemma name_loop_none names : forall i s, s ∉ names -> name_loop names i s = not_sync.
Proof.
  induction names as [|n names IH]; intros i s Hs; [done|]. simpl.
  destruct (String.eqb_spec s n); [set_solver|]. apply IH. set_solver.
Qed.

Lemma entry_id (names : list string) nr s : length names = length table -> NoDup names ->
  entry names nr = Ok s -> name_loop names first_sync s = nr.
Proof.
  intros Hlen Hnd. unfold entry. destruct (_ && _) eqn:Hr; [|done].
  apply andb_true_iff in Hr as [H1 H2]. destruct (names !! _) as [n|] eqn:Hn; [|done].
  intros [= ->]. rewrite (name_loop_spec _ Hnd _ _ _ Hn). unfold first_sync in *. lia.
Qed.

Lemma names_nodup : NoDup name /\ NoDup nameInTern.
Proof. split; apply (bool_decide_unpack _); vm_compute; exact I. Qed.

(** the names of the table identify the functions: looking up the name of a function,
    as the application knows it or as the runtime does, gives its number, and a string
    that is no name gives not_sync. *)
Theorem name_roundtrip nr s :
  (getName nr = Ok s -> getNameID s = nr) /\
  (getTernName nr = Ok s -> getTernNameID s = nr) /\
  (getNameID s = not_sync \/ getName (getNameID s) = Ok s).
Proof.
  destruct names_nodup as [H1 H2]. split; [|split].
  - by apply entry_id.
  - by apply entry_id.
  - destruct (decide (s ∈ name)) as [[k Hk]%list_elem_of_lookup_1|Hs]; [right|left; by apply name_loop_none].
    unfold getNameID. rewrite (name_loop_spec _ H1 _ _ _ Hk). unfold getName, entry.
    pose proof (lookup_lt_Some _ _ _ Hk) as Hlt.
    assert (length name = length table) as Hl by apply length_fmap.
    unfold num_syncs, first_sync. rewrite (proj2 (Z.leb_le _ _)), (proj2 (Z.ltb_lt _ _)) by lia. simpl.
    replace (Z.to_nat (1 + Z.of_nat k - 1)) with k by lia. by rewrite Hk.
Qed.
