(* ===== verification/LogDefs.v ===== *)
(** * The records of the binary log: include/tern/logdefs.h

    A record occupies RECORD_SIZE bytes of the mapped log file.  The file is a map from
    offsets to bytes; integers are little endian and the fields lie where the x86-64 ABI
    puts them (ENABLE_PACKED_RECORD is not defined).  The enumerators of the header's
    anonymous enums have an unsigned type because INVALID_INSID does, so arithmetic with
    them is unsigned. *)
From S2P Require Import Prelude SyncFuncs.

Definition RECORD_SIZE : Z := 32.
Definition INSID_BITS : Z := 29.
Definition REC_TYPE_BITS : Z := 3.
Definition TRUNK_SIZE : Z := 1024 * 1024 * 1024.
Definition LOG_SIZE : Z := TRUNK_SIZE.
Definition MAX_INLINE_ARGS : Z := 2.
Definition MAX_EXTRA_ARGS : Z := 3.
Definition INVALID_INSID : Z := u32 (-1).

Definition InsidRecTy : Z := 0.
Definition LoadRecTy : Z := 1.
Definition StoreRecTy : Z := 2.
Definition CallRecTy : Z := 3.
Definition ExtraArgsRecTy : Z := 4.
Definition ReturnRecTy : Z := 5.
Definition SyncRecTy : Z := 6.

Definition CallIndirect : Z := 1.
Definition CallNoReturn : Z := 2.
Definition CalleeEscape : Z := 4.

Definition MAX_INSID : Z := 2 ^ INSID_BITS.
Definition INVALID_INSID_IN_REC : Z := Z.land INVALID_INSID (2 ^ INSID_BITS - 1).

(** ** Bytes of the log *)
Abbreviation mem := (gmap Z Z).

Fixpoint le_bytes (n : nat) (v : Z) : list Z :=
  match n with
  | 0%nat => []
  | S n' => v mod 256 :: le_bytes n' (v / 256)
  end.
Fixpoint store_bytes (a : Z) (bs : list Z) (m : mem) : mem :=
  match bs with
  | [] => m
  | b :: bs' => <[a := b]> (store_bytes (a + 1) bs' m)
  end.
(** the bytes of a file that was never written are 0 *)
Definition byte_at (m : mem) (a : Z) : Z := default 0 (m !! a) mod 256.
Fixpoint load (m : mem) (a : Z) (n : nat) : Z :=
  match n with
  | 0%nat => 0
  | S n' => byte_at m a + 256 * load m (a + 1) n'
  end.
Definition store (a : Z) (n : nat) (v : Z) (m : mem) : mem := store_bytes a (le_bytes n v) m.

(** ** The first word of a record: insid : 29, type : 3 *)
Definition insid_of (w : Z) : Z := w mod 2 ^ INSID_BITS.
Definition type_of (w : Z) : Z := w / 2 ^ INSID_BITS.
Definition with_insid (id w : Z) : Z := type_of w * 2 ^ INSID_BITS + id mod 2 ^ INSID_BITS.
Definition with_type (ty w : Z) : Z := (ty mod 2 ^ REC_TYPE_BITS) * 2 ^ INSID_BITS + insid_of w.

Definition validInsid (insid : Z) : bool := negb (insid =? INVALID_INSID_IN_REC).
Definition getInsid (insid : Z) : Z := if validInsid insid then insid else INVALID_INSID.
(** the value setInsid assigns to the bit field: None when its assertion fails *)
Definition setInsid (id : Z) : option Z :=
  let id := if id =? INVALID_INSID then INVALID_INSID_IN_REC else id in
  if id <? MAX_INSID then Some id else None.

(** ** Counting arguments and records *)

(** int operands are converted to unsigned *)
Definition NumExtraArgsRecords (narg : Z) : Z :=
  s32 (u32 (narg - MAX_INLINE_ARGS + MAX_EXTRA_ARGS - 1) / MAX_EXTRA_ARGS).

Definition NumSyncArgs (sync : Z) : Z :=
  if sync =? index_of syncfunc.pthread_cond_wait then 2 else 1.

Definition two_record_syncs : list syncfunc.t :=
  [syncfunc.accept; syncfunc.accept4; syncfunc.connect; syncfunc.recv; syncfunc.recvfrom;
   syncfunc.recvmsg; syncfunc.read; syncfunc.select; syncfunc.epoll_wait; syncfunc.epoll_create;
   syncfunc.epoll_ctl; syncfunc.sigwait; syncfunc.fgets; syncfunc.wait;
   syncfunc.pthread_cond_wait; syncfunc.pthread_barrier_wait; syncfunc.pthread_cond_timedwait].
Definition NumRecordsForSync (sync : Z) : Z :=
  if bool_decide (sync ∈ index_of <$> two_record_syncs) then 2 else 1.

(** seq is a uint8_t, narg a short *)
Definition CallRec_numArgsInRec (narg : Z) : Z := Z.min narg MAX_INLINE_ARGS.
Definition ExtraArgsRec_numArgsInRec (seq narg : Z) : Z :=
  Z.min (s16 (narg - MAX_INLINE_ARGS - (seq - 1) * MAX_EXTRA_ARGS)) MAX_EXTRA_ARGS.

(** what a record says of the number of records of its instruction *)
Definition numRecForInst (type narg flags sync : Z) : Z :=
  if (type =? CallRecTy) || (type =? ExtraArgsRecTy) || (type =? ReturnRecTy) then
    1 + NumExtraArgsRecords narg + (if Z.land flags CallNoReturn =? 0 then 1 else 0)
  else if type =? SyncRecTy then NumRecordsForSync sync
  else 1.

(** ** Facts *)
Section bytes.
Implicit Types (a : Z) (n : nat) (v : Z) (m : mem).

Lemma le_bytes_length n : forall v, length (le_bytes n v) = n.
Proof. induction n; intros v; simpl; auto. Qed.

Lemma store_bytes_other bs : forall a m b, b < a \/ a + Z.of_nat (length bs) <= b ->
  store_bytes a bs m !! b = m !! b.
Proof.
  induction bs as [|x bs IH]; intros a m b Hb; [done|]. cbn [store_bytes length] in *.
  rewrite lookup_insert_ne by lia. apply IH. lia.
Qed.

Lemma load_ext n : forall m m' a, (forall b, a <= b < a + Z.of_nat n -> m !! b = m' !! b) ->
  load m a n = load m' a n.
Proof.
  induction n as [|n IH]; intros m m' a H; [done|]. cbn [load]. unfold byte_at.
  rewrite (H a) by lia. f_equal. f_equal. apply IH. intros b Hb. apply H. lia.
Qed.

Lemma load_store_other m a n v b k : b + Z.of_nat k <= a \/ a + Z.of_nat n <= b ->
  load (store a n v m) b k = load m b k.
Proof.
  intros H. apply load_ext. intros c Hc. apply store_bytes_other. rewrite le_bytes_length. lia.
Qed.

Lemma load_store_same n : forall m a v, load (store a n v m) a n = v mod 2 ^ (8 * Z.of_nat n).
Proof.
  induction n as [|n IH]; intros m a v; [by rewrite Z.mod_1_r|].
  unfold store. cbn [le_bytes store_bytes load]. unfold byte_at. rewrite lookup_insert_eq. simpl default. rewrite Zmod_mod.
  rewrite (load_ext n _ (store (a + 1) n (v / 256) m)); [rewrite IH|].
  - replace (8 * Z.of_nat (S n)) with (8 + 8 * Z.of_nat n) by lia.
    rewrite Z.pow_add_r by lia. change (2 ^ 8) with 256. rewrite Z.rem_mul_r by lia. lia.
  - intros b Hb. by rewrite lookup_insert_ne by lia.
Qed.

Lemma load_store_small n m a v : 0 <= v < 2 ^ (8 * Z.of_nat n) -> load (store a n v m) a n = v.
Proof. intros H. by rewrite load_store_same, Z.mod_small. Qed.

Lemma load_range n : forall m a, 0 <= load m a n < 2 ^ (8 * Z.of_nat n).
Proof.
  induction n as [|n IH]; intros m a; [done|]. cbn [load].
  pose proof (IH m (a + 1)) as Hl. pose proof (Z.mod_pos_bound (default 0 (m !! a)) 256 ltac:(lia)) as Hb.
  unfold byte_at. replace (8 * Z.of_nat (S n)) with (8 + 8 * Z.of_nat n) by lia.
  rewrite Z.pow_add_r by lia. change (2 ^ 8) with 256. lia.
Qed.

Lemma store_other m a n v b : b < a \/ a + Z.of_nat n <= b -> store a n v m !! b = m !! b.
Proof. intros H. apply store_bytes_other. by rewrite le_bytes_length. Qed.
End bytes.

Lemma insid_with_insid id w : insid_of (with_insid id w) = id mod 2 ^ INSID_BITS.
Proof. unfold insid_of, with_insid, INSID_BITS. by rewrite Z.add_comm, Z_mod_plus_full, Zmod_mod. Qed.
Lemma insid_with_type ty w : insid_of (with_type ty w) = insid_of w.
Proof. unfold with_type, insid_of, INSID_BITS. by rewrite Z.add_comm, Z_mod_plus_full, Zmod_mod. Qed.
Lemma type_with_type ty w : type_of (with_type ty w) = ty mod 8.
Proof.
  unfold type_of, with_type, insid_of, INSID_BITS, REC_TYPE_BITS. change (2 ^ 3) with 8.
  rewrite Z.div_add_l by lia. rewrite Z.div_small; [lia|]. by apply Z.mod_pos_bound.
Qed.
Lemma type_with_insid id w : type_of (with_insid id w) = type_of w.
Proof.
  unfold with_insid, type_of, INSID_BITS. rewrite Z.div_add_l by lia.
  rewrite (Z.div_small (id mod _)); [lia|]. by apply Z.mod_pos_bound.
Qed.

(** the first word stays a word of 32 bits *)
Lemma with_type_range ty w : 0 <= with_type ty w < 2 ^ 32.
Proof.
  unfold with_type, insid_of, INSID_BITS, REC_TYPE_BITS.
  pose proof (Z.mod_pos_bound ty (2 ^ 3) ltac:(lia)). pose proof (Z.mod_pos_bound w (2 ^ 29) ltac:(lia)). lia.
Qed.
Lemma with_insid_range id w : 0 <= w < 2 ^ 32 -> 0 <= with_insid id w < 2 ^ 32.
Proof.
  intros Hw. unfold with_insid, type_of, INSID_BITS.
  assert (0 <= w / 2 ^ 29 < 8) by (split; [apply Z.div_pos; lia|apply Z.div_lt_upper_bound; lia]).
  pose proof (Z.mod_pos_bound id (2 ^ 29) ltac:(lia)). lia.
Qed.

(** an instruction id that fits: not one of the ids that setInsid rejects or confuses *)
Definition insid_ok (id : Z) : Prop := 0 <= id < 2 ^ INSID_BITS - 1 \/ id = INVALID_INSID.

Lemma getInsid_setInsid id : insid_ok id ->
  exists v, setInsid id = Some v /\ 0 <= v < 2 ^ INSID_BITS /\ getInsid v = id.
Proof.
  unfold insid_ok, setInsid, getInsid, validInsid. change INVALID_INSID_IN_REC with 536870911.
  change INVALID_INSID with 4294967295. unfold MAX_INSID, INSID_BITS. intros [Hid| ->].
  - exists id. rewrite (proj2 (Z.eqb_neq id 4294967295)) by lia.
    rewrite (proj2 (Z.ltb_lt _ _)), (proj2 (Z.eqb_neq id 536870911)) by lia. split_and!; try done; lia.
  - by exists 536870911.
Qed.

(** the number of records the arguments of a call need besides the first one *)
Lemma NumExtraArgsRecords_value narg : 0 <= narg < 2 ^ 31 -> NumExtraArgsRecords narg = narg / 3.
Proof.
  intros H. unfold NumExtraArgsRecords, MAX_INLINE_ARGS, MAX_EXTRA_ARGS.
  replace (narg - 2 + 3 - 1) with narg by lia. rewrite u32_small by lia. apply s32_small. split; [|apply Z.div_lt_upper_bound; lia]. transitivity 0; [lia|apply Z.div_pos; lia].
Qed.
