(* ===== verification/Options.v ===== *)
(** * Run-time options and the standard-library behaviour the sources leave open

    The [options::] variables are declared by a header the build generates from
    default.options; they are parameters of the model.  [ndebug] is the NDEBUG macro:
    lib/runtime/Makefile defines it, a debug build does not. *)
From S2P Require Import Prelude.

Class Options : Type := {
  ndebug : bool;
  scheduling_policy : Z;             (* bit 0: critical section first; 1: wake-up map; 2: hp queue *)
  enforce_turn_type : Z;             (* 0 busy, 1 semaphore, 2 hybrid, < 0 TONDSync *)
  launch_idle_thread : Z;
  enforce_non_det_annotations : Z;
  enforce_no_wait_non_det_annotations : Z;
  enforce_next_n_annotations : bool;
  enforce_ext_turn : bool;
  enforce_dummy_sync : bool;
  enforce_non_det_clock_bound : bool;
  non_det_clock_bound : Z;
  wakeamap_plus : bool;
  high_priority_yield : bool;
  nanosec_per_turn : Z;
  log_sync : bool;
  generate_per_sync_stats : bool;
  record_runtime_stat : bool;
  rr_ignore_rw_regular_file : bool;
  enforce_delays : bool;
  log_task_time : Z;
  non_det_for_single_thread : Z;
  exec_sleep : bool;
  non_block_recv : bool;
  set_mutex_errorcheck : bool;
  DMT : bool;
  enforce_annotations : bool;
  disable_soba : bool;
  dync_geteip : bool;
  whole_stack_eip_signature : bool;
  backtrace_level : Z
}.

(** the hp_runq policy *)
Definition hp_policy `{Options} : bool := flag_set scheduling_policy 4.

(** The iteration order of a [tr1::unordered_set<int>] is not specified; all that is
    known is that a loop over it visits every element once. *)
Class UnorderedIter : Type := {
  set_order : gset Z -> list Z;
  set_order_perm X : set_order X ≡ₚ elements X
}.

(** an instance: the order of stdpp's sets *)
Definition elements_order : UnorderedIter := {| set_order X := elements X; set_order_perm X := reflexivity _ |}.

(** constants of the C library (Linux) *)
Definition EBUSY : Z := 16.
Definition EAGAIN : Z := 11.
Definition ETIMEDOUT : Z := 110.
Definition EINVAL : Z := 22.
Definition PTHREAD_BARRIER_SERIAL_THREAD : Z := -1.
Definition UINT_MAX : Z := 2 ^ 32 - 1.
