(* ===== verification/BinLog.v ===== *)
(** * The binary log: BinLogger of include/tern/runtime/record-log.h and
    lib/runtime/record-log.cpp

    The log file is mapped in one piece of TRUNK_SIZE bytes.  A store into the mapping
    beyond the last page of the file kills the process (SIGBUS) and one outside the
    mapping is a memory error: both are [OutOfBounds].  A function that takes a va_list
    takes the list of the remaining arguments; reading beyond its end is [UninitRead]. *)
From S2P Require Import Prelude Options SyncFuncs LogDefs.

(** addresses of the C library's exit and pthread_exit *)
Class ExitAddrs : Type := { addr_exit : Z; addr_pthread_exit : Z }.

Record binlog : Type := BinLog {
  bl_file : gmap Z Z;       (* the bytes of the file *)
  bl_size : Z;              (* its length *)
  bl_buf : option Z;        (* buf: the file offset it maps, None for NULL *)
  bl_off : Z;               (* unsigned *)
  bl_foff : Z;              (* off_t *)
  bl_funcs : gmap Z Z       (* Logger::funcs, shared by all loggers *)
}.
Definition set_file (f : gmap Z Z) (b : binlog) : binlog :=
  BinLog f (bl_size b) (bl_buf b) (bl_off b) (bl_foff b) (bl_funcs b).
Definition set_off (o : Z) (b : binlog) : binlog :=
  BinLog (bl_file b) (bl_size b) (bl_buf b) o (bl_foff b) (bl_funcs b).
Definition set_funcs (fs : gmap Z Z) (b : binlog) : binlog :=
  BinLog (bl_file b) (bl_size b) (bl_buf b) (bl_off b) (bl_foff b) fs.
Abbreviation LM := (M binlog).

Definition PAGE_SIZE : Z := 4096.
(** the file offset up to which a mapping of a file of length [n] can be accessed *)
Definition page_end (n : Z) : Z := (n + PAGE_SIZE - 1) / PAGE_SIZE * PAGE_SIZE.

Section binlog.
Context `{O : Options, E : ExitAddrs}.

(** the field of [n] bytes at [d] in the record at buf+off *)
Definition field_addr (d : Z) (n : nat) : LM Z :=
  b ← get;
  match bl_buf b with
  | None => fail NullDeref
  | Some base =>
      let a := bl_off b + d in
      if (a + Z.of_nat n <=? TRUNK_SIZE) && (base + a + Z.of_nat n <=? page_end (bl_size b))
      then mret (base + a) else fail OutOfBounds
  end.
Definition poke (d : Z) (n : nat) (v : Z) : LM unit :=
  a ← field_addr d n; modify (fun b => set_file (store a n v (bl_file b)) b).
Definition peek (d : Z) (n : nat) : LM Z :=
  a ← field_addr d n; gets (fun b => load (bl_file b) a n).

Definition rec_setInsid (id : Z) : LM unit :=
  let id := if id =? INVALID_INSID then INVALID_INSID_IN_REC else id in
  cassert ndebug (id <? MAX_INSID) "instruction id larger than (1U<<29)!" ;;
  w ← peek 0 4; poke 0 4 (with_insid id w).
Definition rec_setType (ty : Z) : LM unit := w ← peek 0 4; poke 0 4 (with_type ty w).

Definition checkAndGrowLogSize : LM unit :=
  off ← gets bl_off;
  cassert ndebug (off +u32 RECORD_SIZE <=? TRUNK_SIZE) "off + RECORD_SIZE <= TRUNK_SIZE".
Definition next_record : LM unit := modify (fun b => set_off (bl_off b +u32 RECORD_SIZE) b).

(** [args[0]], ..., at [d], from a va_list; the rest of the list *)
Fixpoint write_args (d : Z) (k : nat) (vl : list Z) : LM (list Z) :=
  match k with
  | 0%nat => mret vl
  | S k' =>
      match vl with
      | [] => fail UninitRead
      | v :: vl' => poke d 8 v ;; write_args (d + 8) k' vl'
      end
  end.

Definition logInsid (insid : Z) : LM unit :=
  checkAndGrowLogSize ;; rec_setInsid insid ;; rec_setType InsidRecTy ;; next_record.

Definition logMem (type insid addr data : Z) : LM unit :=
  checkAndGrowLogSize ;; rec_setInsid insid ;; rec_setType type ;;
  poke 16 8 addr ;; poke 24 8 data ;; next_record.
Definition logLoad : Z -> Z -> Z -> LM unit := logMem LoadRecTy.
Definition logStore : Z -> Z -> Z -> LM unit := logMem StoreRecTy.

Definition call_flags (flags func : Z) : Z :=
  if negb (Z.land flags CallIndirect =? 0) && ((func =? addr_exit) || (func =? addr_pthread_exit))
  then Z.lor flags CallNoReturn else flags.
Definition funcHasID (func : Z) : LM bool := gets (fun b => bool_decide (bl_funcs b !! func <> None)).
(** [funcs[func]] *)
Definition func_id (func : Z) : LM Z :=
  n ← gets (fun b => default 0 (bl_funcs b !! func));
  modify (fun b => set_funcs (<[func := n]> (bl_funcs b)) b) ;; mret n.

(** the records with the arguments from number [i] on; [seq] is their number *)
Fixpoint extra_args (count : nat) (seq insid narg i : Z) (vl : list Z) : LM unit :=
  match count with
  | 0%nat => mret tt
  | S count' =>
      checkAndGrowLogSize ;; rec_setInsid insid ;; rec_setType ExtraArgsRecTy ;;
      poke 5 1 seq ;; poke 6 2 narg ;;
      let rec_narg := Z.min narg (s16 (MAX_INLINE_ARGS + MAX_EXTRA_ARGS * seq)) in
      vl ← write_args 8 (Z.to_nat (rec_narg - i)) vl;
      next_record ;;
      extra_args count' (s16 (seq + 1)) insid narg (Z.max i rec_narg) vl
  end.

Definition logCall (flags insid narg func : Z) (vl : list Z) : LM unit :=
  let flags := call_flags flags func in
  has ← funcHasID func;
  cassert ndebug has "funcHasID(func)" ;;
  checkAndGrowLogSize ;;
  let nextra := s16 (NumExtraArgsRecords narg) in
  rec_setInsid insid ;; rec_setType CallRecTy ;;
  poke 4 1 flags ;; poke 5 1 0 ;; poke 6 2 narg ;;
  id ← func_id func; poke 8 4 id ;;
  let rec_narg := Z.min narg (s16 MAX_INLINE_ARGS) in
  vl ← write_args 16 (Z.to_nat rec_narg) vl;
  next_record ;;
  extra_args (Z.to_nat nextra) 1 insid narg (Z.max 0 rec_narg) vl.

Definition logRet (flags insid narg func data : Z) : LM unit :=
  let flags := call_flags flags func in
  has ← funcHasID func;
  cassert ndebug has "funcHasID(func)" ;;
  cassert ndebug (Z.land flags CallNoReturn =? 0) "Logging return from a function that doesn't return!" ;;
  checkAndGrowLogSize ;;
  let seq := s16 (NumExtraArgsRecords narg + 1) in
  rec_setInsid insid ;; rec_setType ReturnRecTy ;;
  poke 4 1 flags ;; poke 5 1 seq ;; poke 6 2 narg ;;
  id ← func_id func; poke 8 4 id ;;
  poke 16 8 data ;; next_record.

(** the times are not logged; the byte [timedout] is not written *)
Definition bin_logSync (insid sync turn : Z) (after : bool) (vl : list Z) : LM unit :=
  checkAndGrowLogSize ;;
  cassert ndebug ((first_sync <=? sync) && (sync <? num_syncs)) "trying to log unknown synchronization operation!" ;;
  rec_setInsid insid ;; rec_setType SyncRecTy ;;
  poke 4 2 sync ;; poke 8 4 turn ;; poke 6 1 (if after then 1 else 0) ;;
  cassert ndebug (NumSyncArgs sync <=? MAX_INLINE_ARGS) "NumSyncArgs(sync) <= (int)MAX_INLINE_ARGS" ;;
  _ ← write_args 16 (Z.to_nat (NumSyncArgs sync)) vl;
  next_record.

(** mmap of the next piece *)
Definition mapLogTrunk (b : binlog) : binlog :=
  BinLog (bl_file b) (bl_size b) (Some (bl_foff b)) 0 (bl_foff b + TRUNK_SIZE) (bl_funcs b).
(** the constructor, for a log file with the given bytes and length (no bytes and length 0
    if it does not exist): ftruncate is called inside assert() *)
Definition new_binlog (file : gmap Z Z) (size : Z) (funcs : gmap Z Z) : binlog :=
  mapLogTrunk (BinLog file (if ndebug then size else LOG_SIZE) None 0 0 funcs).
(** the destructor: the length of the file it leaves *)
Definition close_size (b : binlog) : Z :=
  if ndebug then bl_size b else bl_foff b - TRUNK_SIZE + bl_off b.
End binlog.
