(* ===== verification/BinLogRead.v ===== *)
(** * Reading the binary log back

    [read_rec] reads a record through the structs of logdefs.h and their accessors; the
    theorems say that what the BinLogger writes is what a reader finds. *)
From S2P Require Import Prelude Options SyncFuncs LogDefs BinLog.

(** the length of the log file, once it is open *)
Class FileSize : Type := file_size : Z.

Inductive log_rec : Type :=
| RInsid (insid : Z)
| RLoad (insid addr data : Z)
| RStore (insid addr data : Z)
| RCall (insid flags seq narg funcid : Z) (args : list Z)
| RExtra (insid seq narg : Z) (args : list Z)
| RRet (insid flags seq narg funcid data : Z)
| RSync (insid sync : Z) (after : bool) (turn : Z) (args : list Z).

Fixpoint read_args (m : mem) (a : Z) (k : nat) : list Z :=
  match k with 0%nat => [] | S k' => load m a 8 :: read_args m (a + 8) k' end.

(** the record at file offset [a]; a type no record has gives None *)
Definition read_rec (m : mem) (a : Z) : option log_rec :=
  let w := load m a 4 in
  let insid := getInsid (insid_of w) in
  let flags := load m (a + 4) 1 in
  let seq := load m (a + 5) 1 in
  let narg := s16 (load m (a + 6) 2) in
  let funcid := s32 (load m (a + 8) 4) in
  let sync := s16 (load m (a + 4) 2) in
  match type_of w with
  | 0 => Some (RInsid insid)
  | 1 => Some (RLoad insid (load m (a + 16) 8) (load m (a + 24) 8))
  | 2 => Some (RStore insid (load m (a + 16) 8) (load m (a + 24) 8))
  | 3 => Some (RCall insid flags seq narg funcid
                 (read_args m (a + 16) (Z.to_nat (CallRec_numArgsInRec narg))))
  | 4 => Some (RExtra insid seq narg
                 (read_args m (a + 8) (Z.to_nat (ExtraArgsRec_numArgsInRec seq narg))))
  | 5 => Some (RRet insid flags seq narg funcid (load m (a + 16) 8))
  | 6 => Some (RSync insid sync (negb (load m (a + 6) 1 =? 0)) (s32 (load m (a + 8) 4))
                 (read_args m (a + 16) (Z.to_nat (NumSyncArgs sync))))
  | _ => None
  end.

Fixpoint read_log (m : mem) (a : Z) (n : nat) : list (option log_rec) :=
  match n with 0%nat => [] | S n' => read_rec m a :: read_log m (a + RECORD_SIZE) n' end.

(** ** What an operation logs *)
Inductive log_op : Type :=
| LInsid (insid : Z)
| LLoad (insid addr data : Z)
| LStore (insid addr data : Z)
| LCall (flags insid func : Z) (args : list Z)
| LRet (flags insid narg func data : Z)
| LSync (insid sync turn : Z) (after : bool) (args : list Z).

Section ops.
Context `{O : Options, E : ExitAddrs}.

Definition run_log_op (o : log_op) : LM unit :=
  match o with
  | LInsid i => logInsid i
  | LLoad i a d => logLoad i a d
  | LStore i a d => logStore i a d
  | LCall f i func args => logCall f i (Z.of_nat (length args)) func args
  | LRet f i n func d => logRet f i n func d
  | LSync i sync turn after args => bin_logSync i sync turn after args
  end.

(** the extra-argument records of a call: three arguments each *)
Fixpoint extra_recs (count : nat) (seq insid narg : Z) (args : list Z) : list log_rec :=
  match count with
  | 0%nat => []
  | S c => RExtra insid seq narg (take 3 args) :: extra_recs c (seq + 1) insid narg (drop 3 args)
  end.

Definition log_recs (funcs : gmap Z Z) (o : log_op) : list log_rec :=
  match o with
  | LInsid i => [RInsid i]
  | LLoad i a d => [RLoad i a d]
  | LStore i a d => [RStore i a d]
  | LCall f i func args =>
      let n := Z.of_nat (length args) in
      RCall i (call_flags f func) 0 n (default 0 (funcs !! func)) (take 2 args)
      :: extra_recs (Z.to_nat (n / 3)) 1 i n (drop 2 args)
  | LRet f i n func d => [RRet i (call_flags f func) (n / 3 + 1) n (default 0 (funcs !! func)) d]
  | LSync i sync turn after args => [RSync i sync after turn (take (Z.to_nat (NumSyncArgs sync)) args)]
  end.

Definition arg_ok (v : Z) : Prop := 0 <= v < 2 ^ 64.
(** a call has at most 767 arguments: its records are numbered by a uint8_t *)
Definition log_op_ok (funcs : gmap Z Z) (o : log_op) : Prop :=
  match o with
  | LInsid i => insid_ok i
  | LLoad i a d | LStore i a d => insid_ok i /\ arg_ok a /\ arg_ok d
  | LCall f i func args =>
      insid_ok i /\ 0 <= f < 2 ^ 8 /\ (length args <= 767)%nat /\ Forall arg_ok args /\
      exists id, funcs !! func = Some id /\ 0 <= id < 2 ^ 31
  | LRet f i n func d =>
      insid_ok i /\ 0 <= f < 2 ^ 8 /\ Z.land (call_flags f func) CallNoReturn = 0 /\
      0 <= n < 765 /\ arg_ok d /\ exists id, funcs !! func = Some id /\ 0 <= id < 2 ^ 31
  | LSync i sync turn after args =>
      insid_ok i /\ first_sync <= sync < num_syncs /\ 0 <= turn < 2 ^ 31 /\ Forall arg_ok args /\
      (Z.to_nat (NumSyncArgs sync) <= length args)%nat
  end.

(** ** One record *)
Implicit Types (f : gmap Z Z) (off : Z).
Context (funcs : gmap Z Z).

(** a logger on an opened log; of the mapped piece the first [room] bytes can be accessed *)
Context {sz : FileSize}.
Definition at_off f off : binlog := BinLog f file_size (Some 0) off TRUNK_SIZE funcs.
Definition room : Z := Z.min TRUNK_SIZE (page_end file_size).
Lemma room_le : room <= TRUNK_SIZE /\ room <= page_end file_size.
Proof. unfold room. lia. Qed.

(** only the record at [off] has changed *)
Definition only_at off f f' : Prop := forall b, b < off \/ off + RECORD_SIZE <= b -> f' !! b = f !! b.

Lemma field_addr_ok f off d (n : nat) : 0 <= off -> 0 <= d -> off + d + Z.of_nat n <= room ->
  field_addr d n (at_off f off) = Ok (off + d, at_off f off).
Proof.
  intros Ho Hd Hn. pose proof room_le. unfold field_addr, get, mbind, M_bind, at_off, file_size in *. simpl.
  by rewrite !(proj2 (Z.leb_le _ _)) by lia.
Qed.
Lemma poke_ok f off d n v : 0 <= off -> 0 <= d -> off + d + Z.of_nat n <= room ->
  poke d n v (at_off f off) = Ok (tt, at_off (store (off + d) n v f) off).
Proof. intros Ho Hd Hn. unfold poke, mbind, M_bind. by rewrite field_addr_ok. Qed.
Lemma peek_ok f off d n : 0 <= off -> 0 <= d -> off + d + Z.of_nat n <= room ->
  peek d n (at_off f off) = Ok (load f (off + d) n, at_off f off).
Proof. intros Ho Hd Hn. unfold peek, mbind, M_bind. by rewrite field_addr_ok. Qed.

(** the header of the record at [off] *)
Definition header (f : gmap Z Z) (off v ty : Z) : Prop :=
  insid_of (load f off 4) = v /\ type_of (load f off 4) = ty.

Lemma header_store f off v ty a n x : header f off v ty -> off + 4 <= a -> header (store a n x f) off v ty.
Proof. intros [H1 H2] Ha. unfold header. rewrite !load_store_other by lia. done. Qed.
Lemma only_refl off f : only_at off f f.
Proof. by intros b Hb. Qed.
Lemma only_store off f f' a n x : only_at off f f' -> off <= a -> a + Z.of_nat n <= off + 32 ->
  only_at off f (store a n x f').
Proof. intros H H1 H2 b Hb. unfold RECORD_SIZE in *. rewrite store_other by lia. by apply H. Qed.

Section steps.
Context {X : error -> Prop} (f : gmap Z Z) (off : Z).
Implicit Type Q : unit -> binlog -> Prop.
Context (Hoff : 0 <= off) (Hfit : off + RECORD_SIZE <= room).

Lemma wp_poke g d (n : nat) v Q : 0 <= d -> d + Z.of_nat n <= 32 ->
  Q tt (at_off (store (off + d) n v g) off) -> wpx X (poke d n v) Q (at_off g off).
Proof. intros Hd Hn HQ. unfold RECORD_SIZE in *. unfold wpx. by rewrite poke_ok by lia. Qed.

Lemma wp_check Q : Q tt (at_off f off) -> wpx X checkAndGrowLogSize Q (at_off f off).
Proof.
  intros HQ. unfold checkAndGrowLogSize. wp_steps. apply wp_cassert; [|done].
  pose proof room_le. cbn [at_off bl_off]. unfold RECORD_SIZE in *. rewrite u32_small; [lia|]. change TRUNK_SIZE with 1073741824 in *. lia.
Qed.

Lemma wp_next_record g Q : Q tt (at_off g (off + 32)) -> wpx X next_record Q (at_off g off).
Proof.
  intros HQ. pose proof room_le. unfold next_record. wp_steps. unfold set_off, at_off. simpl.
  unfold RECORD_SIZE in *. rewrite u32_small; [done|]. change TRUNK_SIZE with 1073741824 in *. lia.
Qed.

Lemma wp_header id v ty Q : setInsid id = Some v -> 0 <= v < 2 ^ INSID_BITS -> 0 <= ty < 8 ->
  (forall g, header g off v ty -> only_at off f g -> Q tt (at_off g off)) ->
  wpx X (rec_setInsid id ;; rec_setType ty) Q (at_off f off).
Proof.
  intros Hid Hv Hty HQ. unfold RECORD_SIZE in *. unfold setInsid in Hid.
  unfold rec_setInsid, rec_setType. set (id' := if id =? INVALID_INSID then _ else _) in *.
  destruct (id' <? MAX_INSID) eqn:Hlt; [|done]. injection Hid as ->.
  wp_step. wp_step. apply wp_cassert; [done|]. wp_step. unfold wpx at 1.
  rewrite peek_ok by lia. apply wp_poke; [lia|lia|]. wp_step. unfold wpx at 1.
  rewrite peek_ok by lia. apply wp_poke; [lia|lia|]. rewrite Z.add_0_r. apply HQ.
  - unfold header. rewrite load_store_small by apply with_type_range.
    rewrite load_store_small by apply with_insid_range, (load_range 4).
    by rewrite insid_with_type, insid_with_insid, type_with_type, !Z.mod_small.
  - apply only_store; [|lia|lia]. apply only_store; [apply only_refl|lia|lia].
Qed.

(** arguments are stored in order *)
Lemma wp_write_args k : forall g (d : Z) vl (Q : list Z -> binlog -> Prop), (k <= length vl)%nat ->
  Forall arg_ok vl -> 0 <= d -> d + 8 * Z.of_nat k <= 32 ->
  (forall g', (forall b, b < off + d \/ off + d + 8 * Z.of_nat k <= b -> g' !! b = g !! b) ->
     read_args g' (off + d) k = take k vl -> Q (drop k vl) (at_off g' off)) ->
  wpx X (write_args d k vl) Q (at_off g off).
Proof.
  induction k as [|k IH]; intros g d vl Q Hlen Hok Hd Hk HQ; cbn [write_args].
  { wp_steps. by apply HQ. }
  destruct vl as [|v vl]; [simpl in Hlen; lia|]. apply Forall_cons in Hok as [Hv Hok].
  wp_step. apply wp_poke; [lia|lia|]. simpl in Hlen. apply IH; [lia|done|lia|lia|].
  intros g' Hout Hread. apply HQ.
  - intros b Hb. rewrite Hout by lia. apply store_other. lia.
  - cbn [read_args take]. f_equal; [|by rewrite <-Z.add_assoc].
    rewrite (load_ext _ _ (store (off + d) 8 v g)) by (intros b Hb; apply Hout; lia).
    apply load_store_small. exact Hv.
Qed.
End steps.

(** a file in which [m] logs one record *)
Definition logs (m : LM unit) (f : gmap Z Z) (off : Z) (r : log_rec) : Prop :=
  exists f', m (at_off f off) = Ok (tt, at_off f' (off + RECORD_SIZE)) /\ only_at off f f' /\
    read_rec f' off = Some r.

Lemma wp_logs m f off r :
  wp m (fun _ b => exists f', b = at_off f' (off + RECORD_SIZE) /\ only_at off f f' /\
          read_rec f' off = Some r) (at_off f off) -> logs m f off r.
Proof. intros H. apply wp_elim in H as ([] & b & Hm & f' & -> & H1 & H2). by exists f'. Qed.
End ops.

(** evaluate the loads of a goal *)
Ltac loads := repeat first
  [ rewrite load_store_small by (cbn; unfold arg_ok in *; lia)
  | rewrite load_store_other by lia ].

Section records.
Context `{O : Options, E : ExitAddrs} (funcs : gmap Z Z) {sz : FileSize} (f : gmap Z Z) (off : Z).
Context (Hoff : 0 <= off) (Hfit : off + RECORD_SIZE <= room).
Abbreviation logs := (logs funcs).

Lemma logInsid_logs i : insid_ok i -> logs (logInsid i) f off (RInsid i).
Proof using Hoff Hfit.
  intros Hi. destruct (getInsid_setInsid i Hi) as (v & Hs & Hv & Hg). apply wp_logs.
  unfold logInsid. wp_step. apply wp_check; [done|done|]. apply wp_bind_assoc2. wp_step.
  eapply wp_header; [done|done|done|exact Hv|done|]. intros g [H1 H2] Ho.
  apply wp_next_record; [done|done|]. exists g. split_and!; [done|done|].
  unfold read_rec. by rewrite H1, H2, Hg.
Qed.

Lemma logMem_logs ty i a d r : insid_ok i -> arg_ok a -> arg_ok d ->
  ty = LoadRecTy /\ r = RLoad i a d \/ ty = StoreRecTy /\ r = RStore i a d ->
  logs (logMem ty i a d) f off r.
Proof using Hoff Hfit.
  intros Hi Ha Hd Hty. destruct (getInsid_setInsid i Hi) as (v & Hs & Hv & Hg). apply wp_logs.
  assert (Ht : 0 <= ty < 8) by (destruct Hty as [[-> _]|[-> _]]; done).
  unfold logMem. wp_step. apply wp_check; [done|done|]. apply wp_bind_assoc2. wp_step.
  eapply wp_header; [done|done|done|exact Hv|done|]. intros g H Ho. wp_step.
  apply wp_poke; [done|done|lia|lia|]. wp_step. apply wp_poke; [done|done|lia|lia|].
  apply wp_next_record; [done|done|]. eexists. split_and!; [done| |].
  - repeat (apply only_store; [|lia|lia]). done.
  - unfold read_rec. loads. destruct H as [-> ->]. rewrite Hg.
    by destruct Hty as [[-> ->]|[-> ->]].
Qed.

Lemma call_flags_range fl func : 0 <= fl < 2 ^ 8 -> 0 <= call_flags fl func < 2 ^ 8.
Proof using Type.
  intros H. unfold call_flags. destruct (_ && _); [|done]. split.
  - apply Z.lor_nonneg. unfold CallNoReturn. lia.
  - apply Z.log2_lt_cancel. rewrite Z.log2_lor by (unfold CallNoReturn; lia).
    change (Z.log2 CallNoReturn) with 1. change (Z.log2 (2 ^ 8)) with 8.
    apply Z.max_lub_lt; [|lia]. destruct (decide (fl = 0)) as [->|]; [done|].
    apply Z.log2_lt_pow2; lia.
Qed.

(** the two operations that name a function *)
Lemma wp_func_id {X} g func id (Q : Z -> binlog -> Prop) : funcs !! func = Some id ->
  Q id (at_off funcs g off) -> wpx X (func_id func) Q (at_off funcs g off).
Proof using Type.
  intros Hf HQ. unfold func_id. wp_steps. unfold set_funcs, at_off in *. simpl. rewrite Hf. simpl.
  by rewrite insert_id.
Qed.
Lemma wp_funcHasID {X} g func id (Q : bool -> binlog -> Prop) : funcs !! func = Some id ->
  Q true (at_off funcs g off) -> wpx X (funcHasID func) Q (at_off funcs g off).
Proof using Type. intros Hf HQ. unfold funcHasID. wp_steps. simpl. rewrite Hf. by rewrite bool_decide_true. Qed.

Lemma logRet_logs fl i n func d id : insid_ok i -> 0 <= fl < 2 ^ 8 ->
  Z.land (call_flags fl func) CallNoReturn = 0 -> 0 <= n < 765 -> arg_ok d ->
  funcs !! func = Some id -> 0 <= id < 2 ^ 31 ->
  logs (logRet fl i n func d) f off (RRet i (call_flags fl func) (n / 3 + 1) n id d).
Proof using Hoff Hfit.
  intros Hi Hfl Hret Hn Hd Hfn Hid. destruct (getInsid_setInsid i Hi) as (v & Hs & Hv & Hg).
  pose proof (call_flags_range fl func Hfl) as Hfr. apply wp_logs. unfold logRet. cbv zeta.
  rewrite NumExtraArgsRecords_value by lia. assert (Hq : 0 <= n / 3 < 255) by dlia.
  rewrite s16_small by lia. wp_step.
  eapply wp_funcHasID; [done|]. wp_step. apply wp_cassert; [done|]. wp_step.
  apply wp_cassert; [by rewrite Hret|]. wp_step.
  apply wp_check; [done|done|]. apply wp_bind_assoc2. wp_step.
  eapply wp_header; [done|done|done|exact Hv|done|]. intros g H Ho.
  do 3 (wp_step; apply wp_poke; [done|done|lia|lia|]). wp_step. eapply wp_func_id; [done|].
  do 2 (wp_step; apply wp_poke; [done|done|lia|lia|]).
  apply wp_next_record; [done|done|]. eexists. split_and!; [done| |].
  - repeat (apply only_store; [|lia|lia]). done.
  - unfold read_rec. loads. destruct H as [-> ->]. cbv beta iota zeta delta [ReturnRecTy].
    by rewrite Hg, s16_small, s32_small by lia.
Qed.

Lemma NumSyncArgs_range sync : 1 <= NumSyncArgs sync <= 2.
Proof using Type. unfold NumSyncArgs. destruct (_ =? _); lia. Qed.
Lemma num_syncs_small : num_syncs < 2 ^ 15.
Proof using Type. done. Qed.

(** a field in front of the arguments is not touched by them *)
Lemma load_before (g g' : gmap Z Z) (d n : Z) a (k : nat) :
  (forall b, b < off + d \/ off + d + n <= b -> g' !! b = g !! b) -> a + Z.of_nat k <= off + d ->
  load g' a k = load g a k.
Proof using Type. intros H Ha. apply load_ext. intros b Hb. apply H. lia. Qed.
Lemma header_before g g' d n v ty : (forall b, b < off + d \/ off + d + n <= b -> g' !! b = g !! b) ->
  4 <= d -> header g off v ty -> header g' off v ty.
Proof using Type. intros H Hd [H1 H2]. unfold header. by rewrite (load_before _ _ _ _ _ _ H) by lia. Qed.
Lemma only_before g g' d n : (forall b, b < off + d \/ off + d + n <= b -> g' !! b = g !! b) ->
  0 <= d -> d + n <= 32 -> only_at off f g -> only_at off f g'.
Proof using Type.
  intros H Hd Hn Ho b Hb. rewrite H by (unfold RECORD_SIZE in Hb; lia). by apply Ho.
Qed.

Lemma logSync_logs i sync turn after args : insid_ok i -> first_sync <= sync < num_syncs ->
  0 <= turn < 2 ^ 31 -> Forall arg_ok args -> (Z.to_nat (NumSyncArgs sync) <= length args)%nat ->
  logs (bin_logSync i sync turn after args) f off
    (RSync i sync after turn (take (Z.to_nat (NumSyncArgs sync)) args)).
Proof using Hoff Hfit.
  intros Hi Hsync Hturn Hok Hlen. destruct (getInsid_setInsid i Hi) as (v & Hs & Hv & Hg).
  pose proof (NumSyncArgs_range sync) as Hn. pose proof num_syncs_small. unfold first_sync in Hsync.
  apply wp_logs. unfold bin_logSync. wp_step. apply wp_check; [done|done|]. wp_step.
  apply wp_cassert; [unfold first_sync; lia|]. apply wp_bind_assoc2. wp_step.
  eapply wp_header; [done|done|done|exact Hv|done|]. intros g H0 Ho.
  do 3 (wp_step; apply wp_poke; [done|done|lia|destruct after; lia|]). wp_step.
  apply wp_cassert; [unfold MAX_INLINE_ARGS; lia|]. wp_step.
  apply wp_write_args; [done|done|done|done|lia|lia|]. intros g' Hg' Hread.
  apply wp_next_record; [done|done|]. exists g'. split_and!; [done| |].
  - eapply only_before; [exact Hg'|lia|lia|]. repeat (apply only_store; [|lia|lia]). done.
  - pose proof (header_before _ _ _ _ v SyncRecTy Hg' ltac:(lia)) as Hh.
    destruct Hh as [H1 H2]; [by repeat (apply header_store; [|lia])|].
    unfold read_rec. rewrite H1, H2. cbv beta iota zeta delta [SyncRecTy].
    rewrite !(load_before _ _ _ _ _ _ Hg') by lia. loads.
    rewrite (load_store_small 1) by (destruct after; cbn; lia). loads.
    rewrite Hg, s16_small, s32_small by lia. rewrite Hread. by destruct after.
Qed.

(** the first record of a call, and what follows it *)
Lemma logCall_first {X B} fl i func id args (K : list Z -> LM B) (Q : B -> binlog -> Prop) : insid_ok i ->
  0 <= fl < 2 ^ 8 -> (length args <= 767)%nat -> Forall arg_ok args ->
  funcs !! func = Some id -> 0 <= id < 2 ^ 31 ->
  let narg := Z.of_nat (length args) in
  (forall f', only_at off f f' ->
     read_rec f' off = Some (RCall i fl 0 narg id (take 2 args)) ->
     wpx X (K (drop 2 args)) Q (at_off funcs f' (off + RECORD_SIZE))) ->
  wpx X (checkAndGrowLogSize ;; rec_setInsid i ;; rec_setType CallRecTy ;;
         poke 4 1 fl ;; poke 5 1 0 ;; poke 6 2 narg ;;
         id ← func_id func; poke 8 4 id ;;
         vl ← write_args 16 (Z.to_nat (Z.min narg (s16 MAX_INLINE_ARGS))) args;
         next_record ;; K vl) Q (at_off funcs f off).
Proof using Hoff Hfit.
  intros Hi Hfl Hlen Hok Hf Hid narg HQ. destruct (getInsid_setInsid i Hi) as (v & Hs & Hv & Hg).
  assert (Hk : Z.to_nat (Z.min narg (s16 MAX_INLINE_ARGS)) = Nat.min (length args) 2).
  { change (s16 MAX_INLINE_ARGS) with 2. lia. }
  rewrite Hk. wp_step. apply wp_check; [done|done|]. apply wp_bind_assoc2. wp_step.
  eapply wp_header; [done|done|done|exact Hv|done|]. intros g H Ho.
  do 3 (wp_step; apply wp_poke; [done|done|lia|lia|]). wp_step. eapply wp_func_id; [done|].
  wp_step. apply wp_poke; [done|done|lia|lia|]. wp_step.
  apply wp_write_args; [done|done|lia|done|lia|lia|]. intros g' Hg' Hread.
  wp_step. apply wp_next_record; [done|done|].
  replace (drop (Nat.min (length args) 2) args) with (drop 2 args).
  2:{ destruct (Nat.min_spec (length args) 2) as [[? ->]|[? ->]]; [|done].
      by rewrite !drop_ge by lia. }
  apply HQ.
  - eapply only_before; [exact Hg'|lia|lia|]. repeat (apply only_store; [|lia|lia]). done.
  - pose proof (header_before _ _ _ _ v CallRecTy Hg' ltac:(lia)) as Hh.
    destruct Hh as [H1 H2]; [by repeat (apply header_store; [|lia])|].
    unfold read_rec. rewrite H1, H2. cbv beta iota zeta delta [CallRecTy].
    rewrite !(load_before _ _ _ _ _ _ Hg') by lia. loads.
    rewrite Hg, s16_small, s32_small by lia. unfold CallRec_numArgsInRec, MAX_INLINE_ARGS.
    change (s16 MAX_INLINE_ARGS) with 2 in Hk. rewrite Hk, Hread. do 2 f_equal.
    destruct (Nat.min_spec (length args) 2) as [[? ->]|[? ->]]; [|done]. by rewrite !take_ge by lia.
Qed.
End records.

(** ** Sequences of records *)
Section sequences.
Context `{O : Options, E : ExitAddrs} (funcs : gmap Z Z) {sz : FileSize}.
Implicit Types (f g : gmap Z Z) (off a : Z) (rs : list log_rec).

Lemma read_args_ext f g a k : (forall b, a <= b < a + 8 * Z.of_nat k -> f !! b = g !! b) ->
  read_args f a k = read_args g a k.
Proof using Type.
  revert a. induction k as [|k IH]; intros a H; [done|]. cbn [read_args]. f_equal.
  - apply load_ext. intros b Hb. apply H. lia.
  - apply IH. intros b Hb. apply H. lia.
Qed.

Lemma read_rec_ext f g a : (forall b, a <= b < a + RECORD_SIZE -> f !! b = g !! b) ->
  read_rec f a = read_rec g a.
Proof using Type.
  unfold RECORD_SIZE. intros H.
  assert (Hl : forall d (n : nat), 0 <= d -> d + Z.of_nat n <= 32 -> load f (a + d) n = load g (a + d) n).
  { intros d n H1 H2. apply load_ext. intros b Hb. apply H. lia. }
  assert (Ha : forall d k, 0 <= d -> d + 8 * Z.of_nat k <= 32 ->
    read_args f (a + d) k = read_args g (a + d) k).
  { intros d k H1 H2. apply read_args_ext. intros b Hb. apply H. lia. }
  unfold read_rec. cbv zeta.
  assert (load f a 4 = load g a 4) as -> by (rewrite <-(Z.add_0_r a); apply Hl; lia).
  rewrite !Hl by lia. set (narg := s16 (load g (a + 6) 2)). set (sync := s16 (load g (a + 4) 2)).
  pose proof (NumSyncArgs_range sync). rewrite !Ha; [done|try lia..].
  - unfold ExtraArgsRec_numArgsInRec, MAX_EXTRA_ARGS. lia.
  - unfold CallRec_numArgsInRec, MAX_INLINE_ARGS. lia.
Qed.

Lemma read_log_ext f g n : forall a, (forall b, a <= b < a + 32 * Z.of_nat n -> f !! b = g !! b) ->
  read_log f a n = read_log g a n.
Proof using Type.
  induction n as [|n IH]; intros a H; [done|]. cbn [read_log]. f_equal.
  - apply read_rec_ext. unfold RECORD_SIZE. intros b Hb. apply H. lia.
  - apply IH. unfold RECORD_SIZE. intros b Hb. apply H. lia.
Qed.

(** [m] logs the records [rs]: they can be read back and the rest of the file is unchanged *)
Definition logged rs f off (b : binlog) : Prop := exists f',
  b = at_off funcs f' (off + 32 * Z.of_nat (length rs)) /\
  (forall x, x < off \/ off + 32 * Z.of_nat (length rs) <= x -> f' !! x = f !! x) /\
  read_log f' off (length rs) = Some <$> rs.

Lemma logged_nil f off : logged [] f off (at_off funcs f off).
Proof using Type. exists f. split_and!; [|done|done]. by rewrite Z.add_0_r. Qed.
Lemma logged_one r f f' off : only_at off f f' -> read_rec f' off = Some r ->
  logged [r] f off (at_off funcs f' (off + RECORD_SIZE)).
Proof using Type. intros Ho Hr. exists f'. split_and!; [done|done|]. cbn [length read_log]. by rewrite Hr. Qed.
Lemma logged_app rs1 rs2 f off b1 b2 : 0 <= off ->
  logged rs1 f off b1 -> (forall f1, b1 = at_off funcs f1 (off + 32 * Z.of_nat (length rs1)) ->
     logged rs2 f1 (off + 32 * Z.of_nat (length rs1)) b2) ->
  logged (rs1 ++ rs2) f off b2.
Proof using Type.
  intros Hoff (f1 & -> & O1 & R1) H2. destruct (H2 f1 eq_refl) as (f2 & -> & O2 & R2).
  exists f2. rewrite length_app, Nat2Z.inj_add. split_and!.
  - f_equal. lia.
  - intros x Hx. rewrite O2 by lia. apply O1. lia.
  - assert (Ha : forall n1 n2 a, read_log f2 a (n1 + n2) =
        read_log f2 a n1 ++ read_log f2 (a + 32 * Z.of_nat n1) n2).
    { clear. induction n1 as [|n1 IH]; intros n2 a; cbn [read_log Nat.add app].
      - by rewrite Z.add_0_r.
      - rewrite IH. do 3 f_equal. unfold RECORD_SIZE. lia. }
    rewrite Ha, fmap_app, R2, (read_log_ext _ f1), R1; [done|]. intros b Hb. apply O2. lia.
Qed.
End sequences.
