(* ===== verification/BinLogThms.v ===== *)
(** * The binary log is read back as it was written

    In builds with and without assertions: what fits in the part of the file that can be
    written is read back, and the logger fails at the first record that does not fit. *)
From S2P Require Import Prelude Options SyncFuncs LogDefs BinLog BinLogRead.

Section calls.
Context `{O : Options, E : ExitAddrs} (funcs : gmap Z Z) {sz : FileSize}.
Implicit Types (f g : gmap Z Z) (off : Z) (rs : list log_rec).
Abbreviation logged := (logged funcs).






Abbreviation fails m := (wpx (fun _ => True) m (fun _ _ => False)).


End calls.

(** ** Reading the arguments of a call back *)

(** the arguments of a call from its record and the records that follow it *)
Definition rec_args (r : log_rec) : list Z :=
  match r with RCall _ _ _ _ _ args | RExtra _ _ _ args | RSync _ _ _ _ args => args | _ => [] end.
Definition call_args (rs : list (option log_rec)) : list Z :=
  rs ≫= fun r => match r with Some r => rec_args r | None => [] end.


Section theorems.
Context `{O : Options, E : ExitAddrs}.





(** the sizes of the records are checked in debug builds only: ftruncate is called
    inside assert(), so in a build with NDEBUG a new log file stays empty and the first
    record of any kind is written beyond the end of the file. *)
Theorem bin_log_ndebug o funcs : ndebug = true ->
  (exists id, match o with LCall _ _ func _ | LRet _ _ _ func _ => funcs !! func | _ => Some 0 end = Some id) ->
  run_log_op o (new_binlog ∅ 0 funcs) = Err OutOfBounds.
Proof using Type.
  intros Hnd [id Hid].
  destruct o; cbn [run_log_op]; unfold logInsid, logLoad, logStore, logMem, logCall, logRet, bin_logSync,
    checkAndGrowLogSize, rec_setInsid, peek, field_addr, new_binlog, mapLogTrunk, funcHasID, cassert,
    mbind, M_bind, gets, get, mret, M_ret; rewrite Hnd, ?orb_true_r; reflexivity.
Qed.

(** an instruction id of 2^29 or more, other than INVALID_INSID, cannot be logged: a debug
    build fails the assertion of setInsid.  The ids the runtime itself uses for the idle
    thread (0xdeadbeaf, 0xdead0000) are such ids. *)
Theorem large_insid_rejected {sz : FileSize} f off funcs sync turn after args insid : ndebug = false ->
  0 <= off -> off + RECORD_SIZE <= room -> first_sync <= sync < num_syncs ->
  2 ^ INSID_BITS <= insid < INVALID_INSID ->
  bin_logSync insid sync turn after args (at_off funcs f off) =
    Err (AssertFail "instruction id larger than (1U<<29)!").
Proof using Type.
  intros Hnd Hoff Hfit Hsync Hid. unfold bin_logSync, mbind, M_bind.
  assert (Hc : checkAndGrowLogSize (at_off funcs f off) = Ok (tt, at_off funcs f off)).
  { pose proof (wp_check (X := no_error) funcs f off Hoff Hfit (fun _ b => b = at_off funcs f off) eq_refl) as H.
    destruct (wp_elim _ _ _ H) as ([] & b & -> & ->). done. }
  rewrite Hc. unfold cassert at 1. rewrite (proj2 (Z.leb_le _ _)), (proj2 (Z.ltb_lt _ _)) by lia. simpl.
  unfold rec_setInsid, mbind, M_bind, cassert. rewrite Hnd, orb_false_r.
  change INVALID_INSID with 4294967295 in *. unfold MAX_INSID.
  rewrite (proj2 (Z.eqb_neq _ _)), (proj2 (Z.ltb_ge _ _)) by lia. done.
Qed.
End theorems.

(** ** Concrete logs *)
Definition bin_options (nd : bool) : Options := {|
  ndebug := nd; scheduling_policy := 0; enforce_turn_type := 2; launch_idle_thread := 1;
  enforce_non_det_annotations := 0; enforce_no_wait_non_det_annotations := 0;
  enforce_next_n_annotations := false; enforce_ext_turn := false; enforce_dummy_sync := false;
  enforce_non_det_clock_bound := false; non_det_clock_bound := 0; wakeamap_plus := false;
  high_priority_yield := false; nanosec_per_turn := 1000; log_sync := true;
  generate_per_sync_stats := false; record_runtime_stat := false; rr_ignore_rw_regular_file := false;
  enforce_delays := false; log_task_time := 0; non_det_for_single_thread := 0; exec_sleep := false;
  non_block_recv := false; set_mutex_errorcheck := false; DMT := true; enforce_annotations := true;
  disable_soba := false; dync_geteip := false; whole_stack_eip_signature := false; backtrace_level := 0 |}.
Definition sample_exits : ExitAddrs := {| addr_exit := 4096; addr_pthread_exit := 4104 |}.

Section witnesses.
Local Existing Instance sample_exits.






Lemma bin_log_ndebug_witness :
  run_log_op (O := bin_options true) (LInsid 1) (new_binlog (O := bin_options true) ∅ 0 ∅) = Err OutOfBounds.
Proof. apply (bin_log_ndebug (O := bin_options true) (LInsid 1) ∅); [reflexivity|by exists 0]. Defined.

Lemma large_insid_rejected_witness :
  bin_logSync (O := bin_options false) 0xdeadbeaf (index_of syncfunc.pthread_mutex_lock) 3 true [7]
    (at_off (sz := LOG_SIZE) ∅ ∅ 0) = Err (AssertFail "instruction id larger than (1U<<29)!").
Proof.
  apply (large_insid_rejected (O := bin_options false)); [reflexivity|lia|vm_compute; congruence|by vm_compute|].
  by vm_compute.
Defined.

(** the record number of a call is a uint8_t: a call with 768 arguments is read back with
    770, the last record counting three arguments instead of one. *)
Theorem call_seq_overflow :
  match run_log_op (O := bin_options false) (LCall 0 11 5000 (seqZ 0 768))
          (new_binlog (O := bin_options false) ∅ 0 {[5000 := 3]}) with
  | Ok (_, b) => length (call_args (read_log (bl_file b) 0 257)) = 770%nat
  | Err _ => False
  end.
Proof. vm_compute. reflexivity. Qed.
End witnesses.
