(* ===== verification/LogFiles.v ===== *)
(** * The loggers of the threads and their files: Logger of lib/runtime/record-log.cpp

    What a logger writes is in BinLog.v and TxtLog.v; here is which logger a thread gets,
    when, and on which file.  Of a file the model keeps the thread id whose logger has
    opened it last, since opening truncates it or maps its first bytes.

    Strings of options and the process id are parameters; [can_open] is whether a path can
    be opened for writing. *)
From Stdlib Require Import Ascii.
From S2P Require Import Prelude Options LogText CText BinLogThms.

(** snprintf of a text without NUL into a buffer of [sz] bytes: the C string in the buffer *)
Definition snprintf (sz : nat) (s : text) : text := take (sz - 1) s.

Inductive log_kind : Type := LTxt | LBin | LTest.
Record logger : Type := Logger { l_kind : log_kind; l_file : text; l_tid : Z }.
Record loggers : Type := Loggers {
  the_logger : gmap Z logger;       (* Logger::the, by thread; no entry: NULL *)
  opened : gmap text Z;
  funcs : gmap Z Z
}.
Definition set_the_logger (x : gmap Z logger) (r : loggers) : loggers := Loggers x (opened r) (funcs r).
Definition set_opened (x : gmap text Z) (r : loggers) : loggers := Loggers (the_logger r) x (funcs r).
Definition set_funcs (x : gmap Z Z) (r : loggers) : loggers := Loggers (the_logger r) (opened r) x.
Abbreviation LFM := (M loggers).

Section files.
Context `{O : Options}.
Context (log_type output_dir : text) (pid_in_logfilename : bool) (getpid : Z) (can_open : text -> bool).

Definition LOG_FILE_SIZE : nat := 64.
(** the name before the thread id *)
Definition log_prefix : text :=
  if pid_in_logfilename then output_dir ++ txt "/tid-" ++ txt (print_dec getpid) ++ txt "-"
  else output_dir ++ txt "/tid-".
Definition getLogFilename (sz : nat) (tid : Z) (ext : text) : text :=
  snprintf sz (log_prefix ++ txt (print_dec tid) ++ ext).
Definition extension (k : log_kind) : text := match k with LBin => txt ".bin" | _ => txt ".txt" end.

(** the constructors of TxtLogger, BinLogger and TestLogger *)
Definition new_logger (k : log_kind) (tid : Z) : LFM logger :=
  let logFile := getLogFilename LOG_FILE_SIZE tid (extension k) in
  cassert ndebug (can_open logFile) "can't open log file" ;;
  when (can_open logFile) (modify (fun s => set_opened (<[logFile := tid]> (opened s)) s)) ;;
  mret (Logger k logFile tid).
Definition kind_of (log_type : text) : option log_kind :=
  if bool_decide (log_type = txt "txt") then Some LTxt
  else if bool_decide (log_type = txt "bin") then Some LBin
  else if bool_decide (log_type = txt "test") then Some LTest
  else None.
(** Logger::threadBegin of the thread [th], which has got the thread id [tid] *)
Definition log_threadBegin (th tid : Z) : LFM unit :=
  when log_sync
    (match kind_of log_type with
     | Some k => l ← new_logger k tid; modify (fun s => set_the_logger (<[th := l]> (the_logger s)) s)
     | None => cassert ndebug false "unknown log_type"
     end ;;
     the ← gets (fun s => the_logger s !! th);
     cassert ndebug (bool_decide (is_Some the)) "can't allocate memory for logger!").
(** deleting a logger does not change Logger::the, but the thread is at its end *)
Definition log_threadEnd (th : Z) : LFM unit :=
  when log_sync (modify (fun s => set_the_logger (delete th (the_logger s)) s)).
Definition mapFuncToID (func funcid : Z) : LFM unit := modify (fun s => set_funcs (<[func := funcid]> (funcs s)) s).

(** ** Executions: threads begin and end in any order *)
Inductive log_event : Type := LBegin (th tid : Z) | LEnd (th : Z).
Definition do_event (e : log_event) : LFM unit :=
  match e with LBegin th tid => log_threadBegin th tid | LEnd th => log_threadEnd th end.
Definition tids_begun (l : list log_event) : list Z :=
  omap (fun e => match e with LBegin _ tid => Some tid | LEnd _ => None end) l.

(** ** Names *)
Definition fits (k : log_kind) (tid : Z) : Prop :=
  (length (log_prefix ++ txt (print_dec tid) ++ extension k) < LOG_FILE_SIZE)%nat.
Lemma filename_inj k tid1 tid2 : fits k tid1 -> fits k tid2 ->
  getLogFilename LOG_FILE_SIZE tid1 (extension k) = getLogFilename LOG_FILE_SIZE tid2 (extension k) -> tid1 = tid2.
Proof using Type.
  unfold fits, getLogFilename, snprintf. intros H1 H2. rewrite !take_ge by lia. intros Heq%(inj (app log_prefix)).
  assert (ends_number (extension k) = true) as He by by destruct k.
  pose proof (scan_print_dec tid1 _ He) as Hs. rewrite Heq, (scan_print_dec tid2 _ He) in Hs. by injection Hs.
Qed.
(** with a long directory all threads have the same name *)
Lemma filename_long k tid : (LOG_FILE_SIZE - 1 <= length log_prefix)%nat ->
  getLogFilename LOG_FILE_SIZE tid (extension k) = take (LOG_FILE_SIZE - 1) log_prefix.
Proof using Type. intros H. unfold getLogFilename, snprintf. by rewrite take_app_le by lia. Qed.

(** ** The file of a live logger has not been opened by another thread *)
Definition own_files (used : list Z) (k : log_kind) (s : loggers) : Prop :=
  forall th l, the_logger s !! th = Some l ->
    l_kind l = k /\ l_tid l ∈ used /\ l_file l = getLogFilename LOG_FILE_SIZE (l_tid l) (extension k) /\
    (can_open (l_file l) = true -> opened s !! l_file l = Some (l_tid l)).
Lemma wp_new_logger k tid Q s :
  (let logFile := getLogFilename LOG_FILE_SIZE tid (extension k) in
   Q (Logger k logFile tid) (if can_open logFile then set_opened (<[logFile := tid]> (opened s)) s else s)) ->
  wpx (fun _ => True) (new_logger k tid) Q s.
Proof using Type.
  intros HQ. unfold new_logger, cassert. cbv zeta in *. destruct (can_open _); simpl; [exact HQ|]. destruct ndebug; [exact HQ|exact I].
Qed.
Lemma begin_own used k th tid s : kind_of log_type = Some k -> tid ∉ used -> Forall (fits k) (tid :: used) ->
  own_files used k s -> wpx (fun _ => True) (log_threadBegin th tid) (fun _ => own_files (tid :: used) k) s.
Proof using Type.
  intros Hk Hnew Hfits Hown. unfold log_threadBegin. destruct log_sync; simpl.
  2: { intros th' l Hl. destruct (Hown th' l Hl) as (H1 & H2 & H3 & H4). split_and!; try done. by right. }
  rewrite Hk. apply wp_bind, wp_bind, wp_new_logger. cbv zeta. apply wp_modify, wp_bind, wp_gets.
  set (f := getLogFilename LOG_FILE_SIZE tid (extension k)). set (s' := if can_open f then _ else s).
  assert (the_logger s' = the_logger s) as Hthe by (subst s'; by destruct (can_open f)).
  assert (own_files (tid :: used) k (set_the_logger (<[th := Logger k f tid]> (the_logger s')) s')) as Hown'.
  { intros th' l. simpl. rewrite Hthe. intros [[<- <-]|[Hne Hl]]%lookup_insert_Some.
    - simpl. split_and!; [done|by left|done|]. intros Ho. subst s'. rewrite Ho. simpl. by rewrite lookup_insert_eq.
    - destruct (Hown th' l Hl) as (H1 & H2 & H3 & H4). split_and!; [done|by right|done|]. intros Ho.
      subst s'. destruct (can_open f); [|by apply H4]. simpl. rewrite lookup_insert_ne; [by apply H4|].
      rewrite H3. subst f. intros Heq. apply filename_inj in Heq; [by subst|..];
        rewrite Forall_forall in Hfits; apply Hfits; [by left|by right]. }
  unfold cassert. simpl. rewrite lookup_insert_eq. simpl. exact Hown'.
Qed.
Lemma events_own k l : forall used s, kind_of log_type = Some k -> NoDup (tids_begun l ++ used) ->
  Forall (fits k) (tids_begun l ++ used) -> own_files used k s ->
  wpx (fun _ => True) (for_each do_event l) (fun _ s' => exists used', own_files used' k s') s.
Proof using Type.
  induction l as [|[th tid|th] l IH]; intros used s Hk Hnd Hfits Hown; simpl in *; [by exists used|..].
  - apply NoDup_cons in Hnd as [Hnew Hnd]. apply Forall_cons in Hfits as [Hfit Hfits]. apply wp_bind.
    eapply wp_mono; [apply (begin_own used k); [done| | |exact Hown]|].
    + intros Hin. apply Hnew. apply elem_of_app. by right.
    + constructor; [done|]. by apply Forall_app in Hfits as [_ Hfits].
    + intros [] s1 H1. apply (IH (tid :: used)); [done| | |exact H1].
      * rewrite <-Permutation_middle. by constructor.
      * rewrite <-Permutation_middle. by constructor.
  - apply wp_bind. unfold log_threadEnd. destruct log_sync; simpl; [|by apply (IH used)].
    apply wp_modify, (IH used); [done..|]. intros th' lg. simpl. intros [_ Hl]%lookup_delete_Some.
    by apply (Hown th' lg).
Qed.
End files.

(** C34: No thread's log is overwritten.  When the threads have different ids and the names
    of their log files fit into the buffer of 64 characters, then after any sequence of
    beginnings and ends of threads every logger that is in use is the last one that has
    opened its file, and so no two of them share a file; with an output directory that
    fills the buffer, all threads log into one file. *)
Theorem logs_not_shared `{O : Options} (log_type output_dir : text) (pid_in_logfilename : bool) (getpid : Z)
    (can_open : text -> bool) (k : log_kind) (l : list log_event) (s : loggers) :
  let prefix := log_prefix output_dir pid_in_logfilename getpid in
  kind_of log_type = Some k ->
  for_each (do_event log_type output_dir pid_in_logfilename getpid can_open) l (Loggers ∅ ∅ ∅) = Ok (tt, s) ->
  (NoDup (tids_begun l) -> Forall (fits output_dir pid_in_logfilename getpid k) (tids_begun l) ->
   forall th lg, the_logger s !! th = Some lg -> can_open (l_file lg) = true ->
     opened s !! l_file lg = Some (l_tid lg) /\
     forall th' lg', the_logger s !! th' = Some lg' -> l_file lg' = l_file lg -> l_tid lg' = l_tid lg) /\
  ((63 <= length prefix)%nat ->
   forall tid, getLogFilename output_dir pid_in_logfilename getpid LOG_FILE_SIZE tid (extension k) = take 63 prefix).
Proof.
  intros prefix Hk Hrun. split.
  - intros Hnd Hfits th lg Hl Ho.
    assert (own_files output_dir pid_in_logfilename getpid can_open [] k (Loggers ∅ ∅ ∅)) as H0 by done.
    pose proof (events_own log_type output_dir pid_in_logfilename getpid can_open k l [] (Loggers ∅ ∅ ∅) Hk) as H.
    rewrite app_nil_r in H. specialize (H Hnd Hfits H0). unfold wpx in H. rewrite Hrun in H. destruct H as [used Hown].
    destruct (Hown th lg Hl) as (_ & _ & Hf & Hopen). split; [by apply Hopen|]. intros th' lg' Hl' Heq.
    destruct (Hown th' lg' Hl') as (_ & _ & Hf' & Hopen'). rewrite Heq in Hopen'. rewrite (Hopen Ho) in Hopen'.
    specialize (Hopen' Ho). by injection Hopen'.
  - intros Hlen tid. by apply filename_long.
Qed.
(** threads 7, 8 and 9 get the ids 0, 2 and 3, thread 7 ends *)
Definition demo_events : list log_event := [LBegin 7 0; LBegin 8 2; LBegin 9 3; LEnd 7].
Definition demo_run : res (unit * loggers) :=
  for_each (@do_event (bin_options false) (txt "txt") (txt "./dmt_out") true 4711 (fun _ => true)) demo_events (Loggers ∅ ∅ ∅).
Definition demo_loggers : loggers := match demo_run with Ok (_, s) => s | Err _ => Loggers ∅ ∅ ∅ end.
Lemma demo_run_ok : demo_run = Ok (tt, demo_loggers).
Proof.
  assert (is_ok demo_run = true) as H by by vm_compute. unfold demo_loggers. by destruct demo_run as [[[] s]|e].
Qed.
Definition demo_logger : logger := Logger LTxt (txt "./dmt_out/tid-4711-2.txt") 2.
Lemma logs_not_shared_witness :
  the_logger demo_loggers !! 8 = Some demo_logger /\ opened demo_loggers !! txt "./dmt_out/tid-4711-2.txt" = Some 2.
Proof.
  assert (the_logger demo_loggers !! 8 = Some demo_logger) as Hl by by vm_compute.
  split; [exact Hl|].
  pose proof (@logs_not_shared (bin_options false) (txt "txt") (txt "./dmt_out") true 4711 (fun _ => true) LTxt
    demo_events demo_loggers) as H.
  cbv zeta in H. destruct H as [H _]; [done|exact demo_run_ok|]. destruct (H) with (th := 8) (lg := demo_logger) as [Ho _].
  - by apply (bool_decide_unpack _).
  - repeat constructor; apply Nat.ltb_lt; by vm_compute.
  - exact Hl.
  - done.
  - unfold demo_logger in Ho. cbn [l_file l_tid] in Ho. exact Ho.
Defined.
