(* ===== verification/TidMap.v ===== *)
(** * Thread ids and roles: [tern::TidMap] of include/tern/runtime/scheduler.h

    A pthread_t is an integer, a thread function (a role) is its address, 0 being
    NULL.  [self_tid] and [self_roleid] are thread-local: the operations that set them
    return the value. *)
From S2P Require Import Prelude Options.

Definition MainThreadTid : Z := 0.
Definition IdleThreadTid : Z := 1.
Definition InvalidTid : Z := -1.

Record tidmap : Type := TidMap {
  p_t_map : gmap Z Z;       (* pthread_t -> tern tid *)
  t_p_map : gmap Z Z;       (* tern tid -> pthread_t *)
  zombies : gset Z;         (* pthread_t *)
  nthread : Z;
  f_r_map : gmap Z Z;       (* function -> role *)
  r_f_map : gmap Z Z;       (* role -> function *)
  nrole : Z;
  t_r_map : gmap Z Z        (* tern tid -> role *)
}.

Section tidmap_ops.
Context `{Options}.

(** the role bookkeeping shared by [create] and [changeRole] *)
Definition assign_role (tid role_func : Z) (m : tidmap) : tidmap :=
  match f_r_map m !! role_func with
  | None =>
      TidMap (p_t_map m) (t_p_map m) (zombies m) (nthread m)
        (<[role_func := nrole m]> (f_r_map m)) (<[nrole m := role_func]> (r_f_map m))
        (nrole m + 1) (<[tid := nrole m]> (t_r_map m))
  | Some r =>
      TidMap (p_t_map m) (t_p_map m) (zombies m) (nthread m) (f_r_map m) (r_f_map m)
        (nrole m) (<[tid := r]> (t_r_map m))
  end.

Definition create (pthread_th role_func : Z) : M tidmap Z :=
  m ← get;
  cassert ndebug (bool_decide (p_t_map m !! pthread_th = None)) "pthread tid already in map!" ;;
  modify (fun m => TidMap (<[pthread_th := nthread m]> (p_t_map m))
                          (<[nthread m := pthread_th]> (t_p_map m)) (zombies m) (nthread m)
                          (f_r_map m) (r_f_map m) (nrole m) (t_r_map m)) ;;
  when wakeamap_plus (modify (fun m => assign_role (nthread m) role_func m)) ;;
  n ← gets nthread;
  modify (fun m => TidMap (p_t_map m) (t_p_map m) (zombies m) (nthread m + 1)
                          (f_r_map m) (r_f_map m) (nrole m) (t_r_map m)) ;;
  mret n.

(** [p_t_map[pthread_th]] inserts 0 when the key is absent (a build with NDEBUG) *)
Definition changeRole (pthread_th role_func : Z) : M tidmap unit :=
  m ← get;
  cassert ndebug (bool_decide (p_t_map m !! pthread_th <> None))
    "Thread handle does not exist in map!" ;;
  let tern_id := default 0 (p_t_map m !! pthread_th) in
  modify (fun m => TidMap (<[pthread_th := tern_id]> (p_t_map m)) (t_p_map m) (zombies m)
                          (nthread m) (f_r_map m) (r_f_map m) (nrole m) (t_r_map m)) ;;
  modify (assign_role tern_id role_func).

Definition getRoleid (tid : Z) : M tidmap Z :=
  m ← get;
  cassert ndebug (bool_decide (t_r_map m !! tid <> None)) "thread has no role ID in map!" ;;
  match t_r_map m !! tid with
  | Some r => mret r
  | None => fail NullDeref       (* end()->second *)
  end.

(** self(pthread_t): the new values of self_tid and self_roleid *)
Definition set_self (self_th : Z) : M tidmap (Z * option Z) :=
  m ← get;
  cassert ndebug (bool_decide (p_t_map m !! self_th <> None)) "pthread tid not in map!" ;;
  match p_t_map m !! self_th with
  | None => fail NullDeref
  | Some t => if wakeamap_plus then r ← getRoleid t; mret (t, Some r) else mret (t, None)
  end.

(** [self] is self(), the caller's tern tid *)
Definition zombify (self self_th : Z) : M tidmap unit :=
  m ← get;
  cassert ndebug (bool_decide (t_p_map m !! self <> None)) "tern tid not in map!" ;;
  cassert ndebug (bool_decide (t_p_map m !! self = Some self_th))
    "mismatch between pthread tid and tern tid!" ;;
  match t_p_map m !! self with
  | None => fail NullDeref
  | Some th =>
      put (TidMap (delete th (p_t_map m)) (delete self (t_p_map m)) ({[ th ]} ∪ zombies m)
                  (nthread m) (f_r_map m) (r_f_map m) (nrole m) (t_r_map m))
  end.

Definition reap (pthread_th : Z) : M tidmap unit :=
  modify (fun m => TidMap (p_t_map m) (t_p_map m) (zombies m ∖ {[ pthread_th ]})
                          (nthread m) (f_r_map m) (r_f_map m) (nrole m) (t_r_map m)).

Definition getTid (pthread_th : Z) (m : tidmap) : Z :=
  default InvalidTid (p_t_map m !! pthread_th).

Definition getPthreadTid (tid : Z) (m : tidmap) : Z :=
  default (u64 InvalidTid) (t_p_map m !! tid).

Definition zombie (pthread_th : Z) (m : tidmap) : bool := bool_decide (pthread_th ∈ zombies m).

(** the new value of self_roleid *)
Definition set_self_role (role_func : Z) : M tidmap Z :=
  m ← get;
  cassert ndebug (bool_decide (f_r_map m !! role_func <> None)) "func role not in map!" ;;
  match f_r_map m !! role_func with
  | Some r => mret r
  | None => fail NullDeref
  end.

Definition init (main_th : Z) : M tidmap (Z * option Z) :=
  modify (fun m => TidMap (p_t_map m) (t_p_map m) (zombies m) 0 (f_r_map m) (r_f_map m) 0
                          (t_r_map m)) ;;
  _ ← create main_th 0;
  set_self main_th.

Definition empty_tidmap : tidmap := TidMap ∅ ∅ ∅ 0 ∅ ∅ 0 ∅.

Definition reset (main_th : Z) : M tidmap (Z * option Z) :=
  modify (fun m => TidMap ∅ ∅ ∅ (nthread m) ∅ ∅ (nrole m) ∅) ;;
  init main_th.
End tidmap_ops.

(** ** Well-formedness *)

(** the maps are inverse to each other, ids are below [nthread], a zombie has no id,
    and the role maps are inverse *)
Record tidmap_wf `{Options} (m : tidmap) : Prop := {
  tm_bij : forall p t, p_t_map m !! p = Some t <-> t_p_map m !! t = Some p;
  tm_range : forall p t, p_t_map m !! p = Some t -> 0 <= t < nthread m;
  tm_pos : 0 <= nthread m;
  tm_role_bij : forall f r, f_r_map m !! f = Some r <-> r_f_map m !! r = Some f;
  tm_role_range : forall f r, f_r_map m !! f = Some r -> 0 <= r < nrole m;
  tm_role_pos : 0 <= nrole m;
  tm_role_known : forall t r, t_r_map m !! t = Some r -> is_Some (r_f_map m !! r);
  tm_role_total : wakeamap_plus = true ->
                  forall t, 0 <= t < nthread m -> is_Some (t_r_map m !! t)
}.

Section tidmap_specs.
Context `{Options}.

Lemma assign_role_wf m t f : tidmap_wf m -> tidmap_wf (assign_role t f m).
Proof.
  intros [W1 W2 W3 W4 W5 W6 W7 W8]. unfold assign_role.
  assert (Hfresh : r_f_map m !! nrole m = None).
  { destruct (r_f_map m !! nrole m) as [g|] eqn:E; [|done]. apply W4, W5 in E. lia. }
  destruct (f_r_map m !! f) as [r|] eqn:Hf; split; simpl; try done; try lia.
  - intros t' r'. rewrite lookup_insert_Some. intros [[<- <-]|[_ Ht]]; [|eauto].
    exists f. by apply W4.
  - intros Hw t' Ht'. rewrite lookup_insert_is_Some'. auto.
  - intros g r. rewrite !lookup_insert_Some, W4. split.
    + intros [[<- <-]|[Hg Hr]]; [by left|right]. split; [congruence|done].
    + intros [[<- <-]|[Hg Hr]]; [by left|right]. split; [|done].
      intros <-. apply W4 in Hr. congruence.
  - intros g r. rewrite lookup_insert_Some. intros [[_ <-]|[_ Hr]]; [lia|apply W5 in Hr; lia].
  - intros t' r. rewrite lookup_insert_Some, lookup_insert_is_Some'.
    intros [[_ <-]|[_ Ht]]; [by left|eauto].
  - intros Hw t' Ht'. rewrite lookup_insert_is_Some'. auto.
Qed.

(** what [assign_role] leaves alone, and the role it gives *)
Lemma assign_role_frame m t f :
  p_t_map (assign_role t f m) = p_t_map m /\ t_p_map (assign_role t f m) = t_p_map m /\
  zombies (assign_role t f m) = zombies m /\ nthread (assign_role t f m) = nthread m /\
  t_r_map (assign_role t f m) !! t = f_r_map (assign_role t f m) !! f /\
  is_Some (t_r_map (assign_role t f m) !! t) /\
  (forall t', t' <> t -> t_r_map (assign_role t f m) !! t' = t_r_map m !! t').
Proof.
  unfold assign_role. destruct (f_r_map m !! f) as [r|] eqn:Hf; simpl; split_and!; try done;
    rewrite ?lookup_insert_eq; try done; intros; by rewrite lookup_insert_ne.
Qed.

(** the state after [create]; [th] is new *)
Lemma create_spec m th f : tidmap_wf m -> p_t_map m !! th = None ->
  wp (create th f) (fun t m' =>
    t = nthread m /\ tidmap_wf m' /\ nthread m' = nthread m + 1 /\
    p_t_map m' = <[th := t]> (p_t_map m) /\ t_p_map m' = <[t := th]> (t_p_map m) /\
    zombies m' = zombies m /\
    (wakeamap_plus = true -> t_r_map m' !! t = f_r_map m' !! f) /\
    (forall t', t' <> t -> t_r_map m' !! t' = t_r_map m !! t')) m.
Proof.
  intros Hwf Hth. unfold create. do 3 wp_step.
  apply wp_cassert; [by apply bool_decide_eq_true|]. wp_step. wp_step.
  set (m1 := TidMap _ _ _ _ _ _ _ _).
  assert (Hold : t_p_map m !! nthread m = None).
  { destruct (t_p_map m !! nthread m) as [p|] eqn:E; [|done].
    apply (tm_bij _ Hwf), (tm_range _ Hwf) in E. lia. }
  assert (Hbij : forall p t, p_t_map m1 !! p = Some t <-> t_p_map m1 !! t = Some p).
  { intros p t. simpl. rewrite !lookup_insert_Some, (tm_bij _ Hwf). split.
    - intros [[<- <-]|[? Hp]]; [by left|right]. split; congruence.
    - intros [[<- <-]|[? Hp]]; [by left|right]. split; [|done]. intros <-.
      apply (tm_bij _ Hwf) in Hp. congruence. }
  assert (Hrange : forall p t, p_t_map m1 !! p = Some t -> 0 <= t < nthread m + 1).
  { intros p t. simpl. pose proof (tm_pos _ Hwf). rewrite lookup_insert_Some.
    intros [[_ <-]|[_ Hp]]; [lia|]. apply (tm_range _ Hwf) in Hp. lia. }
  destruct Hwf as [W1 W2 W3 W4 W5 W6 W7 W8].
  wp_steps; intros Hwk; wp_steps.
  - destruct (assign_role_frame m1 (nthread m) f) as (F1 & F2 & F3 & F4 & F5 & F6 & F7).
    assert (Hm1 : tidmap_wf (assign_role (nthread m) f
                    (TidMap ∅ ∅ ∅ 0 (f_r_map m) (r_f_map m) (nrole m) (t_r_map m)))).
    { apply assign_role_wf. split; simpl; try done; try lia; set_solver. }
    unfold assign_role in *. simpl in *.
    destruct (f_r_map m !! f) as [r|] eqn:Hf; simpl in *;
      (split_and!; [done| |done..]); (split; simpl; [done|done|lia|apply Hm1..|]);
      intros _ t Ht; destruct (decide (t = nthread m)) as [->|]; try done;
      rewrite F7 by done; apply W8; [done|lia|done|lia].
  - split_and!; try done; [|congruence]. split; simpl; try done; [lia|]. intros Hwk'. congruence.
Qed.

(** [changeRole] moves a live thread to the role of [f] and nothing else *)
Lemma changeRole_spec m th t f : tidmap_wf m -> p_t_map m !! th = Some t ->
  wp (changeRole th f) (fun _ m' => tidmap_wf m' /\ nthread m' = nthread m /\
    p_t_map m' = p_t_map m /\ t_p_map m' = t_p_map m /\ zombies m' = zombies m /\
    t_r_map m' !! t = f_r_map m' !! f /\
    (forall t', t' <> t -> t_r_map m' !! t' = t_r_map m !! t')) m.
Proof.
  intros Hwf Hth. unfold changeRole. do 3 wp_step.
  apply wp_cassert; [apply bool_decide_eq_true; by rewrite Hth|]. wp_steps.
  rewrite Hth. simpl. rewrite insert_id by done.
  set (m1 := TidMap _ _ _ _ _ _ _ _).
  assert (m1 = m) as -> by (by destruct m).
  destruct (assign_role_frame m t f) as (F1 & F2 & F3 & F4 & F5 & F6 & F7).
  split_and!; try done. by apply assign_role_wf.
Qed.

Lemma set_self_spec m th t : tidmap_wf m -> p_t_map m !! th = Some t ->
  exists r, set_self th m = Ok ((t, r), m) /\ r = (if wakeamap_plus then t_r_map m !! t else None).
Proof.
  intros Hwf Hth. unfold set_self, mbind, M_bind, get, cassert. rewrite Hth. simpl.
  destruct wakeamap_plus eqn:Hw; [|by eexists].
  destruct (tm_role_total _ Hwf Hw t) as [r Hr]; [by apply (tm_range _ Hwf) in Hth|].
  exists (Some r). unfold getRoleid, mbind, M_bind, get, cassert. rewrite Hr. done.
Qed.

Lemma zombify_spec m t th : tidmap_wf m -> t_p_map m !! t = Some th ->
  wp (zombify t th) (fun _ m' => tidmap_wf m' /\ nthread m' = nthread m /\
    p_t_map m' = delete th (p_t_map m) /\ t_p_map m' = delete t (t_p_map m) /\
    zombies m' = {[ th ]} ∪ zombies m /\ t_r_map m' = t_r_map m) m.
Proof.
  intros Hwf Ht. pose proof Hwf as [W1 W2 W3 W4 W5 W6 W7 W8]. unfold zombify. do 3 wp_step.
  apply wp_cassert; [apply bool_decide_eq_true; by rewrite Ht|]. wp_step.
  apply wp_cassert; [by apply bool_decide_eq_true|]. rewrite Ht. wp_steps.
  split_and!; try done. split; simpl; try done.
  - intros p t'. rewrite !lookup_delete_Some, W1. split.
    + intros [Hp Hl]. split; [|done]. intros <-. congruence.
    + intros [Hp Hl]. split; [|done]. intros <-. apply W1 in Ht, Hl. congruence.
  - intros p t'. rewrite lookup_delete_Some. intros [_ Hp]. eauto.
Qed.

Lemma reap_wf m th : tidmap_wf m -> wp (reap th) (fun _ m' => tidmap_wf m' /\
  zombies m' = zombies m ∖ {[ th ]} /\ p_t_map m' = p_t_map m /\ t_p_map m' = t_p_map m /\
  nthread m' = nthread m) m.
Proof. intros []. unfold reap. wp_steps. by split_and!. Qed.

Lemma cleared_wf z : tidmap_wf (TidMap ∅ ∅ z 0 ∅ ∅ 0 ∅).
Proof. split; simpl; try done; try lia; set_solver by lia. Qed.

Lemma init_spec m th : p_t_map m = ∅ -> t_p_map m = ∅ -> f_r_map m = ∅ -> r_f_map m = ∅ ->
  t_r_map m = ∅ ->
  wp (init th) (fun r m' => r.1 = MainThreadTid /\ tidmap_wf m' /\ nthread m' = 1 /\
    p_t_map m' = {[ th := 0 ]} /\ t_p_map m' = {[ 0 := th ]} /\ zombies m' = zombies m) m.
Proof.
  intros E1 E2 E3 E4 E5. unfold init. wp_step. wp_step. rewrite E1, E2, E3, E4, E5. wp_step.
  pose proof (cleared_wf (zombies m)) as Hwf.
  eapply wp_mono; [by apply create_spec|]. simpl.
  intros t m' (-> & Hwf' & Hn & Hp & Htp & Hz & _).
  destruct (set_self_spec m' th 0 Hwf') as (r & Hs & _); [rewrite Hp; apply lookup_insert_eq|].
  eapply wp_intro; [exact Hs|]. by rewrite Hp, Htp.
Qed.

Lemma reset_spec m th :
  wp (reset th) (fun r m' => r.1 = MainThreadTid /\ tidmap_wf m' /\ nthread m' = 1 /\
    p_t_map m' = {[ th := 0 ]} /\ t_p_map m' = {[ 0 := th ]} /\ zombies m' = ∅) m.
Proof. unfold reset. wp_step. wp_step. by eapply init_spec. Qed.
End tidmap_specs.
