(* ===== verification/NonDetSet.v ===== *)
(** * Threads outside the deterministic schedule: [tern::non_det_thread_set] of
    include/tern/runtime/non-det-thread-set.h

    A list of thread ids in the order they left the schedule, and the logical clock
    at which each left. *)
From S2P Require Import Prelude Options.

Record non_det_thread_set : Type := NonDet {
  tid_list : list Z;
  tid_to_logical_clock_map : gmap Z Z
}.

Definition nd_empty : non_det_thread_set := NonDet [] ∅.

(** [tid_list.erase] at the first occurrence *)
Fixpoint erase_first (t : Z) (l : list Z) : list Z :=
  match l with
  | [] => []
  | x :: l' => if decide (t = x) then l' else x :: erase_first t l'
  end.

Section nd_ops.
Context `{Options}.

Definition nd_in (tid : Z) (s : non_det_thread_set) : bool :=
  if decide (tid_to_logical_clock_map s !! tid <> None) then true
  else bool_decide (tid ∈ tid_list s).

Definition nd_insert (tid clock : Z) : M non_det_thread_set unit :=
  s ← get;
  cassert ndebug (negb (nd_in tid s)) "!in(tid)" ;;
  modify (fun s => NonDet (tid_list s ++ [tid]) (tid_to_logical_clock_map s)) ;;
  cassert ndebug (bool_decide (tid_to_logical_clock_map s !! tid = None)) "no clock" ;;
  modify (fun s => NonDet (tid_list s) (<[tid := clock]> (tid_to_logical_clock_map s))).

Definition nd_erase (tid : Z) : M non_det_thread_set unit :=
  s ← get;
  if bool_decide (tid ∈ tid_list s)
  then put (NonDet (erase_first tid (tid_list s)) (delete tid (tid_to_logical_clock_map s)))
  else cassert ndebug false "tid must be in the non det set.".

Definition nd_size : M non_det_thread_set Z :=
  s ← get;
  cassert ndebug (bool_decide (length (tid_list s) = size (tid_to_logical_clock_map s)))
    "list and map sizes" ;;
  mret (Z.of_nat (length (tid_list s))).

Definition nd_first_thread : M non_det_thread_set Z :=
  n ← nd_size;
  cassert ndebug (0 <? n) "size()>0" ;;
  s ← get;
  match tid_list s with
  | [] => fail EmptyContainer
  | t :: _ => mret t
  end.

(** [map[tid]] inserts 0 when the key is absent (a build with NDEBUG) *)
Definition nd_get_clock (tid : Z) : M non_det_thread_set Z :=
  s ← get;
  cassert ndebug (bool_decide (tid_to_logical_clock_map s !! tid <> None)) "has a clock" ;;
  let c := default 0 (tid_to_logical_clock_map s !! tid) in
  put (NonDet (tid_list s) (<[tid := c]> (tid_to_logical_clock_map s))) ;;
  mret c.
End nd_ops.

(** ** Invariant: the list has no duplicates and the map has exactly its clocks *)
Record nd_wf (s : non_det_thread_set) : Prop := {
  nd_nodup : NoDup (tid_list s);
  nd_dom : forall t, t ∈ tid_list s <-> is_Some (tid_to_logical_clock_map s !! t)
}.

Lemma nd_in_spec s t : nd_wf s -> nd_in t s = bool_decide (t ∈ tid_list s).
Proof.
  intros [_ Hd]. unfold nd_in. case_decide as Hc; [|done]. symmetry.
  apply bool_decide_eq_true, Hd. by apply not_eq_None_Some.
Qed.

Lemma nd_size_eq s : nd_wf s -> length (tid_list s) = size (tid_to_logical_clock_map s).
Proof.
  intros [Hnd Hd]. rewrite <-size_dom.
  rewrite <-(size_list_to_set (C := gset Z) (tid_list s)) by done.
  f_equiv. apply set_eq. intros t. rewrite elem_of_list_to_set, Hd. by rewrite elem_of_dom.
Qed.

Lemma erase_first_spec t (l : list Z) : NoDup l ->
  forall x, x ∈ erase_first t l <-> x ∈ l /\ x <> t.
Proof.
  induction l as [|y l IH]; intros Hnd x; simpl; [set_solver|].
  apply NoDup_cons in Hnd as [Hy Hnd]. case_decide as Ht; [set_solver|].
  rewrite !elem_of_cons, IH by done. set_solver.
Qed.

Lemma erase_first_NoDup t (l : list Z) : NoDup l -> NoDup (erase_first t l).
Proof.
  induction l as [|y l IH]; intros Hnd; simpl; [done|]. pose proof Hnd as Hnd'.
  apply NoDup_cons in Hnd' as [Hy Hl]. case_decide; [done|]. apply NoDup_cons.
  split; [|auto]. rewrite erase_first_spec by done. tauto.
Qed.

Section nd_specs.
Context `{Options}.

Lemma nd_insert_spec s t c : nd_wf s -> t ∉ tid_list s ->
  wp (nd_insert t c) (fun _ s' => nd_wf s' /\
    s' = NonDet (tid_list s ++ [t]) (<[t := c]> (tid_to_logical_clock_map s))) s.
Proof.
  intros Hwf Ht. unfold nd_insert. do 3 wp_step.
  apply wp_cassert; [by rewrite nd_in_spec, bool_decide_false|]. do 3 wp_step.
  destruct Hwf as [Hnd Hd].
  assert (Hn : tid_to_logical_clock_map s !! t = None).
  { apply eq_None_not_Some. intros Hc. by apply Ht, Hd. }
  apply wp_cassert; [by apply bool_decide_eq_true|]. wp_steps. split; [|done]. split; simpl.
  - by apply NoDup_snoc.
  - intros x. rewrite elem_of_app, list_elem_of_singleton, lookup_insert_is_Some', Hd. naive_solver.
Qed.

Lemma nd_erase_spec s t : nd_wf s -> t ∈ tid_list s ->
  wp (nd_erase t) (fun _ s' => nd_wf s' /\
    tid_list s' = erase_first t (tid_list s)) s.
Proof.
  intros [Hnd Hd] Ht. unfold nd_erase. do 2 wp_step. rewrite bool_decide_true by done.
  wp_steps. split; [|done]. split; simpl.
  - by apply erase_first_NoDup.
  - intros x. rewrite erase_first_spec by done. rewrite lookup_delete_is_Some, Hd. naive_solver.
Qed.

(** the order in which threads are put back: first out, first in *)
Lemma nd_first_spec s t l : nd_wf s -> tid_list s = t :: l ->
  nd_first_thread s = Ok (t, s) /\ nd_size s = Ok (Z.of_nat (S (length l)), s).
Proof.
  intros Hwf Hl. pose proof (nd_size_eq _ Hwf) as Hsz.
  destruct s as [l0 m]. simpl in *. subst l0.
  unfold nd_first_thread, nd_size, mbind, M_bind, get, cassert. simpl in *.
  by rewrite bool_decide_true by done.
Qed.

Lemma nd_get_clock_spec s t c : tid_to_logical_clock_map s !! t = Some c ->
  nd_get_clock t s = Ok (c, s).
Proof.
  intros Hc. unfold nd_get_clock, mbind, M_bind, get, cassert.
  rewrite bool_decide_true by (by rewrite Hc). simpl. rewrite Hc. simpl.
  unfold put, mret, M_ret. rewrite insert_id by done. by destruct s.
Qed.
End nd_specs.
