(* ===== verification/Scheduler.v ===== *)
(** * The round-robin scheduler: [tern::RRScheduler]

    include/tern/runtime/scheduler.h (Serializer, Scheduler),
    lib/runtime/scheduler.cpp, include/tern/runtime/record-scheduler.h and
    lib/runtime/record-scheduler.cpp.

    The state is the scheduler object with the globals it uses.  An operation takes the
    caller's tern tid ([self()], thread-local in C++) as an argument.  A void* channel
    is an integer, 0 being NULL.  A call that blocks is a guarded operation: it returns
    [Err WouldBlock] and leaves the state alone until its guard holds.  [wait] releases
    the turn and blocks in the middle, so it is two operations, [wait_begin] and
    [wait_end].  The spinning, the mutex and the condition variable of [wait_t] only
    implement the blocking and are not part of the state. *)
From S2P Require Import Prelude Options RunQueue TidMap NonDetSet.

Definition FOREVER : Z := UINT_MAX.

Definition PUTTURN_STRATEGY_CURRENT_THREAD : Z := 1.
Definition PUTTURN_STRATEGY_CURRENT_ROLE : Z := 2.
Definition PUTTURN_STRATEGY_YIELD : Z := 3.
Definition PUTTURN_STRATEGY_CREATE : Z := 4.

Inductive Wake_Reasons : Type := SIGNAL | TIMEDOUT.
(** the value of the enumerator *)
Definition wake_code (r : Wake_Reasons) : Z := match r with SIGNAL => 0 | TIMEDOUT => 1 end.

(** addresses of the global objects used as channels *)
Class GlobalAddrs : Type := {
  addr_nonDetCV : Z;
  addr_idle_cond : Z;
  addr_nonDetCV_pos : 0 < addr_nonDetCV;
  addr_idle_cond_pos : 0 < addr_idle_cond;
  addr_distinct : addr_nonDetCV <> addr_idle_cond
}.

(** ** RRScheduler::wait_t *)
Record wait_t : Type := Wait {
  w_chan : Z;
  w_timeout : Z;                              (* unsigned *)
  w_status : Z;
  w_wakenUp : bool;
  w_wake_reason : option Wake_Reasons;        (* None: not initialised *)
  w_hp : bool;                                (* woken_up_from_hp_queue_flag *)
  w_runnable : bool;
  w_sem : Z                                   (* value of the semaphore *)
}.

Definition wt_reset (st : Z) (w : wait_t) : wait_t :=
  Wait 0 FOREVER st false (w_wake_reason w) (w_hp w) true (w_sem w).
(** the constructor *)
Definition new_wait : wait_t := wt_reset 0 (Wait 0 0 0 false None false false 0).

Definition wt_block (chan timeout : Z) (w : wait_t) : wait_t :=
  Wait chan timeout (w_status w) (w_wakenUp w) (w_wake_reason w) (w_hp w) (w_runnable w) (w_sem w).
Definition wt_wakenUp (b : bool) (w : wait_t) : wait_t :=
  Wait (w_chan w) (w_timeout w) (w_status w) b (w_wake_reason w) (w_hp w) (w_runnable w) (w_sem w).
Definition wt_reason (r : Wake_Reasons) (w : wait_t) : wait_t :=
  Wait (w_chan w) (w_timeout w) (w_status w) (w_wakenUp w) (Some r) (w_hp w) (w_runnable w) (w_sem w).
Definition wt_hp (b : bool) (w : wait_t) : wait_t :=
  Wait (w_chan w) (w_timeout w) (w_status w) (w_wakenUp w) (w_wake_reason w) b (w_runnable w) (w_sem w).
Definition wt_runnable (b : bool) (w : wait_t) : wait_t :=
  Wait (w_chan w) (w_timeout w) (w_status w) (w_wakenUp w) (w_wake_reason w) (w_hp w) b (w_sem w).
Definition wt_sem (n : Z) (w : wait_t) : wait_t :=
  Wait (w_chan w) (w_timeout w) (w_status w) (w_wakenUp w) (w_wake_reason w) (w_hp w) (w_runnable w) n.

(** ** State *)
Record sched : Type := Sched {
  s_heap : heap;                    (* the runq_elem objects *)
  s_runq : run_queue;
  s_hp_runq : run_queue;
  s_waitq : list Z;
  s_non_det : non_det_thread_set;
  s_tids : tidmap;
  s_turnCount : Z;                  (* unsigned *)
  s_waits : gmap Z wait_t;          (* waits[MAX_THREAD_NUM]; absent: as constructed *)
  s_wakeup_tids : gset Z;           (* inter_pro_wakeup_tids *)
  s_wakeup_flag : bool;             (* inter_pro_wakeup_flag *)
  s_inSync : bool;
  s_idle_done : bool;
  s_idle_sleeping : bool;           (* the idle thread is in pthread_cond_wait(&idle_cond) *)
  s_nNonDetWait : Z;
  s_log : list (Z * Z)              (* lines of serializer.log, newest first *)
}.

Definition set_runq (h : heap) (q : run_queue) (s : sched) : sched :=
  Sched h q (s_hp_runq s) (s_waitq s) (s_non_det s) (s_tids s) (s_turnCount s) (s_waits s)
    (s_wakeup_tids s) (s_wakeup_flag s) (s_inSync s) (s_idle_done s) (s_idle_sleeping s)
    (s_nNonDetWait s) (s_log s).
Definition set_hp_runq (h : heap) (q : run_queue) (s : sched) : sched :=
  Sched h (s_runq s) q (s_waitq s) (s_non_det s) (s_tids s) (s_turnCount s) (s_waits s)
    (s_wakeup_tids s) (s_wakeup_flag s) (s_inSync s) (s_idle_done s) (s_idle_sleeping s)
    (s_nNonDetWait s) (s_log s).
Definition set_waitq (l : list Z) (s : sched) : sched :=
  Sched (s_heap s) (s_runq s) (s_hp_runq s) l (s_non_det s) (s_tids s) (s_turnCount s) (s_waits s)
    (s_wakeup_tids s) (s_wakeup_flag s) (s_inSync s) (s_idle_done s) (s_idle_sleeping s)
    (s_nNonDetWait s) (s_log s).
Definition set_non_det (n : non_det_thread_set) (s : sched) : sched :=
  Sched (s_heap s) (s_runq s) (s_hp_runq s) (s_waitq s) n (s_tids s) (s_turnCount s) (s_waits s)
    (s_wakeup_tids s) (s_wakeup_flag s) (s_inSync s) (s_idle_done s) (s_idle_sleeping s)
    (s_nNonDetWait s) (s_log s).
Definition set_tids (m : tidmap) (s : sched) : sched :=
  Sched (s_heap s) (s_runq s) (s_hp_runq s) (s_waitq s) (s_non_det s) m (s_turnCount s) (s_waits s)
    (s_wakeup_tids s) (s_wakeup_flag s) (s_inSync s) (s_idle_done s) (s_idle_sleeping s)
    (s_nNonDetWait s) (s_log s).
Definition set_turn (n : Z) (log : list (Z * Z)) (s : sched) : sched :=
  Sched (s_heap s) (s_runq s) (s_hp_runq s) (s_waitq s) (s_non_det s) (s_tids s) n (s_waits s)
    (s_wakeup_tids s) (s_wakeup_flag s) (s_inSync s) (s_idle_done s) (s_idle_sleeping s)
    (s_nNonDetWait s) log.
Definition set_waits (w : gmap Z wait_t) (s : sched) : sched :=
  Sched (s_heap s) (s_runq s) (s_hp_runq s) (s_waitq s) (s_non_det s) (s_tids s) (s_turnCount s) w
    (s_wakeup_tids s) (s_wakeup_flag s) (s_inSync s) (s_idle_done s) (s_idle_sleeping s)
    (s_nNonDetWait s) (s_log s).
Definition set_wakeup (ts : gset Z) (b : bool) (s : sched) : sched :=
  Sched (s_heap s) (s_runq s) (s_hp_runq s) (s_waitq s) (s_non_det s) (s_tids s) (s_turnCount s)
    (s_waits s) ts b (s_inSync s) (s_idle_done s) (s_idle_sleeping s) (s_nNonDetWait s) (s_log s).
Definition set_inSync (b : bool) (s : sched) : sched :=
  Sched (s_heap s) (s_runq s) (s_hp_runq s) (s_waitq s) (s_non_det s) (s_tids s) (s_turnCount s)
    (s_waits s) (s_wakeup_tids s) (s_wakeup_flag s) b (s_idle_done s) (s_idle_sleeping s)
    (s_nNonDetWait s) (s_log s).
Definition set_idle (done sleeping : bool) (s : sched) : sched :=
  Sched (s_heap s) (s_runq s) (s_hp_runq s) (s_waitq s) (s_non_det s) (s_tids s) (s_turnCount s)
    (s_waits s) (s_wakeup_tids s) (s_wakeup_flag s) (s_inSync s) done sleeping
    (s_nNonDetWait s) (s_log s).
Definition set_nNonDetWait (n : Z) (s : sched) : sched :=
  Sched (s_heap s) (s_runq s) (s_hp_runq s) (s_waitq s) (s_non_det s) (s_tids s) (s_turnCount s)
    (s_waits s) (s_wakeup_tids s) (s_wakeup_flag s) (s_inSync s) (s_idle_done s)
    (s_idle_sleeping s) n (s_log s).

Definition SM (A : Type) : Type := M sched A.

(** ** Access to the parts *)
Definition on_runq {A} (m : R A) : SM A :=
  zoom (fun s => RQS (s_heap s) (s_runq s)) (fun r s => set_runq (r_heap r) (r_q r) s) m.
Definition on_hp_runq {A} (m : R A) : SM A :=
  zoom (fun s => RQS (s_heap s) (s_hp_runq s)) (fun r s => set_hp_runq (r_heap r) (r_q r) s) m.
Definition on_tids {A} (m : M tidmap A) : SM A := zoom s_tids set_tids m.
Definition on_non_det {A} (m : M non_det_thread_set A) : SM A := zoom s_non_det set_non_det m.

Definition wait_of (s : sched) (t : Z) : wait_t := default new_wait (s_waits s !! t).
(** [waits[t]] as a value, and an assignment to fields of [waits[t]] *)
Definition waits_get (t : Z) : SM wait_t :=
  if in_range t then gets (fun s => wait_of s t) else fail OutOfBounds.
Definition waits_upd (t : Z) (f : wait_t -> wait_t) : SM unit :=
  if in_range t then modify (fun s => set_waits (<[t := f (wait_of s t)]> (s_waits s)) s)
  else fail OutOfBounds.

(** [p->status] through a pointer to a cell of the shared heap *)
Definition elem_get (p : option loc) : SM runq_elem := on_runq (load p).
Definition elem_set_status (p : option loc) (st : THD_STATUS) : SM unit :=
  on_runq (store p (set_status st)).

Section scheduler.
Context `{Options, UnorderedIter, GlobalAddrs}.

(** ** Handing over the turn *)

Definition wait_t_wait (t : Z) : SM unit :=
  w ← waits_get t;
  if enforce_turn_type =? 1 then
    if 0 <? w_sem w then waits_upd t (wt_sem (w_sem w - 1)) else fail WouldBlock
  else if (enforce_turn_type =? 2) || (enforce_turn_type =? 0) then
    if w_wakenUp w then waits_upd t (wt_wakenUp false) else fail WouldBlock
  else if enforce_turn_type <? 0 then
    b ← gets s_inSync;
    if w_runnable w && negb b then modify (set_inSync true) else fail WouldBlock
  else mret tt.

Definition wait_t_post (t : Z) : SM unit :=
  if enforce_turn_type =? 1 then waits_upd t (fun w => wt_sem (w_sem w + 1) w)
  else if (enforce_turn_type =? 2) || (enforce_turn_type =? 0) then waits_upd t (wt_wakenUp true)
  else if enforce_turn_type <? 0 then waits_upd t (wt_runnable true)
  else mret tt.

(** [assert(tid>=0 && tid < Scheduler::nthread)] *)
Definition assert_tid (t : Z) : SM unit :=
  n ← gets (fun s => nthread (s_tids s));
  cassert ndebug ((0 <=? t) && (t <? n)) "tid>=0 && tid < Scheduler::nthread".

(** [assert(tid == runq.front())] *)
Definition assert_front (t : Z) : SM unit :=
  if ndebug then mret tt
  else f ← on_runq q_front; cassert false (t =? f) "self() == runq.front()".

Definition assert_runq_nonempty : SM unit :=
  e ← on_runq q_empty; cassert ndebug (negb e) "!runq.empty()".

(** ** Timeouts *)

Definition nextTimeout : SM Z :=
  l ← gets s_waitq;
  (fix go (l : list Z) (best : Z) : SM Z :=
     match l with
     | [] => mret best
     | t :: l' =>
         w ← waits_get t;
         go l' (if w_timeout w <? best then w_timeout w else best)
     end) l FOREVER.

(** how a thread taken off [waitq] becomes runnable again *)
Definition make_runnable (t : Z) : SM unit :=
  if 0 <=? enforce_turn_type then
    if hp_policy && negb (t =? 1) then on_hp_runq (q_push_back t) else on_runq (q_push_back t)
  else wait_t_post t.

(** the loop of fireTimeouts over the rest of [waitq]: what stays, and the count *)
Fixpoint fire_loop (l : list Z) : SM (list Z * Z) :=
  match l with
  | [] => mret ([], 0)
  | t :: l' =>
      assert_tid t ;;
      w ← waits_get t;
      turn ← gets s_turnCount;
      if w_timeout w <? turn then
        waits_upd t (wt_reset ETIMEDOUT) ;;
        waits_upd t (wt_reason TIMEDOUT) ;;
        make_runnable t ;;
        '(keep, n) ← fire_loop l';
        mret (keep, n + 1)
      else
        '(keep, n) ← fire_loop l';
        mret (t :: keep, n)
  end.

Definition fireTimeouts : SM Z :=
  l ← gets s_waitq;
  '(keep, n) ← fire_loop l;
  modify (set_waitq keep) ;;
  mret n.

(** ** Threads that return from blocking operations *)

Definition check_wakeup : SM unit :=
  f ← gets s_wakeup_flag;
  when f
    (ts ← gets s_wakeup_tids;
     for_each (fun t =>
       i ← on_runq (q_in t);
       if i : bool then mret tt
       else
         (if 0 <=? enforce_turn_type then on_runq (q_push_back t) else wait_t_post t) ;;
         when enforce_non_det_clock_bound (on_non_det (nd_erase t))) (set_order ts) ;;
     modify (set_wakeup ∅ false)).

Definition wakeup (self : Z) : SM unit :=
  modify (fun s => set_wakeup ({[ self ]} ∪ s_wakeup_tids s) true s).

(** ** The logical clock *)

Definition Serializer_incTurnCount (self : Z) : SM Z :=
  n ← gets s_turnCount;
  modify (fun s => set_turn (n +u32 1)
                     (if log_sync then (self, s32 n) :: s_log s else s_log s) s) ;;
  mret n.

Definition Serializer_getTurnCount : SM Z := n ← gets s_turnCount; mret (n -u32 1).

Definition incTurnCount (self : Z) : SM Z :=
  ret ← Serializer_incTurnCount self;
  _ ← fireTimeouts;
  check_wakeup ;;
  mret ret.

Definition getTurnCount : SM Z := Serializer_getTurnCount.

(** ** Signals *)

(** the loop of signal over the rest of [waitq]: what stays *)
Fixpoint signal_loop (chan : Z) (all : bool) (l : list Z) : SM (list Z) :=
  match l with
  | [] => mret []
  | t :: l' =>
      assert_tid t ;;
      w ← waits_get t;
      if w_chan w =? chan then
        waits_upd t (wt_reset 0) ;;
        waits_upd t (wt_reason SIGNAL) ;;
        make_runnable t ;;
        if all then signal_loop chan all l' else mret l'
      else
        keep ← signal_loop chan all l';
        mret (t :: keep)
  end.

(** the returned list stays empty: signal_list is filled under XTERN_PLUS_DBUG only *)
Definition signal (self chan : Z) (all : bool) : SM unit :=
  cassert ndebug (negb (chan =? 0)) "can't signal/broadcast NULL" ;;
  assert_front self ;;
  l ← gets s_waitq;
  keep ← signal_loop chan all l;
  modify (set_waitq keep).

(** ** The idle thread *)

(** the loop of wakeUpIdleThread: what stays, and the last tid it looked at *)
Fixpoint find_idle (l : list Z) (last : Z) : SM (list Z * Z) :=
  match l with
  | [] => mret ([], last)
  | t :: l' =>
      assert_tid t ;;
      if t =? IdleThreadTid then
        waits_upd t (wt_reset 0) ;;
        (if 0 <=? enforce_turn_type then on_runq (q_push_back t) else wait_t_post t) ;;
        mret (l', t)
      else
        '(keep, last) ← find_idle l' t;
        mret (t :: keep, last)
  end.

Definition wakeUpIdleThread : SM unit :=
  d ← gets s_idle_done;
  (if d : bool then fail ThreadExit else mret tt) ;;
  l ← gets s_waitq;
  '(keep, t) ← find_idle l (-1);
  modify (set_waitq keep) ;;
  cassert ndebug (t =? IdleThreadTid) "tid == IdleThreadTid" ;;
  assert_runq_nonempty ;;
  modify (fun s => set_idle (s_idle_done s) false s).     (* pthread_cond_signal(&idle_cond) *)

(** ** Choosing the next thread *)

Definition is_running (st : THD_STATUS) : bool :=
  match st with RUNNABLE | RUNNING_REG | RUNNING_INTER_PRO => true | INTER_PRO_STOP => false end.

(** the head element is not blocked: it gets the turn *)
Definition pass_turn (p : option loc) : SM unit :=
  e ← elem_get p;
  cassert ndebug (is_running (e_status e)) "head status" ;;
  when (bool_decide (e_status e = RUNNABLE)) (elem_set_status p RUNNING_REG).

(** the head element is blocked in an inter-process operation: it leaves the queue *)
Definition drop_head (pop : SM unit) (p : option loc) : SM unit :=
  pop ;;
  when enforce_non_det_clock_bound
    (e ← elem_get p; turn ← gets s_turnCount; on_non_det (nd_insert (e_tid e) turn)).

(** the condition of the hp_runq branch *)
Definition use_hp_runq (self strategy : Z) : SM bool :=
  if hp_policy then
    e ← on_hp_runq q_empty;
    if e : bool then mret false
    else
      w ← waits_get self;
      mret (Bool.eqb (strategy =? PUTTURN_STRATEGY_CURRENT_THREAD) (w_hp w) &&
            negb (strategy =? PUTTURN_STRATEGY_CURRENT_ROLE))
  else mret false.

(** [runq.empty()] in the last branch: give up (None) or go on with a strategy *)
Definition runq_is_empty (self : Z) (at_thread_end : bool) : SM (option Z) :=
  wq ← gets s_waitq;
  if at_thread_end && bool_decide (wq = []) then mret None
  else if at_thread_end && bool_decide (wq <> []) && (self =? MainThreadTid) then mret None
  else
    (if launch_idle_thread =? 0 then fail (ProcessExit 1) else mret tt) ;;
    cassert ndebug (negb (self =? IdleThreadTid)) "self() != IdleThreadTid" ;;
    wakeUpIdleThread ;;
    mret (Some 0).

(** the idle thread alone in [runq] wakes the threads that wait to enter a non-det region *)
Definition wake_non_det (self : Z) : SM unit :=
  n ← gets s_nNonDetWait;
  sz ← on_runq q_size;
  f ← on_runq q_front;
  when (negb (enforce_non_det_annotations =? 0) && (0 <? n) && (self =? IdleThreadTid) &&
        (sz =? 1) && (f =? IdleThreadTid))
    (signal self addr_nonDetCV true).

Fixpoint nextRunnable_loop (fuel : nat) (self : Z) (at_thread_end : bool) (strategy : Z) : SM Z :=
  match fuel with
  | O => fail OutOfFuel
  | S fuel' =>
      hp ← use_hp_runq self strategy;
      if hp : bool then
        p ← on_hp_runq q_front_elem;
        e ← elem_get p;
        if decide (e_status e = INTER_PRO_STOP) then
          drop_head (on_hp_runq q_pop_front) p ;;
          nextRunnable_loop fuel' self at_thread_end strategy
        else
          pass_turn p ;;
          waits_upd (e_tid e) (wt_hp true) ;;
          mret (e_tid e)
      else
        empty ← on_runq q_empty;
        if (strategy =? PUTTURN_STRATEGY_CURRENT_ROLE) && negb empty then
          role ← on_tids (getRoleid self);
          p ← on_runq q_front_elem;
          e ← elem_get p;
          if decide (e_status e = INTER_PRO_STOP) then
            drop_head (on_runq q_pop_front) p ;;
            nextRunnable_loop fuel' self at_thread_end strategy
          else
            r ← on_tids (getRoleid (e_tid e));
            if role =? r then
              pass_turn p ;;
              mret (e_tid e)
            else
              on_runq q_pop_front ;;
              on_runq (q_push_back (e_tid e)) ;;
              nextRunnable_loop fuel' self at_thread_end strategy
        else
          next ← (if empty : bool then runq_is_empty self at_thread_end
                  else wake_non_det self ;; mret (Some strategy));
          match next with
          | None => mret InvalidTid
          | Some strategy' =>
              assert_runq_nonempty ;;
              p ← on_runq q_front_elem;
              e ← elem_get p;
              if decide (e_status e = INTER_PRO_STOP) then
                drop_head (on_runq q_pop_front) p ;;
                nextRunnable_loop fuel' self at_thread_end strategy'
              else
                pass_turn p ;;
                mret (e_tid e)
          end
  end.

(** enough iterations for every queue the heap can hold; see [nextRunnable_spec] in SchedNext *)
Definition nextRunnable_fuel (s : sched) : nat := 2 * size (cells (s_heap s)) + 4.

Definition nextRunnable (self : Z) (at_thread_end : bool) (strategy : Z) : SM Z :=
  n ← gets nextRunnable_fuel;
  nextRunnable_loop n self at_thread_end strategy.

(** [if (waits[tid].woken_up_from_hp_queue_flag) hp_runq.pop_front() else runq.pop_front()] *)
Definition pop_self (self : Z) : SM unit :=
  w ← waits_get self;
  if w_hp w then on_hp_runq q_pop_front ;; waits_upd self (wt_hp false)
  else on_runq q_pop_front.

Definition next (self : Z) (at_thread_end hasPoppedFront : bool) (strategy : Z) : SM unit :=
  if 0 <=? enforce_turn_type then
    (if hasPoppedFront then mret tt
     else
       my ← on_runq (get_my_elem self);
       e ← elem_get my;
       (if decide (e_status e = RUNNING_REG) then elem_set_status my RUNNABLE
        else
          cassert ndebug (bool_decide (e_status e = RUNNING_INTER_PRO)) "RUNNING_INTER_PRO" ;;
          elem_set_status my INTER_PRO_STOP) ;;
       pop_self self) ;;
    check_wakeup ;;
    next_tid ← nextRunnable self at_thread_end strategy;
    if next_tid =? InvalidTid then mret tt
    else assert_tid next_tid ;; wait_t_post next_tid
  else
    check_wakeup ;;
    modify (set_inSync false).

(** ** The operations *)

Definition getTurn (self : Z) : SM unit := assert_tid self ;; wait_t_wait self.

Definition block (self : Z) : SM Z :=
  getTurn self ;;
  when enforce_non_det_clock_bound
    (turn ← gets s_turnCount; on_non_det (nd_insert self turn)) ;;
  assert_tid self ;;
  assert_front self ;;
  ret ← incTurnCount self;
  next self false false 0 ;;
  mret (s32 ret).

Definition checkNonDetBound : SM unit :=
  n ← (if enforce_non_det_clock_bound then on_non_det nd_size else mret 0);
  when (0 <? n)
    (t ← on_non_det nd_first_thread;
     clock ← on_non_det (nd_get_clock t);
     turn ← gets s_turnCount;
     when (clock +u32 non_det_clock_bound <? turn)
       (when (0 <=? enforce_turn_type) (on_runq (q_push_back t)) ;;
        on_non_det (nd_erase t))).

(** [th] is the caller's pthread_self() *)
Definition putTurn (self th : Z) (at_thread_end : bool) (strategy : Z) : SM unit :=
  assert_tid self ;;
  assert_front self ;;
  hasPoppedFront ←
    (if at_thread_end then
       signal self th false ;;
       on_tids (zombify self th) ;;
       mret false
     else if 0 <=? enforce_turn_type then
       my ← on_runq (get_my_elem self);
       e ← elem_get my;
       cassert ndebug (bool_decide (e_status e = RUNNING_REG)) "RUNNING_REG" ;;
       elem_set_status my RUNNABLE ;;
       (if (strategy =? PUTTURN_STRATEGY_CURRENT_THREAD) || (strategy =? PUTTURN_STRATEGY_CREATE)
        then mret tt
        else
          pop_self self ;;
          if strategy =? PUTTURN_STRATEGY_YIELD then on_runq (insert_yield self)
          else on_runq (q_push_back self)) ;;
       mret true
     else mret false);
  checkNonDetBound ;;
  next self at_thread_end hasPoppedFront strategy.

(** wait(chan, nturn) up to its getTurn(), and from the getTurn() to the return *)
Definition wait_begin (self chan nturn : Z) : SM unit :=
  _ ← incTurnCount self;
  assert_tid self ;;
  assert_front self ;;
  waits_upd self (wt_block chan nturn) ;;
  modify (fun s => set_waitq (s_waitq s ++ [self]) s) ;;
  when (enforce_turn_type <? 0) (waits_upd self (wt_runnable false)) ;;
  next self false false 0.

Definition wait_end (self : Z) : SM Z :=
  getTurn self ;;
  w ← waits_get self;
  match w_wake_reason w with
  | Some r => mret (wake_code r)
  | None => fail UninitRead
  end.

Definition interProStart (self : Z) : SM bool :=
  my ← on_runq (get_my_elem self);
  e ← elem_get my;
  if decide (e_status e = RUNNABLE) then
    elem_set_status my INTER_PRO_STOP ;; mret false
  else
    cassert ndebug (bool_decide (e_status e = RUNNING_REG)) "RUNNING_REG" ;;
    elem_set_status my RUNNING_INTER_PRO ;; mret true.

Definition interProEnd (self : Z) : SM bool :=
  my ← on_runq (get_my_elem self);
  e ← elem_get my;
  cassert ndebug (bool_decide (e_status e = INTER_PRO_STOP)) "INTER_PRO_STOP" ;;
  elem_set_status my RUNNABLE ;;
  mret true.

(** the loop of tryPutTurn over the elements from [p] on *)
Fixpoint try_loop (fuel : nat) (p : option loc) : SM bool :=
  match fuel with
  | O => fail OutOfFuel
  | S fuel' =>
      match p with
      | None => mret false
      | Some _ =>
          e ← elem_get p;
          if decide (e_status e = RUNNABLE) then
            elem_set_status p RUNNING_REG ;; mret true
          else try_loop fuel' (e_next e)
      end
  end.

Definition tryPutTurn (self : Z) : SM bool :=
  assert_runq_nonempty ;;
  assert_front self ;;
  p ← on_runq q_front_elem;
  e ← elem_get p;                                 (* itr++ *)
  n ← gets (fun s => size (cells (s_heap s)));
  try_loop (S n) (e_next e).

(** up to pthread_cond_wait(&idle_cond, &idle_mutex) where the first branch ends *)
Definition idleThreadCondWait (self th : Z) : SM unit :=
  b ← tryPutTurn self;
  if b : bool then
    cassert ndebug (self =? IdleThreadTid) "tid == IdleThreadTid" ;;
    waits_upd self (wt_block addr_idle_cond FOREVER) ;;
    modify (fun s => set_waitq (s_waitq s ++ [self]) s) ;;
    assert_front self ;;
    next self false false 0 ;;
    modify (fun s => set_idle (s_idle_done s) true s)
  else putTurn self th false 0.

Definition sched_getRoleid (t : Z) : SM Z := on_tids (getRoleid t).
Definition sched_changeRole (th role_func : Z) : SM unit := on_tids (changeRole th role_func).

(** ** Threads and processes *)

Definition sched_create (self new_th thread_func : Z) : SM Z :=
  assert_front self ;;
  _ ← on_tids (create new_th thread_func);
  tid ← gets (fun s => getTid new_th (s_tids s));
  elem ← on_runq (create_thd_elem tid);
  (if 0 <=? enforce_turn_type then
     if hp_policy then
       on_hp_runq (set_thd_elem tid elem) ;;
       on_hp_runq (q_push_back tid)
     else on_runq (q_push_back tid)
   else mret tt) ;;
  mret tid.

Definition join (th : Z) : SM unit := on_tids (reap th).

(** Scheduler::childForkReturn; the new values of self_tid and self_roleid *)
Definition Scheduler_childForkReturn (th : Z) : SM (Z * option Z) :=
  me ← on_tids (reset th);
  modify (set_waitq []) ;;
  on_runq deep_clear ;;
  elem ← on_runq (create_thd_elem MainThreadTid);
  when hp_policy (on_hp_runq (set_thd_elem MainThreadTid elem)) ;;
  elem_set_status elem RUNNING_REG ;;
  on_runq (q_push_back MainThreadTid) ;;
  mret me.

Definition childForkReturn (th : Z) : SM (Z * option Z) :=
  me ← Scheduler_childForkReturn th;
  for_each (fun i => waits_upd i (wt_reset 0)) (seqZ 0 MAX_THREAD_NUM) ;;
  mret me.

(** the members before the constructor bodies run *)
Definition blank_sched : sched :=
  Sched empty_heap empty_queue empty_queue [] nd_empty empty_tidmap 0 ∅ ∅ false false false false
    0 [].

(** TidMap(pthread_self()), Serializer() and RRScheduler() *)
Definition construct (main_th : Z) : SM unit :=
  me ← on_tids (init main_th);
  cassert ndebug (me.1 =? MainThreadTid) "tid hasn't been initialized!" ;;
  main_elem ← on_runq (create_thd_elem MainThreadTid);
  when hp_policy (on_hp_runq (set_thd_elem MainThreadTid main_elem)) ;;
  on_runq (q_push_back me.1) ;;
  wait_t_post MainThreadTid ;;
  elem_set_status main_elem RUNNING_REG ;;
  modify (set_wakeup ∅ false).

(** ** Debugging *)

(** the iterator of the run queue: the thread ids from [p] to end() *)
Fixpoint iter_loop (fuel : nat) (p : option loc) : SM (list Z) :=
  match fuel with
  | O => fail OutOfFuel
  | S fuel' =>
      match p with
      | None => mret []
      | Some _ => e ← elem_get p; l ← iter_loop fuel' (e_next e); mret (e_tid e :: l)
      end
  end.
Definition runq_list : SM (list Z) :=
  p ← on_runq q_front_elem;
  n ← gets (fun s => size (cells (s_heap s)));
  iter_loop (S n) p.

(** the checks of selfcheck, without what it prints: [tids] is the set seen so far *)
Fixpoint check_tids (l : list Z) (n : Z) (tids : gset Z) : option (gset Z) :=
  match l with
  | [] => Some tids
  | t :: l' =>
      if (t <? 0) || (n <? t) then None
      else if bool_decide (t ∈ tids) then None
      else check_tids l' n ({[ t ]} ∪ tids)
  end.
Definition selfcheck : SM bool :=
  rq ← runq_list;
  s ← get;
  let n := nthread (s_tids s) in
  mret (match check_tids rq n ∅ ≫= check_tids (s_waitq s) n with
        | None => false
        | Some _ =>
            forallb (fun t => (w_chan (wait_of s t) =? 0) && (w_timeout (wait_of s t) =? FOREVER)) rq &&
            forallb (fun t => negb ((w_chan (wait_of s t) =? 0) && (w_timeout (wait_of s t) =? FOREVER)))
              (s_waitq s)
        end).
End scheduler.
