(* ===== verification/SchedInv.v ===== *)
(** * Invariant of the scheduler and specifications of its building blocks

    The invariant is stated for the round-robin queues proper: the hp_runq policy
    (bit 2 of scheduling_policy) and the bounded non-determinism option are off, and
    the turn is handed over by one of the three relays (enforce_turn_type 0, 1, 2).
    [core s rq wq o] says that in [s] the run queue holds [rq], the wait queue [wq],
    and the turn has been posted to [o] and not been taken yet.  Every specification
    says exactly which threads move between the queues. *)
From S2P Require Import Prelude Options RunQueue RunQueueSpec RunQueueYield RunQueueLife.
From S2P Require Import TidMap NonDetSet Scheduler.

(** the status of a thread *)
Definition status_of (s : sched) (t : Z) : option THD_STATUS :=
  e_status <$> (q_tid_map (s_runq s) !! t ≫= fun l => cells (s_heap s) !! l).

Definition registered (s : sched) (t : Z) : Prop := is_Some (q_tid_map (s_runq s) !! t).

(** a wait_t that waits for nothing *)
Definition idle_wait (w : wait_t) : Prop := w_chan w = 0 /\ w_timeout w = FOREVER.

(** the number of turns a wait_t has been given and not taken *)
Definition turns `{Options} (w : wait_t) : Z :=
  if enforce_turn_type =? 1 then w_sem w else if w_wakenUp w then 1 else 0.

Record aux `{Options} (s : sched) (rq wq : list Z) (o : option Z) : Prop := {
  ax_reg : forall t, registered s t <-> 0 <= t < nthread (s_tids s);
  ax_tids : tidmap_wf (s_tids s);
  ax_nthread : 1 <= nthread (s_tids s) <= MAX_THREAD_NUM;
  ax_rq : forall t, t ∈ rq -> t ∉ wq;
  ax_wq_nodup : NoDup wq;
  ax_wq_reg : forall t, t ∈ wq -> registered s t;
  ax_wq_status : forall t, t ∈ wq -> status_of s t = Some RUNNABLE \/ status_of s t = Some RUNNING_REG;
  ax_wq_wait : forall t, t ∈ wq -> ~ idle_wait (wait_of s t);
  ax_out_wait : forall t, t ∉ wq -> idle_wait (wait_of s t);
  ax_no_hp : forall t, w_hp (wait_of s t) = false;
  ax_turns : forall t, turns (wait_of s t) = if decide (o = Some t) then 1 else 0;
  ax_wake : forall t, t ∈ s_wakeup_tids s -> registered s t /\ t ∉ wq;
  ax_flag : s_wakeup_flag s = false -> s_wakeup_tids s = ∅;
  ax_turnCount : 0 <= s_turnCount s < 2 ^ 32;
  ax_hp : s_hp_runq s = empty_queue
}.

Record core `{Options} (s : sched) (rq wq : list Z) (o : option Z) : Prop := {
  co_rq : rq_inv (s_heap s) (s_runq s) rq [];
  co_aux : aux s rq wq o
}.

(** ** Frames: states that differ in the run queue and in [waits] only *)
Definition rw (s s' : sched) : Prop := exists h q w, s' = set_waits w (set_runq h q s).

Lemma rw_refl s : rw s s.
Proof. exists (s_heap s), (s_runq s), (s_waits s). by destruct s. Qed.
Lemma rw_trans s1 s2 s3 : rw s1 s2 -> rw s2 s3 -> rw s1 s3.
Proof. intros (h & q & w & ->) (h' & q' & w' & ->). by exists h', q', w'. Qed.
Lemma rw_runq h q s : rw s (set_runq h q s).
Proof. by exists h, q, (s_waits s). Qed.
Lemma rw_waits w s : rw s (set_waits w s).
Proof. exists (s_heap s), (s_runq s), w. by destruct s. Qed.
#[export] Hint Resolve rw_refl rw_runq rw_waits : minsmt.
#[export] Instance rw_preorder : PreOrder rw.
Proof. split; [exact rw_refl|exact rw_trans]. Qed.

(** the status map and the registration are the same *)
Definition same_status (s s' : sched) : Prop :=
  (forall t, status_of s' t = status_of s t) /\ (forall t, registered s' t <-> registered s t).
#[export] Instance same_status_preorder : PreOrder same_status.
Proof.
  split; [by intros s; split|]. intros s1 s2 s3 [A1 B1] [A2 B2].
  split; intros t; [by rewrite A2|by rewrite B2].
Qed.

Lemma touched_status T s h q :
  touched T (RQS (s_heap s) (s_runq s)) (RQS h q) -> same_status s (set_runq h q s).
Proof.
  intros [Hm _ Hc _]. simpl in *. split; intros t; unfold status_of, registered; simpl; rewrite Hm; [|done].
  destruct (q_tid_map (s_runq s) !! t) as [l|]; [|done]. simpl. specialize (Hc l).
  destruct (cells h !! l), (cells (s_heap s) !! l); unfold elem_core in Hc; simpl in *; try done.
  injection Hc. by intros -> _.
Qed.

Section inv.
Context `{Options, UnorderedIter, GlobalAddrs}.
Context {X : error -> Prop}.
Implicit Types (s : sched) (rq wq : list Z) (o : option Z) (t : Z).

(** ** Facts *)

Lemma wait_of_insert s t w t' :
  wait_of (set_waits (<[t := w]> (s_waits s)) s) t' = if decide (t = t') then w else wait_of s t'.
Proof.
  unfold wait_of. simpl. case_decide as Ht; [subst; by rewrite lookup_insert_eq|].
  by rewrite lookup_insert_ne.
Qed.

Lemma aux_range s rq wq o t : aux s rq wq o -> registered s t -> 0 <= t < MAX_THREAD_NUM.
Proof. intros Ha Ht. apply (ax_reg _ _ _ _ Ha) in Ht. pose proof (ax_nthread _ _ _ _ Ha). lia. Qed.

Lemma core_elem s rq wq o t : core s rq wq o -> registered s t ->
  exists l e, q_tid_map (s_runq s) !! t = Some l /\ cells (s_heap s) !! l = Some e /\
              e_tid e = t /\ status_of s t = Some (e_status e).
Proof.
  intros [Hq _] [l Hl]. destruct (wf_map _ _ (inv_wf _ _ _ _ Hq) _ _ Hl) as (_ & e & He & Het).
  exists l, e. split_and!; try done. unfold status_of. rewrite Hl. simpl. by rewrite He.
Qed.

Lemma core_mem s rq wq o t : core s rq wq o -> t ∈ rq -> registered s t.
Proof. intros [Hq _] Ht. destruct (inv_mem _ _ _ _ t Hq Ht) as (l & e & Hl & _). by exists l. Qed.

Lemma core_nodup s rq wq o : core s rq wq o -> NoDup rq.
Proof. intros [[_ [ls Hrep] _] _]. apply Hrep. Qed.

(** the auxiliary part does not depend on the links *)
Lemma aux_status s s' rq rq' wq o :
  aux s rq wq o -> same_status s s' -> (exists h q, s' = set_runq h q s) ->
  (forall t, t ∈ rq' -> t ∉ wq) -> aux s' rq' wq o.
Proof.
  intros [A1 A2 A3 A4 A5 A6 A7 A8 A9 A10 A11 A12 A13 A14 A15] [Hs Hr] (h & q & ->) Hrq.
  split; try done.
  - intros t. by rewrite Hr.
  - intros t Ht. by apply Hr, A6.
  - intros t Ht. rewrite Hs. by apply A7.
  - intros t Ht. rewrite Hr. by apply A12.
Qed.

(** ** Primitive steps *)

Lemma wp_waits_get t Q s : in_range t = true -> Q (wait_of s t) s -> wpx X (waits_get t) Q s.
Proof. intros Ht HQ. unfold waits_get. by rewrite Ht. Qed.

Lemma wp_waits_upd t f Q s : in_range t = true ->
  Q tt (set_waits (<[t := f (wait_of s t)]> (s_waits s)) s) -> wpx X (waits_upd t f) Q s.
Proof. intros Ht HQ. unfold waits_upd. by rewrite Ht. Qed.

Lemma registered_in_range s rq wq o t : aux s rq wq o -> registered s t -> in_range t = true.
Proof. intros Ha Ht. pose proof (aux_range _ _ _ _ _ Ha Ht). unfold in_range. lia. Qed.

Lemma wp_assert_tid s rq wq o t Q : aux s rq wq o -> registered s t -> Q tt s ->
  wpx X (assert_tid t) Q s.
Proof.
  intros Ha Ht HQ. unfold assert_tid. wp_steps. apply wp_cassert; [|done].
  apply (ax_reg _ _ _ _ Ha) in Ht. lia.
Qed.

Lemma wp_q_empty s rq wq o Q : core s rq wq o -> Q (bool_decide (rq = [])) s ->
  wpx X (on_runq q_empty) Q s.
Proof.
  intros [Hq _] HQ. unfold on_runq. apply wp_zoom.
  eapply wp_intro; [by eapply q_empty_spec|]. by destruct s.
Qed.

Lemma wp_q_size s rq wq o Q : core s rq wq o -> Q (Z.of_nat (length rq)) s ->
  wpx X (on_runq q_size) Q s.
Proof.
  intros [Hq _] HQ. unfold on_runq. apply wp_zoom.
  eapply wp_intro; [by eapply q_size_spec|]. by destruct s.
Qed.

Lemma wp_q_front s t rq wq o Q : core s (t :: rq) wq o -> Q t s -> wpx X (on_runq q_front) Q s.
Proof.
  intros [Hq _] HQ. unfold on_runq. apply wp_zoom.
  eapply wp_intro; [by eapply q_front_spec|]. by destruct s.
Qed.

Lemma wp_assert_head s t rq Q : rq_inv (s_heap s) (s_runq s) (t :: rq) [] -> Q tt s ->
  wpx X (assert_front t) Q s.
Proof.
  intros Hq HQ. unfold assert_front. destruct ndebug; [done|]. wp_step.
  unfold on_runq. apply wp_zoom. eapply wp_intro; [by eapply q_front_spec|].
  apply wp_cassert; [lia|]. by destruct s.
Qed.

Lemma wp_assert_front s t rq wq o Q : core s (t :: rq) wq o -> Q tt s ->
  wpx X (assert_front t) Q s.
Proof. intros [Hq _]. by eapply wp_assert_head. Qed.

Lemma wp_assert_nonempty s rq wq o Q : core s rq wq o -> rq <> [] -> Q tt s ->
  wpx X assert_runq_nonempty Q s.
Proof.
  intros Hc Hne HQ. unfold assert_runq_nonempty. wp_step. eapply wp_q_empty; [done|].
  apply wp_cassert; [by rewrite bool_decide_false|done].
Qed.

Lemma wp_q_in s rq wq o t Q : core s rq wq o -> registered s t -> Q (bool_decide (t ∈ rq)) s ->
  wpx X (on_runq (q_in t)) Q s.
Proof.
  intros [Hq _] [l Hl] HQ. unfold on_runq. apply wp_zoom.
  eapply wp_intro; [eapply q_in_spec; [done|done|set_solver]|]. by destruct s.
Qed.

Lemma wp_front_elem s t rq wq o Q : core s (t :: rq) wq o ->
  (forall l, q_tid_map (s_runq s) !! t = Some l -> Q (Some l) s) ->
  wpx X (on_runq q_front_elem) Q s.
Proof.
  intros [Hq _] HQ. destruct (inv_front _ _ _ _ _ Hq) as (l & e & Hh & Hl & _).
  unfold on_runq, q_front_elem. apply wp_zoom. wp_steps. simpl. rewrite Hh.
  specialize (HQ l Hl). by destruct s.
Qed.

Lemma wp_elem_get s l e Q : cells (s_heap s) !! l = Some e -> Q e s ->
  wpx X (elem_get (Some l)) Q s.
Proof.
  intros He HQ. unfold elem_get, on_runq. apply wp_zoom. eapply wp_load; [done|done|].
  by destruct s.
Qed.

Lemma wp_get_my_elem s rq wq o t Q : core s rq wq o -> registered s t ->
  (forall l, q_tid_map (s_runq s) !! t = Some l -> Q (Some l) s) ->
  wpx X (on_runq (get_my_elem t)) Q s.
Proof.
  intros Hc [l Hl] HQ. unfold on_runq, get_my_elem. apply wp_zoom.
  apply wp_tid_map_get; [eapply aux_range; [apply Hc|by exists l]|].
  specialize (HQ l Hl). simpl. rewrite Hl. by destruct s.
Qed.

(** ** Moving threads *)

(** the result of an operation that only relinks the run queue *)
Definition relinked (s : sched) (rq wq : list Z) (o : option Z) (s' : sched) : Prop :=
  core s' rq wq o /\ same_status s s' /\ exists h q, s' = set_runq h q s.

Lemma relinked_intro s r rq rq' wq o T : aux s rq wq o ->
  rq_inv (r_heap r) (r_q r) rq' [] ->
  touched T (RQS (s_heap s) (s_runq s)) r -> (forall t, t ∈ rq' -> t ∉ wq) ->
  relinked s rq' wq o (set_runq (r_heap r) (r_q r) s).
Proof.
  intros Ha Hq Ht Hrq. destruct r as [h q].
  pose proof (touched_status _ _ _ _ Ht) as Hst. split_and!; [|done|by exists h, q].
  split; [done|]. eapply aux_status; [done|done|by exists h, q|done].
Qed.

Lemma push_spec s rq wq o t : core s rq wq o -> registered s t -> t ∉ rq -> t ∉ wq ->
  wpx X (on_runq (q_push_back t)) (fun _ s' => relinked s (rq ++ [t]) wq o s') s.
Proof.
  intros [Hq Ha] [l Hl] Hrq Hwq. unfold on_runq. apply wp_zoom.
  eapply wp_use; [eapply push_back_spec; [done|done|done|set_solver]|]. cbn beta.
  intros _ r (P1 & P2 & _). eapply relinked_intro; [done|done|done|].
  intros t' Ht'. apply elem_of_app in Ht' as [Ht'|Ht']; [by apply (ax_rq _ _ _ _ Ha)|set_solver].
Qed.

Lemma yield_spec s rq wq o t : core s rq wq o -> registered s t -> t ∉ rq -> t ∉ wq ->
  wpx X (on_runq (insert_yield t)) (fun _ s' =>
    exists rq1 rq2, rq = rq1 ++ rq2 /\ (rq <> [] -> rq1 <> []) /\
      relinked s (rq1 ++ t :: rq2) wq o s') s.
Proof.
  intros [Hq Ha] [l Hl] Hrq Hwq. unfold on_runq. apply wp_zoom.
  eapply wp_use; [eapply insert_yield_spec; [done|done|done|set_solver]|]. cbn beta.
  set (n := yield_pos _ _). intros _ r (P1 & P2 & _).
  exists (take n rq), (drop n rq). split_and!; [by rewrite take_drop| |].
  - intros Hne. subst n. destruct rq as [|t0 rq]; [done|]. done.
  - eapply relinked_intro; [done|done|done|]. intros t' Ht'.
    assert (t' = t \/ t' ∈ rq) as [->|Ht2]; [|done|by apply (ax_rq _ _ _ _ Ha)].
    rewrite elem_of_app, elem_of_cons in Ht'. destruct Ht' as [Ht'|[->|Ht']]; [right|by left|right].
    + by eapply subseteq_take.
    + by eapply subseteq_drop.
Qed.

Lemma aux_sub s rq rq' wq o : aux s rq wq o -> rq' ⊆ rq -> aux s rq' wq o.
Proof. intros [] Hs. split; eauto. Qed.

Lemma pop_spec s t rq wq o : rq_inv (s_heap s) (s_runq s) (t :: rq) [] -> aux s rq wq o ->
  wpx X (on_runq q_pop_front) (fun _ s' => relinked s rq wq o s') s.
Proof.
  intros Hq Ha. unfold on_runq. apply wp_zoom.
  eapply wp_use; [by eapply pop_front_spec|]. cbn beta.
  intros _ r (P1 & P2 & _). eapply relinked_intro; [done|done|done|]. apply Ha.
Qed.

(** [elem->status = st] for a thread that does not wait *)
Definition restatus (s : sched) (t : Z) (st : THD_STATUS) (s' : sched) : Prop :=
  (exists h, s' = set_runq h (s_runq s) s) /\ status_of s' t = Some st /\
  (forall t', t' <> t -> status_of s' t' = status_of s t') /\
  (forall t', registered s' t' <-> registered s t').

Lemma restatus_aux s t st s' rq wq o : aux s rq wq o -> restatus s t st s' ->
  (t ∈ wq -> st = RUNNABLE \/ st = RUNNING_REG) -> aux s' rq wq o.
Proof.
  intros [A1 A2 A3 A4 A5 A6 A7 A8 A9 A10 A11 A12 A13 A14 A15] ((h & ->) & Ht & Ho & Hr) Hwq.
  split; try done. intros t' Ht'. destruct (decide (t' = t)) as [->|Hne].
  - rewrite Ht. destruct (Hwq Ht') as [->| ->]; auto.
  - rewrite Ho by done. by apply A7.
Qed.

Lemma set_status_spec s rq t l e st (Q : unit -> sched -> Prop) :
  rq_inv (s_heap s) (s_runq s) rq [] ->
  q_tid_map (s_runq s) !! t = Some l -> cells (s_heap s) !! l = Some e ->
  (forall s', rq_inv (s_heap s') (s_runq s') rq [] -> restatus s t st s' -> Q tt s') ->
  wpx X (elem_set_status (Some l) st) Q s.
Proof.
  intros Hq Hl He HQ. unfold elem_set_status, on_runq. apply wp_zoom.
  eapply wp_store; [done|done|]. simpl.
  set (h' := Heap _ _). apply HQ; [by apply inv_set_status|].
  pose proof (inv_wf _ _ _ _ Hq) as Hwf. split_and!; [by exists h'| | |done].
  - unfold status_of. simpl. rewrite Hl. simpl. by rewrite lookup_insert_eq.
  - intros t' Ht'. unfold status_of. simpl.
    destruct (q_tid_map (s_runq s) !! t') as [l'|] eqn:Hl'; [|done]. simpl.
    rewrite lookup_insert_ne; [done|]. intros <-. apply Ht'. by eapply wf_inj.
Qed.
End inv.
