(* ===== verification/SchedWake.v ===== *)
(** * Waking threads: timeouts, signals, the idle thread and returns from blocking calls *)
From S2P Require Import Prelude Options RunQueue RunQueueSpec RunQueueYield RunQueueLife.
From S2P Require Import TidMap NonDetSet Scheduler SchedInv.

(** the elements of [l] that satisfy [p] (the first one unless [all]), and the others *)
Fixpoint pick (p : Z -> bool) (all : bool) (l : list Z) : list Z * list Z :=
  match l with
  | [] => ([], [])
  | t :: l' =>
      if p t then (if all then (t :: (pick p all l').1, (pick p all l').2) else ([t], l'))
      else ((pick p all l').1, t :: (pick p all l').2)
  end.

Lemma pick_perm p all l : (pick p all l).1 ++ (pick p all l).2 ≡ₚ l.
Proof.
  induction l as [|t l IH]; simpl; [done|].
  destruct (p t); [destruct all; simpl; [by rewrite IH|done]|]. simpl.
  by rewrite <-Permutation_middle, IH.
Qed.

Lemma pick_all p l :
  (pick p true l).1 = filter (fun t => p t = true) l /\
  (pick p true l).2 = filter (fun t => p t = false) l.
Proof.
  induction l as [|t l [IH1 IH2]]; simpl; [done|]. rewrite !filter_cons.
  destruct (p t); simpl; by rewrite ?IH1, ?IH2.
Qed.

Lemma pick_sat p all l t : t ∈ (pick p all l).1 -> p t = true.
Proof.
  induction l as [|x l IH]; simpl; [set_solver|]. destruct (p x) eqn:Hx; [|done].
  destruct all; simpl; set_solver.
Qed.

Lemma pick_sub p all l : (pick p all l).1 ⊆ l /\ (pick p all l).2 ⊆ l.
Proof.
  split; intros t Ht; rewrite <-(pick_perm p all l); apply elem_of_app; auto.
Qed.

Lemma pick_ext p p' all l : (forall t, t ∈ l -> p t = p' t) -> pick p all l = pick p' all l.
Proof.
  induction l as [|t l IH]; simpl; intros Hp; [done|].
  rewrite (Hp t), IH by set_solver. done.
Qed.

Lemma pick_first p l1 x l2 : Forall (fun y => p y = false) l1 -> p x = true ->
  pick p false (l1 ++ x :: l2) = ([x], l1 ++ l2).
Proof.
  intros Hl Hx. induction Hl as [|y l1 Hy Hl IH]; simpl; [by rewrite Hx|].
  by rewrite Hy, IH.
Qed.

(** an update of a wait_t that makes it wait for nothing and gives no turn *)
Definition clears (f : wait_t -> wait_t) : Prop := forall w,
  idle_wait (f w) /\ w_hp (f w) = w_hp w /\ w_wakenUp (f w) = false /\ w_sem (f w) = w_sem w.

Definition timed_out (w : wait_t) : wait_t := wt_reason TIMEDOUT (wt_reset ETIMEDOUT w).
Definition signalled (w : wait_t) : wait_t := wt_reason SIGNAL (wt_reset 0 w).

Lemma clears_timed_out : clears timed_out.
Proof. done. Qed.
Lemma clears_signalled : clears signalled.
Proof. done. Qed.
Lemma clears_reset st : clears (wt_reset st).
Proof. done. Qed.
#[export] Hint Resolve clears_timed_out clears_signalled clears_reset : minsmt.

(** the threads [ts] have moved to the tail of the run queue [rq], their wait_t
    updated by [f]; [wq] are left waiting and nothing else has changed *)
Record moved `{Options} (s : sched) (rq wq ts : list Z) (f : wait_t -> wait_t) (s' : sched) : Prop := {
  mv_core : core s' (rq ++ ts) wq None;
  mv_status : same_status s s';
  mv_rw : rw s s';
  mv_waits : forall t, wait_of s' t = if decide (t ∈ ts) then f (wait_of s t) else wait_of s t
}.

(** what no operation of this file changes *)
Record others_same (s s' : sched) : Prop := {
  os_tids : s_tids s' = s_tids s;
  os_non_det : s_non_det s' = s_non_det s;
  os_inSync : s_inSync s' = s_inSync s;
  os_idle_done : s_idle_done s' = s_idle_done s;
  os_idle_sleeping : s_idle_sleeping s' = s_idle_sleeping s;
  os_nNonDetWait : s_nNonDetWait s' = s_nNonDetWait s
}.
#[export] Instance others_same_preorder : PreOrder others_same.
Proof.
  split; [by intros s; split|]. intros s1 s2 s3 [] []. split; congruence.
Qed.
Lemma rw_others s s' : rw s s' -> others_same s s' /\ s_turnCount s' = s_turnCount s /\
  s_log s' = s_log s /\ s_waitq s' = s_waitq s /\ s_wakeup_tids s' = s_wakeup_tids s /\
  s_wakeup_flag s' = s_wakeup_flag s.
Proof. by intros (h & q & w & ->). Qed.

Section wake.
Context `{Options, UnorderedIter, GlobalAddrs}.
Context {X : error -> Prop}.
Context (Hpol : hp_policy = false) (Htt : 0 <= enforce_turn_type <= 2).
Implicit Types (s : sched) (rq wq l : list Z) (t : Z).

Lemma turns_clears f w : clears f -> turns w = 0 -> turns (f w) = 0.
Proof.
  intros Hf. destruct (Hf w) as (_ & _ & Hw & Hs). unfold turns.
  destruct (enforce_turn_type =? 1); [by rewrite Hs|]. by rewrite Hw.
Qed.

(** taking [t] off the wait queue *)
Lemma unwait_core s rq l1 t l2 f :
  core s rq (l1 ++ t :: l2) None -> clears f ->
  core (set_waits (<[t := f (wait_of s t)]> (s_waits s)) s) rq (l1 ++ l2) None.
Proof.
  intros [Hq [A1 A2 A3 A4 A5 A6 A7 A8 A9 A10 A11 A12 A13 A14 A15]] Hf.
  destruct (Hf (wait_of s t)) as (Hi & Hh & _ & _).
  assert (Hin : forall t', t' ∈ l1 ++ l2 -> t' ∈ l1 ++ t :: l2) by set_solver.
  assert (Hnin : t ∉ (l1 ++ l2)).
  { apply NoDup_app in A5 as (_ & Hd & A5). apply NoDup_cons in A5 as [Ht _].
    rewrite elem_of_app. intros [Ht1|]; [|done]. apply (Hd t Ht1). set_solver. }
  split; [done|]. split; try done.
  - set_solver.
  - rewrite <-Permutation_middle in A5. by apply NoDup_cons in A5 as [_ ?].
  - intros t' Ht'. by apply A6, Hin.
  - intros t' Ht'. by apply A7, Hin.
  - intros t' Ht'. rewrite wait_of_insert. case_decide as Ht; [by subst|]. by apply A8, Hin.
  - intros t' Ht'. rewrite wait_of_insert. case_decide as Ht; [done|]. apply A9. set_solver.
  - intros t'. rewrite wait_of_insert. case_decide as Ht; [subst; by rewrite Hh|done].
  - intros t'. rewrite wait_of_insert. simpl. case_decide as Ht; [|apply (A11 t')].
    subst. apply turns_clears; [done|]. apply (A11 t').
  - intros t' Ht'. destruct (A12 t' Ht') as [? ?]. split; [done|]. set_solver.
Qed.

Lemma make_runnable_spec s rq wq t : core s rq wq None -> registered s t -> t ∉ rq -> t ∉ wq ->
  wpx X (make_runnable t) (fun _ s' => relinked s (rq ++ [t]) wq None s') s.
Proof using Hpol Htt.
  intros Hc Ht Hrq Hwq. unfold make_runnable. rewrite Hpol. simpl.
  rewrite (proj2 (Z.leb_le 0 enforce_turn_type)) by lia. by apply push_spec.
Qed.

(** one thread of the wait queue is updated and made runnable *)
Lemma wake_one s rq l1 t l2 f (m : SM unit) :
  core s rq (l1 ++ t :: l2) None -> clears f ->
  (forall s1 (Q : unit -> sched -> Prop), in_range t = true ->
     Q tt (set_waits (<[t := f (wait_of s1 t)]> (s_waits s1)) s1) -> wpx X m Q s1) ->
  wpx X (m ;; make_runnable t) (fun _ s' => moved s rq (l1 ++ l2) [t] f s') s.
Proof using Hpol Htt.
  intros Hc Hf Hm. pose proof (co_aux _ _ _ _ Hc) as Ha.
  assert (Ht : registered s t) by (apply (ax_wq_reg _ _ _ _ Ha); set_solver).
  assert (Htq : t ∉ rq) by (intros Hin; apply (ax_rq _ _ _ _ Ha) in Hin; set_solver).
  pose proof (unwait_core _ _ _ _ _ f Hc Hf) as Hc'.
  assert (Htw : t ∉ (l1 ++ l2)).
  { pose proof (ax_wq_nodup _ _ _ _ Ha) as Hnd. rewrite <-Permutation_middle in Hnd.
    by apply NoDup_cons in Hnd as [? _]. }
  wp_step. apply Hm; [by eapply registered_in_range|].
  eapply wp_mono; [by apply make_runnable_spec|]. cbn beta.
  intros _ s' (P1 & P2 & (h & q & ->)). split; [done|done| |].
  - eapply rw_trans; [apply rw_waits|apply rw_runq].
  - intros t'. change (wait_of (set_runq h q ?x)) with (wait_of x). rewrite wait_of_insert.
    repeat case_decide; set_solver.
Qed.

Lemma wp_update_twice t f g (s1 : sched) (Q : unit -> sched -> Prop) : in_range t = true ->
  Q tt (set_waits (<[t := g (f (wait_of s1 t))]> (s_waits s1)) s1) ->
  wpx X (waits_upd t f ;; waits_upd t g) Q s1.
Proof.
  intros Ht HQ. wp_step. apply wp_waits_upd; [done|]. apply wp_waits_upd; [done|].
  rewrite wait_of_insert, decide_True by done. simpl. rewrite insert_insert_eq. done.
Qed.

Lemma moved_cons s rq wq wq' t ts f s1 s' :
  moved s rq wq [t] f s1 -> moved s1 (rq ++ [t]) wq' ts f s' -> t ∉ ts ->
  moved s rq wq' (t :: ts) f s'.
Proof.
  intros [M1 M2 M3 M4] [N1 N2 N3 N4] Ht. split.
  - by rewrite <-app_assoc in N1.
  - by etrans.
  - by eapply rw_trans.
  - intros t'. rewrite N4, M4. repeat case_decide; set_solver.
Qed.

Lemma moved_nil s rq wq f : core s rq wq None -> moved s rq wq [] f s.
Proof. intros Hc. split; [by rewrite app_nil_r|done|apply rw_refl|done]. Qed.

Lemma moved_shift s s' rq pre t l ts f :
  moved s rq ((pre ++ [t]) ++ l) ts f s' -> moved s rq (pre ++ t :: l) ts f s'.
Proof. by rewrite <-app_assoc. Qed.

(** ** fireTimeouts *)
Definition expired (s : sched) (t : Z) : bool := w_timeout (wait_of s t) <? s_turnCount s.

Lemma expired_moved s rq wq t f s' t' : moved s rq wq [t] f s' -> t' <> t ->
  expired s' t' = expired s t'.
Proof.
  intros [_ _ (h & q & w & ->) Hw] Ht. unfold expired. rewrite Hw.
  rewrite decide_False by set_solver. done.
Qed.

Lemma fire_loop_spec l : forall s rq pre, core s rq (pre ++ l) None ->
  wpx X (fire_loop l) (fun r s' =>
    r.1 = (pick (expired s) true l).2 /\
    moved s rq (pre ++ r.1) (pick (expired s) true l).1 timed_out s') s.
Proof using Hpol Htt.
  induction l as [|t l IH]; intros s rq pre Hc; cbn [fire_loop pick].
  { wp_steps. split; [done|]. by apply moved_nil. }
  pose proof (co_aux _ _ _ _ Hc) as Ha.
  assert (Ht : registered s t) by (apply (ax_wq_reg _ _ _ _ Ha); set_solver).
  assert (Htl : t ∉ l).
  { pose proof (ax_wq_nodup _ _ _ _ Ha) as Hnd. rewrite <-Permutation_middle in Hnd.
    apply NoDup_cons in Hnd as [? _]. set_solver. }
  wp_step. eapply wp_assert_tid; [done|done|]. wp_step.
  apply wp_waits_get; [by eapply registered_in_range|]. do 2 wp_step.
  change (w_timeout (wait_of s t) <? s_turnCount s) with (expired s t).
  destruct (expired s t) eqn:Hexp.
  - apply wp_bind_assoc3.
    eapply wp_bind, wp_mono; [eapply (wake_one s rq pre t l timed_out); [done|auto with minsmt|]|].
    { intros s1 Q Hr HQ. by apply wp_update_twice. }
    cbn beta. intros [] s1 Hm. wp_step. eapply wp_mono; [by eapply IH; apply Hm|]. cbn beta.
    intros [keep n] s' [Hk Hm']. wp_steps. simpl in *.
    rewrite (pick_ext (expired s1) (expired s)) in Hk, Hm'
      by (intros t' Ht'; eapply expired_moved; [done|set_solver]).
    split; [done|]. eapply moved_cons; [done|done|]. intros Hin. apply Htl.
    by eapply (proj1 (pick_sub _ _ _)).
  - wp_step. eapply wp_mono; [eapply (IH s rq (pre ++ [t])); by rewrite <-app_assoc|]. cbn beta.
    intros [keep n] s' [Hk Hm']. wp_steps. simpl in *. split; [by rewrite Hk|].
    by apply moved_shift.
Qed.

Lemma core_set_waitq s rq wq o l : core s rq wq o -> core (set_waitq l s) rq wq o.
Proof. intros [Hq []]. split; [done|]. by split. Qed.

Lemma fireTimeouts_spec s rq : core s rq (s_waitq s) None ->
  let p := pick (expired s) true (s_waitq s) in
  wpx X fireTimeouts (fun _ s' => exists s1,
    moved s rq p.2 p.1 timed_out s1 /\ s' = set_waitq p.2 s1) s.
Proof using Hpol Htt.
  intros Hc p. unfold fireTimeouts. do 3 wp_step.
  eapply wp_mono; [by eapply (fire_loop_spec (s_waitq s) s rq [])|]. cbn beta.
  intros [keep n] s' [Hk Hm]. simpl in *. wp_steps. exists s'. subst keep. by split.
Qed.

(** ** signal *)
Definition waits_on (s : sched) (chan t : Z) : bool := w_chan (wait_of s t) =? chan.

Lemma waits_on_moved s rq wq t f s' t' c : moved s rq wq [t] f s' -> t' <> t ->
  waits_on s' c t' = waits_on s c t'.
Proof.
  intros [_ _ _ Hw] Ht. unfold waits_on. rewrite Hw. by rewrite decide_False by set_solver.
Qed.

Lemma signal_loop_spec c all l : forall s rq pre, core s rq (pre ++ l) None ->
  wpx X (signal_loop c all l) (fun r s' =>
    r = (pick (waits_on s c) all l).2 /\
    moved s rq (pre ++ r) (pick (waits_on s c) all l).1 signalled s') s.
Proof using Hpol Htt.
  induction l as [|t l IH]; intros s rq pre Hc; cbn [signal_loop pick].
  { wp_steps. split; [done|]. by apply moved_nil. }
  pose proof (co_aux _ _ _ _ Hc) as Ha.
  assert (Ht : registered s t) by (apply (ax_wq_reg _ _ _ _ Ha); set_solver).
  assert (Htl : t ∉ l).
  { pose proof (ax_wq_nodup _ _ _ _ Ha) as Hnd. rewrite <-Permutation_middle in Hnd.
    apply NoDup_cons in Hnd as [? _]. set_solver. }
  wp_step. eapply wp_assert_tid; [done|done|]. wp_step.
  apply wp_waits_get; [by eapply registered_in_range|].
  change (w_chan (wait_of s t) =? c) with (waits_on s c t).
  destruct (waits_on s c t) eqn:Hexp.
  - apply wp_bind_assoc3.
    eapply wp_bind, wp_mono; [eapply (wake_one s rq pre t l signalled); [done|auto with minsmt|]|].
    { intros s1 Q Hr HQ. by apply wp_update_twice. }
    cbn beta. intros [] s1 Hm. destruct all; [|by wp_steps].
    eapply wp_mono; [by eapply IH; apply Hm|]. cbn beta.
    intros keep s' [Hk Hm']. simpl in *.
    rewrite (pick_ext (waits_on s1 c) (waits_on s c)) in Hk, Hm'
      by (intros t' Ht'; eapply waits_on_moved; [done|set_solver]).
    split; [done|]. eapply moved_cons; [done|done|]. intros Hin. apply Htl.
    by eapply (proj1 (pick_sub _ _ _)).
  - wp_step. eapply wp_mono; [eapply (IH s rq (pre ++ [t])); by rewrite <-app_assoc|]. cbn beta.
    intros keep s' [Hk Hm']. wp_steps. simpl in *. split; [by rewrite Hk|].
    by apply moved_shift.
Qed.

Lemma signal_spec s self rq c all : core s (self :: rq) (s_waitq s) None -> c <> 0 ->
  let p := pick (waits_on s c) all (s_waitq s) in
  wpx X (signal self c all) (fun _ s' => exists s1,
    moved s (self :: rq) p.2 p.1 signalled s1 /\ s' = set_waitq p.2 s1) s.
Proof using Hpol Htt.
  intros Hc Hne p. unfold signal. wp_step. apply wp_cassert; [lia|]. wp_step.
  eapply wp_assert_front; [done|]. do 3 wp_step.
  eapply wp_mono; [by eapply (signal_loop_spec c all (s_waitq s) s _ [])|]. cbn beta.
  intros keep s' [Hk Hm]. simpl in *. wp_steps. exists s'. subst keep. by split.
Qed.

(** ** check_wakeup *)
Context (Hclk : enforce_non_det_clock_bound = false).

Lemma relinked_trans s s1 s2 rq rq' wq wq' o o' :
  relinked s rq wq o s1 -> relinked s1 rq' wq' o' s2 -> relinked s rq' wq' o' s2.
Proof.
  intros (C1 & S1 & (h & q & ->)) (C2 & S2 & (h' & q' & ->)).
  split_and!; [done|by etrans|by exists h', q'].
Qed.
Lemma relinked_refl s rq wq o : core s rq wq o -> relinked s rq wq o s.
Proof. intros Hc. split_and!; [done|done|]. exists (s_heap s), (s_runq s). by destruct s. Qed.

Lemma wakeup_loop_spec l : forall s rq wq, core s rq wq None -> NoDup l ->
  (forall t, t ∈ l -> registered s t /\ t ∉ wq) ->
  wpx X (for_each (fun t =>
       i ← on_runq (q_in t);
       if i : bool then mret tt
       else
         (if 0 <=? enforce_turn_type then on_runq (q_push_back t) else wait_t_post t) ;;
         when enforce_non_det_clock_bound (on_non_det (nd_erase t))) l)
    (fun _ s' => relinked s (rq ++ filter (fun t => t ∉ rq) l) wq None s') s.
Proof using Hpol Htt Hclk.
  rewrite Hclk, (proj2 (Z.leb_le 0 enforce_turn_type)) by lia.
  induction l as [|t l IH]; intros s rq wq Hc Hnd Hl; cbn [for_each].
  { wp_steps. rewrite app_nil_r. by apply relinked_refl. }
  apply NoDup_cons in Hnd as [Ht Hnd]. destruct (Hl t) as [Hreg Htw]; [set_solver|].
  rewrite filter_cons. do 2 wp_step. eapply wp_q_in; [done|done|].
  case_bool_decide as Hin.
  - wp_step. rewrite decide_False by tauto. eapply wp_mono; [apply IH; [done|done|set_solver]|].
    done.
  - wp_step. eapply wp_mono; [by apply push_spec|]. cbn beta. intros [] s1 Hr1.
    wp_step; intros; [done|]. pose proof Hr1 as (C1 & [S1 R1] & (h & q & ->)).
    eapply wp_mono; [apply (IH _ (rq ++ [t]) wq); [done|done|]|].
    { intros t' Ht'. destruct (Hl t') as [Hr' ?]; [set_solver|]. split; [|done]. by apply R1. }
    cbn beta. intros [] s2 Hr2. rewrite decide_True by done.
    eapply relinked_trans; [done|]. rewrite <-app_assoc in Hr2. simpl in Hr2.
    assert (filter (fun t' => t' ∉ (rq ++ [t])) l = filter (fun t' => t' ∉ rq) l) as <-; [|done].
    clear -Ht. induction l as [|x l IHl]; [done|]. rewrite !filter_cons, IHl by set_solver.
    assert (x <> t) by set_solver. repeat case_decide; set_solver.
Qed.

(** the threads that check_wakeup puts back *)
Definition returning (s : sched) (rq : list Z) : list Z :=
  filter (fun t => t ∉ rq) (set_order (s_wakeup_tids s)).

Lemma core_set_wakeup s rq wq o : core s rq wq o -> core (set_wakeup ∅ false s) rq wq o.
Proof. intros [Hq []]. split; [done|]. split; try done; set_solver. Qed.

Lemma check_wakeup_spec s rq wq : core s rq wq None ->
  wpx X check_wakeup (fun _ s' => exists s1,
    relinked s (rq ++ returning s rq) wq None s1 /\ s' = set_wakeup ∅ false s1) s.
Proof using Hpol Htt Hclk.
  intros Hc. pose proof (co_aux _ _ _ _ Hc) as Ha. unfold check_wakeup. do 2 wp_step.
  apply wp_when; intros Hf.
  - do 3 wp_step. eapply wp_mono; [apply (wakeup_loop_spec _ s rq wq Hc)|].
    + rewrite set_order_perm. apply NoDup_elements.
    + intros t. rewrite set_order_perm, elem_of_elements. apply (ax_wake _ _ _ _ Ha).
    + cbn beta. intros [] s1 Hr. wp_steps. by exists s1.
  - exists s. pose proof (ax_flag _ _ _ _ Ha Hf) as Hemp. unfold returning. split.
    + rewrite Hemp. pose proof (set_order_perm ∅) as Hp. rewrite elements_empty in Hp.
      apply Permutation_nil_r in Hp. rewrite Hp. simpl. rewrite app_nil_r.
      by apply relinked_refl.
    + destruct s. simpl in *. by subst.
Qed.

(** ** incTurnCount *)
Definition tick (self : Z) (s : sched) : sched :=
  set_turn (s_turnCount s +u32 1)
    (if log_sync then (self, s32 (s_turnCount s)) :: s_log s else s_log s) s.
(** the threads whose timeout the new turn passes, and the run queue they join *)
Definition tick_fired (self : Z) (s : sched) : list Z :=
  (pick (expired (tick self s)) true (s_waitq s)).1.
Definition tick_keep (self : Z) (s : sched) : list Z :=
  (pick (expired (tick self s)) true (s_waitq s)).2.
Definition tick_rq (self : Z) (s : sched) (rq : list Z) : list Z :=
  (rq ++ tick_fired self s) ++ returning s (rq ++ tick_fired self s).

Record ticked (self : Z) (s : sched) (rq : list Z) (s' : sched) : Prop := {
  tk_core : core s' (tick_rq self s rq) (tick_keep self s) None;
  tk_waitq : s_waitq s' = tick_keep self s;
  tk_status : same_status s s';
  tk_others : others_same s s';
  tk_waits : forall t, wait_of s' t =
               if decide (t ∈ tick_fired self s) then timed_out (wait_of s t) else wait_of s t;
  tk_turn : s_turnCount s' = s_turnCount s +u32 1;
  tk_log : s_log s' = s_log (tick self s);
  tk_wakeup : s_wakeup_tids s' = ∅
}.

Lemma core_tick self s rq wq o : core s rq wq o -> core (tick self s) rq wq o.
Proof.
  intros [Hq [A1 A2 A3 A4 A5 A6 A7 A8 A9 A10 A11 A12 A13 A14 A15]].
  split; [done|]. split; try done. apply u32_range.
Qed.

Lemma incTurnCount_spec self s rq : core s rq (s_waitq s) None ->
  wpx X (incTurnCount self) (fun r s' => r = s_turnCount s /\ ticked self s rq s') s.
Proof using Hpol Htt Hclk.
  intros Hc. pose proof (core_tick self _ _ _ _ Hc) as Hc0.
  unfold incTurnCount, Serializer_incTurnCount. wp_steps. fold (tick self s).
  eapply wp_mono; [by apply fireTimeouts_spec|]. cbn beta.
  intros _ s1' (s1 & [M1 M2 M3 M4] & ->). change (s_waitq (tick self s)) with (s_waitq s) in *.
  fold (tick_fired self s) (tick_keep self s) in *.
  wp_step. eapply wp_mono; [eapply check_wakeup_spec; by apply core_set_waitq|]. cbn beta.
  intros _ s2' (s2 & (P1 & P2 & (h & q & ->)) & ->). wp_steps. split; [done|].
  destruct (rw_others _ _ M3) as ([O1 O2 O3 O4 O5 O6] & F1 & F2 & F3 & F4 & F5).
  assert (Hret : returning (set_waitq (tick_keep self s) s1) (rq ++ tick_fired self s) =
                 returning s (rq ++ tick_fired self s)) by (unfold returning; simpl; by rewrite F4).
  rewrite Hret in P1. split; try done.
  - by apply core_set_wakeup.
  - destruct M2 as [M2 M2'], P2 as [P2 P2']. split; intros t.
    + change (status_of (set_wakeup _ _ ?x) t) with (status_of x t). rewrite P2.
      change (status_of (set_waitq _ ?x) t) with (status_of x t). by rewrite M2.
    + change (registered (set_wakeup _ _ ?x) t) with (registered x t). rewrite P2'.
      change (registered (set_waitq _ ?x) t) with (registered x t). by rewrite M2'.
Qed.

(** ** The idle thread *)
Definition idle_ready (s : sched) (rq : list Z) : Prop :=
  (IdleThreadTid ∈ rq \/ IdleThreadTid ∈ s_waitq s) /\
  (status_of s IdleThreadTid = Some RUNNABLE \/ status_of s IdleThreadTid = Some RUNNING_REG).

Lemma find_idle_spec l : forall s rq pre last, core s rq (pre ++ l) None -> IdleThreadTid ∈ l ->
  wpx X (find_idle l last) (fun r s' => exists l1 l2,
    l = l1 ++ IdleThreadTid :: l2 /\ r = (l1 ++ l2, IdleThreadTid) /\
    moved s rq (pre ++ l1 ++ l2) [IdleThreadTid] (wt_reset 0) s') s.
Proof using Hpol Htt Hclk.
  induction l as [|t l IH]; intros s rq pre last Hc Hin; [set_solver|]. cbn [find_idle].
  pose proof (co_aux _ _ _ _ Hc) as Ha.
  assert (Ht : registered s t) by (apply (ax_wq_reg _ _ _ _ Ha); set_solver).
  wp_step. eapply wp_assert_tid; [done|done|].
  destruct (t =? IdleThreadTid) eqn:Hid.
  - apply Z.eqb_eq in Hid as ->.
    pose proof (wake_one s rq pre IdleThreadTid l (wt_reset 0)
                  (waits_upd IdleThreadTid (wt_reset 0)) Hc (clears_reset 0)) as Hw.
    unfold make_runnable in Hw. rewrite Hpol in Hw. simpl in Hw.
    apply wp_bind_assoc2. wp_step. eapply wp_mono; [apply Hw|].
    { intros s1 Q Hr HQ. by apply wp_waits_upd. }
    cbn beta. intros [] s' Hm. wp_steps. by exists [], l.
  - apply Z.eqb_neq in Hid. wp_step.
    eapply wp_mono; [eapply (IH s rq (pre ++ [t])); [by rewrite <-app_assoc|set_solver]|].
    cbn beta. intros r s' (l1 & l2 & -> & -> & Hm). wp_steps. exists (t :: l1), l2.
    split_and!; [done|done|]. by apply moved_shift.
Qed.

(** [wakeUpIdleThread] when the idle thread waits *)
Lemma wakeUpIdleThread_spec s rq : core s rq (s_waitq s) None ->
  IdleThreadTid ∈ s_waitq s -> (s_idle_done s = true -> X ThreadExit) ->
  wpx X wakeUpIdleThread (fun _ s' => exists l1 l2 s1,
    s_waitq s = l1 ++ IdleThreadTid :: l2 /\
    moved s rq (l1 ++ l2) [IdleThreadTid] (wt_reset 0) s1 /\
    s' = set_idle (s_idle_done s) false (set_waitq (l1 ++ l2) s1)) s.
Proof using Hpol Htt Hclk.
  intros Hc Hin HX. unfold wakeUpIdleThread. do 3 wp_step. destruct (s_idle_done s) eqn:Hd.
  { apply wp_fail. by apply HX. }
  do 4 wp_step. eapply wp_mono; [by eapply (find_idle_spec (s_waitq s) s rq [])|]. cbn beta.
  intros r s' (l1 & l2 & Hl & -> & Hm). simpl in *. do 3 wp_step. apply wp_cassert; [done|].
  wp_step. eapply wp_assert_nonempty; [apply core_set_waitq, Hm| |]. { by destruct rq. }
  wp_steps. exists l1, l2, s'. split_and!; [done|done|]. simpl.
  destruct (rw_others _ _ (mv_rw _ _ _ _ _ _ Hm)) as ([] & _). congruence.
Qed.
End wake.
