(* ===== verification/SchedNext.v ===== *)
(** * Choosing the next thread and passing the turn: [nextRunnable] and [next] *)
From S2P Require Import Prelude Options RunQueue RunQueueSpec RunQueueYield RunQueueLife.
From S2P Require Import TidMap NonDetSet Scheduler SchedInv SchedWake.

(** the run queue without the blocked threads at its front *)
Fixpoint skip_stopped (s : sched) (rq : list Z) : list Z :=
  match rq with
  | [] => []
  | t :: rq' => if decide (status_of s t = Some INTER_PRO_STOP) then skip_stopped s rq' else t :: rq'
  end.

Lemma skip_stopped_ext s s' rq : (forall t, status_of s' t = status_of s t) ->
  skip_stopped s' rq = skip_stopped s rq.
Proof.
  intros Hs. induction rq as [|t rq IH]; simpl; [done|]. rewrite Hs.
  case_decide; [done|done].
Qed.

Lemma skip_stopped_suffix s rq : exists d, rq = d ++ skip_stopped s rq /\
  Forall (fun t => status_of s t = Some INTER_PRO_STOP) d.
Proof.
  induction rq as [|t rq (d & Hd & HF)]; simpl; [by exists []|].
  case_decide; [|by exists []]. exists (t :: d). split; [simpl; by f_equal|by constructor].
Qed.

(** the status a thread has once the turn is passed to it *)
Definition passed_status (st : THD_STATUS) : THD_STATUS :=
  match st with RUNNABLE => RUNNING_REG | st => st end.

(** only thread [t] changed status, to [passed_status] *)
Definition turn_passed (s : sched) (t : Z) (s' : sched) : Prop :=
  (exists st, status_of s t = Some st /\ st <> INTER_PRO_STOP /\
              status_of s' t = Some (passed_status st)) /\
  (forall t', t' <> t -> status_of s' t' = status_of s t') /\
  (forall t', registered s' t' <-> registered s t').

Lemma turn_passed_running s t s' : turn_passed s t s' ->
  status_of s' t = Some RUNNING_REG \/ status_of s' t = Some RUNNING_INTER_PRO.
Proof. intros ((st & _ & Hst & ->) & _). destruct st; auto; done. Qed.

Lemma turn_passed_pre s s1 t s' : same_status s s1 -> turn_passed s1 t s' -> turn_passed s t s'.
Proof.
  intros [Hs Hr] ((st & H1 & H2 & H3) & H4 & H5). split_and!.
  - exists st. by rewrite <-Hs.
  - intros t' Ht'. by rewrite H4, Hs.
  - intros t'. by rewrite H5, Hr.
Qed.

(** the outcome of nextRunnable: the turn goes to the first thread that is not blocked,
    to the idle thread when every thread is blocked or waits, or to nobody when the
    last thread (or the main thread) ends *)
Inductive next_result `{Options, GlobalAddrs} (self : Z) (at_end : bool) (s : sched) (rq : list Z)
  : Z -> sched -> Prop :=
| next_pass t rest extra s' :
    skip_stopped s rq = t :: rest ->
    core s' (t :: rest ++ extra) (s_waitq s') None -> turn_passed s t s' ->
    others_same s s' -> s_turnCount s' = s_turnCount s -> s_log s' = s_log s ->
    s_wakeup_tids s' = s_wakeup_tids s ->
    (forall t', wait_of s' t' = if decide (t' ∈ extra) then signalled (wait_of s t') else wait_of s t') ->
    (enforce_non_det_annotations = 0 \/ self <> IdleThreadTid -> extra = [] /\ s_waitq s' = s_waitq s) ->
    extra ++ s_waitq s' ≡ₚ s_waitq s ->
    next_result self at_end s rq t s'
| next_idle l1 l2 s' :
    skip_stopped s rq = [] -> s_waitq s = l1 ++ IdleThreadTid :: l2 -> s_waitq s' = l1 ++ l2 ->
    core s' [IdleThreadTid] (l1 ++ l2) None -> turn_passed s IdleThreadTid s' ->
    s_tids s' = s_tids s -> s_turnCount s' = s_turnCount s -> s_log s' = s_log s ->
    s_wakeup_tids s' = s_wakeup_tids s -> s_idle_done s' = s_idle_done s ->
    s_idle_sleeping s' = false -> s_nNonDetWait s' = s_nNonDetWait s ->
    (forall t', wait_of s' t' =
       if decide (t' = IdleThreadTid) then wt_reset 0 (wait_of s t') else wait_of s t') ->
    next_result self at_end s rq IdleThreadTid s'
| next_over s' :
    skip_stopped s rq = [] -> at_end = true -> (s_waitq s = [] \/ self = MainThreadTid) ->
    core s' [] (s_waitq s') None -> same_status s s' -> others_same s s' ->
    s_turnCount s' = s_turnCount s -> s_log s' = s_log s -> s_waitq s' = s_waitq s ->
    s_wakeup_tids s' = s_wakeup_tids s -> (forall t', wait_of s' t' = wait_of s t') ->
    next_result self at_end s rq InvalidTid s'.

(** when no thread can run and the program goes on: an idle thread waits, or the code exits *)
Definition idle_or_exit `{Options} (X : error -> Prop) (self : Z) (s : sched) : Prop :=
  (launch_idle_thread = 0 /\ X (ProcessExit 1)) \/
  (launch_idle_thread <> 0 /\ self <> IdleThreadTid /\
   (if s_idle_done s then X ThreadExit else IdleThreadTid ∈ s_waitq s)).

Definition over (self : Z) (at_end : bool) (s : sched) : Prop :=
  at_end = true /\ (s_waitq s = [] \/ self = MainThreadTid).
#[export] Instance over_dec self at_end s : Decision (over self at_end s).
Proof. unfold over. apply _. Defined.

(** only links changed *)
Record quiet (s s' : sched) : Prop := {
  qt_status : same_status s s';
  qt_others : others_same s s';
  qt_turn : s_turnCount s' = s_turnCount s;
  qt_log : s_log s' = s_log s;
  qt_waitq : s_waitq s' = s_waitq s;
  qt_wakeup : s_wakeup_tids s' = s_wakeup_tids s;
  qt_waits : forall t, wait_of s' t = wait_of s t
}.

Lemma next_result_quiet `{Options, GlobalAddrs} self at_end s s1 rq rq' r s' :
  quiet s s1 -> skip_stopped s rq = skip_stopped s1 rq' ->
  next_result self at_end s1 rq' r s' -> next_result self at_end s rq r s'.
Proof.
  intros [Q1 Q2 Q3 Q4 Q5 Q6 Q7] Hskip Hres.
  inversion Hres as [t' rest extra' ? R1 R2 R3 R4 R5 R6 R7 R8 R9 R10
    |l1 l2 ? R1 R2 R3 R4 R5 R6 R7 R8 R9 R10 R11 R12 R13
    |? R1 R2 R3 R4 R5 R6 R7 R8 R9 R10 R11]; subst; rewrite <-Hskip in R1.
  - rewrite Q5 in *. eapply next_pass; try done; try congruence; [by eapply turn_passed_pre|by etrans|].
    intros x. by rewrite R8, !Q7.
  - destruct Q2. eapply next_idle; try done; try congruence; [by eapply turn_passed_pre|].
    intros x. by rewrite R13, !Q7.
  - rewrite Q5 in *. eapply next_over; try done; try congruence; [by etrans|by etrans].
Qed.

Section next.
Context `{O : Options, U : UnorderedIter, G : GlobalAddrs}.
Context {X : error -> Prop}.
Context (Hpol : hp_policy = false) (Htt : 0 <= enforce_turn_type <= 2)
        (Hclk : enforce_non_det_clock_bound = false).
Implicit Types (s : sched) (rq wq : list Z) (t : Z).

Lemma restatus_passed s t st s' : status_of s t = Some st -> restatus s t RUNNING_REG s' ->
  st = RUNNABLE -> turn_passed s t s'.
Proof.
  intros Hst (_ & H1 & H2 & H3) ->. split_and!; [|done|done]. exists RUNNABLE. by rewrite H1.
Qed.

(** the head of the queue is given the turn *)
Lemma pass_turn_spec s t rq wq l e : core s (t :: rq) wq None ->
  q_tid_map (s_runq s) !! t = Some l -> cells (s_heap s) !! l = Some e ->
  e_status e <> INTER_PRO_STOP ->
  wpx X (pass_turn (Some l)) (fun _ s' =>
    core s' (t :: rq) wq None /\ turn_passed s t s' /\ exists h q, s' = set_runq h q s) s.
Proof.
  intros Hc Hl He Hst.
  assert (Hs : status_of s t = Some (e_status e)).
  { unfold status_of. rewrite Hl. simpl. by rewrite He. }
  unfold pass_turn. wp_step. eapply wp_elem_get; [done|]. wp_step. apply wp_cassert.
  { by destruct (e_status e). }
  apply wp_when; intros Hr.
  - apply bool_decide_eq_true in Hr. eapply set_status_spec; [apply Hc|done|done|].
    intros s' Hq Hre. split_and!.
    + split; [done|]. eapply restatus_aux; [apply Hc|done|auto].
    + by eapply restatus_passed.
    + destruct Hre as ((h & ->) & _). eauto.
  - apply bool_decide_eq_false in Hr. split_and!; [done| |].
    + split_and!; [|done|done]. exists (e_status e). rewrite Hs.
      split_and!; [done|done|]. by destruct (e_status e).
    + exists (s_heap s), (s_runq s). by destruct s.
Qed.

Lemma core_not_in_wq s t rq wq o : core s (t :: rq) wq o -> (t ∉ rq) /\ (t ∉ wq).
Proof using O.
  clear Hpol Htt Hclk.
  intros Hc. split; [|apply (ax_rq _ _ _ _ (co_aux _ _ _ _ Hc)); set_solver].
  apply core_nodup in Hc. by apply NoDup_cons in Hc as [? _].
Qed.

Lemma drop_head_spec s t rq wq p : core s (t :: rq) wq None ->
  wpx X (drop_head (on_runq q_pop_front) p) (fun _ s' => relinked s rq wq None s') s.
Proof using Hpol Htt Hclk.
  intros [Hq Ha]. unfold drop_head. wp_step.
  eapply wp_mono; [eapply pop_spec; [done|eapply aux_sub; [done|set_solver]]|]. cbn beta.
  intros [] s' Hr. rewrite Hclk. by wp_steps.
Qed.

(** without the hp queue the first condition of the loop is false *)
Lemma use_hp_false self strategy s (Q : bool -> sched -> Prop) :
  Q false s -> wpx X (use_hp_runq self strategy) Q s.
Proof using Hpol Htt Hclk. intros HQ. unfold use_hp_runq. rewrite Hpol. by wp_steps. Qed.

(** a non-empty queue: the non-det starters may be woken *)
Lemma wake_non_det_spec self s t rq : core s (t :: rq) (s_waitq s) None ->
  wpx X (wake_non_det self) (fun _ s' => exists extra s1 wq,
    moved s (t :: rq) wq extra signalled s1 /\ s' = set_waitq wq s1 /\
    (enforce_non_det_annotations = 0 \/ self <> IdleThreadTid \/ t <> self \/ rq <> [] ->
       extra = [] /\ wq = s_waitq s) /\ extra ++ wq ≡ₚ s_waitq s) s.
Proof using Hpol Htt Hclk.
  intros Hc. unfold wake_non_det. do 3 wp_step. eapply wp_q_size; [done|]. wp_step.
  eapply wp_q_front; [done|]. apply wp_when; intros Hb.
  - apply andb_true_iff in Hb as [Hb Hf]. apply andb_true_iff in Hb as [Hb Hsz].
    apply andb_true_iff in Hb as [Hb Hself]. apply andb_true_iff in Hb as [Hnd Hn].
    apply Z.eqb_eq in Hself, Hf. subst self t.
    destruct rq as [|t2 rq]; [|apply Z.eqb_eq in Hsz; cbn [length] in Hsz; lia].
    eapply wp_mono; [eapply signal_spec; [done..|]|].
    { pose proof addr_nonDetCV_pos. lia. }
    cbn beta. intros _ s' (s1 & Hm & ->). eexists _, s1, _. split_and!; [done|done| |apply pick_perm].
    intros [Hz|[?|[?|?]]]; try done. rewrite Hz in Hnd. done.
  - exists [], s, (s_waitq s). split_and!; [by apply moved_nil|by destruct s|done|done].
Qed.

Lemma core_set_idle s rq wq o d b : core s rq wq o -> core (set_idle d b s) rq wq o.
Proof. intros [Hq []]. split; [done|]. by split. Qed.

(** the idle thread is fetched from the wait queue and gets the turn *)
Lemma idle_head_spec self at_end s fuel : core s [] (s_waitq s) None ->
  (if s_idle_done s then X ThreadExit else IdleThreadTid ∈ s_waitq s) ->
  wpx X (wakeUpIdleThread ;; assert_runq_nonempty ;;
         p ← on_runq q_front_elem;
         e ← elem_get p;
         if decide (e_status e = INTER_PRO_STOP) then
           drop_head (on_runq q_pop_front) p ;; nextRunnable_loop fuel self at_end 0
         else pass_turn p ;; mret (e_tid e))
    (next_result self at_end s []) s.
Proof using Hpol Htt Hclk.
  intros Hc Hin. pose proof (co_aux _ _ _ _ Hc) as Ha. destruct (s_idle_done s) eqn:Hd.
  { wp_step. unfold wakeUpIdleThread. do 3 wp_step. rewrite Hd. by apply wp_fail. }
  pose proof (ax_wq_status _ _ _ _ Ha _ Hin) as Hst.
  wp_step. eapply wp_mono; [apply wakeUpIdleThread_spec; try done; congruence|]. cbn beta.
  intros [] s' (l1 & l2 & s1 & Hl & [M1 M2 M3 M4] & ->). simpl in M1.
  set (s2 := set_idle _ _ _). set (w2 := l1 ++ l2) in *.
  assert (Hc2 : core s2 [IdleThreadTid] w2 None) by by apply core_set_idle, core_set_waitq.
  wp_step. eapply wp_assert_nonempty; [done|done|]. wp_step.
  eapply wp_front_elem; [done|]. intros l Hlk. wp_step.
  destruct (core_elem _ _ _ _ IdleThreadTid Hc2) as (l' & e & Hl' & He & Het & Hse); [by eexists|].
  assert (l' = l) as -> by congruence. eapply wp_elem_get; [done|].
  assert (Hne : e_status e <> INTER_PRO_STOP).
  { intros Hs. change (status_of s2 IdleThreadTid) with (status_of s1 IdleThreadTid) in Hse.
    rewrite (proj1 M2), Hs in Hse. destruct Hst; congruence. }
  rewrite decide_False by done. wp_step.
  eapply wp_mono; [by eapply pass_turn_spec|]. cbn beta.
  intros [] s3 (C3 & T3 & (h & q & ->)). wp_steps. rewrite Het.
  destruct (rw_others _ _ M3) as ([O1 O2 O3 O4 O5 O6] & F1 & F2 & F3 & F4 & F5).
  eapply (next_idle _ _ _ _ l1 l2); try done; try congruence.
  - eapply turn_passed_pre; [|done]. exact M2.
  - intros t'. change (wait_of (set_runq h q s2) t') with (wait_of s1 t'). rewrite M4.
    repeat case_decide; set_solver.
Qed.

(** an empty run queue *)
Lemma empty_spec self at_end s fuel : core s [] (s_waitq s) None ->
  (~ over self at_end s -> idle_or_exit X self s) ->
  wpx X (next ← runq_is_empty self at_end;
         match next with
         | None => mret InvalidTid
         | Some strategy' =>
             assert_runq_nonempty ;;
             p ← on_runq q_front_elem;
             e ← elem_get p;
             if decide (e_status e = INTER_PRO_STOP) then
               drop_head (on_runq q_pop_front) p ;; nextRunnable_loop fuel self at_end strategy'
             else pass_turn p ;; mret (e_tid e)
         end) (next_result self at_end s []) s.
Proof using Hpol Htt Hclk.
  intros Hc Hidle. wp_step. unfold runq_is_empty. wp_step. wp_step.
  destruct (decide (over self at_end s)) as [[-> Hov]|Hov].
  - assert (Hres : next_result self true s [] InvalidTid s) by by eapply next_over.
    simpl. case_bool_decide as Hw; [by wp_steps|]. destruct Hov as [?| ->]; [done|]. simpl.
    rewrite bool_decide_true by done. by wp_steps.
  - assert ((at_end && bool_decide (s_waitq s = [])) = false) as ->.
    { destruct at_end; [|done]. apply bool_decide_eq_false. intros Hw. apply Hov. split; auto. }
    assert ((at_end && bool_decide (s_waitq s <> []) && (self =? MainThreadTid)) = false) as ->.
    { destruct at_end; [|done]. apply andb_false_iff. right. apply Z.eqb_neq.
      intros ->. apply Hov. split; auto. }
    destruct (Hidle Hov) as [[-> HX]|(Hl & Hs & Hin)].
    { wp_step. by apply wp_fail. }
    rewrite (proj2 (Z.eqb_neq launch_idle_thread 0)) by done. do 3 wp_step.
    apply wp_cassert; [lia|].
    apply wp_bind_inv, wp_bind_ret, idle_head_spec; done.
Qed.

Lemma nextRunnable_loop_spec self at_end strategy : strategy <> PUTTURN_STRATEGY_CURRENT_ROLE ->
  forall rq fuel s, (length rq < fuel)%nat -> core s rq (s_waitq s) None ->
  (self ∈ rq -> status_of s self <> Some INTER_PRO_STOP) ->
  (skip_stopped s rq = [] -> ~ over self at_end s -> idle_or_exit X self s) ->
  wpx X (nextRunnable_loop fuel self at_end strategy) (next_result self at_end s rq) s.
Proof using Hpol Htt Hclk.
  intros Hstr rq. induction rq as [|t rq IH]; intros [|fuel] s Hf Hc Hself Hidle;
    cbn [length] in Hf; try lia; cbn [nextRunnable_loop]; wp_step; apply use_hp_false; wp_step;
    (eapply wp_q_empty; [done|]);
    rewrite (proj2 (Z.eqb_neq strategy PUTTURN_STRATEGY_CURRENT_ROLE)) by done; simpl andb; cbv iota.
  { rewrite bool_decide_true by done. apply empty_spec; [done|]. auto. }
  rewrite bool_decide_false by done. wp_step. wp_step.
  eapply wp_mono; [by apply wake_non_det_spec|]. cbn beta.
  intros [] s' (extra & s1 & wq & [M1 M2 M3 M4] & -> & Hex & Hperm). wp_step. cbv beta iota.
  set (s2 := set_waitq wq s1).
  assert (Hc2 : core s2 (t :: rq ++ extra) wq None) by by apply core_set_waitq.
  wp_step. eapply wp_assert_nonempty; [done|done|]. wp_step.
  eapply wp_front_elem; [done|]. intros l Hlk. wp_step.
  destruct (core_elem _ _ _ _ t Hc2) as (l' & e & Hl' & He & Het & Hse); [by eexists|].
  assert (l' = l) as -> by congruence. eapply wp_elem_get; [done|].
  change (status_of s2 t) with (status_of s1 t) in Hse. rewrite (proj1 M2) in Hse.
  destruct (rw_others _ _ M3) as ([O1 O2 O3 O4 O5 O6] & F1 & F2 & F3 & F4 & F5).
  case_decide as Hstop.
  - (* blocked: dropped *)
    rewrite Hstop in Hse.
    destruct Hex as [-> ->]; [right; right; left; intros ->; by apply Hself; [set_solver|]|].
    rewrite app_nil_r in Hc2. wp_step. eapply wp_mono; [by eapply drop_head_spec|]. cbn beta.
    intros [] s3 (C3 & S3 & (h & q & ->)).
    assert (Hq : quiet s (set_runq h q s2)).
    { split; try done. etrans; [exact M2|exact S3]. }
    assert (Hskip : skip_stopped s (t :: rq) = skip_stopped (set_runq h q s2) rq).
    { simpl. rewrite decide_True by done. symmetry. apply skip_stopped_ext, Hq. }
    eapply wp_mono; [eapply (IH fuel (set_runq h q s2)); [lia|done| | ]|].
    + intros Hin. rewrite (proj1 (qt_status _ _ Hq)). apply Hself. set_solver.
    + rewrite <-Hskip. intros Hsk Hov.
      destruct (Hidle Hsk) as [Hi|(? & ? & HX)]; [done|by left|right].
      split_and!; try done. simpl. by rewrite O4.
    + intros r s'. by apply next_result_quiet.
  - (* passed *)
    wp_step. eapply wp_mono; [by eapply pass_turn_spec|]. cbn beta.
    intros [] s3 (C3 & T3 & (h & q & ->)). wp_steps. rewrite Het.
    eapply (next_pass _ _ _ _ t rq extra); try done.
    + simpl. rewrite decide_False; [done|]. rewrite Hse. congruence.
    + eapply turn_passed_pre; [|done]. exact M2.
    + intros [Hz|Hz]; apply Hex; auto.
Qed.

Lemma core_length s rq wq o : core s rq wq o -> (length rq <= size (cells (s_heap s)))%nat.
Proof.
  intros [Hq _]. destruct (inv_rep _ _ _ _ Hq) as [ls Hrep].
  rewrite (Forall2_length _ _ _ (rep_map _ _ _ _ Hrep)).
  apply chain_size; [apply Hrep|]. eapply rep_locs_nodup; [apply Hq|done].
Qed.

Lemma nextRunnable_spec self at_end strategy s rq :
  strategy <> PUTTURN_STRATEGY_CURRENT_ROLE -> core s rq (s_waitq s) None ->
  (self ∈ rq -> status_of s self <> Some INTER_PRO_STOP) ->
  (skip_stopped s rq = [] -> ~ over self at_end s -> idle_or_exit X self s) ->
  wpx X (nextRunnable self at_end strategy) (next_result self at_end s rq) s.
Proof using Hpol Htt Hclk.
  intros Hstr Hc Hself Hidle. unfold nextRunnable. do 2 wp_step.
  apply nextRunnable_loop_spec; try done. unfold nextRunnable_fuel.
  pose proof (core_length _ _ _ _ Hc). lia.
Qed.

(** ** Posting the turn *)
Definition give_turn (w : wait_t) : wait_t :=
  if enforce_turn_type =? 1 then wt_sem (w_sem w + 1) w else wt_wakenUp true w.
Definition give (t : Z) (s : sched) : sched :=
  set_waits (<[t := give_turn (wait_of s t)]> (s_waits s)) s.

Lemma turns_give w : turns w = 0 -> turns (give_turn w) = 1.
Proof.
  unfold turns, give_turn. destruct (enforce_turn_type =? 1); simpl; [lia|done].
Qed.

Lemma give_turn_frame w : w_chan (give_turn w) = w_chan w /\ w_timeout (give_turn w) = w_timeout w /\
  w_hp (give_turn w) = w_hp w /\ w_wake_reason (give_turn w) = w_wake_reason w.
Proof. unfold give_turn. by destruct (enforce_turn_type =? 1). Qed.

Lemma core_give s rq wq t : core s rq wq None -> core (give t s) rq wq (Some t).
Proof.
  intros [Hq [A1 A2 A3 A4 A5 A6 A7 A8 A9 A10 A11 A12 A13 A14 A15]]. split; [done|].
  assert (Hw : forall t', idle_wait (wait_of (give t s) t') <-> idle_wait (wait_of s t')).
  { intros t'. unfold give. rewrite wait_of_insert. case_decide as Ht; [|done]. subst.
    unfold idle_wait. destruct (give_turn_frame (wait_of s t')) as (-> & -> & _). done. }
  split; try done.
  - intros t' Ht'. rewrite Hw. by apply A8.
  - intros t' Ht'. rewrite Hw. by apply A9.
  - intros t'. unfold give. rewrite wait_of_insert. case_decide as Ht; [|done]. subst.
    destruct (give_turn_frame (wait_of s t')) as (_ & _ & -> & _). done.
  - intros t'. unfold give. rewrite wait_of_insert. case_decide as Ht.
    + subst. rewrite decide_True by done. apply turns_give. apply (A11 t').
    + rewrite decide_False by congruence. apply (A11 t').
Qed.

Lemma post_spec s rq wq t (Q : unit -> sched -> Prop) : core s rq wq None -> registered s t ->
  Q tt (give t s) -> wpx X (wait_t_post t) Q s.
Proof using Hpol Htt Hclk.
  intros Hc Ht HQ. unfold wait_t_post, give, give_turn in *.
  pose proof (registered_in_range _ _ _ _ _ (co_aux _ _ _ _ Hc) Ht) as Hr.
  destruct (enforce_turn_type =? 1) eqn:E1; [by apply wp_waits_upd|].
  rewrite (proj2 (orb_true_iff _ _)); [by apply wp_waits_upd|].
  apply Z.eqb_neq in E1. destruct (decide (enforce_turn_type = 2)) as [->|]; [by left|right]. lia.
Qed.

(** ** next *)

(** where the turn goes: [s] is the state after the woken threads have joined [rq] *)
Inductive handed (self : Z) (at_end : bool) (s : sched) (rq : list Z) (s' : sched) : Prop :=
| handed_to r s1 : next_result self at_end s rq r s1 -> r <> InvalidTid -> s' = give r s1 ->
    handed self at_end s rq s'
| handed_over : next_result self at_end s rq InvalidTid s' -> handed self at_end s rq s'.

(** the state in which nextRunnable runs *)
Definition after_wakeup (s : sched) (rq : list Z) (s0 : sched) : Prop := exists s1,
  relinked s (rq ++ returning s rq) (s_waitq s) None s1 /\ s0 = set_wakeup ∅ false s1.

Lemma pass_on_spec self at_end strategy s rq :
  strategy <> PUTTURN_STRATEGY_CURRENT_ROLE -> core s rq (s_waitq s) None ->
  (status_of s self <> Some INTER_PRO_STOP \/ (self ∉ rq) /\ self ∉ s_wakeup_tids s) ->
  (skip_stopped s (rq ++ returning s rq) = [] -> ~ over self at_end s -> idle_or_exit X self s) ->
  wpx X (check_wakeup ;;
         next_tid ← nextRunnable self at_end strategy;
         if next_tid =? InvalidTid then mret tt
         else assert_tid next_tid ;; wait_t_post next_tid)
    (fun _ s' => exists s0, after_wakeup s rq s0 /\
                   handed self at_end s0 (rq ++ returning s rq) s') s.
Proof using Hpol Htt Hclk.
  intros Hstr Hc Hself Hidle. wp_step. eapply wp_mono; [by apply check_wakeup_spec|]. cbn beta.
  intros [] s0 (s1 & Hrel & ->). pose proof Hrel as (C1 & S1 & (h & q & ->)).
  set (s0 := set_wakeup _ _ _).
  assert (Hst0 : forall t, status_of s0 t = status_of s t) by apply S1.
  assert (C0 : core s0 (rq ++ returning s rq) (s_waitq s0) None) by by apply core_set_wakeup.
  wp_step. eapply wp_mono; [apply (nextRunnable_spec self at_end strategy s0); [done|done| |]|].
  - intros Hin. rewrite Hst0. destruct Hself as [Hs|[Hs1 Hs2]]; [done|].
    apply elem_of_app in Hin as [|Hin]; [done|]. apply list_elem_of_filter in Hin as [_ Hin].
    rewrite set_order_perm, elem_of_elements in Hin. done.
  - intros Hsk Hov. rewrite (skip_stopped_ext s) in Hsk by done. by apply Hidle.
  - intros r s' Hres. cbn beta. destruct (r =? InvalidTid) eqn:Hr.
    + apply Z.eqb_eq in Hr as ->. wp_step. exists s0. split; [by exists (set_runq h q s)|].
      by apply handed_over.
    + apply Z.eqb_neq in Hr.
      assert (exists rq', core s' (r :: rq') (s_waitq s') None) as [rq' C'].
      { destruct Hres; [by eexists|exists []; congruence|done]. }
      assert (Hreg : registered s' r) by (eapply core_mem; [done|set_solver]).
      wp_step. eapply wp_assert_tid; [apply C'|done|]. eapply post_spec; [done|done|].
      exists s0. split; [by exists (set_runq h q s)|]. by eapply handed_to.
Qed.

(** the status with which the thread that has the turn leaves the run queue *)
Definition leave_status (st : THD_STATUS) : THD_STATUS :=
  match st with RUNNING_REG => RUNNABLE | _ => INTER_PRO_STOP end.

Record left_queue (self : Z) (s : sched) (rq : list Z) (sp : sched) : Prop := {
  lq_core : core sp rq (s_waitq s) None;
  lq_rw : exists h q, sp = set_runq h q s;
  lq_self : exists st, status_of s self = Some st /\ status_of sp self = Some (leave_status st);
  lq_other : forall t, t <> self -> status_of sp t = status_of s t;
  lq_reg : forall t, registered sp t <-> registered s t
}.

Lemma pop_self_spec s self rq wq : rq_inv (s_heap s) (s_runq s) (self :: rq) [] ->
  aux s rq wq None -> registered s self ->
  wpx X (pop_self self) (fun _ s' => relinked s rq wq None s') s.
Proof.
  intros Hq Ha Hreg. unfold pop_self. wp_step.
  apply wp_waits_get; [by eapply registered_in_range|].
  rewrite (ax_no_hp _ _ _ _ Ha). by eapply pop_spec.
Qed.

(** before: [self] is the head of the queue and has the turn; [rq] are the others *)
Definition leaving (self : Z) (s : sched) (rq : list Z) : Prop :=
  rq_inv (s_heap s) (s_runq s) (self :: rq) [] /\ aux s rq (s_waitq s) None /\
  registered s self /\
  (status_of s self = Some RUNNING_REG \/
   status_of s self = Some RUNNING_INTER_PRO /\ self ∉ s_waitq s).

Lemma leave_spec self s rq : leaving self s rq ->
  wpx X (my ← on_runq (get_my_elem self);
         e ← elem_get my;
         (if decide (e_status e = RUNNING_REG) then elem_set_status my RUNNABLE
          else
            cassert ndebug (bool_decide (e_status e = RUNNING_INTER_PRO)) "RUNNING_INTER_PRO" ;;
            elem_set_status my INTER_PRO_STOP) ;;
         pop_self self) (fun _ sp => left_queue self s rq sp) s.
Proof.
  intros (Hq & Ha & Hreg & Hst). pose proof Hreg as [l Hl].
  destruct (wf_map _ _ (inv_wf _ _ _ _ Hq) _ _ Hl) as (Hr & e & He & _).
  assert (Hse : status_of s self = Some (e_status e))
    by (unfold status_of; rewrite Hl; simpl; by rewrite He).
  wp_step. unfold on_runq at 1, get_my_elem. apply wp_zoom, wp_tid_map_get; [done|]. simpl.
  rewrite Hl. replace (set_runq (s_heap s) (s_runq s) s) with s by (by destruct s).
  wp_step. eapply wp_elem_get; [done|]. wp_step.
  assert (Hfin : forall st s1, rq_inv (s_heap s1) (s_runq s1) (self :: rq) [] -> restatus s self st s1 ->
    (self ∈ s_waitq s -> st = RUNNABLE \/ st = RUNNING_REG) -> leave_status (e_status e) = st ->
    wpx X (pop_self self) (fun _ sp => left_queue self s rq sp) s1).
  { intros st s1 Hq1 Hre Hw Hlv. pose proof (restatus_aux _ _ _ _ _ _ _ Ha Hre Hw) as Ha1.
    destruct Hre as ((h1 & ->) & R1 & R2 & R3).
    eapply wp_mono; [eapply pop_self_spec; [done|exact Ha1|by apply R3]|]. cbn beta.
    intros [] sp (C & [S1 S2] & (h & q & ->)). split; [done|by eexists _, _| | |].
    - exists (e_status e). split; [done|]. by rewrite S1, R1, Hlv.
    - intros t Ht. by rewrite S1, R2.
    - intros t. by rewrite S2, R3. }
  case_decide as Hd.
  - eapply set_status_spec; [done|done|done|].
    intros s1 Hq1 Hre. eapply Hfin; [done|done|auto|by rewrite Hd].
  - destruct Hst as [Hst|[Hst Hnw]]; [congruence|].
    assert (He2 : e_status e = RUNNING_INTER_PRO) by congruence.
    wp_step. apply wp_cassert; [by apply bool_decide_eq_true|].
    eapply set_status_spec; [done|done|done|].
    intros s1 Hq1 Hre. eapply Hfin; [done|done|done|by rewrite He2].
Qed.
End next.
