(* ===== verification/SchedOps.v ===== *)
(** * The operations of the scheduler keep its invariant

    [sched_inv s rq tok]: the run queue holds [rq]; the turn is posted to, or held by,
    the thread at its front ([tok]); the wait queue is disjoint from it; the idle
    thread can be woken.  Each operation a thread may perform is shown to lead from a
    state that satisfies the invariant to another one, without an access to a NULL or
    freed element, an out-of-range index or a failed assertion: the only errors left
    are the two exits of the code ([stops]). *)
From S2P Require Import Prelude Options RunQueue RunQueueSpec RunQueueYield RunQueueLife.
From S2P Require Import TidMap NonDetSet Scheduler SchedInv SchedWake SchedNext.

(** exit(1) without an idle thread, pthread_exit(0) when the idle thread is done *)
Definition stops (e : error) : Prop := e = ProcessExit 1 \/ e = ThreadExit.

Inductive turn_state : Type :=
| Posted (h : Z)      (* the turn is given to [h], which has not taken it *)
| Held (h : Z)        (* [h] runs with the turn *)
| Over.               (* the last thread, or the main thread, has ended *)

Definition posted (tok : turn_state) : option Z :=
  match tok with Posted h => Some h | _ => None end.
#[export] Instance turn_state_eq_dec : EqDecision turn_state.
Proof. solve_decision. Defined.

Definition running (s : sched) (t : Z) : Prop :=
  status_of s t = Some RUNNING_REG \/ status_of s t = Some RUNNING_INTER_PRO.

(** an idle thread can be woken, or the code exits instead; the main thread alone is
    the start-up phase *)
Definition idle_ok `{Options} (s : sched) (rq : list Z) : Prop :=
  launch_idle_thread = 0 \/ s_idle_done s = true \/ nthread (s_tids s) = 1 \/ idle_ready s rq.

Record sched_inv `{Options} (s : sched) (rq : list Z) (tok : turn_state) : Prop := {
  si_core : core s rq (s_waitq s) (posted tok);
  si_front : match tok with
             | Posted h | Held h => head rq = Some h /\ running s h
             | Over => True
             end;
  si_idle : idle_ok s rq
}.

(** the exits are allowed, the start-up phase is over: a thread may leave the run queue *)
Definition may_leave `{Options} (s : sched) : Prop :=
  launch_idle_thread = 0 \/ s_idle_done s = true \/ nthread (s_tids s) <> 1.

Section ops.
Context `{O : Options, U : UnorderedIter, G : GlobalAddrs}.
Context (Hpol : hp_policy = false) (Htt : 0 <= enforce_turn_type <= 2)
        (Hclk : enforce_non_det_clock_bound = false).
Implicit Types (s : sched) (rq wq : list Z) (t h : Z).

Lemma skip_nil_all s rq t : skip_stopped s rq = [] -> t ∈ rq ->
  status_of s t = Some INTER_PRO_STOP.
Proof.
  intros Hs Ht. destruct (skip_stopped_suffix s rq) as (d & Hd & HF).
  rewrite Hs, app_nil_r in Hd. subst d. rewrite Forall_forall in HF. auto.
Qed.

Lemma skip_keeps s rq t : t ∈ rq -> status_of s t <> Some INTER_PRO_STOP ->
  t ∈ skip_stopped s rq.
Proof.
  intros Ht Hst. destruct (skip_stopped_suffix s rq) as (d & Hd & HF).
  rewrite Hd in Ht. apply elem_of_app in Ht as [Ht|]; [|done].
  rewrite Forall_forall in HF. by destruct Hst; apply HF.
Qed.

(** [idle_ok] gives what nextRunnable needs *)
Lemma idle_ok_exit self s rq : idle_ok s rq -> may_leave s -> self <> IdleThreadTid ->
  skip_stopped s rq = [] -> idle_or_exit stops self s.
Proof.
  unfold idle_ok, may_leave, idle_or_exit, stops. intros Hi Hm Hs Hsk.
  destruct (decide (launch_idle_thread = 0)) as [|Hl]; [by left; auto|right].
  split_and!; [done|done|]. destruct (s_idle_done s) eqn:Hd; [by right|].
  destruct Hi as [|[|[|[Hin Hst]]]]; try done; [by destruct Hm as [|[|]]|].
  destruct Hin as [Hin|]; [|done]. pose proof (skip_nil_all _ _ _ Hsk Hin). destruct Hst; congruence.
Qed.

Lemma turn_passed_idle s t s' : turn_passed s t s' ->
  (status_of s IdleThreadTid = Some RUNNABLE \/ status_of s IdleThreadTid = Some RUNNING_REG) ->
  status_of s' IdleThreadTid = Some RUNNABLE \/ status_of s' IdleThreadTid = Some RUNNING_REG.
Proof.
  intros ((st & P1 & P2 & P3) & P4 & _) Hi.
  destruct (decide (t = IdleThreadTid)) as [->|Hne]; [|by rewrite P4].
  rewrite P3. destruct Hi as [Hi|Hi]; rewrite Hi in P1; simplify_eq; auto.
Qed.

(** handing over the turn re-establishes the invariant *)
Lemma handed_inv self at_end s rq s' : core s rq (s_waitq s) None -> idle_ok s rq ->
  handed self at_end s rq s' ->
  exists rq' tok, sched_inv s' rq' tok /\
    match tok with Posted h => h <> InvalidTid | Held _ => False | Over => at_end = true end.
Proof.
  intros Hc Hidle Hh.
  assert (Hgive : forall h rq' s1, core s1 (h :: rq') (s_waitq s1) None -> turn_passed s h s1 ->
    idle_ok s1 (h :: rq') -> sched_inv (give h s1) (h :: rq') (Posted h)).
  { intros h rq' s1 C T I. split; [by apply core_give| |exact I].
    split; [done|]. by apply turn_passed_running in T. }
  inversion Hh as [r s1 Hres Hr ->|Hres].
  - inversion Hres as [t rest extra ? R1 R2 R3 R4 R5 R6 R7 R8 R9 R10
      |l1 l2 ? R1 R2 R3 R4 R5 R6 R7 R8 R9 R10 R11 R12 R13
      |? R1 R2 R3 R4 R5 R6 R7 R8 R9 R10 R11]; subst; [| |done].
    + exists (r :: rest ++ extra), (Posted r). split; [|done]. apply Hgive; [done|done|].
      destruct R4 as [O1 O2 O3 O4 O5 O6]. unfold idle_ok. rewrite O1, O4.
      destruct Hidle as [|[|[|[Hin Hst]]]]; auto. do 3 right. split; [|by eapply turn_passed_idle].
      destruct Hin as [Hin|Hin].
      * left. apply (skip_keeps s) in Hin; [|destruct Hst; congruence].
        rewrite R1 in Hin. set_solver.
      * rewrite <-R10 in Hin. set_solver.
    + exists [IdleThreadTid], (Posted IdleThreadTid). split; [|done].
      rewrite <-R3 in R4. apply Hgive; [done|done|]. unfold idle_ok. rewrite R6, R10.
      destruct Hidle as [|[|[|[Hin Hst]]]]; auto. do 3 right.
      split; [left; set_solver|by eapply turn_passed_idle].
  - inversion Hres as [t rest extra ? R1 R2 R3 R4 R5 R6 R7 R8 R9 R10| |
      ? R1 R2 R3 R4 R5 R6 R7 R8 R9 R10 R11]; subst.
    + exfalso. assert (Hreg : registered s' InvalidTid) by (eapply core_mem; [done|set_solver]).
      pose proof (aux_range _ _ _ _ _ (co_aux _ _ _ _ R2) Hreg). unfold InvalidTid in *. lia.
    + exists [], Over. split; [|done]. split; [done|done|].
      destruct R6 as [O1 O2 O3 O4 O5 O6]. unfold idle_ok. rewrite O1, O4.
      destruct Hidle as [|[|[|[Hin Hst]]]]; auto. do 3 right. split; [|by rewrite (proj1 R5)].
      destruct Hin as [Hin|]; [|right; congruence].
      pose proof (skip_nil_all _ _ _ R1 Hin). destruct Hst; congruence.
Qed.

(** ** Taking the turn *)
Definition take_turn (w : wait_t) : wait_t :=
  if enforce_turn_type =? 1 then wt_sem (w_sem w - 1) w else wt_wakenUp false w.

Lemma core_take s rq wq t : core s rq wq (Some t) ->
  core (set_waits (<[t := take_turn (wait_of s t)]> (s_waits s)) s) rq wq None.
Proof.
  intros [Hq [A1 A2 A3 A4 A5 A6 A7 A8 A9 A10 A11 A12 A13 A14 A15]]. split; [done|].
  set (s' := set_waits _ s).
  assert (Hw : forall t', w_chan (wait_of s' t') = w_chan (wait_of s t') /\
    w_timeout (wait_of s' t') = w_timeout (wait_of s t') /\ w_hp (wait_of s' t') = w_hp (wait_of s t')).
  { intros t'. unfold s'. rewrite wait_of_insert. case_decide as Ht; [|done]. subst.
    unfold take_turn. by destruct (enforce_turn_type =? 1). }
  assert (Hi : forall t', idle_wait (wait_of s' t') <-> idle_wait (wait_of s t')).
  { intros t'. unfold idle_wait. destruct (Hw t') as (-> & -> & _). done. }
  split; try done.
  - intros t' Ht'. rewrite Hi. by apply A8.
  - intros t' Ht'. rewrite Hi. by apply A9.
  - intros t'. destruct (Hw t') as (_ & _ & ->). done.
  - intros t'. simpl. unfold s'. rewrite wait_of_insert. pose proof (A11 t') as Ht'.
    destruct (decide (t = t')) as [Ht|Ht].
    + subst. rewrite decide_True in Ht' by done. unfold turns, take_turn in *.
      destruct (enforce_turn_type =? 1); simpl; [lia|done].
    + rewrite decide_False in Ht' by congruence. done.
Qed.

Lemma wait_t_wait_spec t s rq wq (Q : unit -> sched -> Prop) : core s rq wq (Some t) ->
  registered s t ->
  Q tt (set_waits (<[t := take_turn (wait_of s t)]> (s_waits s)) s) ->
  wp (wait_t_wait t) Q s.
Proof using Hpol Htt Hclk.
  intros Hc Ht HQ. pose proof (co_aux _ _ _ _ Hc) as Ha. unfold wait_t_wait, take_turn in *.
  pose proof (registered_in_range _ _ _ _ _ Ha Ht) as Hr. wp_step. apply wp_waits_get; [done|].
  pose proof (ax_turns _ _ _ _ Ha t) as Hn. rewrite decide_True in Hn by done. unfold turns in Hn.
  destruct (enforce_turn_type =? 1) eqn:E1.
  - rewrite Hn. simpl. apply wp_waits_upd; [done|]. by rewrite Hn in HQ.
  - rewrite (proj2 (orb_true_iff _ _)).
    + destruct (w_wakenUp (wait_of s t)); [|done]. by apply wp_waits_upd.
    + apply Z.eqb_neq in E1. destruct (decide (enforce_turn_type = 2)) as [->|]; [by left|right]. lia.
Qed.

Lemma getTurn_spec s rq h : sched_inv s rq (Posted h) ->
  wp (getTurn h) (fun _ s' => sched_inv s' rq (Held h) /\
    s' = set_waits (<[h := take_turn (wait_of s h)]> (s_waits s)) s) s.
Proof using Hpol Htt Hclk.
  intros [Hc [Hh Hrun] Hi]. assert (Hreg : registered s h).
  { eapply core_mem; [done|]. destruct rq; simplify_eq/=; set_solver. }
  unfold getTurn. wp_step. eapply wp_assert_tid; [apply Hc|done|].
  eapply wait_t_wait_spec; [done|done|]. split; [|done]. split; [by apply core_take|done|done].
Qed.

(** nobody else gets it *)
Lemma getTurn_blocks s rq tok t : sched_inv s rq tok -> registered s t -> posted tok <> Some t ->
  getTurn t s = Err WouldBlock.
Proof using Hpol Htt Hclk.
  intros [Hc _ _] Hreg Hne. pose proof (co_aux _ _ _ _ Hc) as Ha.
  pose proof (registered_in_range _ _ _ _ _ Ha Hreg) as Hr.
  pose proof (ax_turns _ _ _ _ Ha t) as Hn. rewrite decide_False in Hn by done.
  apply (ax_reg _ _ _ _ Ha) in Hreg.
  unfold getTurn, assert_tid, wait_t_wait, waits_get, mbind, M_bind, gets, cassert.
  rewrite Hr. replace ((0 <=? t) && (t <? nthread (s_tids s))) with true by (symmetry; lia).
  simpl. unfold turns in Hn. destruct (enforce_turn_type =? 1) eqn:E1; [by rewrite Hn|].
  rewrite (proj2 (orb_true_iff _ _)).
  - by destruct (w_wakenUp (wait_of s t)).
  - apply Z.eqb_neq in E1. destruct (decide (enforce_turn_type = 2)) as [->|]; [by left|right]. lia.
Qed.

(** ** Operations that keep the turn *)
Lemma idle_ok_same s s' rq rq' : idle_ok s rq -> s_tids s' = s_tids s ->
  s_idle_done s' = s_idle_done s ->
  status_of s' IdleThreadTid = status_of s IdleThreadTid ->
  (IdleThreadTid ∈ rq \/ IdleThreadTid ∈ s_waitq s ->
   IdleThreadTid ∈ rq' \/ IdleThreadTid ∈ s_waitq s') -> idle_ok s' rq'.
Proof using O.
  clear Hpol Htt Hclk. unfold idle_ok, idle_ready. intros Hi -> -> -> Hin. naive_solver.
Qed.

Lemma signal_inv {X} s h rq c all : sched_inv s (h :: rq) (Held h) -> c <> 0 ->
  let p := pick (waits_on s c) all (s_waitq s) in
  wpx X (signal h c all) (fun _ s' =>
    sched_inv s' (h :: rq ++ p.1) (Held h) /\ s_waitq s' = p.2 /\ same_status s s' /\
    others_same s s' /\ s_turnCount s' = s_turnCount s /\ s_log s' = s_log s /\
    s_wakeup_tids s' = s_wakeup_tids s /\
    forall t, wait_of s' t = if decide (t ∈ p.1) then signalled (wait_of s t) else wait_of s t) s.
Proof using Hpol Htt Hclk.
  intros [Hc [_ Hrun] Hi] Hne p. eapply wp_mono; [by eapply signal_spec|]. cbn beta. fold p.
  intros [] s' (s1 & [M1 M2 M3 M4] & ->).
  destruct (rw_others _ _ M3) as ([O1 O2 O3 O4 O5 O6] & F1 & F2 & F3 & F4 & F5).
  split_and!; try done. split; [by apply core_set_waitq| |].
  - split; [done|]. unfold running. change (status_of (set_waitq _ ?x)) with (status_of x).
    by rewrite (proj1 M2).
  - eapply idle_ok_same; [done|done|done|apply M2|]. simpl. intros Hin.
    assert (Hp : p.1 ++ p.2 ≡ₚ s_waitq s) by apply pick_perm. rewrite <-Hp in Hin. set_solver.
Qed.

Lemma incTurnCount_inv {X} s h rq : sched_inv s (h :: rq) (Held h) ->
  wpx X (incTurnCount h) (fun r s' => r = s_turnCount s /\ ticked h s (h :: rq) s' /\
    sched_inv s' (tick_rq h s (h :: rq)) (Held h)) s.
Proof using Hpol Htt Hclk.
  intros [Hc [_ Hrun] Hi]. eapply wp_mono; [by eapply incTurnCount_spec|]. cbn beta.
  intros r s' [-> Ht]. split_and!; [done|done|]. destruct Ht as [T1 T2 T3 T4 T5 T6 T7 T8].
  destruct T4 as [O1 O2 O3 O4 O5 O6]. split; [by rewrite T2| |].
  - split; [done|]. unfold running. by rewrite (proj1 T3).
  - eapply idle_ok_same; [done|done|done|apply T3|]. rewrite T2. intros Hin.
    assert (Hp : tick_fired h s ++ tick_keep h s ≡ₚ s_waitq s) by apply pick_perm.
    rewrite <-Hp in Hin. unfold tick_rq. set_solver.
Qed.

(** ** Operations that give up the turn *)

(** somebody else can run, or there is a way out *)
Definition can_leave (self : Z) (at_end : bool) (s : sched) (rq : list Z) : Prop :=
  (self <> IdleThreadTid /\ (may_leave s \/ over self at_end s)) \/
  exists t, t ∈ rq /\ t <> self /\ status_of s t <> Some INTER_PRO_STOP.

(** the turn has been handed on *)
Definition turn_given (at_end : bool) (s' : sched) : Prop := exists rq' tok, sched_inv s' rq' tok /\
  match tok with Posted h => h <> InvalidTid | Held _ => False | Over => at_end = true end.

Lemma idle_ok_mono s rq rq' : idle_ok s rq -> rq ⊆ rq' -> idle_ok s rq'.
Proof. intros Hi Hs. eapply idle_ok_same; try done. set_solver. Qed.

Lemma after_wakeup_idle s rq s0 : after_wakeup s rq s0 -> idle_ok s rq ->
  core s0 (rq ++ returning s rq) (s_waitq s0) None /\ idle_ok s0 (rq ++ returning s rq).
Proof.
  intros (s1 & (C1 & S1 & (hp & q & ->)) & ->) Hi. split; [by apply core_set_wakeup|].
  eapply idle_ok_same; [done|done|done|apply S1|]. simpl. set_solver.
Qed.

(** [next] when the caller is still at the front of the queue *)
Lemma next_leave self at_end s rq : leaving self s rq -> can_leave self at_end s rq ->
  (status_of s self = Some RUNNING_INTER_PRO -> self ∉ s_wakeup_tids s) ->
  (forall sp, left_queue self s rq sp -> idle_ok sp rq) ->
  wpx stops (next self at_end false 0) (fun _ s' => turn_given at_end s') s.
Proof using Hpol Htt Hclk.
  intros Hl Hcan Hwk Hidle. unfold next. rewrite (proj2 (Z.leb_le 0 enforce_turn_type)) by lia.
  wp_step. eapply wp_mono; [by eapply leave_spec|]. cbn beta. intros [] sp Hlq.
  pose proof (Hidle sp Hlq) as Hi. pose proof Hlq as [L1 (hp & q & ->) (st & L3 & L3') L4 L5].
  assert (Hnin : self ∉ rq).
  { destruct Hl as (Hq & _). destruct (inv_rep _ _ _ _ Hq) as [ls Hrep].
    pose proof (rep_nodup _ _ _ _ Hrep) as Hnd. by apply NoDup_cons in Hnd as [? _]. }
  eapply wp_mono; [eapply pass_on_spec; [done..|exact L1| |]|].
  - destruct Hl as (_ & _ & _ & [Hst|[Hst _]]).
    + left. rewrite L3'. rewrite Hst in L3. by simplify_eq.
    + right. split; [done|]. by apply Hwk.
  - intros Hsk Hov. destruct Hcan as [[Hs [Hm|Hm]]|(x & Hx & Hxs & Hst)].
    + eapply idle_ok_exit; [|exact Hm|done|exact Hsk]. eapply idle_ok_mono; [done|set_solver].
    + by destruct Hov.
    + exfalso. apply Hst. rewrite <-(L4 x) by done. eapply skip_nil_all; [done|set_solver].
  - cbn beta. intros [] s' (s0 & Haw & Hh). destruct (after_wakeup_idle _ _ _ Haw Hi) as [C0 I0].
    by eapply handed_inv.
Qed.

(** [next] when the caller has been requeued *)
Lemma next_requeued self strategy s rq : core s rq (s_waitq s) None -> idle_ok s rq ->
  strategy <> PUTTURN_STRATEGY_CURRENT_ROLE -> self ∈ rq -> status_of s self = Some RUNNABLE ->
  wp (next self false true strategy) (fun _ s' => exists s0,
    after_wakeup s rq s0 /\ handed self false s0 (rq ++ returning s rq) s' /\
    turn_given false s') s.
Proof using Hpol Htt Hclk.
  intros Hc Hi Hstr Hin Hst. unfold next. rewrite (proj2 (Z.leb_le 0 enforce_turn_type)) by lia.
  wp_step. wp_step. eapply wp_mono; [eapply pass_on_spec; try done|].
  - left. congruence.
  - intros Hsk. exfalso. pose proof (skip_nil_all s _ self Hsk ltac:(set_solver)). congruence.
  - cbn beta. intros [] s' (s0 & Haw & Hh). exists s0. split_and!; [done|done|].
    destruct (after_wakeup_idle _ _ _ Haw Hi) as [C0 I0]. by eapply handed_inv.
Qed.

Lemma checkNonDetBound_noop {X} s (Q : unit -> sched -> Prop) : Q tt s ->
  wpx X checkNonDetBound Q s.
Proof using Hpol Htt Hclk. intros HQ. unfold checkNonDetBound. rewrite Hclk. by wp_steps. Qed.

(** the run queue after the caller has been requeued with a strategy *)
Definition requeued (strategy h : Z) (rq rq' : list Z) : Prop :=
  if decide (strategy = PUTTURN_STRATEGY_CURRENT_THREAD \/ strategy = PUTTURN_STRATEGY_CREATE)
  then rq' = h :: rq
  else if decide (strategy = PUTTURN_STRATEGY_YIELD)
  then exists rq1 rq2, rq = rq1 ++ rq2 /\ (rq <> [] -> rq1 <> []) /\ rq' = rq1 ++ h :: rq2
  else rq' = rq ++ [h].

(** one call of putTurn: the queue the caller leaves, [s1], and where the turn goes *)
Definition put_result (strategy h : Z) (rq : list Z) (s s' : sched) : Prop := exists rq' s1 s0,
  requeued strategy h rq rq' /\ core s1 rq' (s_waitq s1) None /\
  (exists hp q, s1 = set_runq hp q s) /\
  status_of s1 h = Some RUNNABLE /\ (forall t, t <> h -> status_of s1 t = status_of s t) /\
  after_wakeup s1 rq' s0 /\ handed h false s0 (rq' ++ returning s1 rq') s' /\ turn_given false s'.

Lemma requeue_spec strategy s h rq : core s (h :: rq) (s_waitq s) None ->
  wp (if (strategy =? PUTTURN_STRATEGY_CURRENT_THREAD) || (strategy =? PUTTURN_STRATEGY_CREATE)
        then mret tt
        else
          pop_self h ;;
          if strategy =? PUTTURN_STRATEGY_YIELD then on_runq (insert_yield h)
          else on_runq (q_push_back h))
    (fun _ s' => exists rq', requeued strategy h rq rq' /\
       relinked s rq' (s_waitq s) None s') s.
Proof using Hpol Htt Hclk.
  intros Hc. destruct (core_not_in_wq _ _ _ _ _ Hc) as [Hrq Hwq].
  assert (Hreg : registered s h) by (eapply core_mem; [done|set_solver]). unfold requeued.
  destruct ((strategy =? PUTTURN_STRATEGY_CURRENT_THREAD) || (strategy =? PUTTURN_STRATEGY_CREATE)) eqn:Hs.
  - wp_steps. exists (h :: rq). case_decide; [|lia]. split; [done|]. by apply relinked_refl.
  - case_decide; [lia|]. wp_step.
    eapply wp_mono; [eapply pop_self_spec; [apply Hc|eapply aux_sub; [apply Hc|set_solver]|done]|].
    cbn beta. intros [] s1 Hr1. pose proof Hr1 as (C1 & [S1 R1] & (hp & q & ->)).
    assert (Hreg1 : registered (set_runq hp q s) h) by by apply R1.
    destruct (strategy =? PUTTURN_STRATEGY_YIELD) eqn:Hy.
    + eapply wp_mono; [by eapply yield_spec|]. cbn beta.
      intros [] s2 (rq1 & rq2 & -> & Hne & Hr2). exists (rq1 ++ h :: rq2).
      case_decide; [|lia]. split; [by eauto|]. by eapply relinked_trans.
    + eapply wp_mono; [by eapply push_spec|]. cbn beta. intros [] s2 Hr2.
      exists (rq ++ [h]). case_decide; [lia|]. split; [done|]. by eapply relinked_trans.
Qed.

Lemma requeued_perm strategy h rq rq' : requeued strategy h rq rq' -> rq' ≡ₚ h :: rq.
Proof.
  unfold requeued. repeat case_decide; [by intros ->| |intros ->; by rewrite Permutation_app_comm].
  intros (rq1 & rq2 & -> & _ & ->). by rewrite <-Permutation_middle.
Qed.

Lemma putTurn_spec s h th rq strategy : sched_inv s (h :: rq) (Held h) ->
  status_of s h = Some RUNNING_REG -> strategy <> PUTTURN_STRATEGY_CURRENT_ROLE ->
  wp (putTurn h th false strategy) (fun _ s' => put_result strategy h rq s s') s.
Proof using Hpol Htt Hclk.
  intros [Hc _ Hi] Hst Hstr. assert (Hreg : registered s h) by (eapply core_mem; [done|set_solver]).
  unfold putTurn. rewrite (proj2 (Z.leb_le 0 enforce_turn_type)) by lia.
  wp_step. eapply wp_assert_tid; [apply Hc|done|]. wp_step. eapply wp_assert_front; [done|].
  wp_step. cbv iota. wp_step. eapply wp_get_my_elem; [done|done|]. intros l Hl.
  destruct (core_elem _ _ _ _ h Hc Hreg) as (l' & e & Hl' & He & Het & Hse).
  assert (l' = l) as -> by congruence. wp_step. eapply wp_elem_get; [done|]. wp_step.
  apply wp_cassert; [apply bool_decide_eq_true; congruence|]. wp_step.
  eapply set_status_spec; [apply Hc|done|done|]. intros s1 Hq1 Hre.
  assert (C1 : core s1 (h :: rq) (s_waitq s1) None).
  { split; [done|]. eapply restatus_aux; [|done|by left].
    destruct Hre as ((hp & ->) & _). apply Hc. }
  wp_step. eapply wp_mono; [by eapply requeue_spec|]. cbn beta. intros [] s2 (rq' & Hrq & C2 & S2 & F2).
  do 2 wp_step. apply checkNonDetBound_noop.
  pose proof (requeued_perm _ _ _ _ Hrq) as Hperm.
  destruct Hre as ((hp1 & ->) & R1 & R2 & R3), F2 as (hp & q & ->).
  eapply wp_mono; [eapply next_requeued; [exact C2| |done| |]|].
  - eapply idle_ok_same with (s := set_runq hp1 (s_runq s) s) (rq := h :: rq);
      [|done|done|apply S2|rewrite Hperm; auto].
    destruct (decide (h = IdleThreadTid)) as [Hid|Hid].
    + destruct Hi as [Hi|[Hi|[Hi|[Hi1 Hi2]]]]; [by left|by right; left|by right; right; left|].
      do 3 right. split; [done|]. left. by rewrite <-Hid.
    + eapply idle_ok_same; [exact Hi|done|done|by apply R2|done].
  - rewrite Hperm. set_solver.
  - by rewrite (proj1 S2).
  - cbn beta. intros [] s' (s0 & Haw & Hh & Hg). eexists rq', _, s0.
    split_and!; [done|exact C2|by eexists _, _|by rewrite (proj1 S2)| |exact Haw|exact Hh|done].
    intros x Hx. by rewrite (proj1 S2), R2.
Qed.

(** ** wait *)
Lemma block_leaving s h rq c n : core s (h :: rq) (s_waitq s) None ->
  status_of s h = Some RUNNING_REG -> ~ (c = 0 /\ n = FOREVER) -> h ∉ s_wakeup_tids s ->
  leaving h (set_waitq (s_waitq s ++ [h])
               (set_waits (<[h := wt_block c n (wait_of s h)]> (s_waits s)) s)) rq.
Proof using O.
  clear Hpol Htt Hclk. intros Hc Hst Hcn Hwk.
  destruct (core_not_in_wq _ _ _ _ _ Hc) as [Hrq Hwq].
  assert (Hreg : registered s h) by (eapply core_mem; [done|set_solver]).
  destruct Hc as [Hq [A1 A2 A3 A4 A5 A6 A7 A8 A9 A10 A11 A12 A13 A14 A15]].
  split_and!; [done| |done|by left]. set (s' := set_waitq _ _).
  assert (Hw : forall t, wait_of s' t = if decide (h = t) then wt_block c n (wait_of s h) else wait_of s t).
  { intros t. unfold s'. change (wait_of (set_waitq _ ?x)) with (wait_of x). apply wait_of_insert. }
  split; try done; simpl.
  - intros t Ht. pose proof (A4 t ltac:(set_solver)). set_solver.
  - by apply NoDup_snoc.
  - intros t [Ht|Ht%list_elem_of_singleton]%elem_of_app; [by apply A6|by subst].
  - intros t [Ht|Ht%list_elem_of_singleton]%elem_of_app; [by apply A7|]. subst. by right.
  - intros t Ht. rewrite Hw. case_decide as Hht; [by subst|].
    apply A8. apply elem_of_app in Ht as [|Ht%list_elem_of_singleton]; [done|congruence].
  - intros t Ht. rewrite Hw. case_decide as Hht; [subst; set_solver|]. apply A9. set_solver.
  - intros t. rewrite Hw. case_decide as Hht; [subst; apply (A10 t)|apply A10].
  - intros t. rewrite Hw. case_decide as Hht; [subst; apply (A11 t)|apply (A11 t)].
  - intros t Ht. destruct (A12 t Ht) as [? ?]. split; [done|].
    rewrite elem_of_app, list_elem_of_singleton. intros [?| ->]; done.
Qed.

Lemma may_leave_same s s' : may_leave s -> s_tids s' = s_tids s -> s_idle_done s' = s_idle_done s ->
  may_leave s'.
Proof. unfold may_leave. by intros ? -> ->. Qed.

(** leaving the queue keeps the idle thread reachable *)
Lemma left_idle_ok self s rq sp : left_queue self s rq sp -> idle_ok s (self :: rq) ->
  (self = IdleThreadTid -> IdleThreadTid ∈ s_waitq s /\ status_of s IdleThreadTid = Some RUNNING_REG) ->
  idle_ok sp rq.
Proof using O.
  clear Hpol Htt Hclk. intros [L1 (hp & q & ->) (st & L3 & L3') L4 L5] Hi Hself.
  destruct (decide (self = IdleThreadTid)) as [Hid|Hid].
  - destruct (Hself Hid) as [Hw Hs]. destruct Hi as [Hi|[Hi|[Hi|[Hi1 Hi2]]]];
      [by left|by right; left|by right; right; left|do 3 right]. subst self.
    rewrite Hs in L3. simplify_eq. split; [by right|left; by rewrite L3'].
  - eapply idle_ok_same; [done|done|done|by apply L4|]. simpl. set_solver.
Qed.

Lemma wait_begin_spec s h rq c n : sched_inv s (h :: rq) (Held h) ->
  status_of s h = Some RUNNING_REG -> ~ (c = 0 /\ n = FOREVER) -> can_leave h false s rq ->
  wpx stops (wait_begin h c n) (fun _ s' => turn_given false s') s.
Proof using Hpol Htt Hclk.
  intros Hinv Hst Hcn Hcan. unfold wait_begin. wp_step.
  eapply wp_mono; [by apply incTurnCount_inv|]. cbn beta.
  intros _ s1 (_ & [T1 T2 T3 T4 T5 T6 T7 T8] & [C1 F1 I1]).
  set (rq1 := (rq ++ tick_fired h s) ++ returning s (h :: rq ++ tick_fired h s)).
  change (tick_rq h s (h :: rq)) with (h :: rq1) in *.
  assert (Hreg : registered s1 h) by (eapply core_mem; [done|set_solver]).
  wp_step. eapply wp_assert_tid; [apply C1|done|]. wp_step. eapply wp_assert_front; [done|].
  wp_step. apply wp_waits_upd; [by eapply registered_in_range; [apply C1|]|]. wp_steps; [lia|].
  intros _. set (s2 := set_waitq _ _).
  assert (Hst1 : status_of s1 h = Some RUNNING_REG) by by rewrite (proj1 T3).
  assert (Hl : leaving h s2 rq1).
  { apply (block_leaving s1); [done|done|done|]. rewrite T8. set_solver. }
  apply (next_leave h false s2 rq1); [done| | |].
  - destruct T4 as [O1 O2 O3 O4 O5 O6]. destruct Hcan as [[Hh [Hm|[? _]]]|(t & Ht & Hth & Hts)]; [|done|].
    + left. split; [done|left]. by eapply may_leave_same.
    + right. exists t. split_and!; [unfold rq1; set_solver|done|].
      change (status_of s2 t) with (status_of s1 t). by rewrite (proj1 T3).
  - intros Hx. change (status_of s2 h) with (status_of s1 h) in Hx. congruence.
  - intros sp Hlq. eapply left_idle_ok; [done| |].
    + eapply idle_ok_same; [exact I1|done|done|done|]. simpl. set_solver.
    + intros ->. split; [simpl; set_solver|done].
Qed.

(** the value wait() returns is the reason recorded when the thread was woken *)
Lemma wait_end_spec s rq h r : sched_inv s rq (Posted h) -> w_wake_reason (wait_of s h) = Some r ->
  wp (wait_end h) (fun v s' => v = wake_code r /\ sched_inv s' rq (Held h)) s.
Proof using Hpol Htt Hclk.
  intros Hinv Hr. unfold wait_end. wp_step. eapply wp_use; [by apply getTurn_spec|]. cbn beta.
  intros [] s' [Hinv' ->]. wp_step.
  assert (Hreg : registered s h).
  { destruct Hinv as [Hc [Hh _] _]. eapply core_mem; [done|]. destruct rq; simplify_eq/=; set_solver. }
  apply wp_waits_get; [eapply registered_in_range; [apply Hinv|done]|].
  rewrite wait_of_insert, decide_True by done.
  assert (w_wake_reason (take_turn (wait_of s h)) = Some r) as ->.
  { unfold take_turn. by destruct (enforce_turn_type =? 1). }
  by wp_steps.
Qed.

(** ** block *)
Lemma core_leaving s h rq : core s (h :: rq) (s_waitq s) None -> running s h -> leaving h s rq.
Proof using O.
  clear Hpol Htt Hclk. intros Hc Hr. destruct (core_not_in_wq _ _ _ _ _ Hc) as [Hrq Hwq].
  split_and!; [apply Hc|eapply aux_sub; [apply Hc|set_solver]|eapply core_mem; [done|set_solver]|].
  destruct Hr; auto.
Qed.

Lemma block_spec s h rq : sched_inv s (h :: rq) (Posted h) -> can_leave h false s rq ->
  h <> IdleThreadTid ->
  wpx stops (block h) (fun r s' => r = s32 (s_turnCount s) /\ turn_given false s') s.
Proof using Hpol Htt Hclk.
  intros Hinv Hcan Hid. unfold block. wp_step. eapply wp_use; [by apply getTurn_spec|]. cbn beta.
  intros [] s0 [Hinv0 ->]. set (s0 := set_waits _ s) in *. rewrite Hclk. wp_steps; [done|]. intros _.
  pose proof Hinv0 as [C0 [_ R0] I0].
  assert (Hreg : registered s0 h) by (eapply core_mem; [exact C0|set_solver]).
  wp_step. eapply wp_assert_tid; [apply C0|done|]. wp_step. eapply wp_assert_front; [exact C0|].
  wp_step. eapply wp_mono; [by apply incTurnCount_inv|]. cbn beta.
  intros r s1 (-> & [T1 T2 T3 T4 T5 T6 T7 T8] & [C1 F1 I1]).
  set (rq1 := (rq ++ tick_fired h s0) ++ returning s0 (h :: rq ++ tick_fired h s0)).
  change (tick_rq h s0 (h :: rq)) with (h :: rq1) in *.
  wp_step. eapply wp_mono; [apply (next_leave h false s1 rq1)|].
  - apply core_leaving; [done|]. apply F1.
  - destruct T4 as [O1 O2 O3 O4 O5 O6]. destruct Hcan as [[Hh [Hm|[? _]]]|(t & Ht & Hth & Hts)]; [|done|].
    + left. split; [done|left]. by eapply may_leave_same.
    + right. exists t. split_and!; [unfold rq1; set_solver|done|]. by rewrite (proj1 T3).
  - intros _. rewrite T8. set_solver.
  - intros sp Hlq. by eapply left_idle_ok.
  - cbn beta. intros [] s' Hg. by wp_steps.
Qed.

(** ** The end of a thread *)
Lemma core_set_tids s rq wq o m : core s rq wq o -> tidmap_wf m ->
  nthread m = nthread (s_tids s) -> core (set_tids m s) rq wq o.
Proof using O.
  intros [Hq [A1 A2 A3 A4 A5 A6 A7 A8 A9 A10 A11 A12 A13 A14 A15]] Hm Hn.
  split; [done|]. split; try done; simpl; rewrite Hn; done.
Qed.

Lemma thread_end_spec s h th rq strategy : sched_inv s (h :: rq) (Held h) -> running s h ->
  th <> 0 -> t_p_map (s_tids s) !! h = Some th -> h ∉ s_wakeup_tids s ->
  can_leave h true s rq -> (h = IdleThreadTid -> s_idle_done s = true) -> strategy = 0 ->
  wpx stops (putTurn h th true strategy) (fun _ s' => turn_given true s') s.
Proof using Hpol Htt Hclk.
  intros Hinv Hrun Hth Htp Hwk Hcan Hid ->. unfold putTurn. pose proof Hinv as [Hc _ Hi].
  assert (Hreg : registered s h) by (eapply core_mem; [done|set_solver]).
  wp_step. eapply wp_assert_tid; [apply Hc|done|]. wp_step. eapply wp_assert_front; [done|].
  wp_step. cbv iota. wp_step. eapply wp_mono; [by eapply signal_inv|]. cbn beta.
  set (p := pick _ _ _). intros [] s1 ([C1 _ I1] & W1 & S1 & [O1 O2 O3 O4 O5 O6] & _ & _ & F & _).
  wp_step. unfold on_tids. wp_step. eapply wp_use; [eapply zombify_spec; [apply C1|by rewrite O1]|]. cbn beta.
  intros [] m (Z1 & Z2 & _). do 2 wp_step. apply checkNonDetBound_noop.
  assert (C2 : core (set_tids m s1) (h :: rq ++ p.1) (s_waitq (set_tids m s1)) None)
    by (by apply core_set_tids).
  apply (next_leave h true (set_tids m s1) (rq ++ p.1)).
  - apply core_leaving; [done|]. unfold running.
    change (status_of (set_tids m s1)) with (status_of s1). by rewrite (proj1 S1).
  - destruct Hcan as [[Hh Hm]|(t & Ht & Hth' & Hts)].
    + left. split; [done|]. destruct Hm as [Hm|[_ Hov]].
      * left. unfold may_leave in *. simpl. by rewrite Z2, O1, O4.
      * right. split; [done|]. simpl. rewrite W1. destruct Hov as [Hov| ->]; [left|by right].
        unfold p. by rewrite Hov.
    + right. exists t. split_and!; [set_solver|done|].
      change (status_of (set_tids m s1)) with (status_of s1). by rewrite (proj1 S1).
  - intros _. change (h ∉ s_wakeup_tids s1). by rewrite F.
  - intros sp Hlq. destruct (decide (h = IdleThreadTid)) as [Hh|Hh].
    + pose proof (Hid Hh) as Hd. right. left. destruct Hlq as [_ (hp & q & ->) _ _ _].
      simpl. by rewrite O4.
    + eapply left_idle_ok; [done| |done]. unfold idle_ok in *. simpl. by rewrite Z2.
Qed.

(** ** Inter-process operations: called without the turn *)
Lemma restatus_inv s s' t st rq tok : sched_inv s rq tok -> restatus s t st s' ->
  rq_inv (s_heap s') (s_runq s') rq [] -> t ∉ s_waitq s -> t <> IdleThreadTid ->
  (running s t -> st = RUNNING_REG \/ st = RUNNING_INTER_PRO) -> sched_inv s' rq tok.
Proof using O.
  intros [C F I] Hre Hq Hwq Hid Hrun. pose proof Hre as ((hp & ->) & R1 & R2 & R3). split.
  - split; [done|]. eapply restatus_aux; [apply C|done|done].
  - assert (Hr : forall h, running s h -> running (set_runq hp (s_runq s) s) h).
    { intros h Hh. unfold running. destruct (decide (h = t)) as [->|Hne]; [|by rewrite R2].
      rewrite R1. destruct (Hrun Hh) as [->| ->]; auto. }
    destruct tok; try done; destruct F; auto.
  - eapply idle_ok_same; [done|done|done|by apply R2|done].
Qed.

Lemma interProStart_spec s rq tok t st : sched_inv s rq tok -> status_of s t = Some st ->
  st = RUNNABLE \/ st = RUNNING_REG -> t ∉ s_waitq s -> t <> IdleThreadTid ->
  wpx stops (interProStart t) (fun b s' => sched_inv s' rq tok /\
    b = bool_decide (st = RUNNING_REG) /\
    restatus s t (if b then RUNNING_INTER_PRO else INTER_PRO_STOP) s') s.
Proof using Hpol Htt Hclk.
  intros Hinv Hst Hor Hwq Hid. pose proof (si_core _ _ _ Hinv) as Hc.
  assert (Hreg : registered s t).
  { unfold status_of in Hst. unfold registered. by destruct (q_tid_map (s_runq s) !! t). }
  unfold interProStart. wp_step. eapply wp_get_my_elem; [done|done|]. intros l Hl.
  destruct (core_elem _ _ _ _ t Hc Hreg) as (l' & e & Hl' & He & Het & Hse).
  assert (l' = l) as -> by congruence.
  wp_step. eapply wp_elem_get; [done|].
  assert (Hes : e_status e = st) by congruence. rewrite Hes. case_decide as Hd.
  - rewrite Hd in *. wp_step. eapply set_status_spec; [apply Hc|done|done|].
    intros s1 Hq1 Hre. wp_steps. split_and!; [|done|done].
    eapply restatus_inv; try done. intros [Hr|Hr]; congruence.
  - destruct Hor as [|Hst2]; [done|]. rewrite Hst2. wp_step. apply wp_cassert; [done|]. wp_step.
    eapply set_status_spec; [apply Hc|done|done|].
    intros s1 Hq1 Hre. wp_steps. split_and!; [|done|done].
    eapply restatus_inv; try done. by right.
Qed.

Lemma interProEnd_spec s rq tok t : sched_inv s rq tok -> status_of s t = Some INTER_PRO_STOP ->
  t <> IdleThreadTid ->
  wpx stops (interProEnd t) (fun b s' => sched_inv s' rq tok /\ b = true /\
    restatus s t RUNNABLE s') s.
Proof using Hpol Htt Hclk.
  intros Hinv Hst Hid. pose proof (si_core _ _ _ Hinv) as Hc.
  assert (Hreg : registered s t).
  { unfold status_of in Hst. unfold registered. by destruct (q_tid_map (s_runq s) !! t). }
  assert (Hwq : t ∉ s_waitq s).
  { intros Hin. destruct (ax_wq_status _ _ _ _ (co_aux _ _ _ _ Hc) t Hin); congruence. }
  unfold interProEnd. wp_step. eapply wp_get_my_elem; [done|done|]. intros l Hl.
  destruct (core_elem _ _ _ _ t Hc Hreg) as (l' & e & Hl' & He & Het & Hse).
  assert (l' = l) as -> by congruence. wp_step. eapply wp_elem_get; [done|].
  wp_step. apply wp_cassert; [apply bool_decide_eq_true; congruence|]. wp_step.
  eapply set_status_spec; [apply Hc|done|done|].
  intros s1 Hq1 Hre. wp_steps. split_and!; [|done|done].
  eapply restatus_inv; try done. intros [Hr|Hr]; congruence.
Qed.

Lemma wakeup_inv s rq tok t : sched_inv s rq tok -> registered s t -> t ∉ s_waitq s ->
  wpx stops (wakeup t) (fun _ s' => sched_inv s' rq tok /\
    s' = set_wakeup ({[ t ]} ∪ s_wakeup_tids s) true s) s.
Proof using O.
  intros [[Hq [A1 A2 A3 A4 A5 A6 A7 A8 A9 A10 A11 A12 A13 A14 A15]] F I] Hreg Hwq.
  unfold wakeup. wp_steps. split; [|done]. split; [|done|done]. split; [done|].
  split; try done. intros t'. simpl. rewrite elem_of_union, elem_of_singleton.
  intros [->|Ht']; [done|by apply A12].
Qed.
End ops.
