(* ===== verification/SchedLife.v ===== *)
(** * Threads of the scheduler: creation, the initial state, the idle thread, fork *)
From S2P Require Import Prelude Options RunQueue RunQueueSpec RunQueueYield RunQueueLife.
From S2P Require Import TidMap NonDetSet Scheduler SchedInv SchedWake SchedNext SchedOps.

Section life.
Context `{O : Options, U : UnorderedIter, G : GlobalAddrs}.
Context (Hpol : hp_policy = false) (Htt : 0 <= enforce_turn_type <= 2)
        (Hclk : enforce_non_det_clock_bound = false).
Implicit Types (s : sched) (rq wq : list Z) (t h : Z).

(** ** Creating a thread *)

(** the run queue's part of the state with a new element for thread [t] *)
Definition with_elem (t : Z) (s : sched) : sched :=
  set_runq (Heap (<[brk (s_heap s) := new_elem t]> (cells (s_heap s))) (Pos.succ (brk (s_heap s))))
           (with_tid_map (<[t := brk (s_heap s)]> (q_tid_map (s_runq s))) (s_runq s)) s.

Lemma with_elem_status s rq t : rq_inv (s_heap s) (s_runq s) rq [] ->
  status_of (with_elem t s) t = Some RUNNABLE /\
  forall t', t' <> t -> status_of (with_elem t s) t' = status_of s t'.
Proof using Type.
  intros Hq. pose proof (inv_wf _ _ _ _ Hq) as [Hw Hb]. unfold status_of. simpl. split.
  - rewrite lookup_insert_eq. simpl. by rewrite lookup_insert_eq.
  - intros t' Ht'. rewrite lookup_insert_ne by done.
    destruct (q_tid_map (s_runq s) !! t') as [l|] eqn:E; [|done]. simpl.
    destruct (Hw _ _ E) as (_ & e & He & _). rewrite lookup_insert_ne; [done|].
    intros <-. pose proof (Hb _ (mk_is_Some _ _ He)). lia.
Qed.

Lemma core_with_elem s rq wq o m : core s rq wq o -> tidmap_wf m ->
  nthread m = nthread (s_tids s) + 1 -> nthread m <= MAX_THREAD_NUM ->
  core (with_elem (nthread (s_tids s)) (set_tids m s)) rq wq o.
Proof using O.
  clear Hpol Htt Hclk. intros Hc Hm Hn Hmax. pose proof Hc as [Hq [A1 A2 A3 A4 A5 A6 A7 A8 A9 A10 A11 A12 A13 A14 A15]].
  set (t := nthread (s_tids s)) in *. assert (Ht : ~ registered s t) by (rewrite A1; lia).
  assert (Hnone : q_tid_map (s_runq s) !! t = None) by by apply eq_None_not_Some.
  pose proof (with_elem_status (set_tids m s) rq t Hq) as [S1 S2].
  set (s' := with_elem t (set_tids m s)) in *.
  assert (Hreg : forall t', registered s' t' <-> t' = t \/ registered s t').
  { intros t'. unfold registered, s'. simpl. rewrite lookup_insert_is_Some'. naive_solver. }
  split; [apply inv_new_elem; [done|lia|done]|]. split; try done.
  - intros t'. rewrite Hreg, A1. simpl. lia.
  - simpl. lia.
  - intros t' Ht'. rewrite Hreg. right. by apply A6.
  - intros t' Ht'. rewrite S2; [by apply A7|]. intros ->. by apply Ht, A6.
  - intros t' Ht'. destruct (A12 t' Ht') as [? ?]. rewrite Hreg. auto.
Qed.

Lemma create_spec_inv {X} s h rq new_th f : sched_inv s (h :: rq) (Held h) ->
  p_t_map (s_tids s) !! new_th = None -> nthread (s_tids s) < MAX_THREAD_NUM ->
  wpx X (sched_create h new_th f) (fun tid s' =>
    tid = nthread (s_tids s) /\ sched_inv s' (h :: rq ++ [tid]) (Held h) /\
    nthread (s_tids s') = nthread (s_tids s) + 1 /\ getTid new_th (s_tids s') = tid /\
    status_of s' tid = Some RUNNABLE /\ s_waitq s' = s_waitq s /\
    (forall t, t <> tid -> status_of s' t = status_of s t) /\
    p_t_map (s_tids s') = <[new_th := tid]> (p_t_map (s_tids s)) /\
    zombies (s_tids s') = zombies (s_tids s) /\
    s_wakeup_tids s' = s_wakeup_tids s /\ s_turnCount s' = s_turnCount s /\
    forall t, wait_of s' t = wait_of s t) s.
Proof using Hpol Htt Hclk.
  intros Hinv Hnew Hmax. pose proof Hinv as [Hc [_ Hrun] Hi].
  pose proof (co_aux _ _ _ _ Hc) as Ha. set (t := nthread (s_tids s)).
  unfold sched_create. wp_step. eapply wp_assert_front; [done|]. wp_step. unfold on_tids. wp_step.
  eapply wp_use; [by eapply create_spec; [apply Ha|]|]. cbn beta. fold t.
  intros tid m (-> & M1 & M2 & M3 & M4 & M5 & _). do 3 wp_step.
  assert (Hget : getTid new_th m = t) by (unfold getTid; by rewrite M3, lookup_insert_eq).
  change (s_tids (set_tids m s)) with m. rewrite Hget.
  assert (Hc' : core (with_elem t (set_tids m s)) (h :: rq) (s_waitq s) None)
    by (apply core_with_elem; [done|done|done|lia]).
  pose proof (with_elem_status (set_tids m s) _ t (co_rq _ _ _ _ Hc)) as [S1 S2].
  assert (Hnone : q_tid_map (s_runq s) !! t = None).
  { apply eq_None_not_Some. intros Hr. apply (ax_reg _ _ _ _ Ha) in Hr. lia. }
  unfold on_runq at 1. apply wp_zoom.
  eapply wp_use; [eapply create_thd_elem_spec; [apply (co_rq _ _ _ _ Hc)| |done]|].
  { pose proof (tm_pos _ (ax_tids _ _ _ _ Ha)). lia. }
  cbn beta. intros p r (-> & -> & _). fold (with_elem t (set_tids m s)).
  set (s1 := with_elem t (set_tids m s)) in *.
  match goal with |- wpx _ _ _ ?x => change x with s1 end.
  rewrite (proj2 (Z.leb_le 0 enforce_turn_type)), Hpol by lia. wp_step.
  assert (Hreg : registered s1 t) by (unfold registered; simpl; by rewrite lookup_insert_eq).
  assert (Hnr : forall x, registered s x -> x <> t).
  { intros x Hx ->. destruct Hx. congruence. }
  eapply wp_mono; [eapply push_spec; [done|done| |]|].
  { intros Hin. by apply (Hnr t); [eapply core_mem|]. }
  { intros Hin. by apply (Hnr t); [eapply (ax_wq_reg _ _ _ _ Ha)|]. }
  cbn beta. intros [] s2 (C2 & [S3 R3] & (hp & q & ->)). wp_steps.
  split_and!; [done| |done|done|by rewrite S3|done|intros x Hx; by rewrite S3, S2|done..].
  split; [done| |].
  - split; [done|]. unfold running. rewrite S3, S2; [done|].
    apply Hnr. eapply core_mem; [done|set_solver].
  - unfold idle_ok. simpl. rewrite M2. fold t.
    destruct (decide (t = 1)) as [Ht1|Ht1].
    + do 3 right. rewrite Ht1. split; [left; set_solver|]. left. rewrite S3, <-S1. by rewrite Ht1.
    + destruct Hi as [Hi|[Hi|[Hi|[Hi1 Hi2]]]]; [by left|by right; left|done|].
      do 3 right. split; [set_solver|]. rewrite S3, S2 by (intros Heq; apply Ht1; by rewrite <-Heq).
      exact Hi2.
Qed.

Lemma join_inv s rq tok th : sched_inv s rq tok ->
  wpx stops (join th) (fun _ s' => sched_inv s' rq tok /\
    zombies (s_tids s') = zombies (s_tids s) ∖ {[ th ]}) s.
Proof using O.
  intros [C F I]. unfold join, on_tids. wp_step.
  eapply wp_use; [apply reap_wf, (ax_tids _ _ _ _ (co_aux _ _ _ _ C))|]. cbn beta.
  intros [] m (M1 & M2 & _ & _ & M3). split; [|done]. split; [by apply core_set_tids|done|].
  unfold idle_ok in *. simpl. by rewrite M3.
Qed.

(** ** The initial state *)

(** a scheduler with no thread but the main thread's id *)
Definition no_threads (s : sched) : Prop :=
  s_runq s = empty_queue /\ s_hp_runq s = empty_queue /\ s_waitq s = [] /\
  (forall l, is_Some (cells (s_heap s) !! l) -> (l < brk (s_heap s))%positive) /\
  tidmap_wf (s_tids s) /\ nthread (s_tids s) = 1 /\ 0 <= s_turnCount s < 2 ^ 32 /\
  (forall t, idle_wait (wait_of s t) /\ w_hp (wait_of s t) = false /\ turns (wait_of s t) = 0).

Lemma no_threads_core s : no_threads s -> s_wakeup_tids s = ∅ ->
  core (with_elem 0 s) [] [] None.
Proof using O.
  clear Hpol Htt Hclk. intros (E1 & E2 & E3 & E4 & E5 & E6 & E7 & E8) Hwk. split.
  - apply inv_new_elem; [|unfold MAX_THREAD_NUM; lia|by rewrite E1]. rewrite E1. split.
    + split; [done|done].
    + exists []. split; simpl; try done; constructor.
    + done.
  - split; simpl; try done; try (rewrite E6; unfold MAX_THREAD_NUM; lia).
    + intros t. unfold registered. simpl. rewrite E1, E6, lookup_insert_is_Some'. simpl.
      split; [intros [<-|[? ?]]; [lia|done]|]. intros Ht. left. lia.
    + set_solver.
    + constructor.
    + set_solver.
    + set_solver.
    + set_solver.
    + intros t _. apply E8.
    + intros t. apply E8.
    + intros t. apply E8.
    + rewrite Hwk. set_solver.
Qed.

Lemma wp_create_main s (Q : option loc -> sched -> Prop) : no_threads s ->
  Q (Some (brk (s_heap s))) (with_elem 0 s) ->
  wpx stops (on_runq (create_thd_elem MainThreadTid)) Q s.
Proof using O.
  clear Hpol Htt Hclk.
  intros (E1 & E2 & E3 & E4 & E5 & E6 & E7 & E8) HQ. unfold on_runq. apply wp_zoom.
  eapply wp_use; [eapply (create_thd_elem_spec _ _ [] []); [|unfold MAX_THREAD_NUM, MainThreadTid; lia|by rewrite E1]|].
  - rewrite E1. split; [split; [done|done]| |done]. exists []. split; simpl; try done; constructor.
  - cbn beta. intros p r (-> & -> & _). exact HQ.
Qed.

(** giving the main thread its element and the front of the queue *)
Lemma main_queued s : no_threads s -> s_wakeup_tids s = ∅ ->
  wpx stops (on_runq (q_push_back MainThreadTid)) (fun _ s' =>
    core s' [0] [] None /\ status_of s' 0 = Some RUNNABLE /\
    q_tid_map (s_runq s') !! 0 = Some (brk (s_heap s)) /\
    exists hp q, s' = set_runq hp q s) (with_elem 0 s).
Proof using O.
  clear Hpol Htt Hclk.
  intros Hn Hwk. pose proof (no_threads_core _ Hn Hwk) as Hc.
  assert (Hq : rq_inv (s_heap s) (s_runq s) [] []).
  { destruct Hn as (E1 & _ & _ & E4 & _). rewrite E1. split; [split; [done|done]| |done].
    exists []. split; simpl; try done; constructor. }
  pose proof (with_elem_status s [] 0 Hq) as [S1 _].
  unfold on_runq. apply wp_zoom.
  assert (Hl : q_tid_map (s_runq (with_elem 0 s)) !! 0 = Some (brk (s_heap s)))
    by (simpl; apply lookup_insert_eq).
  eapply wp_use; [eapply push_back_spec; [apply Hc|exact Hl|set_solver|set_solver]|].
  cbn beta. intros [] r (P1 & P2 & _).
  destruct (relinked_intro _ _ _ _ _ _ _ (co_aux _ _ _ _ Hc) P1 P2) as (C & [S R] & _); [set_solver|].
  split_and!; [done|by rewrite S|simpl; by rewrite (tch_map _ _ _ P2)|by eexists _, _].
Qed.

(** the constructor gives the turn to the main thread *)
Lemma construct_inv main_th :
  wpx stops (construct main_th) (fun _ s => sched_inv s [0] (Posted 0) /\
    nthread (s_tids s) = 1 /\ t_p_map (s_tids s) = {[ 0 := main_th ]} /\ s_waitq s = [] /\
    s_turnCount s = 0 /\ s_idle_done s = false /\ s_wakeup_tids s = ∅) blank_sched.
Proof using Hpol Htt Hclk.
  unfold construct, on_tids. do 2 wp_step.
  eapply wp_use; [by apply init_spec|]. cbn beta.
  intros me m (Hme & M1 & M2 & M3 & M4 & _). wp_step. rewrite Hme. apply wp_cassert; [done|].
  set (s := set_tids m blank_sched).
  assert (Hn : no_threads s).
  { split_and!; simpl; try done; try lia; [intros l [e He]; set_solver|].
    intros t. unfold wait_of. simpl. rewrite lookup_empty. simpl. unfold turns.
    by destruct (enforce_turn_type =? 1). }
  wp_step. apply wp_create_main; [done|]. rewrite Hpol. wp_step. apply wp_when; [done|]. intros _.
  wp_step. eapply wp_mono; [by apply (main_queued s)|]. cbn beta.
  intros [] s1 (C1 & S1 & L1 & (hp & q & ->)). set (s1 := set_runq hp q s) in *.
  assert (Hreg : registered s1 0) by by eexists.
  wp_step. eapply post_spec; [done..|]. set (s2 := give MainThreadTid s1).
  assert (C2 : core s2 [0] [] (Some 0)) by by apply core_give.
  destruct (core_elem _ _ _ _ 0 C2 Hreg) as (l & e & Hl & He & _ & _).
  assert (l = brk (s_heap s)) as -> by (change (q_tid_map (s_runq s1) !! 0 = Some l) in Hl; congruence).
  wp_step. eapply set_status_spec; [apply C2|exact Hl|exact He|].
  intros s3 Hq3 Hre. pose proof Hre as ((hp3 & ->) & R1 & R2 & R3). wp_steps.
  split_and!; try done. split; [|by split; [|left]|by do 2 right; left].
  apply core_set_wakeup. split; [done|]. eapply restatus_aux; [apply C2|done|auto].
Qed.

(** ** tryPutTurn *)

Definition queued_at (s : sched) (ts : list Z) (ls : list loc) : Prop :=
  Forall2 (fun t l => q_tid_map (s_runq s) !! t = Some l) ts ls /\ chain (cells (s_heap s)) ls.

(** the first thread of [ts] that can run *)
Definition first_runnable (s : sched) (ts : list Z) : option Z :=
  head (filter (fun t => status_of s t = Some RUNNABLE) ts).

Lemma try_loop_spec ts : forall ls fuel s rq, (length ts < fuel)%nat ->
  rq_inv (s_heap s) (s_runq s) rq [] -> queued_at s ts ls ->
  wpx stops (try_loop fuel (head ls)) (fun b s' =>
    match first_runnable s ts with
    | Some t => b = true /\ restatus s t RUNNING_REG s' /\ rq_inv (s_heap s') (s_runq s') rq []
    | None => b = false /\ s' = s
    end) s.
Proof using Type.
  clear. induction ts as [|t ts IH]; intros ls [|fuel] s rq Hf Hq [HF Hch]; cbn [length] in Hf; try lia.
  - apply Forall2_nil_inv_l in HF as ->. cbn [try_loop head]. by wp_steps.
  - apply Forall2_cons_inv_l in HF as (l & ls' & Hl & HF & ->). cbn [try_loop head].
    destruct (chain_next _ [] _ _ Hch) as (e & He & Hn). wp_step. eapply wp_elem_get; [done|].
    assert (Hse : status_of s t = Some (e_status e))
      by (unfold status_of; rewrite Hl; simpl; by rewrite He).
    unfold first_runnable. rewrite filter_cons. case_decide as Hd.
    + rewrite decide_True by congruence. simpl. wp_step.
      eapply set_status_spec; [done|done|done|]. intros s' Hq' Hre. by wp_steps.
    + rewrite decide_False by congruence. rewrite Hn. fold (first_runnable s ts).
      apply IH; [lia|done|]. split; [done|]. by apply (chain_app_r _ [l]) in Hch.
Qed.

Lemma tryPutTurn_spec s h rq wq : core s (h :: rq) wq None ->
  wpx stops (tryPutTurn h) (fun b s' =>
    match first_runnable s rq with
    | Some t => b = true /\ restatus s t RUNNING_REG s' /\
                rq_inv (s_heap s') (s_runq s') (h :: rq) []
    | None => b = false /\ s' = s
    end) s.
Proof using Hpol Htt Hclk.
  intros Hc. unfold tryPutTurn. wp_step. eapply wp_assert_nonempty; [done|done|].
  wp_step. eapply wp_assert_front; [done|]. wp_step. eapply wp_front_elem; [done|]. intros l Hl.
  pose proof (core_length _ _ _ _ Hc) as Hlen. cbn [length] in Hlen.
  pose proof (co_rq _ _ _ _ Hc) as Hq. destruct (inv_rep _ _ _ _ Hq) as [ls Hrep].
  pose proof (rep_map _ _ _ _ Hrep) as HF. apply Forall2_cons_inv_l in HF as (l' & ls' & Hl' & HF & ->).
  assert (l' = l) as -> by congruence.
  pose proof (rep_chain _ _ _ _ Hrep) as Hch. destruct (chain_next _ [] _ _ Hch) as (e & He & Hn).
  wp_step. eapply wp_elem_get; [done|]. do 2 wp_step. rewrite Hn.
  eapply try_loop_spec; [lia|done|]. split; [done|]. by apply (chain_app_r _ [l]) in Hch.
Qed.

Lemma first_runnable_in s ts t : first_runnable s ts = Some t ->
  t ∈ ts /\ status_of s t = Some RUNNABLE.
Proof using Type.
  clear. unfold first_runnable. intros Ht.
  assert (Hin : t ∈ filter (fun t => status_of s t = Some RUNNABLE) ts).
  { destruct (filter _ ts); simplify_eq/=. set_solver. }
  by apply list_elem_of_filter in Hin as [? ?].
Qed.

(** the idle thread gives the turn back; it sleeps only when another thread can run *)
Lemma idleThreadCondWait_spec s th rq : sched_inv s (IdleThreadTid :: rq) (Held IdleThreadTid) ->
  status_of s IdleThreadTid = Some RUNNING_REG -> IdleThreadTid ∉ s_wakeup_tids s ->
  wpx stops (idleThreadCondWait IdleThreadTid th) (fun _ s' => turn_given false s') s.
Proof using Hpol Htt Hclk.
  intros Hinv Hst Hwk. pose proof Hinv as [Hc [_ Hrun] Hi].
  destruct (core_not_in_wq _ _ _ _ _ Hc) as [Hrq Hwq].
  unfold idleThreadCondWait. wp_step. eapply wp_mono; [by eapply tryPutTurn_spec|]. cbn beta.
  intros b s1. destruct (first_runnable s rq) as [t|] eqn:Hfr.
  - intros (-> & Hre & Hq1). apply first_runnable_in in Hfr as [Htin Hts].
    assert (Hne : t <> IdleThreadTid) by congruence.
    pose proof Hre as ((hp & ->) & R1 & R2 & R3). set (s1 := set_runq hp _ s) in *.
    assert (C1 : core s1 (IdleThreadTid :: rq) (s_waitq s1) None).
    { split; [done|]. eapply restatus_aux; [apply Hc|done|auto]. }
    assert (Hreg : registered s1 IdleThreadTid) by (eapply core_mem; [exact C1|set_solver]).
    wp_step. apply wp_cassert; [done|]. wp_step.
    apply wp_waits_upd; [eapply registered_in_range; [apply C1|done]|]. do 3 wp_step.
    set (s2 := set_waitq _ _).
    assert (Hl : leaving IdleThreadTid s2 rq).
    { apply (block_leaving s1); [done|by rewrite R2| |done]. pose proof addr_idle_cond_pos. lia. }
    pose proof Hl as (Hql & Hal & _).
    eapply wp_assert_head; [done|]. wp_step.
    eapply wp_mono; [apply next_leave with (rq := rq); try done|].
    + right. exists t. split_and!; [done|done|].
      change (status_of s2 t) with (status_of s1 t). congruence.
    + intros sp Hlq. eapply left_idle_ok; [done| |].
      * eapply idle_ok_same; [exact Hi|done|done|by apply R2|simpl; set_solver].
      * intros _. split; [simpl; set_solver|]. rewrite <-Hst. by apply R2.
    + cbn beta. intros [] s3 (rq' & tok & [C3 F3 I3] & Ht3). wp_steps.
      exists rq', tok. split; [|done]. split; [by apply core_set_idle|done|done].
  - intros [-> ->]. eapply wp_use; [by eapply putTurn_spec|]. cbn beta.
    intros [] s' (rq' & s1 & s0 & _ & _ & _ & _ & _ & _ & _ & Hg). done.
Qed.
End life.
