(* ===== verification/SchedSys.v ===== *)
(** * Executions of the scheduler

    The threads of the program call the scheduler; an execution is a sequence of
    calls.  [run_event] runs the code of a call, [allowed] is the discipline the runtime
    follows (the @before/@after comments of record-scheduler.cpp): the operations
    between getTurn and putTurn are called by the thread that has the turn,
    interProStart, interProEnd and wakeup by any other thread at any time. *)
From S2P Require Import Prelude Options RunQueue RunQueueSpec RunQueueYield RunQueueLife.
From S2P Require Import TidMap NonDetSet Scheduler SchedInv SchedWake SchedNext SchedOps SchedLife.

Inductive event : Type :=
| EGet (t : Z)                          (* getTurn *)
| EWaitEnd (t : Z)                      (* the return of wait *)
| EInc (t : Z)                          (* incTurnCount *)
| ESignal (t chan : Z) (all : bool)     (* signal *)
| ECreate (t th func : Z)               (* create *)
| EJoin (t th : Z)                      (* join *)
| EPut (t th strategy : Z)              (* putTurn(false, strategy) *)
| EEnd (t th : Z)                       (* putTurn(true) *)
| EWait (t chan timeout : Z)            (* wait up to its getTurn *)
| EBlock (t : Z)                        (* block *)
| EIdle (th : Z)                        (* idleThreadCondWait *)
| EStart (t : Z)                        (* interProStart *)
| EStop (t : Z)                         (* interProEnd *)
| EWakeup (t : Z)                       (* wakeup *)
| EIdleDone                             (* the program sets idle_done *)
| ENonDetWait (n : Z).                  (* nonDetStart changes nNonDetWait *)

Record config : Type := Config { c_s : sched; c_tok : turn_state }.

Section system.
Context `{O : Options, U : UnorderedIter, G : GlobalAddrs}.

(** the code of an event *)
Definition run_event (e : event) : SM unit :=
  match e with
  | EGet t => getTurn t
  | EWaitEnd t => _ ← wait_end t; mret tt
  | EInc t => _ ← incTurnCount t; mret tt
  | ESignal t c all => signal t c all
  | ECreate t th f => _ ← sched_create t th f; mret tt
  | EJoin _ th => join th
  | EPut t th st => putTurn t th false st
  | EEnd t th => putTurn t th true 0
  | EWait t c n => wait_begin t c n
  | EBlock t => _ ← block t; mret tt
  | EIdle th => idleThreadCondWait IdleThreadTid th
  | EStart t => _ ← interProStart t; mret tt
  | EStop t => _ ← interProEnd t; mret tt
  | EWakeup t => wakeup t
  | EIdleDone => modify (fun s => set_idle true (s_idle_sleeping s) s)
  | ENonDetWait n => modify (set_nNonDetWait n)
  end.

(** another thread of the run queue is not blocked *)
Definition other_runnable (s : sched) (t : Z) : Prop := exists t',
  t' <> t /\ registered s t' /\
  q_in t' (RQS (s_heap s) (s_runq s)) = Ok (true, RQS (s_heap s) (s_runq s)) /\
  status_of s t' <> Some INTER_PRO_STOP.

Definition allowed (e : event) (c : config) : Prop :=
  let s := c_s c in
  match e with
  | EGet t => c_tok c = Posted t
  | EWaitEnd t => c_tok c = Posted t /\ w_wake_reason (wait_of s t) <> None
  | EInc t => c_tok c = Held t
  | ESignal t ch _ => c_tok c = Held t /\ ch <> 0
  | ECreate t th _ => c_tok c = Held t /\ p_t_map (s_tids s) !! th = None /\
                      nthread (s_tids s) < MAX_THREAD_NUM
  | EJoin t _ => c_tok c = Held t
  | EPut t _ st => c_tok c = Held t /\ status_of s t = Some RUNNING_REG /\
                   st <> PUTTURN_STRATEGY_CURRENT_ROLE
  | EEnd t th => c_tok c = Held t /\ th <> 0 /\ t_p_map (s_tids s) !! t = Some th /\
                 (t ∉ s_wakeup_tids s) /\
                 (t = IdleThreadTid -> s_idle_done s = true /\ other_runnable s t)
  | EWait t ch n => c_tok c = Held t /\ status_of s t = Some RUNNING_REG /\
                    ~ (ch = 0 /\ n = FOREVER) /\
                    if decide (t = IdleThreadTid) then other_runnable s t else may_leave s
  | EBlock t => c_tok c = Posted t /\ t <> IdleThreadTid /\ may_leave s
  | EIdle _ => c_tok c = Held IdleThreadTid /\ status_of s IdleThreadTid = Some RUNNING_REG /\
               (IdleThreadTid ∉ s_wakeup_tids s)
  | EStart t => c_tok c <> Held t /\ t <> IdleThreadTid /\ (t ∉ s_waitq s) /\
                (status_of s t = Some RUNNABLE \/ status_of s t = Some RUNNING_REG)
  | EStop t => t <> IdleThreadTid /\ status_of s t = Some INTER_PRO_STOP
  | EWakeup t => registered s t /\ t ∉ s_waitq s
  | EIdleDone | ENonDetWait _ => True
  end.

(** who has the turn after an event *)
Definition tok_after (e : event) (c : config) (s' : sched) (tok' : turn_state) : Prop :=
  match e with
  | EGet t | EWaitEnd t => tok' = Held t
  | EPut _ _ _ | EEnd _ _ | EWait _ _ _ | EBlock _ | EIdle _ =>
      match tok' with
      | Posted h => turns (wait_of s' h) = 1
      | Held _ => False
      | Over => forall t, turns (wait_of s' t) = 0
      end
  | _ => tok' = c_tok c
  end.

Inductive sys_step (c : config) (e : event) (c' : config) : Prop :=
| SysStep : allowed e c -> run_event e (c_s c) = Ok (tt, c_s c') ->
    tok_after e c (c_s c') (c_tok c') -> sys_step c e c'.

Definition initial (c : config) : Prop := exists main_th,
  construct main_th blank_sched = Ok (tt, c_s c) /\ c_tok c = Posted MainThreadTid.

Inductive reachable : config -> Prop :=
| reach_init c : initial c -> reachable c
| reach_step c e c' : reachable c -> sys_step c e c' -> reachable c'.

Definition cfg_inv (c : config) : Prop := exists rq, sched_inv (c_s c) rq (c_tok c).

Context (Hpol : hp_policy = false) (Htt : 0 <= enforce_turn_type <= 2)
        (Hclk : enforce_non_det_clock_bound = false).

Lemma held_front s rq t : sched_inv s rq (Held t) -> exists rq', rq = t :: rq'.
Proof using O. intros [_ [Hh _] _]. destruct rq; simplify_eq/=. eauto. Qed.
Lemma posted_front s rq t : sched_inv s rq (Posted t) -> exists rq', rq = t :: rq'.
Proof using O. intros [_ [Hh _] _]. destruct rq; simplify_eq/=. eauto. Qed.

Lemma other_runnable_in s t rq wq o : other_runnable s t -> core s (t :: rq) wq o ->
  exists t', t' ∈ rq /\ t' <> t /\ status_of s t' <> Some INTER_PRO_STOP.
Proof using O.
  clear Hpol Htt Hclk. intros (t' & Hne & [l Hl] & Hin & Hst) [Hq _]. exists t'.
  split_and!; [|done|done].
  rewrite (q_in_spec _ _ _ _ _ _ Hq Hl) in Hin by set_solver. injection Hin as Hin.
  apply bool_decide_eq_true in Hin. set_solver.
Qed.

(** the turn posted in a state determines the token *)
Lemma tok_unique s rq tok tok' : sched_inv s rq tok ->
  match tok with Held _ => False | _ => True end ->
  match tok' with
  | Posted h => turns (wait_of s h) = 1
  | Held _ => False
  | Over => forall t, turns (wait_of s t) = 0
  end -> tok' = tok.
Proof using O.
  intros [C _ _]. pose proof (ax_turns _ _ _ _ (co_aux _ _ _ _ C)) as Ht.
  destruct tok as [h|h|]; simpl in *; [|done|]; intros _; destruct tok' as [h'|h'|]; try done.
  - rewrite Ht. case_decide; [|done]. by simplify_eq.
  - intros Ho. specialize (Ho h). rewrite Ht, decide_True in Ho by done. done.
  - rewrite Ht. done.
Qed.

Lemma given_tok at_end s' tok' : turn_given at_end s' ->
  match tok' with
  | Posted h => turns (wait_of s' h) = 1
  | Held _ => False
  | Over => forall t, turns (wait_of s' t) = 0
  end -> exists rq, sched_inv s' rq tok'.
Proof using O.
  intros (rq & tok & Hinv & Ht) Hp. exists rq.
  assert (tok' = tok) as ->; [|done]. eapply tok_unique; [done| |done]. by destruct tok.
Qed.

(** what every allowed event does from a state that satisfies the invariant *)
Definition event_post (e : event) (c : config) (s' : sched) : Prop :=
  match e with
  | EGet t | EWaitEnd t => exists rq, sched_inv s' rq (Held t)
  | EPut _ _ _ | EWait _ _ _ | EBlock _ | EIdle _ => turn_given false s'
  | EEnd _ _ => turn_given true s'
  | _ => exists rq, sched_inv s' rq (c_tok c)
  end.

Lemma held_event_spec e c : cfg_inv c -> allowed e c ->
  match e with EInc _ | ESignal _ _ _ | ECreate _ _ _ | EJoin _ _ => True | _ => False end ->
  wpx stops (run_event e) (fun _ s' => event_post e c s') (c_s c).
Proof using Hpol Htt Hclk.
  intros [rq Hinv] Ha He. destruct e; try done; cbn [run_event event_post].
  - simpl in Ha. rewrite Ha in *. destruct (held_front _ _ _ Hinv) as [rq' ->]. wp_step.
    eapply wp_mono; [by eapply incTurnCount_inv|]. cbn beta. intros r s' (_ & _ & Hs). wp_steps. eauto.
  - destruct Ha as [Ha Hc]. rewrite Ha in *. destruct (held_front _ _ _ Hinv) as [rq' ->].
    eapply wp_mono; [by eapply signal_inv|]. cbn beta. intros [] s' (Hs & _). eauto.
  - destruct Ha as (Ha & Hn & Hm). rewrite Ha in *. destruct (held_front _ _ _ Hinv) as [rq' ->].
    wp_step. eapply wp_mono; [by eapply create_spec_inv|]. cbn beta.
    intros r s' (_ & Hs & _). wp_steps. eauto.
  - eapply wp_mono; [by eapply join_inv|]. cbn beta. intros [] s' [Hs _]. eauto.
Qed.

Lemma pass_event_spec e c : cfg_inv c -> allowed e c ->
  match e with EPut _ _ _ | EEnd _ _ | EWait _ _ _ | EBlock _ | EIdle _ => True | _ => False end ->
  wpx stops (run_event e) (fun _ s' => event_post e c s') (c_s c).
Proof using Hpol Htt Hclk.
  intros [rq Hinv] Ha He. destruct e; try done; cbn [run_event event_post].
  - destruct Ha as (Ha & Hst & Hs). rewrite Ha in *. destruct (held_front _ _ _ Hinv) as [rq' ->].
    eapply wp_use; [by eapply putTurn_spec|]. cbn beta.
    intros [] s' (r1 & s1 & s0 & _ & _ & _ & _ & _ & _ & _ & Hg). done.
  - destruct Ha as (Ha & Hth & Htp & Hwk & Hid). rewrite Ha in *.
    destruct (held_front _ _ _ Hinv) as [rq' ->].
    eapply thread_end_spec; try done; [apply Hinv| |naive_solver].
    destruct (decide (t = IdleThreadTid)) as [Ht|Ht].
    + right. destruct (Hid Ht) as [_ Ho]. destruct (other_runnable_in _ _ _ _ _ Ho (si_core _ _ _ Hinv)) as (x & ?). eauto.
    + left. split; [done|]. destruct (decide (t = MainThreadTid)) as [->|Hm].
      * right. split; [done|by right].
      * left. right. right. intros Hn. assert (Hreg : registered (c_s c) t)
          by (eapply core_mem; [apply Hinv|set_solver]).
        apply (ax_reg _ _ _ _ (co_aux _ _ _ _ (si_core _ _ _ Hinv))) in Hreg.
        unfold MainThreadTid in Hm. lia.
  - destruct Ha as (Ha & Hst & Hc & Hl). rewrite Ha in *. destruct (held_front _ _ _ Hinv) as [rq' ->].
    eapply wait_begin_spec; try done. case_decide as Ht.
    + right. destruct (other_runnable_in _ _ _ _ _ Hl (si_core _ _ _ Hinv)) as (x & ?). eauto.
    + left. auto.
  - destruct Ha as (Ha & Hid & Hl). rewrite Ha in *. destruct (posted_front _ _ _ Hinv) as [rq' ->].
    wp_step. eapply wp_mono; [eapply block_spec; try done; left; auto|]. cbn beta.
    intros r s' [_ Hg]. by wp_steps.
  - destruct Ha as (Ha & Hst & Hwk). rewrite Ha in *. destruct (held_front _ _ _ Hinv) as [rq' ->].
    by eapply idleThreadCondWait_spec.
Qed.

Lemma event_spec e c : cfg_inv c -> allowed e c ->
  wpx stops (run_event e) (fun _ s' => event_post e c s') (c_s c).
Proof using Hpol Htt Hclk.
  intros Hci Ha. pose proof Hci as [rq Hinv].
  destruct e; try (by apply held_event_spec); try (by apply pass_event_spec);
    cbn [run_event event_post]; simpl in Ha.
  - rewrite Ha in *. eapply wp_use; [by eapply getTurn_spec|]. cbn beta. intros [] s' [Hs _]. eauto.
  - destruct Ha as [Ha Hr]. rewrite Ha in *.
    destruct (w_wake_reason (wait_of (c_s c) t)) as [r|] eqn:Hw; [|done]. wp_step.
    eapply wp_use; [by eapply wait_end_spec|]. cbn beta. intros v s' [_ Hs]. wp_steps. eauto.
  - destruct Ha as (Hne & Hid & Hwq & Hst).
    assert (exists st, status_of (c_s c) t = Some st /\ (st = RUNNABLE \/ st = RUNNING_REG)) as (st & H1 & H2)
      by (destruct Hst; eauto).
    wp_step. eapply wp_mono; [by eapply interProStart_spec|]. cbn beta.
    intros b s' [Hs _]. wp_steps. eauto.
  - destruct Ha as [Hid Hst]. wp_step. eapply wp_mono; [by eapply interProEnd_spec|]. cbn beta.
    intros b s' [Hs _]. wp_steps. eauto.
  - destruct Ha as [Hr Hw]. eapply wp_mono; [by eapply wakeup_inv|]. cbn beta. intros [] s' [Hs _]. eauto.
  - wp_steps. exists rq. destruct Hinv as [C F I]. split; [by apply core_set_idle|done|by right; left].
  - wp_steps. exists rq. destruct Hinv as [[Hq []] F I]. split; [split; [done|by split]|done|done].
Qed.

Lemma step_inv c e c' : cfg_inv c -> sys_step c e c' -> cfg_inv c'.
Proof using Hpol Htt Hclk.
  intros Hinv [Ha Hrun Htok]. pose proof (event_spec e c Hinv Ha) as Hspec.
  unfold wpx in Hspec. rewrite Hrun in Hspec. unfold cfg_inv.
  destruct e; cbn [event_post tok_after] in *; try (by rewrite Htok); try (by eapply given_tok).
Qed.

Lemma reachable_inv c : reachable c -> cfg_inv c.
Proof using Hpol Htt Hclk.
  intros Hr. induction Hr as [c (th & Hc & Ht)|c e c' _ IH Hs]; [|by eapply step_inv].
  pose proof (construct_inv Hpol Htt Hclk th) as Hspec. unfold wpx in Hspec. rewrite Hc in Hspec.
  destruct Hspec as [Hs _]. exists [0]. by rewrite Ht.
Qed.
End system.
