(* ===== verification/SchedRun.v ===== *)
(** * Executable runs of the scheduler, for concrete executions

    [run_all] runs a list of calls, checking with [allowedb] that each one is allowed;
    a run that passes the checks leads to a reachable configuration. *)
From S2P Require Import Prelude Options RunQueue RunQueueSpec TidMap NonDetSet Scheduler.
From S2P Require Import SchedInv SchedWake SchedNext SchedOps SchedLife SchedSys.

(** the options of default.options, with assertions enabled and the clock logged *)
Definition rr_sample (idle : Z) : Options := {|
  ndebug := false; scheduling_policy := 0; enforce_turn_type := 2; launch_idle_thread := idle;
  enforce_non_det_annotations := 0; enforce_no_wait_non_det_annotations := 0;
  enforce_next_n_annotations := false; enforce_ext_turn := false; enforce_dummy_sync := false;
  enforce_non_det_clock_bound := false; non_det_clock_bound := 1000; wakeamap_plus := false;
  high_priority_yield := false; nanosec_per_turn := 3000; log_sync := true;
  generate_per_sync_stats := false; record_runtime_stat := false;
  rr_ignore_rw_regular_file := true; enforce_delays := false; log_task_time := 0;
  non_det_for_single_thread := 0; exec_sleep := false;
  non_block_recv := false; set_mutex_errorcheck := false; DMT := true; enforce_annotations := true;
  disable_soba := false; dync_geteip := false; whole_stack_eip_signature := false; backtrace_level := 0 |}.
Definition sample_options : Options := rr_sample 2.
Definition sample_addrs : GlobalAddrs := {|
  addr_nonDetCV := 4096; addr_idle_cond := 8192;
  addr_nonDetCV_pos := eq_refl; addr_idle_cond_pos := eq_refl;
  addr_distinct := ltac:(discriminate) |}.

Section run.
Context `{O : Options, U : UnorderedIter, G : GlobalAddrs}.

(** the thread to which the turn is posted *)
Definition find_posted (s : sched) : turn_state :=
  match filter (fun t => turns (wait_of s t) = 1) (seqZ 0 (nthread (s_tids s))) with
  | t :: _ => Posted t
  | [] => Over
  end.

Definition allowedb (e : event) (c : config) : bool :=
  let s := c_s c in
  match e with
  | EGet t => bool_decide (c_tok c = Posted t)
  | EInc t => bool_decide (c_tok c = Held t)
  | ESignal t ch _ => bool_decide (c_tok c = Held t) && negb (ch =? 0)
  | ECreate t th _ => bool_decide (c_tok c = Held t) && bool_decide (p_t_map (s_tids s) !! th = None) &&
                      (nthread (s_tids s) <? MAX_THREAD_NUM)
  | EPut t _ st => bool_decide (c_tok c = Held t) && bool_decide (status_of s t = Some RUNNING_REG) &&
                   negb (st =? PUTTURN_STRATEGY_CURRENT_ROLE)
  | EWait t ch n => bool_decide (c_tok c = Held t) && bool_decide (status_of s t = Some RUNNING_REG) &&
                    negb (ch =? 0) && negb (t =? IdleThreadTid) && negb (nthread (s_tids s) =? 1)
  | EStart t => bool_decide (c_tok c <> Held t) && negb (t =? IdleThreadTid) &&
                bool_decide (t ∉ s_waitq s) && bool_decide (status_of s t = Some RUNNABLE)
  | _ => false
  end.

Lemma allowedb_sound e c : allowedb e c = true -> allowed e c.
Proof using Type.
  unfold allowedb, allowed. destruct e; try done; rewrite ?andb_true_iff, ?bool_decide_eq_true.
  - done.
  - done.
  - intros [? ?]. split; [done|lia].
  - intros [[? ?] ?]. split_and!; [done|done|lia].
  - intros [[? ?] ?]. split_and!; [done|done|lia].
  - intros [[[[? ?] ?] ?] ?]. split_and!; [done|done|lia|].
    rewrite decide_False by lia. do 2 right. lia.
  - intros [[[? ?] ?] ?]. split_and!; [done|lia|done|by left].
Qed.

Definition next_tok (e : event) (c : config) (s' : sched) : turn_state :=
  match e with
  | EGet t => Held t
  | EPut _ _ _ | EWait _ _ _ => find_posted s'
  | _ => c_tok c
  end.

Definition run_one (e : event) (c : config) : option config :=
  if allowedb e c then
    match run_event e (c_s c) with
    | Ok (_, s') =>
        let tok := next_tok e c s' in
        if bool_decide (tok = Over) then None else Some (Config s' tok)
    | Err _ => None
    end
  else None.

Fixpoint run_all (es : list event) (c : config) : option config :=
  match es with
  | [] => Some c
  | e :: es' => run_one e c ≫= run_all es'
  end.

Definition run_from_start (main_th : Z) (es : list event) : option config :=
  match construct main_th blank_sched with
  | Ok (_, s) => run_all es (Config s (Posted MainThreadTid))
  | Err _ => None
  end.

Lemma find_posted_spec s h : find_posted s = Posted h -> turns (wait_of s h) = 1.
Proof using Type.
  unfold find_posted. destruct (filter _ _) as [|t l] eqn:E; [done|]. intros [= <-].
  assert (Hin : t ∈ filter (fun t => turns (wait_of s t) = 1) (seqZ 0 (nthread (s_tids s))))
    by (rewrite E; set_solver).
  by apply list_elem_of_filter in Hin as [? _].
Qed.

Lemma run_one_step e c c' : run_one e c = Some c' -> sys_step c e c'.
Proof using Type.
  unfold run_one. destruct (allowedb e c) eqn:Ha; [|done].
  destruct (run_event e (c_s c)) as [[[] s']|] eqn:Hr; [|done].
  case_bool_decide as Ho; [done|]. intros [= <-]. split; [by apply allowedb_sound|done|]. simpl.
  destruct e; simpl in *; try done;
    destruct (find_posted s') as [h|h|] eqn:Hf; try done; try (by apply find_posted_spec);
    unfold find_posted in Hf; by destruct (filter _ _).
Qed.

Lemma run_all_reachable es : forall c c', reachable c -> run_all es c = Some c' -> reachable c'.
Proof using Type.
  induction es as [|e es IH]; intros c c' Hr; simpl; [by intros [= <-]|].
  intros (c1 & H1 & H2)%bind_Some. eapply IH; [|done].
  eapply reach_step; [done|by apply run_one_step].
Qed.

Lemma run_from_start_reachable th es c : run_from_start th es = Some c -> reachable c.
Proof using Type.
  unfold run_from_start. destruct (construct th blank_sched) as [[[] s]|] eqn:Hc; [|done].
  apply run_all_reachable, reach_init. by exists th.
Qed.
End run.

Definition dummy_config : config := Config blank_sched Over.
Definition cfg_of (es : list event) : config := default dummy_config
  (@run_from_start sample_options elements_order sample_addrs 1000 es).

Lemma cfg_of_reachable es :
  bool_decide (is_Some (@run_from_start sample_options elements_order sample_addrs 1000 es)) = true ->
  @reachable sample_options elements_order sample_addrs (cfg_of es).
Proof.
  intros [c Hc]%bool_decide_eq_true. unfold cfg_of. rewrite Hc. by eapply run_from_start_reachable.
Qed.

(** main has created three threads and passed the turn on *)
Definition start_events : list event :=
  [EGet 0; ECreate 0 1001 1; ECreate 0 1002 2; ECreate 0 1003 2; EInc 0; EPut 0 1000 0].
(** thread 2 waits on a channel, for ever or for a turn, and thread 3 holds the turn *)
Definition wait_events (timeout : Z) : list event :=
  start_events ++ [EGet 1; EInc 1; EPut 1 1001 0; EGet 2; EWait 2 77 timeout; EGet 3].
(** thread 3 signals the channel, and the turn comes to thread 2 *)
Definition signal_events : list event :=
  wait_events FOREVER ++ [ESignal 3 77 false; EInc 3; EPut 3 1003 0; EGet 0; EPut 0 1000 0;
                          EGet 1; EPut 1 1001 0].
