(* ===== verification/SchedThms.v ===== *)
(** * Properties of the scheduler *)
From S2P Require Import Prelude Options RunQueue RunQueueSpec RunQueueYield TidMap NonDetSet Scheduler.
From S2P Require Import SchedInv SchedWake SchedNext SchedOps SchedLife SchedSys SchedRun.

(** ** Helper lemmas *)
Section helpers.
Context `{O : Options, U : UnorderedIter, G : GlobalAddrs}.

Lemma iter_loop_spec ts : forall ls fuel s rq, (length ts < fuel)%nat ->
  rq_inv (s_heap s) (s_runq s) rq [] -> queued_at s ts ls ->
  iter_loop fuel (head ls) s = Ok (ts, s).
Proof using Type.
  induction ts as [|t ts IH]; intros ls [|fuel] s rq Hf Hq [HF Hch]; cbn [length] in Hf; try lia.
  - by apply Forall2_nil_inv_l in HF as ->.
  - apply Forall2_cons_inv_l in HF as (l & ls' & Hl & HF & ->). cbn [iter_loop head].
    destruct (chain_next _ [] _ _ Hch) as (e & He & Hn).
    destruct (wf_map _ _ (inv_wf _ _ _ _ Hq) _ _ Hl) as (_ & e' & He' & Het).
    assert (e' = e) as -> by congruence.
    unfold mbind, M_bind, elem_get, on_runq, zoom, load. simpl. rewrite He. simpl.
    replace (set_runq (s_heap s) (s_runq s) s) with s by (by destruct s).
    rewrite Hn, (IH ls' fuel s rq); [by rewrite Het|lia|done|].
    split; [done|]. by apply (chain_app_r _ [l]) in Hch.
Qed.

Lemma runq_list_spec s rq wq o : core s rq wq o -> runq_list s = Ok (rq, s).
Proof using O.
  intros Hc. pose proof (core_length _ _ _ _ Hc) as Hlen.
  pose proof (co_rq _ _ _ _ Hc) as Hq. destruct (inv_rep _ _ _ _ Hq) as [ls Hrep].
  unfold runq_list, mbind, M_bind, on_runq, zoom, q_front_elem, gets. simpl.
  replace (set_runq (s_heap s) (s_runq s) s) with s by (by destruct s).
  rewrite (rep_head _ _ _ _ Hrep). apply (iter_loop_spec rq ls (S (size (cells (s_heap s)))) s rq); [lia|done|].
  split; [apply Hrep|apply Hrep].
Qed.

Lemma check_tids_spec n l : forall X, NoDup l -> Forall (fun t => 0 <= t < n) l ->
  (forall t, t ∈ l -> t ∉ X) ->
  check_tids l n X = Some (list_to_set l ∪ X).
Proof using Type.
  clear. induction l as [|t l IH]; intros X Hnd Hb HX; simpl; [f_equal; set_solver|].
  apply NoDup_cons in Hnd as [Ht Hnd]. apply Forall_cons in Hb as [Hb0 Hb].
  replace ((t <? 0) || (n <? t)) with false by (symmetry; lia).
  rewrite bool_decide_false by (apply HX; set_solver). rewrite IH; [f_equal; set_solver|done|done|].
  intros x Hx. rewrite elem_of_union, elem_of_singleton. intros [->|Hx']; [done|].
  apply (HX x); set_solver.
Qed.

Lemma selfcheck_core s rq o : core s rq (s_waitq s) o -> selfcheck s = Ok (true, s).
Proof using O.
  intros Hc. pose proof (co_aux _ _ _ _ Hc) as Ha. unfold selfcheck, mbind, M_bind.
  rewrite (runq_list_spec _ _ _ _ Hc). unfold get, mret, M_ret. do 2 f_equal.
  assert (Hr : forall l, (forall t, t ∈ l -> registered s t) ->
                 Forall (fun t => 0 <= t < nthread (s_tids s)) l).
  { intros l Hl. apply Forall_forall. intros t Ht. by apply (ax_reg _ _ _ _ Ha), Hl. }
  rewrite check_tids_spec; [|by eapply core_nodup|apply Hr; intros t; by eapply core_mem|set_solver].
  simpl. rewrite check_tids_spec; [|apply Ha|apply Hr, Ha|].
  2:{ intros t Ht. rewrite elem_of_union, elem_of_list_to_set. intros [Ht'|]; [|set_solver].
      by apply (ax_rq _ _ _ _ Ha t Ht'). }
  apply andb_true_iff. split; apply forallb_forall; intros t Ht%list_elem_of_In.
  - destruct (ax_out_wait _ _ _ _ Ha t) as [-> ->]; [by apply (ax_rq _ _ _ _ Ha)|]. by rewrite Z.eqb_refl.
  - pose proof (ax_wq_wait _ _ _ _ Ha t Ht) as Hw. unfold idle_wait in Hw.
    apply negb_true_iff, andb_false_iff. rewrite !Z.eqb_neq.
    destruct (decide (w_chan (wait_of s t) = 0)); [right|left]; naive_solver.
Qed.

(** the fields of a wait_t but the turns it has been given *)
Definition same_wait (w w' : wait_t) : Prop :=
  w_chan w' = w_chan w /\ w_timeout w' = w_timeout w /\ w_wake_reason w' = w_wake_reason w.
Lemma same_wait_give w : same_wait w (give_turn w).
Proof using Type. unfold same_wait, give_turn. by destruct (enforce_turn_type =? 1). Qed.
Lemma same_wait_take w : same_wait w (take_turn w).
Proof using Type. unfold same_wait, take_turn. by destruct (enforce_turn_type =? 1). Qed.
Lemma same_wait_insert f s t t' : (forall w, same_wait w (f w)) ->
  same_wait (wait_of s t') (wait_of (set_waits (<[t := f (wait_of s t)]> (s_waits s)) s) t').
Proof using Type. intros Hf. rewrite wait_of_insert. case_decide as Ht; [subst; apply Hf|done]. Qed.

Lemma handed_pass self at_end s rq s' t rest : handed self at_end s rq s' ->
  core s rq (s_waitq s) None ->
  skip_stopped s rq = t :: rest ->
  enforce_non_det_annotations = 0 \/ self <> IdleThreadTid ->
  core s' (t :: rest) (s_waitq s) (Some t) /\ s_waitq s' = s_waitq s /\ turn_passed s t s' /\
  s_wakeup_tids s' = s_wakeup_tids s /\ s_turnCount s' = s_turnCount s /\
  s_tids s' = s_tids s /\ forall t', same_wait (wait_of s t') (wait_of s' t').
Proof using Type.
  intros Hh Hc Hsk Hnd.
  assert (Hgo : forall r s1, next_result self at_end s rq r s1 ->
    r = t /\ core s1 (t :: rest) (s_waitq s) None /\ s_waitq s1 = s_waitq s /\ turn_passed s t s1 /\
    s_wakeup_tids s1 = s_wakeup_tids s /\ s_turnCount s1 = s_turnCount s /\ s_tids s1 = s_tids s /\
    forall t', wait_of s1 t' = wait_of s t').
  { intros r s1 Hres. inversion Hres as [t' rest' extra ? R1 R2 R3 R4 R5 R6 R7 R8 R9 R10| |];
      subst; [|congruence..]. rewrite Hsk in R1. injection R1 as -> ->.
    destruct (R9 Hnd) as [-> Hw]. rewrite app_nil_r in R2.
    split_and!; [done|by rewrite <-Hw|done..|apply R4|].
    intros t'. rewrite R8, decide_False; [done|set_solver]. }
  destruct Hh as [r s1 Hres Hne ->|Hres].
  - destruct (Hgo _ _ Hres) as (-> & C & W & S & K & T & I & Hw). split_and!; try done; [by apply core_give|].
    intros t'. rewrite <-Hw. apply (same_wait_insert give_turn), same_wait_give.
  - destruct (Hgo _ _ Hres) as (<- & C & _).
    assert (Hreg : registered s' InvalidTid) by (eapply core_mem; [done|set_solver]).
    pose proof (aux_range _ _ _ _ _ (co_aux _ _ _ _ C) Hreg). unfold InvalidTid in *. lia.
Qed.

Lemma returning_none s rq : s_wakeup_tids s = ∅ -> returning s rq = [].
Proof using Type.
  intros Hw. unfold returning. rewrite Hw. pose proof (set_order_perm ∅) as Hp.
  rewrite elements_empty in Hp. apply Permutation_nil_r in Hp. by rewrite Hp.
Qed.

(** one putTurn(0): the queue rotates *)
Lemma put_passes s t th q x rest :
  hp_policy = false -> 0 <= enforce_turn_type <= 2 -> enforce_non_det_clock_bound = false ->
  sched_inv s (t :: q) (Held t) -> status_of s t = Some RUNNING_REG -> q ++ [t] = x :: rest ->
  x = t \/ status_of s x <> Some INTER_PRO_STOP -> s_wakeup_tids s = ∅ ->
  enforce_non_det_annotations = 0 \/ t <> IdleThreadTid ->
  wp (putTurn t th false 0) (fun _ s' =>
    sched_inv s' (x :: rest) (Posted x) /\ s_waitq s' = s_waitq s /\
    status_of s' t = Some (if decide (x = t) then RUNNING_REG else RUNNABLE) /\
    (x <> t -> exists st, status_of s x = Some st /\ status_of s' x = Some (passed_status st)) /\
    (forall t', t' <> t -> t' <> x -> status_of s' t' = status_of s t') /\
    s_wakeup_tids s' = ∅ /\ s_turnCount s' = s_turnCount s /\ s_tids s' = s_tids s /\
    forall t', same_wait (wait_of s t') (wait_of s' t')) s.
Proof using Type.
  intros Hp Ht Hk Hinv Hst Hq Hx Hw Hnd.
  eapply wp_use; [by eapply putTurn_spec|]. cbn beta.
  intros [] s' (rq' & s1 & s0 & Hrq & C1 & (hp & qq & ->) & S1 & S2 & Haw & Hh & (rq2 & tok & Hg & Htok)).
  unfold requeued in Hrq. rewrite !decide_False in Hrq by naive_solver. subst rq'.
  rewrite returning_none in Hh by done.
  destruct Haw as (s2 & (C2 & [S3 _] & (hp2 & q2 & ->)) & ->). rewrite returning_none, app_nil_r in * by done.
  assert (Hx1 : status_of (set_runq hp qq s) x <> Some INTER_PRO_STOP).
  { destruct (decide (x = t)) as [->|]; [by rewrite S1|]. rewrite S2 by done. naive_solver. }
  edestruct (handed_pass t false) as (C3 & W3 & ((st & T1 & _ & T2) & S4 & _) & K3 & N3 & I3 & V3);
    [exact Hh|by apply core_set_wakeup| |exact Hnd|].
  { rewrite Hq. simpl. rewrite decide_False; [done|].
    change (status_of (set_wakeup _ _ ?y) x) with (status_of y x). by rewrite S3. }
  rewrite Hq in *. change (status_of (set_wakeup _ _ ?y)) with (status_of y) in T1, S4. rewrite S3 in T1.
  assert (rq2 = x :: rest /\ tok = Posted x) as [-> ->].
  { split.
    - pose proof (runq_list_spec _ _ _ _ C3) as E1.
      pose proof (runq_list_spec _ _ _ _ (si_core _ _ _ Hg)) as E2. congruence.
    - symmetry. eapply tok_unique; [done|by destruct tok|].
      pose proof (ax_turns _ _ _ _ (co_aux _ _ _ _ C3) x) as Hax. by rewrite decide_True in Hax. }
  split_and!; [done|done| | | |done|done|done|exact V3].
  - case_decide as Hxt; [subst x; rewrite S1 in T1; by injection T1 as <-|].
    by rewrite S4, S3 by done.
  - intros Hxt. exists st. rewrite <-S2; done.
  - intros t' H1 H2. by rewrite S4, S3, S2 by done.
Qed.

Lemma put_rotates s t th x rest :
  hp_policy = false -> 0 <= enforce_turn_type <= 2 -> enforce_non_det_clock_bound = false ->
  sched_inv s (t :: x :: rest) (Held t) -> status_of s t = Some RUNNING_REG ->
  status_of s x <> Some INTER_PRO_STOP -> s_wakeup_tids s = ∅ ->
  enforce_non_det_annotations = 0 \/ t <> IdleThreadTid ->
  wp (putTurn t th false 0) (fun _ s' =>
    sched_inv s' (x :: rest ++ [t]) (Posted x) /\ s_waitq s' = s_waitq s /\
    status_of s' t = Some RUNNABLE /\
    (exists st, status_of s x = Some st /\ status_of s' x = Some (passed_status st)) /\
    (forall t', t' <> t -> t' <> x -> status_of s' t' = status_of s t') /\
    s_wakeup_tids s' = ∅) s.
Proof using Type.
  intros Hp Ht Hk Hinv Hst Hx Hw Hnd. pose proof (core_nodup _ _ _ _ (si_core _ _ _ Hinv)) as Hnodup.
  apply NoDup_cons in Hnodup as [Htx _]. assert (Hxt : x <> t) by set_solver.
  eapply wp_mono; [by apply (put_passes s t th (x :: rest) x (rest ++ [t])); auto|]. cbn beta.
  intros [] s' (H1 & H2 & H3 & H4 & H5 & H6 & _). rewrite decide_False in H3 by done. auto 10.
Qed.

(** one turn of the thread the turn is posted to: getTurn(); putTurn() *)
Definition turn_cycle (th : Z) : SM unit :=
  t ← on_runq q_front; getTurn t ;; putTurn t th false 0.
Fixpoint turn_cycles (n : nat) (th : Z) : SM unit :=
  match n with 0%nat => mret tt | S n' => turn_cycle th ;; turn_cycles n' th end.

(** nobody is blocked or about to block, and nobody returns *)
Definition calm (s : sched) (rq : list Z) : Prop :=
  Forall (fun t => status_of s t = Some RUNNABLE \/ status_of s t = Some RUNNING_REG) rq /\
  s_wakeup_tids s = ∅.

Lemma turn_cycle_rotates s t th x rest :
  hp_policy = false -> 0 <= enforce_turn_type <= 2 -> enforce_non_det_clock_bound = false ->
  enforce_non_det_annotations = 0 ->
  sched_inv s (t :: x :: rest) (Posted t) -> calm s (t :: x :: rest) ->
  wp (turn_cycle th) (fun _ s' => sched_inv s' (x :: rest ++ [t]) (Posted x) /\
    calm s' (x :: rest ++ [t])) s.
Proof using Type.
  intros Hp Ht Hk Hnd Hinv [Hcalm Hw]. unfold turn_cycle. wp_step.
  eapply wp_q_front; [apply Hinv|]. wp_step.
  eapply wp_use; [by apply getTurn_spec|]. cbn beta. intros [] s1 [Hinv1 ->].
  set (s1 := set_waits _ s) in *.
  assert (Hst : status_of s1 t = Some RUNNING_REG).
  { destruct (si_front _ _ _ Hinv) as [_ Hrun]. apply Forall_cons in Hcalm as [Hc _].
    change (status_of s1 t) with (status_of s t). destruct Hc, Hrun; congruence. }
  apply Forall_cons in Hcalm as [_ Hcalm]. pose proof Hcalm as Hcalm'.
  apply Forall_cons in Hcalm as [Hx Hrest].
  eapply wp_mono; [eapply (put_rotates s1 t th x rest); try done|].
  - change (status_of s1 x) with (status_of s x). destruct Hx; congruence.
  - by left.
  - cbn beta. intros [] s' (Hinv' & W & S1 & (st & S2 & S3) & S4 & K). split; [done|].
    split; [|done]. pose proof (core_nodup _ _ _ _ (si_core _ _ _ Hinv)) as Hnodup.
    apply NoDup_cons in Hnodup as [Htx Hnodup]. apply NoDup_cons in Hnodup as [Hxr _].
    apply Forall_cons. split.
    + change (status_of s1 x) with (status_of s x) in S2. rewrite S3.
      destruct Hx as [Hx|Hx]; rewrite Hx in S2; simplify_eq; auto.
    + apply Forall_app. split; [|constructor; [by left|constructor]].
      rewrite Forall_forall in Hrest. apply Forall_forall. intros y Hy.
      rewrite S4; [by apply Hrest|set_solver|set_solver].
Qed.

Lemma turn_cycles_rotate th :
  hp_policy = false -> 0 <= enforce_turn_type <= 2 -> enforce_non_det_clock_bound = false ->
  enforce_non_det_annotations = 0 ->
  forall (l1 l2 : list Z) (t : Z) (s : sched), (2 <= length (l1 ++ t :: l2))%nat ->
  sched_inv s (l1 ++ t :: l2) (Posted (hd t l1)) -> calm s (l1 ++ t :: l2) ->
  wp (turn_cycles (length l1) th) (fun _ s' => sched_inv s' (t :: l2 ++ l1) (Posted t) /\
    calm s' (t :: l2 ++ l1)) s.
Proof using Type.
  intros Hp Ht Hk Hnd l1. induction l1 as [|y l1 IH]; intros l2 t s Hlen Hinv Hc; cbn [turn_cycles length].
  { wp_steps. by rewrite app_nil_r. }
  wp_step. simpl in Hinv, Hc. destruct l1 as [|z l1].
  - simpl in *. eapply wp_mono; [by eapply turn_cycle_rotates|]. cbn beta.
    intros [] s' [Hi Hcm]. by wp_steps.
  - simpl in *. eapply wp_mono; [by eapply turn_cycle_rotates|]. cbn beta. intros [] s' [Hi Hcm].
    rewrite <-app_assoc in Hi, Hcm. simpl in Hi, Hcm.
    eapply wp_mono; [apply (IH (l2 ++ [y]) t s'); [|done|done]|].
    + rewrite length_app. cbn [length]. rewrite length_app. simpl. lia.
    + cbn beta. rewrite <-app_assoc. done.
Qed.
End helpers.

(** the options under which the invariant is proved *)
Definition rr_options `{Options} : Prop :=
  hp_policy = false /\ 0 <= enforce_turn_type <= 2 /\ enforce_non_det_clock_bound = false.

(** ** Properties *)
Section properties.
Context `{O : Options, U : UnorderedIter, G : GlobalAddrs}.


(** C4: the turn is exclusive.  In a reachable configuration getTurn returns for the
    thread the turn was posted to, which is the first thread of the run queue, and
    blocks for every other thread; while a thread holds the turn it blocks for all. *)
Theorem turn_exclusive c t : rr_options -> reachable c -> registered (c_s c) t ->
  (c_tok c = Posted t /\ (exists s', getTurn t (c_s c) = Ok (tt, s')) /\
   on_runq q_front (c_s c) = Ok (t, c_s c)) \/
  (c_tok c <> Posted t /\ getTurn t (c_s c) = Err WouldBlock).
Proof using Type.
  intros (Hp & Ht & Hk) Hr Hreg. destruct (reachable_inv Hp Ht Hk c Hr) as [rq Hinv].
  destruct (decide (c_tok c = Posted t)) as [Htok|Htok].
  - left. split; [done|]. rewrite Htok in Hinv. split.
    + destruct (wp_elim _ _ _ (getTurn_spec Hp Ht Hk _ _ _ Hinv)) as ([] & s' & Hs & _). eauto.
    + destruct (posted_front _ _ _ Hinv) as [rq' ->].
      unfold on_runq, zoom. rewrite (q_front_spec _ _ _ _ _ (co_rq _ _ _ _ (si_core _ _ _ Hinv))).
      simpl. by destruct (c_s c).
  - right. split; [done|]. eapply getTurn_blocks; try done. by destruct (c_tok c); intros [= ->].
Qed.

(** C27: RRScheduler::selfcheck never finds an error: in every reachable configuration
    the run queue and the wait queue hold valid thread ids without duplicates,
    runnable threads wait for nothing and waiting threads for something. *)
Theorem selfcheck_passes c : rr_options -> reachable c -> selfcheck (c_s c) = Ok (true, c_s c).
Proof using Type.
  intros (Hp & Ht & Hk) Hr. destruct (reachable_inv Hp Ht Hk c Hr) as [rq [C _ _]].
  by eapply selfcheck_core.
Qed.

(** Round robin.  When the thread that has the turn puts it back with strategy 0
    and the next thread [x] of the run queue is not blocked, the turn is posted to
    [x] and the thread goes to the tail: [t; x; ...] becomes [x; ...; t]. *)
Theorem put_turn_round_robin c t th x rest : rr_options -> reachable c ->
  c_tok c = Held t -> status_of (c_s c) t = Some RUNNING_REG ->
  runq_list (c_s c) = Ok (t :: x :: rest, c_s c) -> status_of (c_s c) x <> Some INTER_PRO_STOP ->
  s_wakeup_tids (c_s c) = ∅ -> enforce_non_det_annotations = 0 \/ t <> IdleThreadTid ->
  match putTurn t th false 0 (c_s c) with
  | Ok (_, s') => runq_list s' = Ok (x :: rest ++ [t], s') /\ turns (wait_of s' x) = 1 /\
                  s_waitq s' = s_waitq (c_s c) /\ status_of s' t = Some RUNNABLE
  | Err e => False
  end.
Proof using Type.
  intros (Hp & Ht & Hk) Hr Htok Hst Hrl Hx Hw Hnd.
  destruct (reachable_inv Hp Ht Hk c Hr) as [rq Hinv]. rewrite Htok in Hinv.
  rewrite (runq_list_spec _ _ _ _ (si_core _ _ _ Hinv)) in Hrl. injection Hrl as ->.
  destruct (wp_elim _ _ _ (put_rotates _ t th _ _ Hp Ht Hk Hinv Hst Hx Hw Hnd))
    as ([] & s' & -> & Hinv' & W & S & _). split_and!; [| |done|done].
  - by eapply runq_list_spec, Hinv'.
  - pose proof (ax_turns _ _ _ _ (co_aux _ _ _ _ (si_core _ _ _ Hinv')) x) as Hax.
    by rewrite decide_True in Hax.
Qed.

(** C26: fairness.  Among threads that only take and put back the turn, a thread [t] that
    has [length l1] threads before it in the run queue gets the turn after exactly
    that many turns. *)
Theorem round_robin_fair c th l1 t l2 : rr_options -> enforce_non_det_annotations = 0 ->
  reachable c -> c_tok c = Posted (hd t l1) -> runq_list (c_s c) = Ok (l1 ++ t :: l2, c_s c) ->
  l1 ++ l2 <> [] -> calm (c_s c) (l1 ++ t :: l2) ->
  exists s', turn_cycles (length l1) th (c_s c) = Ok (tt, s') /\ turns (wait_of s' t) = 1 /\
    runq_list s' = Ok (t :: l2 ++ l1, s').
Proof using Type.
  intros (Hp & Ht & Hk) Hnd Hr Htok Hrl Hne Hc.
  destruct (reachable_inv Hp Ht Hk c Hr) as [rq Hinv]. rewrite Htok in Hinv.
  rewrite (runq_list_spec _ _ _ _ (si_core _ _ _ Hinv)) in Hrl. injection Hrl as ->.
  assert (Hlen : (2 <= length (l1 ++ t :: l2))%nat).
  { rewrite length_app. simpl. destruct l1, l2; simpl; try lia. done. }
  destruct (wp_elim _ _ _ (turn_cycles_rotate th Hp Ht Hk Hnd l1 l2 t _ Hlen Hinv Hc))
    as ([] & s' & Hs & Hinv' & _).
  exists s'. split_and!; [done| |by eapply runq_list_spec, Hinv'].
  pose proof (ax_turns _ _ _ _ (co_aux _ _ _ _ (si_core _ _ _ Hinv')) t) as Hax.
  by rewrite decide_True in Hax.
Qed.

(** Signal wakes the longest waiting thread of the channel: with [x] the first thread
    of the wait queue that waits on [chan], x alone leaves the wait queue, joins the
    tail of the run queue and its wait() will report a signal. *)
Theorem signal_wakes_first c t chan l1 x l2 rq : rr_options -> reachable c -> c_tok c = Held t ->
  chan <> 0 -> s_waitq (c_s c) = l1 ++ x :: l2 ->
  Forall (fun y => w_chan (wait_of (c_s c) y) <> chan) l1 -> w_chan (wait_of (c_s c) x) = chan ->
  runq_list (c_s c) = Ok (rq, c_s c) ->
  exists s', signal t chan false (c_s c) = Ok (tt, s') /\ s_waitq s' = l1 ++ l2 /\
    runq_list s' = Ok (rq ++ [x], s') /\ w_wake_reason (wait_of s' x) = Some SIGNAL /\
    (forall y, y <> x -> wait_of s' y = wait_of (c_s c) y).
Proof using Type.
  intros (Hp & Ht & Hk) Hr Htok Hch Hwq Hl1 Hx Hrl.
  destruct (reachable_inv Hp Ht Hk c Hr) as [rq0 Hinv]. rewrite Htok in Hinv.
  rewrite (runq_list_spec _ _ _ _ (si_core _ _ _ Hinv)) in Hrl. injection Hrl as <-.
  destruct (held_front _ _ _ Hinv) as [rq' ->].
  assert (Hpick : pick (waits_on (c_s c) chan) false (s_waitq (c_s c)) = ([x], l1 ++ l2)).
  { rewrite Hwq. apply pick_first; [|by apply Z.eqb_eq].
    eapply Forall_impl; [exact Hl1|]. intros y Hy. by apply Z.eqb_neq. }
  destruct (wp_elim _ _ _ (signal_spec (X := no_error) Hp Ht _ _ _ chan false (si_core _ _ _ Hinv) Hch))
    as ([] & s' & Hs & s1 & Hm & ->).
  rewrite Hpick in *. simpl in *. exists (set_waitq (l1 ++ l2) s1).
  split_and!; [done|done| | |].
  - eapply (runq_list_spec _ _ _ None), core_set_waitq. apply (mv_core _ _ _ _ _ _ Hm).
  - change (wait_of (set_waitq _ ?y)) with (wait_of y).
    rewrite (mv_waits _ _ _ _ _ _ Hm), decide_True by set_solver. done.
  - intros y Hy. change (wait_of (set_waitq _ ?z)) with (wait_of z).
    rewrite (mv_waits _ _ _ _ _ _ Hm), decide_False by set_solver. done.
Qed.

(** Broadcast wakes exactly the threads that wait on the channel, in their order. *)
Theorem broadcast_wakes_all c t chan rq : rr_options -> reachable c -> c_tok c = Held t ->
  chan <> 0 -> runq_list (c_s c) = Ok (rq, c_s c) ->
  let on_chan y := w_chan (wait_of (c_s c) y) = chan in
  exists s', signal t chan true (c_s c) = Ok (tt, s') /\
    s_waitq s' = filter (fun y => ~ on_chan y) (s_waitq (c_s c)) /\
    runq_list s' = Ok (rq ++ filter on_chan (s_waitq (c_s c)), s') /\
    (forall y, y ∈ s_waitq (c_s c) -> on_chan y -> w_wake_reason (wait_of s' y) = Some SIGNAL).
Proof using Type.
  intros (Hp & Ht & Hk) Hr Htok Hch Hrl on_chan.
  destruct (reachable_inv Hp Ht Hk c Hr) as [rq0 Hinv]. rewrite Htok in Hinv.
  rewrite (runq_list_spec _ _ _ _ (si_core _ _ _ Hinv)) in Hrl. injection Hrl as <-.
  destruct (held_front _ _ _ Hinv) as [rq' ->].
  destruct (pick_all (waits_on (c_s c) chan) (s_waitq (c_s c))) as [Hp1 Hp2].
  assert (E1 : (pick (waits_on (c_s c) chan) true (s_waitq (c_s c))).1 =
               filter on_chan (s_waitq (c_s c))).
  { rewrite Hp1. apply list_filter_iff. intros y. unfold waits_on. by rewrite Z.eqb_eq. }
  assert (E2 : (pick (waits_on (c_s c) chan) true (s_waitq (c_s c))).2 =
               filter (fun y => ~ on_chan y) (s_waitq (c_s c))).
  { rewrite Hp2. apply list_filter_iff. intros y. unfold waits_on. by rewrite Z.eqb_neq. }
  destruct (wp_elim _ _ _ (signal_spec (X := no_error) Hp Ht _ _ _ chan true (si_core _ _ _ Hinv) Hch))
    as ([] & s' & Hs & s1 & Hm & ->).
  rewrite E1, E2 in *. eexists. split_and!; [exact Hs|done| |].
  - eapply (runq_list_spec _ _ _ None), core_set_waitq. apply (mv_core _ _ _ _ _ _ Hm).
  - intros y Hy Hc. change (wait_of (set_waitq _ ?z)) with (wait_of z).
    rewrite (mv_waits _ _ _ _ _ _ Hm), decide_True; [done|]. by apply list_elem_of_filter.
Qed.

(** A turn of the logical clock times out exactly the threads of the wait queue whose
    timeout is below the new turn count, in order; their wait() will report a
    timeout. *)
Theorem timeouts_exact c t rq : rr_options -> reachable c -> c_tok c = Held t ->
  runq_list (c_s c) = Ok (rq, c_s c) ->
  let n := s_turnCount (c_s c) in
  let late y := w_timeout (wait_of (c_s c) y) < n +u32 1 in
  exists s' back, incTurnCount t (c_s c) = Ok (n, s') /\ s_turnCount s' = n +u32 1 /\
    s_waitq s' = filter (fun y => ~ late y) (s_waitq (c_s c)) /\
    runq_list s' = Ok (rq ++ filter late (s_waitq (c_s c)) ++ back, s') /\
    (forall y, y ∈ back -> y ∈ s_wakeup_tids (c_s c)) /\
    (forall y, y ∈ s_waitq (c_s c) -> late y ->
       w_wake_reason (wait_of s' y) = Some TIMEDOUT /\ w_status (wait_of s' y) = ETIMEDOUT).
Proof using Type.
  intros (Hp & Ht & Hk) Hr Htok Hrl n late.
  destruct (reachable_inv Hp Ht Hk c Hr) as [rq0 Hinv]. rewrite Htok in Hinv.
  rewrite (runq_list_spec _ _ _ _ (si_core _ _ _ Hinv)) in Hrl. injection Hrl as <-.
  destruct (wp_elim _ _ _ (incTurnCount_spec (X := no_error) Hp Ht Hk t _ _ (si_core _ _ _ Hinv)))
    as (r & s' & Hs & -> & [T1 T2 T3 T4 T5 T6 T7 T8]).
  destruct (pick_all (expired (tick t (c_s c))) (s_waitq (c_s c))) as [Hp1 Hp2].
  assert (E1 : tick_fired t (c_s c) = filter late (s_waitq (c_s c))).
  { unfold tick_fired. rewrite Hp1. apply list_filter_iff. intros y. unfold expired, late. simpl.
    change (wait_of (tick t (c_s c)) y) with (wait_of (c_s c) y). by rewrite Z.ltb_lt. }
  assert (E2 : tick_keep t (c_s c) = filter (fun y => ~ late y) (s_waitq (c_s c))).
  { unfold tick_keep. rewrite Hp2. apply list_filter_iff. intros y. unfold expired, late. simpl.
    change (wait_of (tick t (c_s c)) y) with (wait_of (c_s c) y). by rewrite Z.ltb_ge, Z.nlt_ge. }
  unfold tick_rq in T1. rewrite E1 in *. rewrite E2 in *. rewrite <-app_assoc in T1.
  exists s', (returning (c_s c) (rq0 ++ filter late (s_waitq (c_s c)))).
  split_and!; [done|done|done| | |].
  - by eapply (runq_list_spec _ _ _ None).
  - intros y. unfold returning. rewrite list_elem_of_filter, set_order_perm, elem_of_elements. tauto.
  - intros y Hy Hl. rewrite T5, decide_True; [done|]. by apply list_elem_of_filter.
Qed.

(** wait() reports the reason of the wake-up, 0 for a signal and 1 for a timeout: it
    never returns ETIMEDOUT, which its callers compare the result with. *)
Theorem wait_reports_reason c t r : rr_options -> reachable c -> c_tok c = Posted t ->
  w_wake_reason (wait_of (c_s c) t) = Some r ->
  exists s', wait_end t (c_s c) = Ok (wake_code r, s') /\ wake_code r <> ETIMEDOUT.
Proof using Type.
  intros (Hp & Ht & Hk) Hr Htok Hw. destruct (reachable_inv Hp Ht Hk c Hr) as [rq Hinv].
  rewrite Htok in Hinv. pose proof (wait_end_spec Hp Ht Hk _ _ _ r Hinv Hw) as Hs.
  destruct (wp_elim _ _ _ Hs) as (v & s' & Hv & -> & _). exists s'. split; [done|]. by destruct r.
Qed.
End properties.

(** ** The properties at concrete configurations *)
Section witnesses.
Local Existing Instance sample_options.
Local Existing Instance elements_order.
Local Existing Instance sample_addrs.

Definition start_cfg : config := cfg_of start_events.
Definition wait_cfg : config := cfg_of (wait_events FOREVER).
Definition short_cfg : config := cfg_of (wait_events 0).
Definition signal_cfg : config := cfg_of signal_events.
Lemma start_reachable : reachable start_cfg.
Proof. by apply cfg_of_reachable; vm_compute. Qed.
Lemma wait_reachable : reachable wait_cfg.
Proof. by apply cfg_of_reachable; vm_compute. Qed.
Lemma short_reachable : reachable short_cfg.
Proof. by apply cfg_of_reachable; vm_compute. Qed.
Lemma signal_reachable : reachable signal_cfg.
Proof. by apply cfg_of_reachable; vm_compute. Qed.
Lemma sample_rr : rr_options.
Proof. by split_and!. Qed.


Lemma turn_exclusive_witness : getTurn 2 (c_s start_cfg) = Err WouldBlock.
Proof.
  destruct (turn_exclusive start_cfg 2 sample_rr start_reachable) as [[H _]|[_ H]].
  - eexists. vm_compute. reflexivity.
  - exfalso. revert H. vm_compute. congruence.
  - exact H.
Defined.

Lemma selfcheck_passes_witness : selfcheck (c_s wait_cfg) = Ok (true, c_s wait_cfg).
Proof. apply (selfcheck_passes wait_cfg sample_rr wait_reachable). Defined.

Lemma put_turn_round_robin_witness :
  match putTurn 3 1003 false 0 (c_s wait_cfg) with
  | Ok (_, s') => runq_list s' = Ok ([0; 1; 3], s') /\ turns (wait_of s' 0) = 1 /\
                  s_waitq s' = s_waitq (c_s wait_cfg) /\ status_of s' 3 = Some RUNNABLE
  | Err e => False
  end.
Proof.
  apply (put_turn_round_robin wait_cfg 3 1003 0 [1] sample_rr wait_reachable).
  - vm_compute. reflexivity.
  - vm_compute. reflexivity.
  - vm_compute. reflexivity.
  - vm_compute. congruence.
  - vm_compute. reflexivity.
  - left. reflexivity.
Defined.

Lemma round_robin_fair_witness :
  exists s', turn_cycles 2 1000 (c_s start_cfg) = Ok (tt, s') /\ turns (wait_of s' 3) = 1 /\
    runq_list s' = Ok ([3; 0; 1; 2], s').
Proof.
  apply (round_robin_fair start_cfg 1000 [1; 2] 3 [0] sample_rr eq_refl start_reachable).
  - vm_compute. reflexivity.
  - vm_compute. reflexivity.
  - discriminate.
  - split; [|vm_compute; reflexivity].
    repeat (apply Forall_cons; split; [(left + right); vm_compute; reflexivity|]). constructor.
Defined.

Lemma signal_wakes_first_witness :
  exists s', signal 3 77 false (c_s wait_cfg) = Ok (tt, s') /\ s_waitq s' = [] /\
    runq_list s' = Ok ([3; 0; 1; 2], s') /\ w_wake_reason (wait_of s' 2) = Some SIGNAL /\
    (forall y, y <> 2 -> wait_of s' y = wait_of (c_s wait_cfg) y).
Proof.
  apply (signal_wakes_first wait_cfg 3 77 [] 2 [] [3; 0; 1] sample_rr wait_reachable).
  - vm_compute. reflexivity.
  - discriminate.
  - vm_compute. reflexivity.
  - constructor.
  - vm_compute. reflexivity.
  - vm_compute. reflexivity.
Defined.

Lemma broadcast_wakes_all_witness :
  exists s', signal 3 77 true (c_s wait_cfg) = Ok (tt, s') /\
    runq_list s' = Ok ([3; 0; 1; 2], s').
Proof.
  destruct (broadcast_wakes_all wait_cfg 3 77 [3; 0; 1] sample_rr wait_reachable)
    as (s' & H1 & _ & H2 & _).
  - vm_compute. reflexivity.
  - discriminate.
  - vm_compute. reflexivity.
  - exists s'. split; [exact H1|]. rewrite H2. vm_compute. reflexivity.
Defined.

Lemma timeouts_exact_witness :
  exists s' back, incTurnCount 3 (c_s short_cfg) = Ok (s_turnCount (c_s short_cfg), s') /\
    s_waitq s' = [] /\ runq_list s' = Ok ([3; 0; 1; 2] ++ back, s').
Proof.
  destruct (timeouts_exact short_cfg 3 [3; 0; 1] sample_rr short_reachable)
    as (s' & back & H1 & _ & H2 & H3 & _).
  - vm_compute. reflexivity.
  - vm_compute. reflexivity.
  - exists s', back. split; [exact H1|]. split.
    + rewrite H2. vm_compute. reflexivity.
    + rewrite H3. vm_compute. reflexivity.
Defined.

Lemma wait_reports_reason_witness :
  exists s', wait_end 2 (c_s signal_cfg) = Ok (wake_code SIGNAL, s') /\
    wake_code SIGNAL <> ETIMEDOUT.
Proof.
  apply (wait_reports_reason signal_cfg 2 SIGNAL sample_rr signal_reachable).
  - vm_compute. reflexivity.
  - vm_compute. reflexivity.
Defined.
End witnesses.
