(* ===== verification/SchedMachine.v ===== *)
(** * The queue machine: an abstract specification of the scheduler

    With the plain round-robin options, and as long as no thread is blocked in a system
    call, the scheduler is a machine of two queues and a clock.  [qmach] is its state,
    [q_tick], [q_signal], [q_put], [q_wait], [q_create] and [q_exit] its operations;
    [represents] relates it to the state of [RRScheduler], and the lemmas [rep_...] say
    that every operation of the code does what the machine does. *)
From S2P Require Import Prelude Options RunQueue RunQueueSpec RunQueueYield TidMap NonDetSet Scheduler.
From S2P Require Import SchedInv SchedWake SchedNext SchedOps SchedLife SchedSys SchedThms.

(** a waiting thread: its channel and the turn after which it gives up *)
Record qwait : Type := QWait { qw_tid : Z; qw_chan : Z; qw_deadline : Z }.

Record qmach : Type := QMach {
  q_rq : list Z;                       (* the run queue: the first has the turn *)
  q_held : bool;                       (* ... and has taken it *)
  q_wq : list qwait;                   (* the wait queue *)
  q_reasons : gmap Z Wake_Reasons;     (* why each thread was last woken *)
  q_clock : Z;                         (* turnCount *)
  q_next : Z;                          (* the id of the next thread *)
  q_ids : gmap Z Z;                    (* the ids of the live threads, by their handles *)
  q_zombies : gset Z                   (* the handles of the threads that ended *)
}.

Definition q_tok (m : qmach) : turn_state :=
  match q_rq m with
  | h :: _ => if q_held m then Held h else Posted h
  | [] => Over
  end.

(** the queues and the clock change, the table of the threads does not *)
Definition q_sched (rq : list Z) (held : bool) (wq : list qwait) (rs : gmap Z Wake_Reasons) (k : Z)
  (m : qmach) : qmach := QMach rq held wq rs k (q_next m) (q_ids m) (q_zombies m).

(** ** The operations of the machine *)

(** the waiting threads that satisfy [p], or the first of them, and the others *)
Fixpoint q_take (p : qwait -> bool) (all : bool) (wq : list qwait) : list qwait * list qwait :=
  match wq with
  | [] => ([], [])
  | w :: wq' =>
      if p w then (if all then (w :: (q_take p all wq').1, (q_take p all wq').2) else ([w], wq'))
      else ((q_take p all wq').1, w :: (q_take p all wq').2)
  end.

Definition mark (r : Wake_Reasons) (ts : list Z) (rs : gmap Z Wake_Reasons) : gmap Z Wake_Reasons :=
  foldr (fun t rs => <[t := r]> rs) rs ts.

(** [ws] leave the wait queue for the tail of the run queue *)
Definition q_wake (r : Wake_Reasons) (taken : list qwait * list qwait) (m : qmach) : qmach :=
  q_sched (q_rq m ++ (qw_tid <$> taken.1)) (q_held m) taken.2 (mark r (qw_tid <$> taken.1) (q_reasons m))
    (q_clock m) m.

(** one turn passes: the waits whose deadline is over end *)
Definition q_tick (m : qmach) : qmach :=
  let k := q_clock m +u32 1 in
  let m' := q_wake TIMEDOUT (q_take (fun w => qw_deadline w <? k) true (q_wq m)) m in
  q_sched (q_rq m') (q_held m') (q_wq m') (q_reasons m') k m'.

Definition q_signal (c : Z) (all : bool) (m : qmach) : qmach :=
  q_wake SIGNAL (q_take (fun w => qw_chan w =? c) all (q_wq m)) m.

Definition q_get (m : qmach) : qmach := q_sched (q_rq m) true (q_wq m) (q_reasons m) (q_clock m) m.

(** the turn goes to the first of [rq]; [ws] join the wait queue *)
Definition q_pass (rq : list Z) (ws : list qwait) (m : qmach) : qmach :=
  q_sched rq false (q_wq m ++ ws) (q_reasons m) (q_clock m) m.
Definition q_put (m : qmach) : qmach :=
  match q_rq m with h :: q => q_pass (q ++ [h]) [] m | [] => m end.
Definition q_wait (c n : Z) (m : qmach) : qmach :=
  match q_rq (q_tick m) with h :: q => q_pass q [QWait h c n] (q_tick m) | [] => m end.

Definition q_create (th : Z) (m : qmach) : qmach :=
  QMach (q_rq m ++ [q_next m]) (q_held m) (q_wq m) (q_reasons m) (q_clock m) (q_next m + 1)
    (<[th := q_next m]> (q_ids m)) (q_zombies m).
Definition q_join (th : Z) (m : qmach) : qmach :=
  QMach (q_rq m) (q_held m) (q_wq m) (q_reasons m) (q_clock m) (q_next m) (q_ids m) (q_zombies m ∖ {[ th ]}).
(** the thread [th] ends: who joins it is woken *)
Definition q_exit (th : Z) (m : qmach) : qmach :=
  let m' := q_signal th false m in
  QMach (drop 1 (q_rq m')) false (q_wq m') (q_reasons m') (q_clock m') (q_next m')
    (delete th (q_ids m')) ({[ th ]} ∪ q_zombies m').

(** ** Facts about the machine *)

Lemma lookup_mark r ts rs t : mark r ts rs !! t = if decide (t ∈ ts) then Some r else rs !! t.
Proof.
  induction ts as [|t' ts IH]; [by rewrite decide_False by set_solver|]. simpl.
  destruct (decide (t' = t)) as [->|Hne]; [by rewrite lookup_insert_eq, decide_True by set_solver|].
  rewrite lookup_insert_ne, IH by done. apply decide_ext. rewrite elem_of_cons. naive_solver.
Qed.

Lemma q_take_pick p p' all wq : (forall w, w ∈ wq -> p' (qw_tid w) = p w) ->
  pick p' all (qw_tid <$> wq) = (qw_tid <$> (q_take p all wq).1, qw_tid <$> (q_take p all wq).2).
Proof.
  induction wq as [|w wq IH]; intros Hp; [done|]. cbn [fmap list_fmap pick q_take].
  rewrite Hp by by left. change (list_fmap _ _ qw_tid wq) with (qw_tid <$> wq).
  rewrite IH by (intros; apply Hp; by right). by destruct (p w), all.
Qed.

Lemma q_take_sub p all wq : (q_take p all wq).1 ⊆ wq /\ (q_take p all wq).2 ⊆ wq.
Proof.
  induction wq as [|w' wq [IH1 IH2]]; simpl; [done|]. destruct (p w'); [destruct all|]; simpl;
    split; intros w; rewrite ?elem_of_cons, ?elem_of_nil; naive_solver.
Qed.

(** ** The relation to the code *)
Section rep.
Context `{O : Options, U : UnorderedIter, G : GlobalAddrs}.

Record represents (s : sched) (m : qmach) : Prop := {
  rp_inv : sched_inv s (q_rq m) (q_tok m);
  rp_calm : calm s (q_rq m);
  rp_wq : s_waitq s = qw_tid <$> q_wq m;
  rp_wait : forall w, w ∈ q_wq m -> w_chan (wait_of s (qw_tid w)) = qw_chan w /\
                                    w_timeout (wait_of s (qw_tid w)) = qw_deadline w;
  rp_reasons : forall t, w_wake_reason (wait_of s t) = q_reasons m !! t;
  rp_clock : s_turnCount s = q_clock m;
  rp_next : nthread (s_tids s) = q_next m;
  rp_ids : p_t_map (s_tids s) = q_ids m;
  rp_zombies : zombies (s_tids s) = q_zombies m
}.

Lemma q_tok_cons h q m : q_rq m = h :: q -> q_tok m = if q_held m then Held h else Posted h.
Proof using Type. unfold q_tok. by intros ->. Qed.

Lemma rep_running s m h q : represents s m -> q_rq m = h :: q -> status_of s h = Some RUNNING_REG.
Proof using Type.
  intros Hs Hq. pose proof (si_front _ _ _ (rp_inv _ _ Hs)) as Hf. rewrite (q_tok_cons h q) in Hf by done.
  assert (Hr : running s h) by by destruct (q_held m), Hf.
  pose proof (rp_calm _ _ Hs) as [Hc _]. rewrite Hq in Hc. apply Forall_cons in Hc as [Hc _].
  destruct Hc as [Hc|Hc]; [|done]. destruct Hr; congruence.
Qed.

Lemma rep_calm_in s m t : represents s m -> t ∈ q_rq m ->
  status_of s t = Some RUNNABLE \/ status_of s t = Some RUNNING_REG.
Proof using Type. intros Hs. pose proof (rp_calm _ _ Hs) as [Hc _]. rewrite Forall_forall in Hc. apply Hc. Qed.

Lemma rep_in_range s m t : represents s m -> t ∈ q_rq m -> registered s t /\ in_range t = true.
Proof using Type.
  intros Hs Ht. pose proof (si_core _ _ _ (rp_inv _ _ Hs)) as Hc.
  assert (Hreg : registered s t) by (eapply core_mem; [exact Hc|done]).
  split; [done|]. eapply registered_in_range; [apply Hc|done].
Qed.

(** a waiting thread is not in the run queue *)
Lemma rep_wq_rq s m w : represents s m -> w ∈ q_wq m -> (qw_tid w) ∉ q_rq m.
Proof using Type.
  intros Hs Hw Hin. apply (ax_rq _ _ _ _ (co_aux _ _ _ _ (si_core _ _ _ (rp_inv _ _ Hs))) _ Hin).
  rewrite (rp_wq _ _ Hs). apply list_elem_of_fmap. by exists w.
Qed.

(** what a thread waits for stays when its [wait_t] keeps its fields *)
Lemma rep_wait_same s s' (wq : list qwait) :
  (forall w, w ∈ wq -> same_wait (wait_of s (qw_tid w)) (wait_of s' (qw_tid w))) ->
  (forall w, w ∈ wq -> w_chan (wait_of s (qw_tid w)) = qw_chan w /\ w_timeout (wait_of s (qw_tid w)) = qw_deadline w) ->
  forall w, w ∈ wq -> w_chan (wait_of s' (qw_tid w)) = qw_chan w /\ w_timeout (wait_of s' (qw_tid w)) = qw_deadline w.
Proof using Type. intros Hs Hw w Hin. destruct (Hs w Hin) as (-> & -> & _). by apply Hw. Qed.

(** waiting threads have been woken *)
Lemma rep_woken s s' m r (taken : list qwait * list qwait) (f : wait_t -> wait_t) k h q :
  represents s m -> (forall w, w_wake_reason (f w) = Some r) -> q_rq m = h :: q ->
  taken.1 ⊆ q_wq m -> taken.2 ⊆ q_wq m ->
  sched_inv s' (q_rq m ++ (qw_tid <$> taken.1)) (q_tok m) -> s_waitq s' = qw_tid <$> taken.2 ->
  same_status s s' -> s_tids s' = s_tids s -> s_turnCount s' = k ->
  s_wakeup_tids s' = ∅ ->
  (forall t, wait_of s' t = if decide (t ∈ qw_tid <$> taken.1) then f (wait_of s t) else wait_of s t) ->
  represents s' (let m' := q_wake r taken m in q_sched (q_rq m') (q_held m') (q_wq m') (q_reasons m') k m').
Proof using Type.
  intros [Hi [Hc Hwk0] Hw Hch Hr Hk H1 H2 H3] Hf Hq Hin Hsub Hi' Hw' Hst Hids Hk' Hwk Hwt.
  split; try done; cbn [q_wake q_sched q_rq q_wq q_reasons q_held q_clock q_next q_ids q_zombies];
    try congruence.
  - unfold q_tok in *. cbn. by rewrite Hq in *.
  - split; [|done]. apply Forall_app_2; apply Forall_forall; intros t Ht; rewrite (proj1 Hst).
    + rewrite Forall_forall in Hc. by apply Hc.
    + apply (ax_wq_status _ _ _ _ (co_aux _ _ _ _ (si_core _ _ _ Hi))). rewrite Hw.
      apply list_elem_of_fmap in Ht as (w & -> & Ht). apply list_elem_of_fmap_2, Hin, Ht.
  - intros w Hwin. rewrite Hwt, decide_False; [by apply Hch, Hsub|].
    intros Ht. apply (ax_rq _ _ _ _ (co_aux _ _ _ _ (si_core _ _ _ Hi')) (qw_tid w)); [set_solver|].
    rewrite Hw'. by apply list_elem_of_fmap_2.
  - intros t. rewrite Hwt, lookup_mark. case_decide; [apply Hf|apply Hr].
Qed.

Lemma fired_take s m h : represents s m ->
  let taken := q_take (fun w => qw_deadline w <? q_clock m +u32 1) true (q_wq m) in
  tick_fired h s = qw_tid <$> taken.1 /\ tick_keep h s = qw_tid <$> taken.2.
Proof using Type.
  intros Hs taken. unfold tick_fired, tick_keep. rewrite (rp_wq _ _ Hs).
  rewrite (q_take_pick (fun w => qw_deadline w <? q_clock m +u32 1)); [done|].
  intros w Hw. unfold expired. simpl. change (wait_of (tick h s) ?t) with (wait_of s t).
  by rewrite (proj2 (rp_wait _ _ Hs w Hw)), (rp_clock _ _ Hs).
Qed.

(** the options of the plain round-robin policy *)
Class PlainOptions : Prop := {
  plain_policy : scheduling_policy = 0;
  plain_turns : 0 <= enforce_turn_type <= 2;
  plain_clock : enforce_non_det_clock_bound = false;
  plain_non_det : enforce_non_det_annotations = 0;
  plain_map : wakeamap_plus = false
}.
Context {P : PlainOptions}.
Lemma plain_hp : hp_policy = false.
Proof using P. unfold hp_policy. by rewrite plain_policy. Qed.

(** ** getTurn *)
Lemma rep_get s m h q : represents s m -> q_rq m = h :: q -> q_held m = false ->
  wp (getTurn h) (fun _ s' => represents s' (q_get m)) s.
Proof using P.
  intros [Hi Hc Hw Hch Hr Hk H1 H2 H3] Hq Hh. rewrite (q_tok_cons h q), Hh in Hi by done.
  eapply wp_mono; [apply getTurn_spec; [apply plain_hp|apply plain_turns|apply plain_clock|exact Hi]|].
  cbn beta. intros [] s' [Hi' ->].
  assert (Hsame : forall t, same_wait (wait_of s t) (wait_of (set_waits (<[h := take_turn (wait_of s h)]> (s_waits s)) s) t))
    by (intros t; apply (same_wait_insert take_turn), same_wait_take).
  split; try done; cbn [q_get q_sched q_rq q_wq q_reasons].
  - unfold q_tok. cbn. by rewrite Hq in *.
  - eapply rep_wait_same; [|exact Hch]. intros w _. apply Hsame.
  - intros t. destruct (Hsame t) as (_ & _ & ->). apply Hr.
Qed.

(** every other thread blocks *)
Lemma rep_blocks s m t : represents s m -> registered s t -> q_held m = true \/ head (q_rq m) <> Some t ->
  getTurn t s = Err WouldBlock.
Proof using P.
  intros Hs Hreg Hne. eapply getTurn_blocks; [apply plain_hp|apply plain_turns|apply plain_clock|apply Hs|done|].
  unfold q_tok. destruct (q_rq m) as [|h q]; [done|]. destruct (q_held m); simpl in *; [done|].
  destruct Hne as [|Hne]; congruence.
Qed.

(** ** incTurnCount *)
Lemma rep_tick s m h q : represents s m -> q_rq m = h :: q -> q_held m = true ->
  wp (incTurnCount h) (fun r s' => r = q_clock m /\ represents s' (q_tick m)) s.
Proof using P.
  intros Hs Hq Hh. pose proof (fired_take s m h Hs) as [Hf Hkeep].
  pose proof (rp_inv _ _ Hs) as Hi. rewrite (q_tok_cons h q), Hh, Hq in Hi by done.
  eapply wp_mono; [eapply incTurnCount_inv; [apply plain_hp|apply plain_turns|apply plain_clock|exact Hi]|].
  cbn beta. intros r s' (-> & [T1 T2 T3 T4 T5 T6 T7 T8] & Hi').
  pose proof (rp_calm _ _ Hs) as [_ Hwk].
  unfold tick_rq in Hi'. rewrite Hf, returning_none, app_nil_r in Hi' by done.
  split; [apply Hs|]. eapply (rep_woken s s' m TIMEDOUT _ timed_out); try done.
  - apply q_take_sub.
  - apply q_take_sub.
  - by rewrite (q_tok_cons h q), Hq, Hh.
  - by rewrite T2.
  - apply T4.
  - by rewrite T6, (rp_clock _ _ Hs).
  - intros t. by rewrite T5, Hf.
Qed.

(** ** signal *)
Lemma rep_signal s m h q c all : represents s m -> q_rq m = h :: q -> q_held m = true -> c <> 0 ->
  wp (signal h c all) (fun _ s' => represents s' (q_signal c all m) /\ same_status s s' /\ others_same s s') s.
Proof using P.
  intros Hs Hq Hh Hne. pose proof (rp_inv _ _ Hs) as Hi. rewrite (q_tok_cons h q), Hh, Hq in Hi by done.
  eapply wp_mono; [eapply signal_inv; [apply plain_hp|apply plain_turns|apply plain_clock|exact Hi|exact Hne]|].
  cbn beta zeta. rewrite (rp_wq _ _ Hs), (q_take_pick (fun w => qw_chan w =? c)).
  2:{ intros w Hw. unfold waits_on. by rewrite (proj1 (rp_wait _ _ Hs w Hw)). }
  cbn [fst snd]. intros [] s' (Hi' & Hw' & Hst & Ho & Hk' & Hl & Hwk' & Hwt). split; [|done].
  pose proof (rp_calm _ _ Hs) as [_ Hwk].
  eapply (rep_woken s s' m SIGNAL _ signalled _ h q); try done.
  - apply q_take_sub.
  - apply q_take_sub.
  - by rewrite (q_tok_cons h q), Hq, Hh.
  - apply Ho.
  - by rewrite Hk', (rp_clock _ _ Hs).
  - by rewrite Hwk'.
Qed.

(** ** Handing on the turn *)

(** thread [h] gave up the turn, thread [x] has it *)
Record passed (h x : Z) (s s' : sched) : Prop := {
  pa_waitq : s_waitq s' = s_waitq s;
  pa_self : status_of s' h = Some (if decide (x = h) then RUNNING_REG else RUNNABLE);
  pa_head : x <> h -> exists st, status_of s x = Some st /\ status_of s' x = Some (passed_status st);
  pa_others : forall t, t <> h -> t <> x -> status_of s' t = status_of s t;
  pa_wakeup : s_wakeup_tids s' = ∅;
  pa_clock : s_turnCount s' = s_turnCount s;
  pa_tids : s_tids s' = s_tids s;
  pa_waits : forall t, same_wait (wait_of s t) (wait_of s' t)
}.

Lemma passed_calm h x s s' rq : passed h x s s' ->
  (forall t, t ∈ rq -> t <> h -> status_of s t = Some RUNNABLE \/ status_of s t = Some RUNNING_REG) ->
  calm s' rq.
Proof using Type.
  intros Hp Hc. split; [|apply Hp]. apply Forall_forall. intros t Ht.
  destruct (decide (t = h)) as [->|Hth]; [rewrite (pa_self _ _ _ _ Hp); case_decide; auto|].
  destruct (decide (t = x)) as [->|Htx]; [|rewrite (pa_others _ _ _ _ Hp) by done; auto].
  destruct (pa_head _ _ _ _ Hp Hth) as (st & E1 & E2). rewrite E2.
  destruct (Hc x Ht Hth) as [E|E]; rewrite E in E1; injection E1 as <-; auto.
Qed.

Lemma given_posted s' x rest : core s' (x :: rest) (s_waitq s') (Some x) ->
  (exists rq tok, sched_inv s' rq tok /\ match tok with Held _ => False | _ => True end) ->
  sched_inv s' (x :: rest) (Posted x).
Proof using Type.
  intros C (rq & tok & Hg & Htok).
  pose proof (runq_list_spec _ _ _ _ C) as E1. pose proof (runq_list_spec _ _ _ _ (si_core _ _ _ Hg)) as E2.
  assert (tok = Posted x) as ->; [|congruence].
  symmetry. eapply tok_unique; [done|by destruct tok|].
  pose proof (ax_turns _ _ _ _ (co_aux _ _ _ _ C) x) as Hax. by rewrite decide_True in Hax.
Qed.

(** thread [h] leaves the run queue *)
Lemma rep_left s s2 s' m h x rest ws : represents s m -> q_rq m = h :: x :: rest ->
  sched_inv s' (x :: rest) (Posted x) -> passed h x s2 s' ->
  (forall t, status_of s2 t = status_of s t) -> s_waitq s2 = qw_tid <$> (q_wq m ++ ws) ->
  (forall w, w ∈ q_wq m -> same_wait (wait_of s (qw_tid w)) (wait_of s2 (qw_tid w))) ->
  (forall w, w ∈ ws -> w_chan (wait_of s2 (qw_tid w)) = qw_chan w /\
                       w_timeout (wait_of s2 (qw_tid w)) = qw_deadline w) ->
  (forall t, w_wake_reason (wait_of s2 t) = w_wake_reason (wait_of s t)) ->
  s_turnCount s2 = s_turnCount s ->
  represents s' (QMach (x :: rest) false (q_wq m ++ ws) (q_reasons m) (q_clock m)
    (nthread (s_tids s2)) (p_t_map (s_tids s2)) (zombies (s_tids s2))).
Proof using Type.
  intros Hs Hq Hi Hp Hst Hw Hold Hnew Hr Hk. pose proof Hp as [P1 _ _ _ _ P2 P3 P4].
  split; cbn [q_rq q_wq q_reasons q_clock q_next q_ids q_zombies]; try congruence; try done.
  - apply (passed_calm h x s2); [done|]. intros t Ht _. rewrite Hst. apply (rep_calm_in s m); [done|].
    rewrite Hq. by right.
  - apply (rep_wait_same s2); [intros w _; apply P4|]. intros w [Hw1|Hw1]%elem_of_app; [|by apply Hnew].
    destruct (Hold w Hw1) as (-> & -> & _). by apply (rp_wait _ _ Hs).
  - intros t. destruct (P4 t) as (_ & _ & ->). rewrite Hr. apply (rp_reasons _ _ Hs).
  - rewrite P2, Hk. apply (rp_clock _ _ Hs).
Qed.

(** [next] of a caller that leaves the run queue, when the next thread can run *)
Lemma leave_passes at_end h s x rest : leaving h s (x :: rest) -> status_of s h = Some RUNNING_REG ->
  status_of s x <> Some INTER_PRO_STOP -> x <> h -> s_wakeup_tids s = ∅ ->
  (forall sp, left_queue h s (x :: rest) sp -> idle_ok sp (x :: rest)) ->
  wp (next h at_end false 0) (fun _ s' => sched_inv s' (x :: rest) (Posted x) /\ passed h x s s') s.
Proof using P.
  intros Hl Hst Hx Hxh Hwk Hid. pose proof plain_turns as Htt. pose proof plain_hp as Hp. pose proof plain_clock as Hk.
  unfold next. rewrite (proj2 (Z.leb_le 0 enforce_turn_type)) by lia.
  wp_step. eapply wp_mono; [by eapply leave_spec|]. cbn beta. intros [] sp Hlq.
  pose proof (Hid sp Hlq) as Hi. pose proof Hlq as [L1 (hp & q & ->) (st & L3 & L3') L4 L5].
  rewrite Hst in L3. injection L3 as <-. set (sp := set_runq hp q s) in *.
  assert (Hx1 : status_of sp x <> Some INTER_PRO_STOP) by by rewrite L4.
  eapply wp_mono; [eapply pass_on_spec; [done..|exact L1| |]|].
  - left. by rewrite L3'.
  - rewrite returning_none, app_nil_r by done. simpl. by rewrite decide_False.
  - cbn beta. intros [] s' (s0 & Haw & Hh). destruct (after_wakeup_idle Hp Htt Hk _ _ _ Haw Hi) as [C0 I0].
    destruct Haw as (s1 & (C1 & [S1 _] & (hp2 & q2 & ->)) & ->).
    rewrite returning_none, app_nil_r in * by done.
    destruct (handed_pass h at_end _ _ _ x rest Hh) as (C3 & W3 & ((st' & T1 & _ & T2) & S4 & _) & K3 & N3 & J3 & V3).
    + by apply core_set_wakeup.
    + simpl. rewrite decide_False; [done|]. change (status_of (set_wakeup _ _ ?y) x) with (status_of y x). by rewrite S1.
    + left. apply plain_non_det.
    + change (status_of (set_wakeup _ _ ?y)) with (status_of y) in T1, S4. rewrite S1, L4 in T1 by done.
      split; [apply given_posted; [by rewrite W3|]|].
      * destruct (handed_inv Hp Htt Hk _ _ _ _ _ C0 I0 Hh) as (rq & tok & Hg & Htok). exists rq, tok. by destruct tok.
      * split; try done; [by rewrite decide_False, S4, S1 by done|by intros _; exists st'|].
        intros t H1 H2. by rewrite S4, S1, L4 by done.
Qed.

(** ** putTurn *)
Lemma rep_put s m h q th : represents s m -> q_rq m = h :: q -> q_held m = true ->
  wp (putTurn h th false 0) (fun _ s' => represents s' (q_put m)) s.
Proof using P.
  intros Hs Hq Hh. pose proof (rep_running _ _ _ _ Hs Hq) as Hst. pose proof (rp_inv _ _ Hs) as Hi.
  rewrite (q_tok_cons h q), Hh, Hq in Hi by done. unfold q_put. rewrite Hq.
  destruct (q ++ [h]) as [|x rest] eqn:Hx; [by destruct q|].
  assert (Hin : forall t, t ∈ x :: rest -> t ∈ q_rq m) by (rewrite <-Hx, Hq; set_solver).
  eapply wp_mono; [eapply (put_passes s h th q x rest); try done; [apply plain_hp|apply plain_turns|apply plain_clock| | |]|].
  - destruct (decide (x = h)); [by left|right]. destruct (rep_calm_in s m x Hs); [apply Hin; set_solver|congruence..].
  - apply (rp_calm _ _ Hs).
  - left. apply plain_non_det.
  - cbn beta. intros [] s' (H1 & H2 & H3 & H4 & H5 & H6 & H7 & H8 & H9).
    pose proof Hs as [_ _ Hw Hch Hr Hk E1 E2 E3].
    split; cbn [q_pass q_sched q_rq q_wq q_reasons q_clock q_next q_ids q_zombies];
      rewrite ?app_nil_r; try congruence; try done.
    + apply (passed_calm h x s); [by split|]. intros t Ht _. by apply (rep_calm_in s m), Hin.
    + eapply rep_wait_same; [|exact Hch]. intros w _. apply H9.
    + intros t. destruct (H9 t) as (_ & _ & ->). apply Hr.
Qed.

(** ** wait *)

Lemma rep_wait_begin s m h q x rest c n : represents s m -> q_rq m = h :: q -> q_held m = true ->
  q_rq (q_tick m) = h :: x :: rest -> ~ (c = 0 /\ n = FOREVER) ->
  wp (wait_begin h c n) (fun _ s' => represents s' (q_wait c n m)) s.
Proof using P.
  intros Hs Hq Hh Hqt Hcn. unfold q_wait. rewrite Hqt.
  unfold wait_begin. wp_step. eapply wp_mono; [by eapply rep_tick|]. cbn beta. intros _ s1 [_ Hs1].
  pose proof (rep_running _ _ _ _ Hs1 Hqt) as Hst1.
  pose proof (rp_inv _ _ Hs1) as [C1 F1 I1]. rewrite (q_tok_cons h (x :: rest)), Hqt in * by done.
  change (q_held (q_tick m)) with (q_held m) in *. rewrite Hh in *. cbn [posted] in C1.
  destruct (rep_in_range s1 _ h Hs1) as [Hreg Hrange]; [rewrite Hqt; set_solver|].
  wp_step. eapply wp_assert_tid; [apply C1|done|]. wp_step. eapply wp_assert_front; [done|].
  wp_step. apply wp_waits_upd; [done|]. wp_steps; [pose proof plain_turns; lia|].
  intros _. set (s2 := set_waitq _ _).
  assert (Hl : leaving h s2 (x :: rest)).
  { apply (block_leaving s1); [done|done|done|]. rewrite (proj2 (rp_calm _ _ Hs1)). set_solver. }
  pose proof (core_nodup _ _ _ _ C1) as Hnd. apply NoDup_cons in Hnd as [Hhx Hnd].
  eapply wp_mono; [apply (leave_passes false h s2 x rest Hl Hst1)|].
  - destruct (rep_calm_in s1 _ x Hs1) as [E|E]; [rewrite Hqt; set_solver|..];
      change (status_of s2 x) with (status_of s1 x); congruence.
  - set_solver.
  - apply (rp_calm _ _ Hs1).
  - intros sp Hlq. eapply left_idle_ok; [done|eapply idle_ok_same; [exact I1|done|done|done|simpl; set_solver]|].
    intros ->. split; [simpl; set_solver|done].
  - cbn beta. intros [] s' [Hi' Hp].
    assert (Hws : forall t, wait_of s2 t = if decide (h = t) then wt_block c n (wait_of s1 h) else wait_of s1 t)
      by (intros t; apply wait_of_insert).
    eapply eq_ind; [apply (rep_left s1 s2 s' (q_tick m) h x rest [QWait h c n]); try done|].
    + change (s_waitq s1 ++ [h] = qw_tid <$> (q_wq (q_tick m) ++ [QWait h c n])).
      by rewrite fmap_app, (rp_wq _ _ Hs1).
    + intros w Hw. rewrite Hws, decide_False; [done|]. intros ->. eapply rep_wq_rq; [exact Hs1|exact Hw|].
      rewrite Hqt. by left.
    + intros w ->%list_elem_of_singleton. by rewrite Hws, decide_True.
    + intros t. rewrite Hws. case_decide; [by subst|done].
    + unfold q_pass, q_sched. f_equal; [exact (rp_next _ _ Hs1)|exact (rp_ids _ _ Hs1)|exact (rp_zombies _ _ Hs1)].
Qed.

Lemma rep_wait_end s m h q r : represents s m -> q_rq m = h :: q -> q_held m = false ->
  q_reasons m !! h = Some r -> wp (wait_end h) (fun v s' => v = wake_code r /\ represents s' (q_get m)) s.
Proof using P.
  intros Hs Hq Hh Hr. unfold wait_end. wp_step. eapply wp_mono; [by eapply rep_get|]. cbn beta.
  intros [] s' Hs'. wp_step. apply wp_waits_get; [eapply (rep_in_range s' (q_get m)); [done|]|].
  - change (q_rq (q_get m)) with (q_rq m). rewrite Hq. by left.
  - rewrite (rp_reasons _ _ Hs'). change (q_reasons (q_get m)) with (q_reasons m). rewrite Hr. by wp_steps.
Qed.

(** ** create, join and the end of a thread *)
Lemma rep_create s m h q th f : represents s m -> q_rq m = h :: q -> q_held m = true ->
  q_ids m !! th = None -> q_next m < MAX_THREAD_NUM ->
  wp (sched_create h th f) (fun tid s' => tid = q_next m /\ represents s' (q_create th m)) s.
Proof using P.
  intros Hs Hq Hh Hth Hmax. pose proof (rp_inv _ _ Hs) as Hi. rewrite (q_tok_cons h q), Hh, Hq in Hi by done.
  eapply wp_mono; [eapply create_spec_inv; [apply plain_hp|apply plain_turns|apply plain_clock|exact Hi| |]|].
  { by rewrite (rp_ids _ _ Hs). } { by rewrite (rp_next _ _ Hs). }
  cbn beta. intros tid s' (-> & Hi' & Hn & _ & Hst & Hw & Hso & Hids & Hz & Hwk & Hk & Hwt).
  pose proof (rp_calm _ _ Hs) as [Hc Hwk0]. split; [apply Hs|].
  split; cbn [q_create q_rq q_wq q_reasons q_clock q_next q_ids q_zombies].
  - unfold q_tok. cbn. by rewrite Hq, Hh, <-(rp_next _ _ Hs).
  - split; [|by rewrite Hwk]. apply Forall_app_2; [|rewrite <-(rp_next _ _ Hs); apply Forall_singleton; by left].
    rewrite Forall_forall in *. intros t Ht. rewrite Hso; [by apply Hc|]. intros ->.
    destruct (rep_in_range s m _ Hs Ht) as [Hreg _].
    apply (ax_reg _ _ _ _ (co_aux _ _ _ _ (si_core _ _ _ Hi))) in Hreg. lia.
  - rewrite Hw. apply Hs.
  - intros w Hin. rewrite Hwt. by apply (rp_wait _ _ Hs).
  - intros t. rewrite Hwt. apply (rp_reasons _ _ Hs).
  - rewrite Hk. apply Hs.
  - rewrite Hn. by rewrite (rp_next _ _ Hs).
  - by rewrite Hids, (rp_ids _ _ Hs), (rp_next _ _ Hs).
  - rewrite Hz. apply Hs.
Qed.

Lemma rep_join s m th : represents s m -> wp (join th) (fun _ s' => represents s' (q_join th m)) s.
Proof using Type.
  intros Hs. pose proof Hs as [Hi Hc Hw Hch Hr Hk H1 H2 H3]. pose proof (si_core _ _ _ Hi) as C.
  unfold join, on_tids. wp_step.
  eapply wp_use; [apply reap_wf, (ax_tids _ _ _ _ (co_aux _ _ _ _ C))|]. cbn beta.
  intros [] ids (M1 & M2 & M3 & M4 & M5).
  split; cbn [q_join q_rq q_wq q_reasons q_clock q_next q_ids q_zombies]; simpl; try done; try congruence.
  destruct Hi as [_ F I]. split; [by apply core_set_tids|done|]. unfold idle_ok in *. simpl. by rewrite M5.
Qed.

(** *** The end of the last thread of the run queue *)
Lemma nextRunnable_over self s : core s [] (s_waitq s) None -> over self true s ->
  wp (nextRunnable self true 0) (fun r s' => r = InvalidTid /\ s' = s) s.
Proof using P.
  intros Hc Hov. unfold nextRunnable. do 2 wp_step.
  assert (exists n, nextRunnable_fuel s = S n) as [n ->]
    by (unfold nextRunnable_fuel; rewrite (Nat.add_comm _ 4); by eexists).
  cbn [nextRunnable_loop]. wp_step.
  apply use_hp_false; [apply plain_hp|apply plain_turns|apply plain_clock|].
  wp_step. eapply wp_q_empty; [done|]. rewrite bool_decide_true by done.
  cbn [negb andb]. rewrite andb_false_r. wp_step. unfold runq_is_empty. do 2 wp_step.
  case_bool_decide as Hw; cbn [andb]; [by wp_steps|]. destruct Hov as [_ [?| ->]]; [done|].
  rewrite bool_decide_true by done. by wp_steps.
Qed.

Lemma leave_over h s : leaving h s [] -> status_of s h = Some RUNNING_REG -> s_wakeup_tids s = ∅ ->
  over h true s -> (forall sp, left_queue h s [] sp -> idle_ok sp []) ->
  wp (next h true false 0) (fun _ s' => sched_inv s' [] Over /\ s_waitq s' = s_waitq s /\
    s_tids s' = s_tids s /\ s_wakeup_tids s' = ∅ /\ s_turnCount s' = s_turnCount s /\
    forall t, wait_of s' t = wait_of s t) s.
Proof using P.
  intros Hl Hst Hwk Hov Hid. pose proof plain_turns as Htt. pose proof plain_hp as Hp. pose proof plain_clock as Hk.
  unfold next. rewrite (proj2 (Z.leb_le 0 enforce_turn_type)) by lia.
  wp_step. eapply wp_mono; [by eapply leave_spec|]. cbn beta. intros [] sp Hlq.
  pose proof (Hid sp Hlq) as Hi. pose proof Hlq as [L1 (hp & q & ->) _ _ _]. set (sp := set_runq hp q s) in *.
  wp_step. eapply wp_mono; [by apply check_wakeup_spec|]. cbn beta. intros [] s0 (s1 & Hrel & ->).
  assert (Haw : after_wakeup sp [] (set_wakeup ∅ false s1)) by by exists s1.
  destruct (after_wakeup_idle Hp Htt Hk _ _ _ Haw Hi) as [C0 I0].
  destruct Hrel as (C1 & [S1 _] & (hp2 & q2 & ->)). rewrite returning_none in * by done. cbn [app] in *.
  wp_step. eapply wp_mono; [by apply nextRunnable_over|]. cbn beta. intros r s' [-> ->]. simpl.
  by split_and!.
Qed.

(** what is left of the thread that ends is its place at the front *)
Lemma rep_ending s m h q th (Q : unit -> sched -> Prop) : represents s m -> q_rq m = h :: q -> q_held m = true ->
  th <> 0 -> q_ids m !! th = Some h -> (h = IdleThreadTid -> launch_idle_thread = 0) ->
  (forall s1 s2 rest, let m1 := q_signal th false m in represents s1 m1 -> q_rq m1 = h :: rest ->
    s2 = set_tids (s_tids s2) s1 -> leaving h s2 rest -> h ∉ rest -> status_of s2 h = Some RUNNING_REG ->
    nthread (s_tids s2) = q_next m1 -> p_t_map (s_tids s2) = delete th (q_ids m1) ->
    zombies (s_tids s2) = {[ th ]} ∪ q_zombies m1 ->
    (forall sp, left_queue h s2 rest sp -> idle_ok sp rest) ->
    wp (next h true false 0) Q s2) ->
  wp (putTurn h th true 0) Q s.
Proof using P.
  intros Hs Hq Hh Hth Hid Hne HQ. unfold putTurn. destruct (rep_in_range s m h Hs) as [Hreg Hrange]; [rewrite Hq; by left|].
  pose proof (rp_inv _ _ Hs) as Hi. rewrite (q_tok_cons h q), Hh, Hq in Hi by done.
  wp_step. eapply wp_assert_tid; [apply Hi|done|]. wp_step. eapply wp_assert_front; [apply Hi|].
  wp_step. cbv iota. wp_step. eapply wp_mono; [by eapply rep_signal|]. cbn beta. intros [] s1 (Hs1 & S1 & O1).
  cbv zeta in HQ. set (m1 := q_signal th false m) in *.
  assert (exists rest, q_rq m1 = h :: rest) as [rest Hqs] by (simpl; rewrite Hq; eauto).
  pose proof (rep_running _ _ _ _ Hs1 Hqs) as Hst1.
  pose proof (rp_inv _ _ Hs1) as [C1 F1 I1]. rewrite (q_tok_cons h rest), Hqs in * by done.
  change (q_held m1) with (q_held m) in *. rewrite Hh in *. cbn [posted] in C1.
  pose proof (ax_tids _ _ _ _ (co_aux _ _ _ _ C1)) as Hwf.
  assert (Hpt : t_p_map (s_tids s1) !! h = Some th) by by (apply (tm_bij _ Hwf); rewrite (rp_ids _ _ Hs1)).
  wp_step. unfold on_tids. wp_step. eapply wp_use; [by eapply zombify_spec|]. cbn beta.
  intros [] ids (Z1 & Z2 & Z3 & Z4 & Z5 & Z6). do 2 wp_step.
  apply checkNonDetBound_noop; [apply plain_hp|apply plain_turns|apply plain_clock|].
  assert (C2 : core (set_tids ids s1) (h :: rest) (s_waitq s1) None) by by apply core_set_tids.
  pose proof (core_nodup _ _ _ _ C1) as Hnd. apply NoDup_cons in Hnd as [Hhx Hnd].
  apply (HQ s1 (set_tids ids s1) rest); try done.
  - apply core_leaving; [done|by left].
  - cbn [set_tids s_tids]. by rewrite Z2, (rp_next _ _ Hs1).
  - cbn [set_tids s_tids]. by rewrite Z3, (rp_ids _ _ Hs1).
  - cbn [set_tids s_tids]. by rewrite Z5, (rp_zombies _ _ Hs1).
  - intros sp Hlq. destruct (decide (launch_idle_thread = 0)); [by left|].
    eapply left_idle_ok; [done| |naive_solver]. unfold idle_ok in *. simpl. by rewrite Z2.
Qed.

Lemma rep_exit s m h q th : represents s m -> q_rq m = h :: q -> q_held m = true ->
  th <> 0 -> q_ids m !! th = Some h -> (h = IdleThreadTid -> launch_idle_thread = 0) ->
  1 < Z.of_nat (length (q_rq (q_signal th false m))) \/ q_wq (q_signal th false m) = [] \/ h = MainThreadTid ->
  wp (putTurn h th true 0) (fun _ s' => represents s' (q_exit th m)) s.
Proof using P.
  intros Hs Hq Hh Hth Hid Hne Hx. eapply rep_ending; [done..|]. cbv zeta. unfold q_exit.
  set (m1 := q_signal th false m) in *. intros s1 s2 rest Hs1 Hqs Hs2 Hl Hhx Hst E1 E2 E3 Hi.
  rewrite Hqs in *. cbn [drop]. destruct rest as [|x rest].
  - eapply wp_mono; [apply (leave_over h s2 Hl Hst)|].
    + rewrite Hs2. apply (rp_calm _ _ Hs1).
    + split; [done|]. destruct Hx as [?|[Hx|]]; [by cbn [length] in *; lia|left|by right].
      rewrite Hs2. simpl. by rewrite (rp_wq _ _ Hs1), Hx.
    + done.
    + cbn beta. intros [] s' (H1 & H2 & H3 & H4 & H5 & H6). rewrite Hs2 in H2, H5, H6. simpl in H2, H5.
      pose proof Hs1 as [_ _ Hw Hch Hr Hk _ _ _].
      split; cbn [q_rq q_wq q_reasons q_clock q_next q_ids q_zombies]; try congruence; try done.
      * intros w Hw1. rewrite H6. by apply Hch.
      * intros t. rewrite H6. apply Hr.
  - eapply wp_mono; [apply (leave_passes true h s2 x rest Hl Hst)|].
    + destruct (rep_calm_in s1 m1 x Hs1) as [E|E]; [rewrite Hqs; set_solver|..]; rewrite Hs2;
        change (status_of (set_tids _ s1) x) with (status_of s1 x); congruence.
    + set_solver.
    + rewrite Hs2. apply (rp_calm _ _ Hs1).
    + done.
    + cbn beta. intros [] s' [Hi' Hp].
      eapply eq_ind; [apply (rep_left s1 s2 s' m1 h x rest []); try done|].
      * intros t. by rewrite Hs2.
      * rewrite app_nil_r, Hs2. apply Hs1.
      * intros w _. by rewrite Hs2.
      * by intros w ?%elem_of_nil.
      * intros t. by rewrite Hs2.
      * by rewrite Hs2.
      * by rewrite app_nil_r, E1, E2, E3.
Qed.
End rep.
