(* ===== verification/SchedSteady.v ===== *)
(** * The scheduler as a machine of queues

    In a steady state no thread is blocked in a system call, none returns from one and no
    waiting thread has a deadline.  [turnq] is what such a state amounts to: the run
    queue, the waiting threads with their channels, and the clock.  Each lemma says what
    an operation of the scheduler does to it. *)
From S2P Require Import Prelude Options RunQueue RunQueueSpec RunQueueYield TidMap NonDetSet Scheduler.
From S2P Require Import SchedInv SchedWake SchedNext SchedOps SchedLife SchedSys SchedRun SchedThms SchedMachine.

Record turnq : Type := TurnQ {
  a_rq : list Z;           (* the run queue: the first has the turn *)
  a_wq : list (Z * Z);     (* the waiting threads, each with its channel *)
  a_clock : Z              (* turnCount *)
}.

(** the threads of [wq] that wait on [c], or the first of them, and the others *)
Fixpoint wake (c : Z) (all : bool) (wq : list (Z * Z)) : list Z * list (Z * Z) :=
  match wq with
  | [] => ([], [])
  | (t, c') :: wq' =>
      if c' =? c then (if all then (t :: (wake c all wq').1, (wake c all wq').2) else ([t], wq'))
      else ((wake c all wq').1, (t, c') :: (wake c all wq').2)
  end.
Lemma wake_sub c all wq : (forall p, p ∈ (wake c all wq).2 -> p ∈ wq) /\
  (forall t, t ∈ (wake c all wq).1 -> t ∈ wq.*1).
Proof.
  induction wq as [|[t c'] wq [IH1 IH2]]; simpl; [by split; intros ? ?%elem_of_nil|].
  destruct (c' =? c); [destruct all|]; simpl; split; intros x; rewrite ?elem_of_cons, ?elem_of_nil; naive_solver.
Qed.

Section steady.
Context `{O : Options, U : UnorderedIter, G : GlobalAddrs}.

Record steady (s : sched) (A : turnq) (tok : turn_state) : Prop := {
  st_inv : sched_inv s (a_rq A) tok;
  st_calm : calm s (a_rq A);
  st_wq : s_waitq s = (a_wq A).*1;
  st_chan : forall t c, (t, c) ∈ a_wq A -> w_chan (wait_of s t) = c /\ w_timeout (wait_of s t) = FOREVER;
  st_clock : s_turnCount s = a_clock A
}.


(** the reasons recorded for the wake-ups stay *)
Definition same_reasons (s s' : sched) : Prop :=
  forall t, w_wake_reason (wait_of s' t) = w_wake_reason (wait_of s t).

(** ** Steady states are states of the queue machine in which nobody gives up *)
Definition forever (wq : list (Z * Z)) : list qwait := (fun p => QWait p.1 p.2 FOREVER) <$> wq.
Definition mach_of (s : sched) (A : turnq) (held : bool) : qmach :=
  QMach (a_rq A) held (forever (a_wq A)) (omap w_wake_reason (s_waits s)) (a_clock A)
    (nthread (s_tids s)) (p_t_map (s_tids s)) (zombies (s_tids s)).

Lemma forever_tids wq : qw_tid <$> forever wq = wq.*1.
Proof using Type. unfold forever. by rewrite <-list_fmap_compose. Qed.
Lemma mach_reasons s A b t : q_reasons (mach_of s A b) !! t = w_wake_reason (wait_of s t).
Proof using Type. simpl. rewrite lookup_omap. unfold wait_of. by destruct (s_waits s !! t). Qed.

Lemma steady_represents s A (held : bool) h : steady s A (if held then Held h else Posted h) ->
  represents s (mach_of s A held) /\ exists q, a_rq A = h :: q.
Proof using Type.
  intros [Hi Hc Hw Hch Hk]. assert (Hq : exists q, a_rq A = h :: q).
  { pose proof (si_front _ _ _ Hi) as Hf. destruct (a_rq A) as [|h' q]; destruct held, Hf as [Hf _];
      try done; injection Hf as ->; by exists q. }
  split; [|done]. destruct Hq as [q Hq]. split; try done.
  - unfold q_tok. cbn. by rewrite Hq in *.
  - by rewrite Hw; cbn; rewrite forever_tids.
  - cbn. intros w ([t c] & -> & Hin)%list_elem_of_fmap. by apply Hch.
  - intros t. by rewrite mach_reasons.
Qed.

Lemma represents_steady s m A tok : represents s m -> q_rq m = a_rq A -> q_wq m = forever (a_wq A) ->
  q_clock m = a_clock A -> q_tok m = tok -> steady s A tok.
Proof using Type.
  intros Hs E1 E2 E3 <-. pose proof (rp_wait _ _ Hs) as Hch. rewrite E2 in Hch. split.
  - rewrite <-E1. apply Hs.
  - rewrite <-E1. apply Hs.
  - by rewrite (rp_wq _ _ Hs), E2, forever_tids.
  - intros t c Hin. apply (Hch (QWait t c FOREVER)). apply list_elem_of_fmap. by exists (t, c).
  - by rewrite (rp_clock _ _ Hs).
Qed.

Lemma represents_reasons s s' m A b : represents s' m -> q_reasons m = q_reasons (mach_of s A b) -> same_reasons s s'.
Proof using Type. intros Hs Hr t. by rewrite (rp_reasons _ _ Hs), Hr, mach_reasons. Qed.

Lemma nobody_expires k wq : q_take (fun w => qw_deadline w <? u32 k) true (forever wq) = ([], forever wq).
Proof using Type.
  induction wq as [|p wq IH]; [done|]. simpl. rewrite IH.
  replace (FOREVER <? u32 k) with false; [done|]. symmetry. apply Z.ltb_ge.
  pose proof (u32_range k). unfold FOREVER, UINT_MAX in *. lia.
Qed.

Lemma wake_take c all wq : q_take (fun w => qw_chan w =? c) all (forever wq) =
  (forever ((fun t => (t, c)) <$> (wake c all wq).1), forever (wake c all wq).2).
Proof using Type.
  induction wq as [|[t c'] wq IH]; [done|]. simpl. rewrite IH. destruct (c' =? c) eqn:E; [|done].
  apply Z.eqb_eq in E as ->. by destruct all.
Qed.

(** ** The operations *)
Context {P : PlainOptions}.

Lemma steady_get s A h : steady s A (Posted h) ->
  wp (getTurn h) (fun _ s' => steady s' A (Held h) /\ same_reasons s s') s.
Proof using P.
  intros Hs. destruct (steady_represents s A false h Hs) as (Hr & q & Hq).
  eapply wp_mono; [by eapply rep_get|]. cbn beta. intros [] s' Hs'. split.
  - eapply represents_steady; [exact Hs'|done..|]. unfold q_tok. cbn. by rewrite Hq.
  - by eapply represents_reasons.
Qed.

Lemma steady_put s h th q wq k x rest : steady s (TurnQ (h :: q) wq k) (Held h) -> q ++ [h] = x :: rest ->
  wp (putTurn h th false 0) (fun _ s' => steady s' (TurnQ (x :: rest) wq k) (Posted x) /\ same_reasons s s') s.
Proof using P.
  intros Hs Hx. destruct (steady_represents s _ true h Hs) as (Hr & _).
  eapply wp_mono; [by eapply rep_put|]. cbn beta. intros [] s' Hs'.
  unfold q_put, q_pass, q_sched in Hs'. cbn [mach_of q_rq a_rq q_wq a_wq] in Hs'. rewrite Hx, app_nil_r in Hs'.
  split; [by eapply represents_steady|by eapply (represents_reasons _ _ _ (TurnQ (h :: q) wq k) true)].
Qed.

Lemma tick_forever s q wq k h : let m := mach_of s (TurnQ (h :: q) wq k) true in
  q_tick m = q_sched (h :: q) true (forever wq) (q_reasons m) (k +u32 1) m.
Proof using Type. cbv zeta. unfold q_tick. cbn [q_wq mach_of a_wq]. rewrite nobody_expires. unfold q_wake, q_sched. cbn. by rewrite app_nil_r. Qed.

Lemma steady_tick s q wq k h : steady s (TurnQ (h :: q) wq k) (Held h) ->
  wp (incTurnCount h) (fun r s' => r = k /\ steady s' (TurnQ (h :: q) wq (k +u32 1)) (Held h)) s.
Proof using P.
  intros Hs. destruct (steady_represents s _ true h Hs) as (Hr & _).
  eapply wp_mono; [by eapply rep_tick|]. cbn beta. intros r s' [-> Hs']. split; [done|].
  rewrite tick_forever in Hs'. by eapply represents_steady.
Qed.

Lemma steady_signal s q wq k h c all : steady s (TurnQ (h :: q) wq k) (Held h) -> c <> 0 ->
  wp (signal h c all) (fun _ s' =>
    steady s' (TurnQ (h :: q ++ (wake c all wq).1) (wake c all wq).2 k) (Held h)) s.
Proof using P.
  intros Hs Hc. destruct (steady_represents s _ true h Hs) as (Hr & _).
  eapply wp_mono; [by eapply rep_signal|]. cbn beta. intros [] s' [Hs' _].
  eapply represents_steady; [exact Hs'|..]; unfold q_signal; cbn [q_wq mach_of a_wq]; rewrite wake_take; try done.
  cbn. rewrite forever_tids, <-list_fmap_compose. by rewrite list_fmap_id.
Qed.

Lemma steady_wait_end s A h r : steady s A (Posted h) -> w_wake_reason (wait_of s h) = Some r ->
  wp (wait_end h) (fun v s' => v = wake_code r /\ steady s' A (Held h)) s.
Proof using P.
  intros Hs Hr. destruct (steady_represents s A false h Hs) as (Hrep & q & Hq).
  eapply wp_mono; [eapply rep_wait_end; [done..|by rewrite mach_reasons]|]. cbn beta.
  intros v s' [-> Hs']. split; [done|]. eapply represents_steady; [exact Hs'|done..|].
  unfold q_tok. cbn. by rewrite Hq.
Qed.

Lemma steady_wait s h x rest wq k c : steady s (TurnQ (h :: x :: rest) wq k) (Held h) -> c <> 0 ->
  wp (wait_begin h c FOREVER) (fun _ s' =>
    steady s' (TurnQ (x :: rest) (wq ++ [(h, c)]) (k +u32 1)) (Posted x)) s.
Proof using P.
  intros Hs Hc. destruct (steady_represents s _ true h Hs) as (Hr & _).
  pose proof (tick_forever s (x :: rest) wq k h) as Ht. cbv zeta in Ht.
  eapply wp_mono; [eapply (rep_wait_begin s _ h (x :: rest) x rest); [done..| |naive_solver]|].
  { by rewrite Ht. }
  cbn beta. intros [] s' Hs'. unfold q_wait in Hs'. rewrite Ht in Hs'.
  eapply represents_steady; [exact Hs'|done| |done|done]. cbn. unfold forever. by rewrite fmap_app.
Qed.
End steady.

(** ** Concrete steady states *)
Section concrete.
Context `{O : Options, U : UnorderedIter, G : GlobalAddrs}.

Definition steadyb (s : sched) (A : turnq) : bool :=
  match runq_list s with Ok (rq, s') => bool_decide (rq = a_rq A) | Err _ => false end &&
  forallb (fun t => bool_decide (status_of s t = Some RUNNABLE \/ status_of s t = Some RUNNING_REG)) (a_rq A) &&
  bool_decide (s_wakeup_tids s = ∅) && bool_decide (s_waitq s = (a_wq A).*1) &&
  forallb (fun p => (w_chan (wait_of s p.1) =? p.2) && (w_timeout (wait_of s p.1) =? FOREVER)) (a_wq A) &&
  (s_turnCount s =? a_clock A).

Lemma steadyb_sound c A : rr_options -> reachable c -> steadyb (c_s c) A = true -> steady (c_s c) A (c_tok c).
Proof using Type.
  intros (Hp & Ht & Hk) Hr. destruct (reachable_inv Hp Ht Hk c Hr) as [rq Hinv]. unfold steadyb.
  rewrite (runq_list_spec _ _ _ _ (si_core _ _ _ Hinv)), !andb_true_iff, !bool_decide_eq_true, Z.eqb_eq.
  intros (((((-> & Hst) & Hwk) & Hw) & Hch) & Hcl). split; [done| |done| |done].
  - split; [|done]. apply Forall_forall. intros t Ht'. apply list_elem_of_In in Ht'.
    rewrite forallb_forall in Hst. by apply Hst, bool_decide_eq_true in Ht'.
  - intros t c' Hin%list_elem_of_In. rewrite forallb_forall in Hch. apply Hch in Hin. simpl in Hin.
    apply andb_true_iff in Hin as [H1 H2]. split; by apply Z.eqb_eq.
Qed.
End concrete.
