(* ===== verification/RtState.v ===== *)
(** * State of the runtime: the globals and thread-local variables of
    lib/runtime/record-runtime.cpp, the members of RecorderRT
    (include/tern/runtime/record-runtime.h), and the POSIX objects the runtime operates
    on

    Addresses of application objects (mutexes, condition variables, ...) are integers,
    0 being NULL. *)
From S2P Require Import Prelude Options SyncFuncs.

(** struct timespec: tv_sec and tv_nsec *)
Record timespec : Type := Timespec { tv_sec : Z; tv_nsec : Z }.

(** ** Thread-local variables *)
Record tls : Type := TLS {
  inNonDet : bool;
  inNoWaitNonDet : bool;
  noCSWholeLocal : bool;
  inCSLevel : Z;   (* int *)
  slock_n_turns : Z;   (* int *)
  satisfyingCV : Z;   (* 0: NULL *)
  satisfyingSem : Z;   (* 0: NULL *)
  satisfyingRole : Z;   (* Addr_n_role*, 0: NULL *)
  this_task : Z;   (* unsigned *)
  task_start_time : timespec;
  yield_this : bool;
  process_proposed_role : bool;
  my_base_time : timespec;
  t_errno : Z;
  in_app : bool   (* Space::current_space: Sys = false, App = true *)
}.
Definition set_inNonDet (x : bool) (r : tls) : tls :=
  TLS x (inNoWaitNonDet r) (noCSWholeLocal r) (inCSLevel r) (slock_n_turns r) (satisfyingCV r)
    (satisfyingSem r) (satisfyingRole r) (this_task r) (task_start_time r) (yield_this r)
    (process_proposed_role r) (my_base_time r) (t_errno r) (in_app r).
Definition set_inNoWaitNonDet (x : bool) (r : tls) : tls :=
  TLS (inNonDet r) x (noCSWholeLocal r) (inCSLevel r) (slock_n_turns r) (satisfyingCV r)
    (satisfyingSem r) (satisfyingRole r) (this_task r) (task_start_time r) (yield_this r)
    (process_proposed_role r) (my_base_time r) (t_errno r) (in_app r).
Definition set_noCSWholeLocal (x : bool) (r : tls) : tls :=
  TLS (inNonDet r) (inNoWaitNonDet r) x (inCSLevel r) (slock_n_turns r) (satisfyingCV r)
    (satisfyingSem r) (satisfyingRole r) (this_task r) (task_start_time r) (yield_this r)
    (process_proposed_role r) (my_base_time r) (t_errno r) (in_app r).
Definition set_inCSLevel (x : Z) (r : tls) : tls :=
  TLS (inNonDet r) (inNoWaitNonDet r) (noCSWholeLocal r) x (slock_n_turns r) (satisfyingCV r)
    (satisfyingSem r) (satisfyingRole r) (this_task r) (task_start_time r) (yield_this r)
    (process_proposed_role r) (my_base_time r) (t_errno r) (in_app r).
Definition set_slock_n_turns (x : Z) (r : tls) : tls :=
  TLS (inNonDet r) (inNoWaitNonDet r) (noCSWholeLocal r) (inCSLevel r) x (satisfyingCV r)
    (satisfyingSem r) (satisfyingRole r) (this_task r) (task_start_time r) (yield_this r)
    (process_proposed_role r) (my_base_time r) (t_errno r) (in_app r).
Definition set_satisfyingCV (x : Z) (r : tls) : tls :=
  TLS (inNonDet r) (inNoWaitNonDet r) (noCSWholeLocal r) (inCSLevel r) (slock_n_turns r) x
    (satisfyingSem r) (satisfyingRole r) (this_task r) (task_start_time r) (yield_this r)
    (process_proposed_role r) (my_base_time r) (t_errno r) (in_app r).
Definition set_satisfyingSem (x : Z) (r : tls) : tls :=
  TLS (inNonDet r) (inNoWaitNonDet r) (noCSWholeLocal r) (inCSLevel r) (slock_n_turns r)
    (satisfyingCV r) x (satisfyingRole r) (this_task r) (task_start_time r) (yield_this r)
    (process_proposed_role r) (my_base_time r) (t_errno r) (in_app r).
Definition set_satisfyingRole (x : Z) (r : tls) : tls :=
  TLS (inNonDet r) (inNoWaitNonDet r) (noCSWholeLocal r) (inCSLevel r) (slock_n_turns r)
    (satisfyingCV r) (satisfyingSem r) x (this_task r) (task_start_time r) (yield_this r)
    (process_proposed_role r) (my_base_time r) (t_errno r) (in_app r).
Definition set_this_task (x : Z) (r : tls) : tls :=
  TLS (inNonDet r) (inNoWaitNonDet r) (noCSWholeLocal r) (inCSLevel r) (slock_n_turns r)
    (satisfyingCV r) (satisfyingSem r) (satisfyingRole r) x (task_start_time r) (yield_this r)
    (process_proposed_role r) (my_base_time r) (t_errno r) (in_app r).
Definition set_task_start_time (x : timespec) (r : tls) : tls :=
  TLS (inNonDet r) (inNoWaitNonDet r) (noCSWholeLocal r) (inCSLevel r) (slock_n_turns r)
    (satisfyingCV r) (satisfyingSem r) (satisfyingRole r) (this_task r) x (yield_this r)
    (process_proposed_role r) (my_base_time r) (t_errno r) (in_app r).
Definition set_yield_this (x : bool) (r : tls) : tls :=
  TLS (inNonDet r) (inNoWaitNonDet r) (noCSWholeLocal r) (inCSLevel r) (slock_n_turns r)
    (satisfyingCV r) (satisfyingSem r) (satisfyingRole r) (this_task r) (task_start_time r) x
    (process_proposed_role r) (my_base_time r) (t_errno r) (in_app r).
Definition set_process_proposed_role (x : bool) (r : tls) : tls :=
  TLS (inNonDet r) (inNoWaitNonDet r) (noCSWholeLocal r) (inCSLevel r) (slock_n_turns r)
    (satisfyingCV r) (satisfyingSem r) (satisfyingRole r) (this_task r) (task_start_time r)
    (yield_this r) x (my_base_time r) (t_errno r) (in_app r).
Definition set_my_base_time (x : timespec) (r : tls) : tls :=
  TLS (inNonDet r) (inNoWaitNonDet r) (noCSWholeLocal r) (inCSLevel r) (slock_n_turns r)
    (satisfyingCV r) (satisfyingSem r) (satisfyingRole r) (this_task r) (task_start_time r)
    (yield_this r) (process_proposed_role r) x (t_errno r) (in_app r).
Definition set_t_errno (x : Z) (r : tls) : tls :=
  TLS (inNonDet r) (inNoWaitNonDet r) (noCSWholeLocal r) (inCSLevel r) (slock_n_turns r)
    (satisfyingCV r) (satisfyingSem r) (satisfyingRole r) (this_task r) (task_start_time r)
    (yield_this r) (process_proposed_role r) (my_base_time r) x (in_app r).
Definition set_in_app (x : bool) (r : tls) : tls :=
  TLS (inNonDet r) (inNoWaitNonDet r) (noCSWholeLocal r) (inCSLevel r) (slock_n_turns r)
    (satisfyingCV r) (satisfyingSem r) (satisfyingRole r) (this_task r) (task_start_time r)
    (yield_this r) (process_proposed_role r) (my_base_time r) (t_errno r) x.
(** their initial values *)
Definition tls0 : tls :=
  TLS false false false 0 0 0 0 0 0 (Timespec 0 0) false false (Timespec 0 0) 0 false.

(** ** Barriers *)
Record barrier_t : Type := Barrier {
  b_count : Z;   (* int *)
  b_narrived : Z   (* int *)
}.
Definition set_b_count (x : Z) (r : barrier_t) : barrier_t :=
  Barrier x (b_narrived r).
Definition set_b_narrived (x : Z) (r : barrier_t) : barrier_t :=
  Barrier (b_count r) x.

Inductive PHASE : Type := ARRIVING | LEAVING.
#[export] Instance PHASE_eq_dec : EqDecision PHASE.
Proof. solve_decision. Defined.

Record ref_cnt_barrier_t : Type := RefBarrier {
  r_count : Z;   (* unsigned *)
  r_nactive : Z;   (* unsigned *)
  r_timeout : Z;   (* unsigned *)
  r_phase : PHASE;
  r_nSuccess : Z;   (* long *)
  r_nTimeout : Z   (* long *)
}.
Definition set_r_count (x : Z) (r : ref_cnt_barrier_t) : ref_cnt_barrier_t :=
  RefBarrier x (r_nactive r) (r_timeout r) (r_phase r) (r_nSuccess r) (r_nTimeout r).
Definition set_r_nactive (x : Z) (r : ref_cnt_barrier_t) : ref_cnt_barrier_t :=
  RefBarrier (r_count r) x (r_timeout r) (r_phase r) (r_nSuccess r) (r_nTimeout r).
Definition set_r_timeout (x : Z) (r : ref_cnt_barrier_t) : ref_cnt_barrier_t :=
  RefBarrier (r_count r) (r_nactive r) x (r_phase r) (r_nSuccess r) (r_nTimeout r).
Definition set_r_phase (x : PHASE) (r : ref_cnt_barrier_t) : ref_cnt_barrier_t :=
  RefBarrier (r_count r) (r_nactive r) (r_timeout r) x (r_nSuccess r) (r_nTimeout r).
Definition set_r_nSuccess (x : Z) (r : ref_cnt_barrier_t) : ref_cnt_barrier_t :=
  RefBarrier (r_count r) (r_nactive r) (r_timeout r) (r_phase r) x (r_nTimeout r).
Definition set_r_nTimeout (x : Z) (r : ref_cnt_barrier_t) : ref_cnt_barrier_t :=
  RefBarrier (r_count r) (r_nactive r) (r_timeout r) (r_phase r) (r_nSuccess r) x.
(** a new entry of refcnt_bars: the constructor sets the two counters only *)
Definition new_refcnt : ref_cnt_barrier_t := RefBarrier 0 0 0 ARRIVING 0 0.
Definition isArriving (b : ref_cnt_barrier_t) : bool := bool_decide (r_phase b = ARRIVING).
Definition isLeaving (b : ref_cnt_barrier_t) : bool := bool_decide (r_phase b = LEAVING).

(** ** RuntimeStat *)
Record run_stat : Type := RunStat {
  nDetPthreadSyncOp : Z;
  nInterProcSyncOp : Z;
  nLineupSucc : Z;
  nLineupTimeout : Z;
  nNonDetRegions : Z;
  nNonDetPthreadSync : Z
}.
Definition set_nDetPthreadSyncOp (x : Z) (r : run_stat) : run_stat :=
  RunStat x (nInterProcSyncOp r) (nLineupSucc r) (nLineupTimeout r) (nNonDetRegions r)
    (nNonDetPthreadSync r).
Definition set_nInterProcSyncOp (x : Z) (r : run_stat) : run_stat :=
  RunStat (nDetPthreadSyncOp r) x (nLineupSucc r) (nLineupTimeout r) (nNonDetRegions r)
    (nNonDetPthreadSync r).
Definition set_nLineupSucc (x : Z) (r : run_stat) : run_stat :=
  RunStat (nDetPthreadSyncOp r) (nInterProcSyncOp r) x (nLineupTimeout r) (nNonDetRegions r)
    (nNonDetPthreadSync r).
Definition set_nLineupTimeout (x : Z) (r : run_stat) : run_stat :=
  RunStat (nDetPthreadSyncOp r) (nInterProcSyncOp r) (nLineupSucc r) x (nNonDetRegions r)
    (nNonDetPthreadSync r).
Definition set_nNonDetRegions (x : Z) (r : run_stat) : run_stat :=
  RunStat (nDetPthreadSyncOp r) (nInterProcSyncOp r) (nLineupSucc r) (nLineupTimeout r) x
    (nNonDetPthreadSync r).
Definition set_nNonDetPthreadSync (x : Z) (r : run_stat) : run_stat :=
  RunStat (nDetPthreadSyncOp r) (nInterProcSyncOp r) (nLineupSucc r) (nLineupTimeout r)
    (nNonDetRegions r) x.
Definition stat0 : run_stat := RunStat 0 0 0 0 0 0.

(** ** POSIX objects, as far as the runtime uses them *)
Inductive mutex_kind : Type := NORMAL | RECURSIVE | ERRORCHECK.
Record mutex_t : Type := Mutex {
  mu_kind : mutex_kind;
  mu_owner : option Z;      (* the pthread_t of the owner *)
  mu_count : Z              (* how often the owner has locked it *)
}.
Definition mutex0 : mutex_t := Mutex NORMAL None 0.
Record rwlock_t : Type := RWLock { rw_readers : Z; rw_writer : option Z }.
Definition rwlock0 : rwlock_t := RWLock 0 None.
Definition EPERM : Z := 1.
Definition EOVERFLOW : Z := 75.
Definition SEM_VALUE_MAX : Z := 2 ^ 31 - 1.

(** ** The log: what logSync gets, without the times *)
Record log_entry : Type := LogEntry {
  l_tid : Z; l_ins : Z; l_op : syncfunc.t; l_turn : Z; l_after : bool; l_args : list Z
}.

(** ** The state *)
Record rt : Type := RT {
  g_cond_map : gmap Z Z;   (* cond_map: waiters of a condition variable *)
  g_sem_map : gmap Z Z;   (* sem_map: waiters of a semaphore *)
  g_cv_line : gmap Z Z;   (* blocked_cv_line_map: pthread_cond_t* -> Addr_n_role* *)
  g_cv_count : gmap (Z * Z) Z;   (* blocked_cv_count_map, by the value of the Addr_n_role *)
  g_anr : gmap Z (Z * Z);   (* the Addr_n_role objects: addr and roleid *)
  g_next_anr : Z;   (* the next address operator new returns *)
  g_proposed : gmap Z Z;   (* proposed_role *)
  g_stats : gmap (Z * Z) Z;   (* per_sync_stats[tid][op] *)
  g_barriers : gmap Z barrier_t;   (* barriers *)
  g_refcnt : gmap Z ref_cnt_barrier_t;   (* refcnt_bars, by (unsigned) opaque_type *)
  g_no_child : bool;   (* no_child_threads_created *)
  g_idle_created : bool;
  g_idle_th : Z;
  g_lock_holder : Z;   (* dmt_lock_holder *)
  g_delays : gmap Z Z;   (* app_time_table *)
  g_stat : run_stat;
  g_begin_sem : Z;   (* thread_begin_sem *)
  g_begin_done_sem : Z;   (* thread_begin_done_sem *)
  os_mutexes : gmap Z mutex_t;   (* absent: an initialised, unlocked default mutex *)
  os_rwlocks : gmap Z rwlock_t;
  os_sems : gmap Z Z;
  os_started : gset Z;   (* threads the operating system has started *)
  g_log : list log_entry;   (* the records of logSync, newest first *)
  g_prog_began : bool   (* prog_began of helper.cpp *)
}.
Definition set_g_cond_map (x : gmap Z Z) (r : rt) : rt :=
  RT x (g_sem_map r) (g_cv_line r) (g_cv_count r) (g_anr r) (g_next_anr r) (g_proposed r)
    (g_stats r) (g_barriers r) (g_refcnt r) (g_no_child r) (g_idle_created r) (g_idle_th r)
    (g_lock_holder r) (g_delays r) (g_stat r) (g_begin_sem r) (g_begin_done_sem r)
    (os_mutexes r) (os_rwlocks r) (os_sems r) (os_started r) (g_log r) (g_prog_began r).
Definition set_g_sem_map (x : gmap Z Z) (r : rt) : rt :=
  RT (g_cond_map r) x (g_cv_line r) (g_cv_count r) (g_anr r) (g_next_anr r) (g_proposed r)
    (g_stats r) (g_barriers r) (g_refcnt r) (g_no_child r) (g_idle_created r) (g_idle_th r)
    (g_lock_holder r) (g_delays r) (g_stat r) (g_begin_sem r) (g_begin_done_sem r)
    (os_mutexes r) (os_rwlocks r) (os_sems r) (os_started r) (g_log r) (g_prog_began r).
Definition set_g_cv_line (x : gmap Z Z) (r : rt) : rt :=
  RT (g_cond_map r) (g_sem_map r) x (g_cv_count r) (g_anr r) (g_next_anr r) (g_proposed r)
    (g_stats r) (g_barriers r) (g_refcnt r) (g_no_child r) (g_idle_created r) (g_idle_th r)
    (g_lock_holder r) (g_delays r) (g_stat r) (g_begin_sem r) (g_begin_done_sem r)
    (os_mutexes r) (os_rwlocks r) (os_sems r) (os_started r) (g_log r) (g_prog_began r).
Definition set_g_cv_count (x : gmap (Z * Z) Z) (r : rt) : rt :=
  RT (g_cond_map r) (g_sem_map r) (g_cv_line r) x (g_anr r) (g_next_anr r) (g_proposed r)
    (g_stats r) (g_barriers r) (g_refcnt r) (g_no_child r) (g_idle_created r) (g_idle_th r)
    (g_lock_holder r) (g_delays r) (g_stat r) (g_begin_sem r) (g_begin_done_sem r)
    (os_mutexes r) (os_rwlocks r) (os_sems r) (os_started r) (g_log r) (g_prog_began r).
Definition set_g_anr (x : gmap Z (Z * Z)) (r : rt) : rt :=
  RT (g_cond_map r) (g_sem_map r) (g_cv_line r) (g_cv_count r) x (g_next_anr r) (g_proposed r)
    (g_stats r) (g_barriers r) (g_refcnt r) (g_no_child r) (g_idle_created r) (g_idle_th r)
    (g_lock_holder r) (g_delays r) (g_stat r) (g_begin_sem r) (g_begin_done_sem r)
    (os_mutexes r) (os_rwlocks r) (os_sems r) (os_started r) (g_log r) (g_prog_began r).
Definition set_g_next_anr (x : Z) (r : rt) : rt :=
  RT (g_cond_map r) (g_sem_map r) (g_cv_line r) (g_cv_count r) (g_anr r) x (g_proposed r)
    (g_stats r) (g_barriers r) (g_refcnt r) (g_no_child r) (g_idle_created r) (g_idle_th r)
    (g_lock_holder r) (g_delays r) (g_stat r) (g_begin_sem r) (g_begin_done_sem r)
    (os_mutexes r) (os_rwlocks r) (os_sems r) (os_started r) (g_log r) (g_prog_began r).
Definition set_g_proposed (x : gmap Z Z) (r : rt) : rt :=
  RT (g_cond_map r) (g_sem_map r) (g_cv_line r) (g_cv_count r) (g_anr r) (g_next_anr r) x
    (g_stats r) (g_barriers r) (g_refcnt r) (g_no_child r) (g_idle_created r) (g_idle_th r)
    (g_lock_holder r) (g_delays r) (g_stat r) (g_begin_sem r) (g_begin_done_sem r)
    (os_mutexes r) (os_rwlocks r) (os_sems r) (os_started r) (g_log r) (g_prog_began r).
Definition set_g_stats (x : gmap (Z * Z) Z) (r : rt) : rt :=
  RT (g_cond_map r) (g_sem_map r) (g_cv_line r) (g_cv_count r) (g_anr r) (g_next_anr r)
    (g_proposed r) x (g_barriers r) (g_refcnt r) (g_no_child r) (g_idle_created r) (g_idle_th r)
    (g_lock_holder r) (g_delays r) (g_stat r) (g_begin_sem r) (g_begin_done_sem r)
    (os_mutexes r) (os_rwlocks r) (os_sems r) (os_started r) (g_log r) (g_prog_began r).
Definition set_g_barriers (x : gmap Z barrier_t) (r : rt) : rt :=
  RT (g_cond_map r) (g_sem_map r) (g_cv_line r) (g_cv_count r) (g_anr r) (g_next_anr r)
    (g_proposed r) (g_stats r) x (g_refcnt r) (g_no_child r) (g_idle_created r) (g_idle_th r)
    (g_lock_holder r) (g_delays r) (g_stat r) (g_begin_sem r) (g_begin_done_sem r)
    (os_mutexes r) (os_rwlocks r) (os_sems r) (os_started r) (g_log r) (g_prog_began r).
Definition set_g_refcnt (x : gmap Z ref_cnt_barrier_t) (r : rt) : rt :=
  RT (g_cond_map r) (g_sem_map r) (g_cv_line r) (g_cv_count r) (g_anr r) (g_next_anr r)
    (g_proposed r) (g_stats r) (g_barriers r) x (g_no_child r) (g_idle_created r) (g_idle_th r)
    (g_lock_holder r) (g_delays r) (g_stat r) (g_begin_sem r) (g_begin_done_sem r)
    (os_mutexes r) (os_rwlocks r) (os_sems r) (os_started r) (g_log r) (g_prog_began r).
Definition set_g_no_child (x : bool) (r : rt) : rt :=
  RT (g_cond_map r) (g_sem_map r) (g_cv_line r) (g_cv_count r) (g_anr r) (g_next_anr r)
    (g_proposed r) (g_stats r) (g_barriers r) (g_refcnt r) x (g_idle_created r) (g_idle_th r)
    (g_lock_holder r) (g_delays r) (g_stat r) (g_begin_sem r) (g_begin_done_sem r)
    (os_mutexes r) (os_rwlocks r) (os_sems r) (os_started r) (g_log r) (g_prog_began r).
Definition set_g_idle_created (x : bool) (r : rt) : rt :=
  RT (g_cond_map r) (g_sem_map r) (g_cv_line r) (g_cv_count r) (g_anr r) (g_next_anr r)
    (g_proposed r) (g_stats r) (g_barriers r) (g_refcnt r) (g_no_child r) x (g_idle_th r)
    (g_lock_holder r) (g_delays r) (g_stat r) (g_begin_sem r) (g_begin_done_sem r)
    (os_mutexes r) (os_rwlocks r) (os_sems r) (os_started r) (g_log r) (g_prog_began r).
Definition set_g_idle_th (x : Z) (r : rt) : rt :=
  RT (g_cond_map r) (g_sem_map r) (g_cv_line r) (g_cv_count r) (g_anr r) (g_next_anr r)
    (g_proposed r) (g_stats r) (g_barriers r) (g_refcnt r) (g_no_child r) (g_idle_created r) x
    (g_lock_holder r) (g_delays r) (g_stat r) (g_begin_sem r) (g_begin_done_sem r)
    (os_mutexes r) (os_rwlocks r) (os_sems r) (os_started r) (g_log r) (g_prog_began r).
Definition set_g_lock_holder (x : Z) (r : rt) : rt :=
  RT (g_cond_map r) (g_sem_map r) (g_cv_line r) (g_cv_count r) (g_anr r) (g_next_anr r)
    (g_proposed r) (g_stats r) (g_barriers r) (g_refcnt r) (g_no_child r) (g_idle_created r)
    (g_idle_th r) x (g_delays r) (g_stat r) (g_begin_sem r) (g_begin_done_sem r) (os_mutexes r)
    (os_rwlocks r) (os_sems r) (os_started r) (g_log r) (g_prog_began r).
Definition set_g_delays (x : gmap Z Z) (r : rt) : rt :=
  RT (g_cond_map r) (g_sem_map r) (g_cv_line r) (g_cv_count r) (g_anr r) (g_next_anr r)
    (g_proposed r) (g_stats r) (g_barriers r) (g_refcnt r) (g_no_child r) (g_idle_created r)
    (g_idle_th r) (g_lock_holder r) x (g_stat r) (g_begin_sem r) (g_begin_done_sem r)
    (os_mutexes r) (os_rwlocks r) (os_sems r) (os_started r) (g_log r) (g_prog_began r).
Definition set_g_stat (x : run_stat) (r : rt) : rt :=
  RT (g_cond_map r) (g_sem_map r) (g_cv_line r) (g_cv_count r) (g_anr r) (g_next_anr r)
    (g_proposed r) (g_stats r) (g_barriers r) (g_refcnt r) (g_no_child r) (g_idle_created r)
    (g_idle_th r) (g_lock_holder r) (g_delays r) x (g_begin_sem r) (g_begin_done_sem r)
    (os_mutexes r) (os_rwlocks r) (os_sems r) (os_started r) (g_log r) (g_prog_began r).
Definition set_g_begin_sem (x : Z) (r : rt) : rt :=
  RT (g_cond_map r) (g_sem_map r) (g_cv_line r) (g_cv_count r) (g_anr r) (g_next_anr r)
    (g_proposed r) (g_stats r) (g_barriers r) (g_refcnt r) (g_no_child r) (g_idle_created r)
    (g_idle_th r) (g_lock_holder r) (g_delays r) (g_stat r) x (g_begin_done_sem r)
    (os_mutexes r) (os_rwlocks r) (os_sems r) (os_started r) (g_log r) (g_prog_began r).
Definition set_g_begin_done_sem (x : Z) (r : rt) : rt :=
  RT (g_cond_map r) (g_sem_map r) (g_cv_line r) (g_cv_count r) (g_anr r) (g_next_anr r)
    (g_proposed r) (g_stats r) (g_barriers r) (g_refcnt r) (g_no_child r) (g_idle_created r)
    (g_idle_th r) (g_lock_holder r) (g_delays r) (g_stat r) (g_begin_sem r) x (os_mutexes r)
    (os_rwlocks r) (os_sems r) (os_started r) (g_log r) (g_prog_began r).
Definition set_os_mutexes (x : gmap Z mutex_t) (r : rt) : rt :=
  RT (g_cond_map r) (g_sem_map r) (g_cv_line r) (g_cv_count r) (g_anr r) (g_next_anr r)
    (g_proposed r) (g_stats r) (g_barriers r) (g_refcnt r) (g_no_child r) (g_idle_created r)
    (g_idle_th r) (g_lock_holder r) (g_delays r) (g_stat r) (g_begin_sem r) (g_begin_done_sem r)
    x (os_rwlocks r) (os_sems r) (os_started r) (g_log r) (g_prog_began r).
Definition set_os_rwlocks (x : gmap Z rwlock_t) (r : rt) : rt :=
  RT (g_cond_map r) (g_sem_map r) (g_cv_line r) (g_cv_count r) (g_anr r) (g_next_anr r)
    (g_proposed r) (g_stats r) (g_barriers r) (g_refcnt r) (g_no_child r) (g_idle_created r)
    (g_idle_th r) (g_lock_holder r) (g_delays r) (g_stat r) (g_begin_sem r) (g_begin_done_sem r)
    (os_mutexes r) x (os_sems r) (os_started r) (g_log r) (g_prog_began r).
Definition set_os_sems (x : gmap Z Z) (r : rt) : rt :=
  RT (g_cond_map r) (g_sem_map r) (g_cv_line r) (g_cv_count r) (g_anr r) (g_next_anr r)
    (g_proposed r) (g_stats r) (g_barriers r) (g_refcnt r) (g_no_child r) (g_idle_created r)
    (g_idle_th r) (g_lock_holder r) (g_delays r) (g_stat r) (g_begin_sem r) (g_begin_done_sem r)
    (os_mutexes r) (os_rwlocks r) x (os_started r) (g_log r) (g_prog_began r).
Definition set_os_started (x : gset Z) (r : rt) : rt :=
  RT (g_cond_map r) (g_sem_map r) (g_cv_line r) (g_cv_count r) (g_anr r) (g_next_anr r)
    (g_proposed r) (g_stats r) (g_barriers r) (g_refcnt r) (g_no_child r) (g_idle_created r)
    (g_idle_th r) (g_lock_holder r) (g_delays r) (g_stat r) (g_begin_sem r) (g_begin_done_sem r)
    (os_mutexes r) (os_rwlocks r) (os_sems r) x (g_log r) (g_prog_began r).
Definition set_g_log (x : list log_entry) (r : rt) : rt :=
  RT (g_cond_map r) (g_sem_map r) (g_cv_line r) (g_cv_count r) (g_anr r) (g_next_anr r)
    (g_proposed r) (g_stats r) (g_barriers r) (g_refcnt r) (g_no_child r) (g_idle_created r)
    (g_idle_th r) (g_lock_holder r) (g_delays r) (g_stat r) (g_begin_sem r) (g_begin_done_sem r)
    (os_mutexes r) (os_rwlocks r) (os_sems r) (os_started r) x (g_prog_began r).
Definition set_g_prog_began (x : bool) (r : rt) : rt :=
  RT (g_cond_map r) (g_sem_map r) (g_cv_line r) (g_cv_count r) (g_anr r) (g_next_anr r)
    (g_proposed r) (g_stats r) (g_barriers r) (g_refcnt r) (g_no_child r) (g_idle_created r)
    (g_idle_th r) (g_lock_holder r) (g_delays r) (g_stat r) (g_begin_sem r) (g_begin_done_sem r)
    (os_mutexes r) (os_rwlocks r) (os_sems r) (os_started r) (g_log r) x.

(** ** POSIX operations *)
Definition mutex_of (r : rt) (mu : Z) : mutex_t := default mutex0 (os_mutexes r !! mu).
Definition put_mutex (mu : Z) (m : mutex_t) (r : rt) : rt :=
  set_os_mutexes (<[mu := m]> (os_mutexes r)) r.
Definition rwlock_of (r : rt) (rw : Z) : rwlock_t := default rwlock0 (os_rwlocks r !! rw).
Definition put_rwlock (rw : Z) (l : rwlock_t) (r : rt) : rt :=
  set_os_rwlocks (<[rw := l]> (os_rwlocks r)) r.
Definition sem_of (r : rt) (sem : Z) : Z := default 0 (os_sems r !! sem).
Definition put_sem (sem n : Z) (r : rt) : rt := set_os_sems (<[sem := n]> (os_sems r)) r.

Definition RTM (A : Type) : Type := M rt A.

Definition os_mutex_init (mu : Z) (k : mutex_kind) : RTM Z :=
  modify (put_mutex mu (Mutex k None 0)) ;; mret 0.
Definition os_mutex_destroy (mu : Z) : RTM Z :=
  m ← gets (fun r => mutex_of r mu);
  match mu_owner m with
  | Some _ => mret EBUSY
  | None => modify (fun r => set_os_mutexes (delete mu (os_mutexes r)) r) ;; mret 0
  end.
Definition os_mutex_trylock (me mu : Z) : RTM Z :=
  m ← gets (fun r => mutex_of r mu);
  match mu_owner m with
  | None => modify (put_mutex mu (Mutex (mu_kind m) (Some me) 1)) ;; mret 0
  | Some o =>
      match mu_kind m with
      | RECURSIVE =>
          if o =? me then modify (put_mutex mu (Mutex RECURSIVE (Some me) (mu_count m + 1))) ;; mret 0
          else mret EBUSY
      | _ => mret EBUSY
      end
  end.
(** pthread_mutex_lock: blocks while trylock would fail *)
Definition os_mutex_lock (me mu : Z) : RTM Z :=
  r ← os_mutex_trylock me mu; if r =? 0 then mret 0 else fail WouldBlock.
Definition os_mutex_unlock (me mu : Z) : RTM Z :=
  m ← gets (fun r => mutex_of r mu);
  match mu_kind m with
  | NORMAL => modify (put_mutex mu (Mutex NORMAL None 0)) ;; mret 0
  | k =>
      if bool_decide (mu_owner m = Some me) then
        let c := mu_count m - 1 in
        modify (put_mutex mu (Mutex k (if c =? 0 then None else Some me) c)) ;; mret 0
      else mret EPERM
  end.

Definition os_rwlock_init (rw : Z) : RTM Z := modify (put_rwlock rw rwlock0) ;; mret 0.
Definition os_rwlock_destroy (rw : Z) : RTM Z :=
  modify (fun r => set_os_rwlocks (delete rw (os_rwlocks r)) r) ;; mret 0.
Definition os_rwlock_tryrdlock (rw : Z) : RTM Z :=
  l ← gets (fun r => rwlock_of r rw);
  match rw_writer l with
  | Some _ => mret EBUSY
  | None => modify (put_rwlock rw (RWLock (rw_readers l + 1) None)) ;; mret 0
  end.
Definition os_rwlock_trywrlock (me rw : Z) : RTM Z :=
  l ← gets (fun r => rwlock_of r rw);
  if bool_decide (rw_writer l = None) && (rw_readers l =? 0)
  then modify (put_rwlock rw (RWLock 0 (Some me))) ;; mret 0
  else mret EBUSY.
Definition os_rwlock_rdlock (rw : Z) : RTM Z :=
  r ← os_rwlock_tryrdlock rw; if r =? 0 then mret 0 else fail WouldBlock.
Definition os_rwlock_wrlock (me rw : Z) : RTM Z :=
  r ← os_rwlock_trywrlock me rw; if r =? 0 then mret 0 else fail WouldBlock.
Definition os_rwlock_unlock (rw : Z) : RTM Z :=
  l ← gets (fun r => rwlock_of r rw);
  match rw_writer l with
  | Some _ => modify (put_rwlock rw rwlock0) ;; mret 0
  | None => modify (put_rwlock rw (RWLock (rw_readers l - 1) None)) ;; mret 0
  end.

(** sem_init, sem_trywait, sem_post: the result and the errno of a failure *)
Definition os_sem_init (sem value : Z) : RTM (Z * option Z) :=
  if SEM_VALUE_MAX <? value then mret (-1, Some EINVAL)
  else modify (put_sem sem value) ;; mret (0, None).
Definition os_sem_trywait (sem : Z) : RTM (Z * option Z) :=
  n ← gets (fun r => sem_of r sem);
  if 0 <? n then modify (put_sem sem (n - 1)) ;; mret (0, None) else mret (-1, Some EAGAIN).
Definition os_sem_wait (sem : Z) : RTM Z :=
  r ← os_sem_trywait sem; if r.1 =? 0 then mret 0 else fail WouldBlock.
Definition os_sem_post (sem : Z) : RTM (Z * option Z) :=
  n ← gets (fun r => sem_of r sem);
  if n <? SEM_VALUE_MAX then modify (put_sem sem (n + 1)) ;; mret (0, None)
  else mret (-1, Some EOVERFLOW).

(** the globals before main *)
Definition rt0 : rt :=
  RT ∅ ∅ ∅ ∅ ∅ 1 ∅ ∅ ∅ ∅ true false 0 (-1) ∅ stat0 0 0 ∅ ∅ ∅ ∅ [] false.
