(* ===== verification/TxtLog.v ===== *)
(** * The text logs: TxtLogger and TestLogger of lib/runtime/record-log.cpp

    A logger writes one line per synchronisation to the file of its thread.  The state is
    the text written so far; a function that takes a va_list takes the list of the
    arguments, 64-bit values, and reading beyond its end is [UninitRead]. *)
From Stdlib Require Import Ascii.
From S2P Require Import Prelude Options LogText SyncFuncs LogDefs RtState.
Open Scope string_scope.
Open Scope Z_scope.

Record txtlog : Type := TxtLog {
  tx_iter : Z;       (* iter_num, long *)
  tx_tid : Z;        (* tid *)
  tx_ouf : string    (* the text written to ouf *)
}.
Abbreviation TM := (M txtlog).
Definition emit (s : string) : TM unit :=
  modify (fun l => TxtLog (tx_iter l) (tx_tid l) (tx_ouf l +:+ s)).

(** what logSync gets; [ev_wait] is getTurnWaitType of the calling thread *)
Record sync_event : Type := Event {
  ev_insid : Z; ev_sync : Z; ev_turn : Z;
  ev_time1 : timespec; ev_time2 : timespec; ev_sched : timespec;
  ev_after : bool; ev_args : list Z; ev_wait : Z
}.

Definition newline : ascii := "010".
Definition endl : string := String newline "".

Definition time_text (t : timespec) : string :=
  print_dec (tv_sec t) +:+ ":" +:+ pad 9 (print_dec (tv_nsec t)).
Definition zero_time : timespec := Timespec 0 0.

(** [hex << " 0x" << a << " 0x" << b ...] *)
Fixpoint args_text (l : list Z) : string :=
  match l with
  | [] => ""
  | v :: l' => " 0x" +:+ print_hex v +:+ args_text l'
  end.

(** ** The cases of the switch *)
Definition log_nothing : list syncfunc.t :=
  [syncfunc.accept4; syncfunc.recv; syncfunc.recvfrom; syncfunc.recvmsg; syncfunc.select;
   syncfunc.poll; syncfunc.bind; syncfunc.listen; syncfunc.getsockopt; syncfunc.setsockopt;
   syncfunc.pipe; syncfunc.fcntl; syncfunc.shutdown; syncfunc.gethostbyname;
   syncfunc.gethostbyname_r; syncfunc.getaddrinfo; syncfunc.freeaddrinfo;
   syncfunc.gethostbyaddr; syncfunc.inet_ntoa; syncfunc.strtok; syncfunc.epoll_wait;
   syncfunc.epoll_create; syncfunc.epoll_ctl; syncfunc.sigwait; syncfunc.fgets; syncfunc.kill;
   syncfunc.fork; syncfunc.execv; syncfunc.sched_yield; syncfunc.wait; syncfunc.waitpid;
   syncfunc.tern_idle; syncfunc.tern_non_det_start; syncfunc.tern_non_det_end].
(** further cases of TxtLogger *)
Definition log_nothing_txt : list syncfunc.t :=
  [syncfunc.tern_dummy_sync; syncfunc.tern_set_flag; syncfunc.tern_ext_get_turn;
   syncfunc.tern_ext_put_turn].
Definition log_one : list syncfunc.t :=
  [syncfunc.pthread_mutex_init; syncfunc.pthread_mutex_destroy; syncfunc.pthread_mutex_lock;
   syncfunc.pthread_mutex_unlock; syncfunc.pthread_barrier_wait; syncfunc.pthread_barrier_destroy;
   syncfunc.pthread_cond_signal; syncfunc.pthread_cond_broadcast; syncfunc.sem_wait;
   syncfunc.sem_init; syncfunc.sem_post; syncfunc.pthread_join; syncfunc.pthread_detach;
   syncfunc.sleep; syncfunc.usleep; syncfunc.nanosleep; syncfunc.pthread_rwlock_rdlock;
   syncfunc.pthread_rwlock_wrlock; syncfunc.tern_lineup_start; syncfunc.tern_lineup_end;
   syncfunc.tern_lineup_destroy].
Definition log_two : list syncfunc.t :=
  [syncfunc.pthread_mutex_timedlock; syncfunc.pthread_cond_wait; syncfunc.pthread_barrier_init;
   syncfunc.pthread_create; syncfunc.pthread_mutex_trylock; syncfunc.sem_trywait;
   syncfunc.sem_timedwait; syncfunc.pthread_rwlock_tryrdlock; syncfunc.pthread_rwlock_trywrlock;
   syncfunc.pthread_rwlock_unlock].
Definition log_three : list syncfunc.t :=
  [syncfunc.pthread_cond_timedwait; syncfunc.read; syncfunc.pread; syncfunc.accept;
   syncfunc.write; syncfunc.pwrite; syncfunc.tern_lineup_init].
Definition log_four : list syncfunc.t := [syncfunc.connect].

(** the number of arguments the case of [sync] reads, None for the default case; [l0] are
    the cases that read nothing *)
Definition among (sync : Z) (l : list syncfunc.t) : bool := bool_decide (sync ∈ index_of <$> l).
Definition arity (l0 : list syncfunc.t) (sync : Z) : option nat :=
  if among sync l0 then Some 0%nat
  else if among sync log_one then Some 1%nat
  else if among sync log_two then Some 2%nat
  else if among sync log_three then Some 3%nat
  else if among sync log_four then Some 4%nat
  else None.
Definition txt_arity : Z -> option nat := arity (log_nothing ++ log_nothing_txt).
Definition test_arity : Z -> option nat := arity log_nothing.

(** "_first" or "_second" when the synchronisation has two records *)
Definition suffix (sync : Z) (after : bool) : string :=
  if NumRecordsForSync sync =? 2 then (if after then "_second" else "_first") else "".
Definition thread_event (sync : Z) : bool :=
  (sync =? index_of syncfunc.tern_thread_begin) || (sync =? index_of syncfunc.tern_thread_end).

Section txtlog.
Context `{O : Options}.

Definition sync_name (sync : Z) : TM string := fun l =>
  match getName sync with Ok s => Ok (s, l) | Err e => Err e end.

(** [k] times va_arg *)
Definition va_args (k : nat) (vl : list Z) : TM (list Z) :=
  if (k <=? length vl)%nat then mret (take k vl) else fail UninitRead.

(** the switch: an unknown synchronisation is reported to cerr *)
Definition log_args (k : option nat) (vl : list Z) : TM unit :=
  match k with
  | Some k => a ← va_args k vl; emit (args_text a)
  | None => cassert ndebug false "0"
  end.

(** ** TxtLogger *)
Definition set_iter_num (iter : Z) : TM unit :=
  modify (fun l => TxtLog iter (tx_tid l) (tx_ouf l)).

Definition header : string :=
  "itr_num op insid turn app_time syscall_time sched_time tid wait_type args".
Definition print_header : TM unit := emit (header +:+ endl).

Definition txt_logSync (e : sync_event) : TM unit :=
  let sync := ev_sync e in
  cassert ndebug ((first_sync <=? sync) && (sync <? num_syncs)) "trying to log unknown synchronization operation!" ;;
  name ← sync_name sync;
  l ← get;
  if thread_event sync then
    a ← va_args 1 (ev_args e);
    emit (print_dec (tx_iter l) +:+ " " +:+ name +:+ " " +:+ "0x" +:+ print_hex (ev_insid e) +:+ " " +:+
          print_dec (ev_turn e) +:+ " " +:+ time_text (ev_time1 e) +:+ " " +:+ time_text (ev_time2 e) +:+ " " +:+
          time_text (ev_sched e) +:+ " " +:+ print_dec (tx_tid l) +:+ " " +:+ print_dec (ev_wait e) +:+
          args_text a) ;;
    emit endl
  else
    emit (print_dec (tx_iter l) +:+ " " +:+ (name +:+ suffix sync (ev_after e)) +:+ " " +:+ "0x" +:+
          pad 8 (print_hex (ev_insid e)) +:+ " " +:+ print_dec (ev_turn e) +:+ " " +:+
          time_text (ev_time1 e) +:+ " " +:+ time_text (ev_time2 e) +:+ " " +:+ time_text (ev_sched e) +:+ " " +:+
          print_dec (tx_tid l) +:+ " " +:+ print_dec (ev_wait e)) ;;
    log_args (txt_arity sync) (ev_args e) ;;
    emit endl.

(** the constructor *)
Definition new_txtlog (tid : Z) : txtlog := TxtLog (-1) tid (header +:+ endl).

(** ** TestLogger: the same line without the iteration, the instruction, the times and the
    wait type *)
Definition test_logSync (e : sync_event) : TM unit :=
  let sync := ev_sync e in
  let insid := 0 in
  cassert ndebug ((first_sync <=? sync) && (sync <? num_syncs)) "trying to log unknown synchronization operation!" ;;
  name ← sync_name sync;
  l ← get;
  if thread_event sync then
    a ← va_args 1 (ev_args e);
    emit (name +:+ " " +:+ "0x" +:+ print_hex insid +:+ " " +:+ print_dec (ev_turn e) +:+ " " +:+
          time_text zero_time +:+ " " +:+ time_text zero_time +:+ " " +:+ time_text zero_time +:+ " " +:+
          print_dec (tx_tid l) +:+ args_text a) ;;
    emit endl
  else
    emit ((name +:+ suffix sync (ev_after e)) +:+ " " +:+ "0x" +:+ pad 8 (print_hex insid) +:+ " " +:+
          print_dec (ev_turn e) +:+ " " +:+ time_text zero_time +:+ " " +:+ time_text zero_time +:+ " " +:+
          time_text zero_time +:+ " " +:+ print_dec (tx_tid l)) ;;
    log_args (test_arity sync) (ev_args e) ;;
    emit endl.

(** the constructor *)
Definition new_testlog (tid : Z) : txtlog := TxtLog (-1) tid "".
(** ** Setting the iteration: the method of RecorderRT with a TxtLogger (the other loggers
    ignore it), its hook and the annotation, whose argument is an int *)
Definition rt_set_iter_num (iter : Z) : TM unit := when log_sync (set_iter_num iter).
Definition tern_set_iter_real (itr : Z) : TM unit := rt_set_iter_num itr.
Definition tern_set_iter (itr : Z) : TM unit := tern_set_iter_real (s32 itr).
End txtlog.

(** ** Reading a log *)

(** a record of a text log: [te_after] is known for synchronisations with two records *)
Record txt_rec : Type := TxtRec {
  te_iter : Z; te_sync : Z; te_after : option bool; te_insid : Z; te_turn : Z;
  te_time1 : timespec; te_time2 : timespec; te_sched : timespec;
  te_tid : Z; te_wait : Z; te_args : list Z
}.
(** a record of a test log *)
Record test_rec : Type := TestRec {
  tr_sync : Z; tr_after : option bool; tr_turn : Z; tr_tid : Z; tr_args : list Z
}.

Definition strip (suf w : string) : option string :=
  let n := (String.length w - String.length suf)%nat in
  if String.eqb (String.substring n (String.length suf) w) suf then Some (String.substring 0 n w) else None.
Definition read_name (w : string) : Z * option bool :=
  let id := getNameID w in
  if negb (id =? not_sync) then (id, None)
  else match strip "_second" w, strip "_first" w with
       | Some w', _ => (getNameID w', Some true)
       | _, Some w' => (getNameID w', Some false)
       | _, _ => (not_sync, None)
       end.
Definition read_hex (w : string) : Z :=
  match w with String _ (String _ s) => read_base 16 s | _ => 0 end.
Definition read_time (w : string) : timespec :=
  match split ":" w with
  | [s; ns] => Timespec (read_dec s) (read_dec ns)
  | _ => zero_time
  end.
Definition read_line (s : string) : option txt_rec :=
  match split " " s with
  | iter :: name :: insid :: turn :: t1 :: t2 :: t3 :: tid :: wait :: args =>
      let '(sync, after) := read_name name in
      Some (TxtRec (read_dec iter) sync after (read_hex insid) (read_dec turn) (read_time t1)
              (read_time t2) (read_time t3) (read_dec tid) (read_dec wait) (read_hex <$> args))
  | _ => None
  end.
Definition read_test_line (s : string) : option test_rec :=
  match split " " s with
  | name :: _ :: turn :: _ :: _ :: _ :: tid :: args =>
      let '(sync, after) := read_name name in
      Some (TestRec sync after (read_dec turn) (read_dec tid) (read_hex <$> args))
  | _ => None
  end.

(** the lines of a text that ends with a newline *)
Definition lines (s : string) : list string := removelast (split newline s).
Definition read_txt (s : string) : option (list txt_rec) := mapM read_line (tail (lines s)).
Definition read_test (s : string) : option (list test_rec) := mapM read_test_line (lines s).
