(* ===== verification/TxtLogThms.v ===== *)
(** * The text logs are read back as they were written *)
From Stdlib Require Import Ascii.
From S2P Require Import Prelude Options LogText SyncFuncs LogDefs SchedRun RtState TxtLog.
Open Scope string_scope.
Open Scope Z_scope.

(** ** Lines *)
Fixpoint text (ls : list string) : string :=
  match ls with [] => "" | l :: ls' => l +:+ endl +:+ text ls' end.

Lemma text_app l1 l2 : text (l1 ++ l2)%list = text l1 +:+ text l2.
Proof. induction l1 as [|l l1 IH]; [done|]. cbn [app text]. by rewrite IH, !str_app_assoc. Qed.
Lemma split_word c w s : lacks c w = true -> split c (w +:+ String c "" +:+ s) = w :: split c s.
Proof. apply split_app. Qed.
Lemma split_ne c s : split c s <> [].
Proof. destruct s as [|a s]; [done|]. simpl. destruct (Ascii.eqb a c); [done|]. by destruct (split c s). Qed.
Lemma lines_text ls : Forall (fun l => lacks newline l = true) ls -> lines (text ls) = ls.
Proof.
  unfold lines. induction 1 as [|l ls Hl _ IH]; [done|]. cbn [text]. unfold endl.
  rewrite split_word by done. cbn [removelast]. rewrite IH.
  by destruct (split newline (text ls)) eqn:E; [apply split_ne in E|].
Qed.

(** ** Words *)
Definition sep (c : ascii) : Prop := c = " "%char \/ c = newline.
Lemma sep_digit c : sep c -> c = " "%char \/ c = ":"%char \/ c = "010"%char.
Proof. unfold sep, newline. naive_solver. Qed.
Lemma dec_lacks c n : sep c -> lacks c (print_dec n) = true.
Proof. intros H. by apply print_dec_lacks, sep_digit. Qed.
Lemma hex_chars n : 0 <= n -> all_chars is_digit (print_hex n) = true.
Proof. intros H. apply print_chars; lia. Qed.
Lemma hexw_lacks c s : sep c -> all_chars is_digit s = true -> lacks c ("0x" +:+ s) = true.
Proof. intros Hc Hs. rewrite lacks_app, (digits_lack c s) by auto using sep_digit. by destruct Hc as [->| ->]. Qed.
Lemma nsec_chars n w : 0 <= n -> all_chars is_digit (pad w (print_dec n)) = true.
Proof.
  intros H. apply pad_chars. unfold print_dec. rewrite (proj2 (Z.ltb_ge n 0)) by done. apply print_chars; lia.
Qed.
Lemma time_lacks c t : sep c -> 0 <= tv_nsec t -> lacks c (time_text t) = true.
Proof.
  intros Hc Ht. unfold time_text. rewrite !lacks_app, dec_lacks by done.
  rewrite (digits_lack c (pad _ _)) by auto using sep_digit, nsec_chars. by destruct Hc as [->| ->].
Qed.
Lemma read_nsec n w : 0 <= n -> read_dec (pad w (print_dec n)) = n.
Proof.
  intros H. assert (E : read_dec (pad w (print_dec n)) = read_base 10 (pad w (print_dec n))).
  { pose proof (nsec_chars n w H) as Hc. destruct (pad w (print_dec n)) as [|a s]; [done|].
    simpl in Hc. destruct a as [[] [] [] [] [] [] [] []]; done. }
  rewrite E, read_pad. unfold print_dec. rewrite (proj2 (Z.ltb_ge n 0)) by done. apply read_print; lia.
Qed.
Lemma read_time_text t : 0 <= tv_nsec t -> read_time (time_text t) = t.
Proof.
  intros H. unfold read_time, time_text. change ":" with (String ":"%char "").
  rewrite split_word by (apply print_dec_lacks; auto).
  rewrite split_last by (apply digits_lack; auto using nsec_chars).
  rewrite read_print_dec, read_nsec by done. by destruct t.
Qed.
Lemma read_hex_word s : read_hex ("0x" +:+ s) = read_base 16 s.
Proof. done. Qed.
Lemma read_hex_print n : 0 <= n -> read_hex ("0x" +:+ print_hex n) = n.
Proof. intros H. rewrite read_hex_word. apply read_print; lia. Qed.
Lemma read_hex_pad n w : 0 <= n -> read_hex ("0x" +:+ pad w (print_hex n)) = n.
Proof. intros H. rewrite read_hex_word, read_pad. apply read_print; lia. Qed.

(** the last word and the arguments that follow it *)
Lemma split_args w args : lacks " " w = true -> Forall (fun v => 0 <= v) args ->
  exists ws, split " " (w +:+ args_text args) = w :: ws /\ read_hex <$> ws = args.
Proof.
  intros Hw Hargs. revert w Hw. induction Hargs as [|v args Hv Hargs IH]; intros w Hw.
  - exists []. cbn [args_text]. by rewrite str_app_nil, split_last.
  - cbn [args_text]. change (" 0x" +:+ print_hex v +:+ args_text args)
      with (String " " "" +:+ ("0x" +:+ print_hex v) +:+ args_text args).
    rewrite split_word by done.
    destruct (IH ("0x" +:+ print_hex v)) as (ws & -> & E); [apply hexw_lacks; [by left|by apply hex_chars]|].
    exists (("0x" +:+ print_hex v) :: ws). split; [done|]. by rewrite fmap_cons, E, read_hex_print.
Qed.
Lemma args_lack args : Forall (fun v => 0 <= v) args -> lacks newline (args_text args) = true.
Proof.
  induction 1 as [|v args Hv _ IH]; [done|]. cbn [args_text].
  rewrite !lacks_app, IH, (digits_lack newline (print_hex v)); [done|by auto|by apply hex_chars].
Qed.

(** ** Names *)
Definition rec_after (sync : Z) (after : bool) : option bool :=
  if NumRecordsForSync sync =? 2 then Some after else None.
Definition name_ok (sync : Z) : Prop :=
  match getName sync with
  | Ok n => forall after, lacks " " (n +:+ suffix sync after) = true /\
      lacks newline (n +:+ suffix sync after) = true /\
      read_name (n +:+ suffix sync after) = (sync, rec_after sync after)
  | Err _ => False
  end.
Lemma names_ok : Forall name_ok (seqZ first_sync (num_syncs - first_sync)).
Proof.
  assert (H : forallb (fun sync => match getName sync with
      | Ok n => forallb (fun after => lacks " " (n +:+ suffix sync after) && lacks newline (n +:+ suffix sync after) &&
          bool_decide (read_name (n +:+ suffix sync after) = (sync, rec_after sync after))) [true; false]
      | Err _ => false end) (seqZ first_sync (num_syncs - first_sync)) = true) by (vm_compute; reflexivity).
  apply Forall_forall. intros sync Hin. rewrite forallb_forall in H. apply list_elem_of_In in Hin.
  specialize (H sync Hin). unfold name_ok. destruct (getName sync) as [n|]; [|done].
  rewrite forallb_forall in H. intros after. specialize (H after).
  rewrite !andb_true_iff, bool_decide_eq_true in H. destruct H as [[??]?]; [destruct after; simpl; auto|]. done.
Qed.
Lemma name_known sync : first_sync <= sync < num_syncs ->
  exists n, getName sync = Ok n /\ forall after, lacks " " (n +:+ suffix sync after) = true /\
      lacks newline (n +:+ suffix sync after) = true /\
      read_name (n +:+ suffix sync after) = (sync, rec_after sync after).
Proof.
  intros H. pose proof names_ok as Hall. rewrite Forall_forall in Hall.
  specialize (Hall sync). unfold name_ok in Hall. destruct (getName sync) as [n|].
  - exists n. split; [done|]. apply Hall, elem_of_seqZ. lia.
  - destruct Hall. apply elem_of_seqZ. lia.
Qed.
Lemma thread_suffix sync after : thread_event sync = true -> suffix sync after = "".
Proof. unfold thread_event. rewrite orb_true_iff, !Z.eqb_eq. by intros [->| ->]. Qed.

(** ** One record *)

(** the number of arguments of a line *)
Definition line_arity (ar : Z -> option nat) (sync : Z) : option nat :=
  if thread_event sync then Some 1%nat else ar sync.
(** logSync can write the event: the synchronisation is known, it has enough arguments,
    and unsigned values are not negative *)
Definition event_ok (ar : Z -> option nat) (e : sync_event) : Prop :=
  first_sync <= ev_sync e < num_syncs /\
  match line_arity ar (ev_sync e) with Some k => (k <= length (ev_args e))%nat | None => False end /\
  0 <= ev_insid e /\ 0 <= tv_nsec (ev_time1 e) /\ 0 <= tv_nsec (ev_time2 e) /\ 0 <= tv_nsec (ev_sched e) /\
  Forall (fun v => 0 <= v) (ev_args e).
#[export] Instance event_ok_dec ar e : Decision (event_ok ar e).
Proof. unfold event_ok. destruct (line_arity ar (ev_sync e)); apply _. Defined.

Definition shown_args (ar : Z -> option nat) (e : sync_event) : list Z :=
  take (default 0%nat (line_arity ar (ev_sync e))) (ev_args e).
Definition event_rec (iter tid : Z) (e : sync_event) : txt_rec :=
  TxtRec iter (ev_sync e) (rec_after (ev_sync e) (ev_after e)) (ev_insid e) (ev_turn e)
    (ev_time1 e) (ev_time2 e) (ev_sched e) tid (ev_wait e) (shown_args txt_arity e).
Definition event_test (tid : Z) (e : sync_event) : test_rec :=
  TestRec (ev_sync e) (rec_after (ev_sync e) (ev_after e)) (ev_turn e) tid (shown_args test_arity e).

(** [line] is the line of a logger that a reader understands as [r] *)
Definition wrote {A} (read : string -> option A) (r : A) (l l' : txtlog) : Prop :=
  exists line, lacks newline line = true /\ read line = Some r /\
    l' = TxtLog (tx_iter l) (tx_tid l) (tx_ouf l +:+ line +:+ endl).

Definition txt_line (iter : Z) (name hexw : string) (turn : Z) (t1 t2 t3 : timespec) (tid wait : Z)
    (args : list Z) : string :=
  print_dec iter +:+ " " +:+ name +:+ " " +:+ ("0x" +:+ hexw) +:+ " " +:+ print_dec turn +:+ " " +:+
  time_text t1 +:+ " " +:+ time_text t2 +:+ " " +:+ time_text t3 +:+ " " +:+ print_dec tid +:+ " " +:+
  print_dec wait +:+ args_text args.
Definition test_line (name hexw : string) (turn tid : Z) (args : list Z) : string :=
  name +:+ " " +:+ ("0x" +:+ hexw) +:+ " " +:+ print_dec turn +:+ " " +:+
  time_text zero_time +:+ " " +:+ time_text zero_time +:+ " " +:+ time_text zero_time +:+ " " +:+
  print_dec tid +:+ args_text args.

Lemma sep_space : sep " ".
Proof. by left. Qed.
Lemma sep_newline : sep newline.
Proof. by right. Qed.
#[local] Hint Resolve sep_space sep_newline dec_lacks time_lacks hexw_lacks : minsmt.

Section lines.
Context (name hexw : string) (turn tid : Z) (args : list Z) (sync : Z) (after : option bool).
Context (Hn1 : lacks " " name = true) (Hn2 : lacks newline name = true)
  (Hname : read_name name = (sync, after)) (Hhex : all_chars is_digit hexw = true)
  (Hargs : Forall (fun v => 0 <= v) args).

Lemma read_txt_line iter t1 t2 t3 wait insid : read_base 16 hexw = insid ->
  0 <= tv_nsec t1 -> 0 <= tv_nsec t2 -> 0 <= tv_nsec t3 ->
  let line := txt_line iter name hexw turn t1 t2 t3 tid wait args in
  read_line line = Some (TxtRec iter sync after insid turn t1 t2 t3 tid wait args) /\
  lacks newline line = true.
Proof using Hn1 Hn2 Hname Hhex Hargs.
  intros Hid H1 H2 H3 line. unfold line, txt_line. split.
  - unfold read_line. change " " with (String " "%char "").
    do 8 (rewrite split_word by auto with minsmt).
    destruct (split_args (print_dec wait) args) as (ws & -> & E); [auto with minsmt|done|].
    by rewrite Hname, !read_print_dec, !read_time_text, read_hex_word, Hid, E by done.
  - pose proof sep_newline. by rewrite !(lacks_app newline), !dec_lacks, !time_lacks, Hn2, args_lack, (digits_lack newline hexw) by (done || auto).
Qed.
Lemma read_testline : let line := test_line name hexw turn tid args in
  read_test_line line = Some (TestRec sync after turn tid args) /\ lacks newline line = true.
Proof using Hn1 Hn2 Hname Hhex Hargs.
  intros line. unfold line, test_line. split.
  - unfold read_test_line. change " " with (String " "%char "").
    do 6 (rewrite split_word by auto with minsmt).
    destruct (split_args (print_dec tid) args) as (ws & -> & E); [auto with minsmt|done|].
    by rewrite Hname, !read_print_dec, E.
  - pose proof sep_newline. by rewrite !(lacks_app newline), !dec_lacks, !time_lacks, Hn2, args_lack, (digits_lack newline hexw) by (done || auto).
Qed.
End lines.

Section loggers.
Context `{O : Options}.

Lemma wp_va_args {X} k vl (Q : list Z -> txtlog -> Prop) l : (k <= length vl)%nat -> Q (take k vl) l ->
  wpx X (va_args k vl) Q l.
Proof using Type. intros H. unfold va_args. by rewrite (proj2 (Nat.leb_le _ _) H). Qed.

Lemma txt_logSync_wrote {X} e l : event_ok txt_arity e ->
  wpx X (txt_logSync e) (fun _ l' => wrote read_line (event_rec (tx_iter l) (tx_tid l) e) l l') l.
Proof using Type.
  intros (Hs & Har & Hid & H1 & H2 & H3 & Hargs). unfold txt_logSync, event_rec, shown_args. unfold line_arity in *.
  wp_step. apply wp_cassert; [apply andb_true_iff; lia|]. wp_step. unfold sync_name.
  destruct (name_known _ Hs) as (n & Hn & Hname). destruct (Hname (ev_after e)) as (N1 & N2 & N3).
  unfold wpx at 1. rewrite Hn. wp_step. wp_step. destruct (thread_event (ev_sync e)) eqn:Ht.
  - rewrite (thread_suffix _ _ Ht), str_app_nil in *. wp_step. apply wp_va_args; [done|]. unfold emit. wp_steps.
    destruct (read_txt_line n (print_hex (ev_insid e)) (ev_turn e) (tx_tid l) (take 1 (ev_args e)) _ _ N1 N2 N3
      ltac:(by apply hex_chars) ltac:(by apply Forall_take) (tx_iter l) _ _ _ (ev_wait e) (ev_insid e)
      ltac:(apply read_print; lia) H1 H2 H3) as [Hr Hl].
    eexists. split_and!; [exact Hl|exact Hr|]. cbn. unfold txt_line. by rewrite !str_app_assoc.
  - destruct (txt_arity (ev_sync e)) as [k|] eqn:Hk; [|done]. unfold log_args, emit.
    wp_steps. apply wp_va_args; [done|]. wp_steps.
    destruct (read_txt_line (n +:+ suffix (ev_sync e) (ev_after e)) (pad 8 (print_hex (ev_insid e))) (ev_turn e) (tx_tid l)
      (take k (ev_args e)) _ _ N1 N2 N3 ltac:(by apply pad_chars, hex_chars) ltac:(by apply Forall_take)
      (tx_iter l) _ _ _ (ev_wait e) (ev_insid e) ltac:(rewrite read_pad; apply read_print; lia) H1 H2 H3) as [Hr Hl].
    eexists. split_and!; [exact Hl|exact Hr|]. cbn. unfold txt_line. by rewrite !str_app_assoc.
Qed.

(** the line of a record of a test log *)
Definition rec_suffix (after : option bool) : string :=
  match after with None => "" | Some true => "_second" | Some false => "_first" end.
Definition test_line_of (r : test_rec) : string :=
  test_line (match getName (tr_sync r) with Ok n => n | Err _ => "" end +:+ rec_suffix (tr_after r))
    (if thread_event (tr_sync r) then print_hex 0 else pad 8 (print_hex 0)) (tr_turn r) (tr_tid r) (tr_args r).
Lemma suffix_rec sync after : suffix sync after = rec_suffix (rec_after sync after).
Proof using Type. unfold suffix, rec_after. destruct (_ =? 2); [by destruct after|done]. Qed.

Lemma test_logSync_line {X} e l : event_ok test_arity e ->
  wpx X (test_logSync e) (fun _ l' =>
    l' = TxtLog (tx_iter l) (tx_tid l) (tx_ouf l +:+ test_line_of (event_test (tx_tid l) e) +:+ endl)) l.
Proof using Type.
  intros (Hs & Har & _). unfold test_logSync, test_line_of, event_test, shown_args. cbn [tr_sync tr_after tr_turn tr_tid tr_args].
  unfold line_arity in *. wp_step. apply wp_cassert; [apply andb_true_iff; lia|]. wp_step. unfold sync_name.
  destruct (name_known _ Hs) as (n & Hn & _). rewrite <-suffix_rec.
  unfold wpx at 1. rewrite Hn. wp_step. wp_step. destruct (thread_event (ev_sync e)) eqn:Ht.
  - rewrite (thread_suffix _ _ Ht), str_app_nil. wp_step. apply wp_va_args; [done|]. unfold emit. wp_steps.
    unfold test_line. cbn [tx_iter tx_tid tx_ouf]. by rewrite !str_app_assoc.
  - destruct (test_arity (ev_sync e)) as [k|] eqn:Hk; [|done]. unfold log_args, emit.
    wp_steps. apply wp_va_args; [done|]. wp_steps.
    unfold test_line. cbn [tx_iter tx_tid tx_ouf default id]. by rewrite !str_app_assoc.
Qed.
Lemma test_line_read tid e : event_ok test_arity e ->
  read_test_line (test_line_of (event_test tid e)) = Some (event_test tid e) /\
  lacks newline (test_line_of (event_test tid e)) = true.
Proof using Type.
  intros (Hs & _ & _ & _ & _ & _ & Hargs). destruct (name_known _ Hs) as (n & Hn & Hname).
  destruct (Hname (ev_after e)) as (N1 & N2 & N3). unfold test_line_of. cbn [event_test tr_sync tr_after tr_turn tr_tid tr_args].
  rewrite Hn, <-suffix_rec. apply read_testline; [done|done|done| |by apply Forall_take].
  by destruct (thread_event (ev_sync e)).
Qed.

(** ** Whole logs *)

(** the state after the lines [ls] *)
Definition written (iter tid : Z) (ls : list string) (l : txtlog) : Prop :=
  tx_iter l = iter /\ tx_tid l = tid /\ tx_ouf l = text ls.
Lemma written_snoc iter tid ls line l : written iter tid ls l ->
  written iter tid (ls ++ [line]) (TxtLog (tx_iter l) (tx_tid l) (tx_ouf l +:+ line +:+ endl)).
Proof using Type.
  intros (H1 & H2 & H3). split_and!; [done|done|]. cbn [tx_ouf].
  rewrite text_app, H3. cbn [text]. by rewrite str_app_nil.
Qed.

(** what the runtime does with a TxtLogger *)
Inductive txt_op : Type := TIter (iter : Z) | TSync (e : sync_event).
Definition run_txt_op (o : txt_op) : TM unit :=
  match o with TIter n => set_iter_num n | TSync e => txt_logSync e end.
Definition txt_op_ok (o : txt_op) : Prop :=
  match o with TIter _ => True | TSync e => event_ok txt_arity e end.
Fixpoint txt_recs (iter tid : Z) (ops : list txt_op) : list txt_rec :=
  match ops with
  | [] => []
  | TIter n :: ops' => txt_recs n tid ops'
  | TSync e :: ops' => event_rec iter tid e :: txt_recs iter tid ops'
  end.

Lemma txt_ops_written tid ops : Forall txt_op_ok ops -> forall iter ls l,
  written iter tid ls l -> Forall (fun s => lacks newline s = true) ls ->
  wp (for_each run_txt_op ops) (fun _ l' => exists ls' iter', written iter' tid (ls ++ ls') l' /\
    Forall (fun s => lacks newline s = true) (ls ++ ls') /\ mapM read_line ls' = Some (txt_recs iter tid ops)) l.
Proof using Type.
  induction 1 as [|o ops Ho _ IH]; intros iter ls l Hl Hls; cbn [for_each txt_recs].
  - wp_steps. exists [], iter. by rewrite app_nil_r.
  - wp_step. destruct o as [n|e]; cbn [run_txt_op txt_op_ok] in *.
    + unfold set_iter_num. wp_steps. apply IH; [|done]. by destruct Hl as (_ & ? & ?).
    + eapply wp_mono; [by apply txt_logSync_wrote|]. cbn beta. intros _ l1 (line & H1 & H2 & ->).
      pose proof Hl as (E1 & E2 & _). rewrite E1, E2 in H2. eapply wp_mono.
      { apply (IH iter (ls ++ [line])%list); [by apply written_snoc|]. apply Forall_app. by repeat constructor. }
      cbn beta. intros _ l' (ls' & iter' & W1 & W2 & W3). exists (line :: ls'), iter'.
      rewrite <-app_assoc in W1, W2. split_and!; [done..|]. cbn. by rewrite H2, W3.
Qed.

Lemma test_ops_written tid es : Forall (event_ok test_arity) es -> forall iter ls l,
  written iter tid ls l ->
  wp (for_each test_logSync es) (fun _ l' => written iter tid (ls ++ (test_line_of <$> (event_test tid <$> es))) l') l.
Proof using Type.
  induction 1 as [|e es He _ IH]; intros iter ls l Hl; cbn [for_each].
  - wp_steps. by rewrite app_nil_r.
  - wp_step. eapply wp_mono; [by apply test_logSync_line|]. cbn beta. intros _ l1 ->.
    pose proof Hl as (_ & E2 & _). rewrite E2 in *. rewrite <-E2 at 1. eapply wp_mono; [apply IH, written_snoc; rewrite ?E2; exact Hl|].
    cbn beta. intros _ l'. rewrite !fmap_cons. by rewrite <-app_assoc.
Qed.
End loggers.

(** ** Claims *)
Section claims.
Context `{O : Options}.

(** C22: the text log can be read back.  A TxtLogger that is given any sequence of
    iteration numbers and synchronisations it can write (each known to the switch, with
    at least the arguments its case reads, and no negative nanoseconds) writes them all
    without an error, and reading its file gives back every field of every record: the
    iteration, the synchronisation and which half of it, the instruction, the turn, the
    three times, the thread, the wait type and the arguments. *)
Theorem txt_log_roundtrip tid ops : Forall txt_op_ok ops ->
  exists l, for_each run_txt_op ops (new_txtlog tid) = Ok (tt, l) /\
    read_txt (tx_ouf l) = Some (txt_recs (-1) tid ops).
Proof using Type.
  intros Hok. assert (W0 : written (-1) tid [header] (new_txtlog tid)) by done.
  destruct (wp_elim _ _ _ (txt_ops_written tid ops Hok _ _ _ W0 ltac:(by constructor)))
    as ([] & l & Hrun & ls & iter & (_ & _ & W) & Hls & Hread).
  exists l. split; [done|]. unfold read_txt. by rewrite W, lines_text.
Qed.

(** C23: the test logs show exactly the schedule.  The files that two TestLoggers write are
    equal, byte for byte, if and only if the threads made the same synchronisations at
    the same turns with the same arguments and have the same number; instructions,
    times, wait types and iterations make no difference. *)
Theorem test_logs_equal tid1 es1 tid2 es2 l1 l2 :
  Forall (event_ok test_arity) es1 -> Forall (event_ok test_arity) es2 ->
  for_each test_logSync es1 (new_testlog tid1) = Ok (tt, l1) ->
  for_each test_logSync es2 (new_testlog tid2) = Ok (tt, l2) ->
  tx_ouf l1 = tx_ouf l2 <-> event_test tid1 <$> es1 = event_test tid2 <$> es2.
Proof using Type.
  assert (Hlog : forall tid es l, Forall (event_ok test_arity) es ->
    for_each test_logSync es (new_testlog tid) = Ok (tt, l) ->
    tx_ouf l = text (test_line_of <$> (event_test tid <$> es)) /\
    read_test (tx_ouf l) = Some (event_test tid <$> es)).
  { intros tid es l Hok Hrun. assert (W0 : written (-1) tid [] (new_testlog tid)) by done.
    pose proof (test_ops_written tid es Hok _ _ _ W0) as W. unfold wpx in W. rewrite Hrun in W.
    destruct W as (_ & _ & W). rewrite W. split; [done|]. unfold read_test. rewrite app_nil_l, lines_text.
    - apply mapM_Some. clear -Hok. induction Hok as [|e es He _ IH]; [constructor|].
      constructor; [by apply test_line_read|apply IH].
    - rewrite !Forall_fmap. eapply Forall_impl; [exact Hok|]. intros e He. by apply test_line_read. }
  intros Hok1 Hok2 H1 H2. apply Hlog in H1 as [O1 R1]; [|done]. apply Hlog in H2 as [O2 R2]; [|done].
  split; intros E; [rewrite E in R1; congruence|]. by rewrite O1, O2, E.
Qed.

(** synchronisations that the text log cannot write.  The runtime logs the
    initialisation and the destruction of a read-write lock and tern_symbolic, but the
    switch of TxtLogger has no case for them: a debug build stops with a failed assertion
    on every such event, and a build with NDEBUG writes a line without the arguments. *)
Theorem unhandled_syncs f e l :
  f ∈ [syncfunc.pthread_rwlock_init; syncfunc.pthread_rwlock_destroy; syncfunc.tern_symbolic] ->
  ev_sync e = index_of f ->
  0 <= ev_insid e -> 0 <= tv_nsec (ev_time1 e) -> 0 <= tv_nsec (ev_time2 e) -> 0 <= tv_nsec (ev_sched e) ->
  if ndebug
  then exists l' line r, txt_logSync e l = Ok (tt, l') /\ tx_ouf l' = tx_ouf l +:+ line +:+ endl /\
    read_line line = Some r /\ te_sync r = index_of f /\ te_args r = []
  else txt_logSync e l = Err (AssertFail "0").
Proof using Type.
  intros Hf Hs Hid H1 H2 H3.
  assert (Hc : first_sync <= index_of f < num_syncs /\ thread_event (index_of f) = false /\ txt_arity (index_of f) = None).
  { rewrite !elem_of_cons, elem_of_nil in Hf. destruct Hf as [->|[->|[->|[]]]]; vm_compute; by repeat split. }
  destruct Hc as (Hr & Ht & Ha). destruct (name_known _ Hr) as (n & Hn & Hname).
  destruct (Hname (ev_after e)) as (N1 & N2 & N3).
  assert (Hb : (first_sync <=? index_of f) && (index_of f <? num_syncs) = true) by (apply andb_true_iff; lia).
  unfold txt_logSync. rewrite Hs. unfold log_args, sync_name, cassert, emit, modify, get, mbind, M_bind, mret, M_ret.
  rewrite Hb, Hn, Ht, Ha. destruct ndebug; [|done]. cbn [orb].
  destruct (read_txt_line (n +:+ suffix (index_of f) (ev_after e)) (pad 8 (print_hex (ev_insid e))) (ev_turn e) (tx_tid l)
    [] _ _ N1 N2 N3 ltac:(by apply pad_chars, hex_chars) ltac:(constructor)
    (tx_iter l) _ _ _ (ev_wait e) (ev_insid e) ltac:(rewrite read_pad; apply read_print; lia) H1 H2 H3) as [Hrd Hl].
  do 3 eexists. split_and!; [reflexivity| |exact Hrd|done|done]. cbn [tx_ouf]. unfold txt_line.
  cbn [args_text]. by rewrite str_app_nil, !str_app_assoc.
Qed.
End claims.

(** ** Witnesses *)
Section witnesses.
Definition ev_lock : sync_event :=
  Event 1234 (index_of syncfunc.pthread_mutex_lock) 7 (Timespec 1 5) (Timespec 0 999999999) (Timespec 0 0) true [500] 2.
Definition ev_wait1 : sync_event :=
  Event 99 (index_of syncfunc.pthread_cond_wait) 8 zero_time zero_time zero_time false [300; 500; 77] 0.
Definition ev_begin : sync_event :=
  Event 5 (index_of syncfunc.tern_thread_begin) 3 zero_time zero_time zero_time true [140737] 1.
Local Existing Instance sample_options.

Ltac solve_events :=
  repeat first [apply Forall_nil_2 | apply Forall_cons_2];
  cbn [txt_op_ok]; first [exact I | apply (bool_decide_unpack _); vm_compute; exact I].
Lemma txt_log_roundtrip_witness :
  exists l, for_each run_txt_op [TSync ev_begin; TIter 4; TSync ev_lock; TSync ev_wait1] (new_txtlog 2) = Ok (tt, l) /\
    read_txt (tx_ouf l) = Some (txt_recs (-1) 2 [TSync ev_begin; TIter 4; TSync ev_lock; TSync ev_wait1]).
Proof.
  apply txt_log_roundtrip. solve_events.
Defined.

Definition test_out (tid : Z) (es : list sync_event) : txtlog :=
  match for_each test_logSync es (new_testlog tid) with Ok (_, l) => l | Err _ => new_testlog tid end.
Definition ev_lock_later : sync_event :=
  Event 777 (index_of syncfunc.pthread_mutex_lock) 7 (Timespec 3 1) zero_time zero_time true [500] 0.
Lemma test_logs_equal_witness :
  tx_ouf (test_out 2 [ev_begin; ev_lock]) = tx_ouf (test_out 2 [ev_begin; ev_lock_later]) <->
  event_test 2 <$> [ev_begin; ev_lock] = event_test 2 <$> [ev_begin; ev_lock_later].
Proof.
  apply test_logs_equal.
  - solve_events.
  - solve_events.
  - vm_compute. reflexivity.
  - vm_compute. reflexivity.
Defined.

Definition ev_symbolic : sync_event :=
  Event 1 (index_of syncfunc.tern_symbolic) 2 zero_time zero_time zero_time true [8; 4] 0.
Lemma unhandled_syncs_witness : txt_logSync ev_symbolic (new_txtlog 0) = Err (AssertFail "0").
Proof.
  apply (@unhandled_syncs sample_options syncfunc.tern_symbolic ev_symbolic (new_txtlog 0)).
  - apply (bool_decide_unpack _). vm_compute. exact I.
  - reflexivity.
  - done.
  - done.
  - done.
  - done.
Defined.
End witnesses.
