(* ===== verification/SchedTurns.v ===== *)
(** * How many turns there are

    Whatever the state of the queues, no operation of the scheduler makes a second turn:
    the operations of a thread that has the turn post none, the operations that give it
    up post at most one, and getTurn takes the one that was posted to its caller.  This
    needs no invariant of the run queue and holds for all scheduling policies. *)
From S2P Require Import Prelude Options RunQueue TidMap NonDetSet Scheduler SchedInv SchedOps.

Create HintDb turns.

(** errors of any kind: the statements below are about the calls that return *)
Definition any_error (_ : error) : Prop := True.

Section turns.
Context `{O : Options, U : UnorderedIter, G : GlobalAddrs}.

(** the turn is with [tok]: posted to a thread, held by one, or with nobody *)
Definition turn_at (tok : turn_state) (s : sched) : Prop := forall t,
  turns (wait_of s t) = if decide (tok = Posted t) then 1 else 0.
Definition no_turns (s : sched) : Prop := forall t, turns (wait_of s t) = 0.

Lemma turn_at_held t s : turn_at (Held t) s <-> no_turns s.
Proof using Type. split; intros H t'; specialize (H t'); by rewrite decide_False in *. Qed.
Lemma turn_at_over s : turn_at Over s <-> no_turns s.
Proof using Type. split; intros H t'; specialize (H t'); by rewrite decide_False in *. Qed.

(** the invariant of the scheduler says where the turn is *)
Lemma inv_turn_at s rq tok : sched_inv s rq tok -> turn_at tok s.
Proof using Type.
  intros [C _ _] t. rewrite (ax_turns _ _ _ _ (co_aux _ _ _ _ C)). destruct tok; simpl;
    repeat case_decide; congruence.
Qed.

(** ** Operations that post no turn *)
Definition keeps {A} (m : SM A) : Prop := forall s, no_turns s ->
  wpx any_error m (fun _ s' => no_turns s') s.

Lemma keeps_ret {A} (a : A) : keeps (mret a).
Proof using Type. by intros s Hs. Qed.
Lemma keeps_bind {A B} (m : SM A) (k : A -> SM B) :
  keeps m -> (forall a, keeps (k a)) -> keeps (m ≫= k).
Proof using Type. intros Hm Hk s Hs. wp_step. eapply wp_mono; [by apply Hm|]. cbn beta. intros a s'. apply Hk. Qed.
Lemma keeps_fail {A} e : keeps (fail (A := A) e).
Proof using Type. done. Qed.
Lemma keeps_gets {A} (f : sched -> A) : keeps (gets f).
Proof using Type. by intros s Hs. Qed.
Lemma keeps_get : keeps get.
Proof using Type. by intros s Hs. Qed.
Lemma keeps_modify f : (forall s, s_waits (f s) = s_waits s) -> keeps (modify f).
Proof using Type. intros Hf s Hs t. specialize (Hs t). unfold wait_of in *. by rewrite Hf. Qed.
Lemma keeps_zoom {T A} (g : sched -> T) p (m : M T A) :
  (forall t s, s_waits (p t s) = s_waits s) -> keeps (zoom g p m).
Proof using Type.
  intros Hp s Hs. unfold zoom, wpx. destruct (m (g s)) as [[a t]|e]; [|done].
  intros t'. specialize (Hs t'). unfold wait_of in *. by rewrite Hp.
Qed.
Lemma keeps_when b m : keeps m -> keeps (when b m).
Proof using Type. destruct b; [done|]. intros _. apply keeps_ret. Qed.
Lemma keeps_cassert nd b msg : keeps (cassert nd b msg).
Proof using Type. unfold cassert. destruct (_ || _); [apply keeps_ret|apply keeps_fail]. Qed.
Lemma keeps_for_each {A} (f : A -> SM unit) l : (forall x, keeps (f x)) -> keeps (for_each f l).
Proof using Type. intros Hf. induction l; simpl; [apply keeps_ret|]. by apply keeps_bind. Qed.
Lemma keeps_waits_get t : keeps (waits_get t).
Proof using Type. unfold waits_get. destruct (in_range t); [apply keeps_gets|apply keeps_fail]. Qed.
Lemma keeps_waits_upd t f : (forall w, turns w = 0 -> turns (f w) = 0) -> keeps (waits_upd t f).
Proof using Type.
  intros Hf s Hs. unfold waits_upd. destruct (in_range t); [|done].
  intros t'. unfold wait_of at 1. cbn. destruct (decide (t' = t)) as [->|].
  - rewrite lookup_insert_eq. simpl. apply Hf, Hs.
  - rewrite lookup_insert_ne by done. apply Hs.
Qed.
Lemma turns_reset st w : turns w = 0 -> turns (wt_reset st w) = 0.
Proof using Type. unfold turns. simpl. by destruct (_ =? 1). Qed.

Hint Resolve keeps_ret keeps_fail keeps_gets keeps_get keeps_when keeps_cassert keeps_for_each
  keeps_waits_get turns_reset : turns.

(** split a computation into its steps *)
Ltac keep :=
  repeat first
    [ progress intros
    | solve [auto with turns]
    | apply keeps_bind
    | apply keeps_when
    | apply keeps_cassert
    | apply keeps_modify; done
    | apply keeps_zoom; done
    | apply keeps_waits_upd; solve [auto with turns]
    | apply keeps_for_each
    | match goal with |- keeps (match ?x with _ => _ end) => destruct x end ].

Context (Htt : 0 <= enforce_turn_type <= 2).
Lemma turn_type_nonneg : (0 <=? enforce_turn_type) = true /\ (enforce_turn_type <? 0) = false.
Proof using Htt. lia. Qed.

Lemma keeps_assert_tid t : keeps (assert_tid t).
Proof using Type. unfold assert_tid. keep. Qed.
Lemma keeps_assert_front t : keeps (assert_front t).
Proof using Type. unfold assert_front, on_runq. keep. Qed.
Lemma keeps_assert_nonempty : keeps assert_runq_nonempty.
Proof using Type. unfold assert_runq_nonempty, on_runq. keep. Qed.
Lemma keeps_on_runq {A} (m : R A) : keeps (on_runq m).
Proof using Type. unfold on_runq. keep. Qed.
Lemma keeps_on_hp_runq {A} (m : R A) : keeps (on_hp_runq m).
Proof using Type. unfold on_hp_runq. keep. Qed.
Lemma keeps_on_tids {A} (m : M tidmap A) : keeps (on_tids m).
Proof using Type. unfold on_tids. keep. Qed.
Lemma keeps_on_non_det {A} (m : M non_det_thread_set A) : keeps (on_non_det m).
Proof using Type. unfold on_non_det. keep. Qed.
Lemma keeps_elem_get p : keeps (elem_get p).
Proof using Type. apply keeps_on_runq. Qed.
Lemma keeps_elem_set p st : keeps (elem_set_status p st).
Proof using Type. apply keeps_on_runq. Qed.
Hint Resolve keeps_assert_tid keeps_assert_front keeps_assert_nonempty keeps_on_runq keeps_on_hp_runq
  keeps_on_tids keeps_on_non_det keeps_elem_get keeps_elem_set : turns.

Lemma keeps_make_runnable t : keeps (make_runnable t).
Proof using Htt. unfold make_runnable. rewrite (proj1 turn_type_nonneg). keep. Qed.
Hint Resolve keeps_make_runnable : turns.
Lemma keeps_fire_loop l : keeps (fire_loop l).
Proof using Htt. induction l as [|t l IH]; cbn [fire_loop]; keep. Qed.
Hint Resolve keeps_fire_loop : turns.
Lemma keeps_check_wakeup : keeps check_wakeup.
Proof using Htt. unfold check_wakeup. rewrite (proj1 turn_type_nonneg). keep. Qed.
Hint Resolve keeps_check_wakeup : turns.
Lemma keeps_incTurnCount t : keeps (incTurnCount t).
Proof using Htt. unfold incTurnCount, Serializer_incTurnCount, fireTimeouts. keep. Qed.
Lemma keeps_signal_loop c all l : keeps (signal_loop c all l).
Proof using Htt. induction l as [|t l IH]; cbn [signal_loop]; keep. Qed.
Hint Resolve keeps_incTurnCount keeps_signal_loop : turns.
Lemma keeps_signal t c all : keeps (signal t c all).
Proof using Htt. unfold signal. keep. Qed.
Hint Resolve keeps_signal : turns.
Lemma keeps_find_idle l : forall last, keeps (find_idle l last).
Proof using Htt.
  induction l as [|t l IH]; cbn [find_idle]; [keep|]. rewrite (proj1 turn_type_nonneg). keep.
Qed.
Hint Resolve keeps_find_idle : turns.
Lemma keeps_wakeUpIdleThread : keeps wakeUpIdleThread.
Proof using Htt. unfold wakeUpIdleThread. keep. Qed.
Hint Resolve keeps_wakeUpIdleThread : turns.
Lemma keeps_pass_turn p : keeps (pass_turn p).
Proof using Type. unfold pass_turn. keep. Qed.
Lemma keeps_drop_head m p : keeps m -> keeps (drop_head m p).
Proof using Type. intros Hm. unfold drop_head. keep. Qed.
Lemma keeps_use_hp t st : keeps (use_hp_runq t st).
Proof using Type. unfold use_hp_runq. keep. Qed.
Lemma keeps_runq_is_empty t e : keeps (runq_is_empty t e).
Proof using Htt. unfold runq_is_empty. keep. Qed.
Lemma keeps_wake_non_det t : keeps (wake_non_det t).
Proof using Htt. unfold wake_non_det. keep. Qed.
Lemma keeps_hp t b : keeps (waits_upd t (wt_hp b)).
Proof using Type. apply keeps_waits_upd. done. Qed.
Hint Resolve keeps_pass_turn keeps_drop_head keeps_use_hp keeps_runq_is_empty keeps_wake_non_det
  keeps_hp : turns.
Lemma keeps_nextRunnable_loop n : forall t e st, keeps (nextRunnable_loop n t e st).
Proof using Htt. induction n as [|n IH]; intros t e st; cbn [nextRunnable_loop]; keep. Qed.
Hint Resolve keeps_nextRunnable_loop : turns.
Lemma keeps_pop_self t : keeps (pop_self t).
Proof using Type. unfold pop_self. keep. Qed.
Hint Resolve keeps_pop_self : turns.

(** ** Operations that give the turn up *)
Definition gives {A} (m : SM A) : Prop := forall s, no_turns s ->
  wpx any_error m (fun _ s' => exists tok, turn_at tok s' /\ match tok with Held _ => False | _ => True end) s.

Lemma gives_bind {A B} (m : SM A) (k : A -> SM B) :
  keeps m -> (forall a, gives (k a)) -> gives (m ≫= k).
Proof using Type. intros Hm Hk s Hs. wp_step. eapply wp_mono; [by apply Hm|]. cbn beta. intros a s'. apply Hk. Qed.
Lemma gives_then {A B} (m : SM A) (k : A -> SM B) : gives m ->
  (forall a s, wpx any_error (k a) (fun _ s' => forall t, turns (wait_of s' t) = turns (wait_of s t)) s) ->
  gives (m ≫= k).
Proof using Type.
  intros Hm Hk s Hs. wp_step. eapply wp_mono; [by apply Hm|]. cbn beta. intros a s' (tok & Ht & Hn).
  eapply wp_mono; [apply Hk|]. cbn beta. intros _ s'' He. exists tok. split; [|done].
  intros t. by rewrite He.
Qed.
Lemma gives_none {A} (m : SM A) : keeps m -> gives m.
Proof using Type.
  intros Hm s Hs. eapply wp_mono; [by apply Hm|]. cbn beta. intros a s' H. exists Over. split; [|done].
  by apply turn_at_over.
Qed.
Lemma gives_post t : gives (wait_t_post t).
Proof using Htt.
  intros s Hs. unfold wait_t_post.
  assert (forall f, turns (f (wait_of s t)) = 1 ->
    wpx any_error (waits_upd t f) (fun _ s' => exists tok, turn_at tok s' /\
      match tok with Held _ => False | _ => True end) s) as Hu.
  { intros f Hf. unfold waits_upd. destruct (in_range t); [|done]. exists (Posted t). split; [|done].
    intros t'. unfold wait_of at 1. cbn. destruct (decide (t' = t)) as [->|Hne].
    - by rewrite lookup_insert_eq, decide_True.
    - rewrite lookup_insert_ne, decide_False by (done || congruence). apply Hs. }
  specialize (Hs t). unfold turns in *. destruct (enforce_turn_type =? 1) eqn:E1.
  - apply Hu. simpl. lia.
  - replace ((enforce_turn_type =? 2) || (enforce_turn_type =? 0)) with true by lia. by apply Hu.
Qed.
Lemma gives_if {A} (b : bool) (m1 m2 : SM A) : gives m1 -> gives m2 -> gives (if b then m1 else m2).
Proof using Type. by destruct b. Qed.

Lemma gives_next t e h st : gives (next t e h st).
Proof using Htt.
  unfold next, nextRunnable. rewrite (proj1 turn_type_nonneg).
  apply gives_bind; [keep|]. intros _. apply gives_bind; [auto with turns|]. intros _.
  apply gives_bind; [keep|]. intros n. apply gives_if; [apply gives_none; keep|].
  apply gives_bind; [auto with turns|]. intros _. apply gives_post.
Qed.
Lemma gives_putTurn t th e st : gives (putTurn t th e st).
Proof using Htt.
  unfold putTurn, checkNonDetBound. rewrite (proj1 turn_type_nonneg).
  do 3 (apply gives_bind; [keep|]; intros ?). apply gives_bind; [keep|]. intros ?. apply gives_next.
Qed.
Lemma gives_wait_begin t c n : gives (wait_begin t c n).
Proof using Htt.
  unfold wait_begin. rewrite (proj2 turn_type_nonneg).
  do 3 (apply gives_bind; [keep|]; intros ?).
  apply gives_bind; [apply keeps_waits_upd; done|]. intros ?.
  do 2 (apply gives_bind; [keep|]; intros ?). apply gives_next.
Qed.

(** ** Taking the turn *)
Lemma wait_takes t tok s : turn_at tok s ->
  wpx any_error (wait_t_wait t) (fun _ s' => tok = Posted t /\ turn_at (Held t) s') s.
Proof using Htt.
  intros Hs. unfold wait_t_wait, waits_get. destruct (in_range t) eqn:Hr; [|done]. do 2 wp_step.
  pose proof (Hs t) as Ht. unfold turns in Ht.
  assert (forall f, turns (wait_of s t) = 1 -> turns (f (wait_of s t)) = 0 ->
    wpx any_error (waits_upd t f) (fun _ s' => tok = Posted t /\ turn_at (Held t) s') s) as Hu.
  { intros f H1 Hf. unfold waits_upd. rewrite Hr. rewrite Hs in H1. case_decide as Htok; [|done].
    split; [done|]. subst tok. intros t'. unfold wait_of at 1. cbn. rewrite decide_False by done.
    destruct (decide (t' = t)) as [->|Hne]; [by rewrite lookup_insert_eq|].
    rewrite lookup_insert_ne by done. fold (wait_of s t'). rewrite Hs, decide_False; congruence. }
  unfold turns in Hu. destruct (enforce_turn_type =? 1) eqn:E1.
  - destruct (0 <? w_sem (wait_of s t)) eqn:E; [|done].
    assert (w_sem (wait_of s t) = 1) by (destruct (decide (tok = Posted t)); lia).
    apply Hu; [done|]. simpl. lia.
  - replace ((enforce_turn_type =? 2) || (enforce_turn_type =? 0)) with true by lia.
    destruct (w_wakenUp (wait_of s t)) eqn:E; [|done]. by apply Hu.
Qed.

Lemma assert_tid_same t s : wpx any_error (assert_tid t) (fun _ s' => s' = s) s.
Proof using Type. unfold assert_tid, cassert. do 2 wp_step. by destruct (_ || _). Qed.

Lemma getTurn_takes t tok s : turn_at tok s ->
  wpx any_error (getTurn t) (fun _ s' => tok = Posted t /\ turn_at (Held t) s') s.
Proof using Htt.
  intros Hs. unfold getTurn. wp_step. eapply wp_mono; [apply assert_tid_same|]. cbn beta.
  intros _ s' ->. by apply wait_takes.
Qed.
Lemma wait_end_takes t tok s : turn_at tok s ->
  wpx any_error (wait_end t) (fun _ s' => tok = Posted t /\ turn_at (Held t) s') s.
Proof using Htt.
  intros Hs. unfold wait_end. wp_step. eapply wp_mono; [by apply getTurn_takes|]. cbn beta.
  intros _ s' H. wp_step. unfold waits_get. destruct (in_range t); [|done]. wp_step.
  by destruct (w_wake_reason _).
Qed.

Lemma keeps_create t th f : keeps (sched_create t th f).
Proof using Htt. unfold sched_create. rewrite (proj1 turn_type_nonneg). keep. Qed.
End turns.
