(* ===== verification/Proc.v ===== *)
(** * Programs of the runtime and their executions

    A method of the runtime blocks in the middle (in getTurn, in wait, in a system call),
    so it is a program: a tree of atomic operations whose continuation gets the result of
    the operation, with a node for loops that have no bound.  [step] runs the first
    operation of a program; an operation that cannot return yet ([WouldBlock]) leaves the
    program where it is.  A process is a set of threads, each with its program; its
    executions are the interleavings of the steps. *)
From S2P Require Import Prelude Options RunQueue TidMap NonDetSet Scheduler SyncFuncs RtState.

(** ** Operations *)

(** calls of the scheduler, the [_S::] methods *)
Inductive scall : Type -> Type :=
| SGetTurn : scall unit
| SPutTurn (at_thread_end : bool) (strategy : Z) : scall unit
| SWaitBegin (chan timeout : Z) : scall unit      (* wait up to its getTurn *)
| SWaitEnd : scall Z                              (* the rest of wait *)
| SSignal (chan : Z) (all : bool) : scall unit
| SInc : scall Z                                  (* incTurnCount *)
| SGetCount : scall Z                             (* getTurnCount *)
| SCreate (th func : Z) : scall Z
| SJoin (th : Z) : scall unit
| SZombie (th : Z) : scall bool
| SRoleid (tid : Z) : scall Z
| SChangeRole (th func : Z) : scall unit
| SNthread : scall Z
| SRunqSize : scall Z
| SNonDetWait (d : Z) : scall unit                (* nNonDetWait += d *)
| SIdleCondWait : scall bool                      (* idleThreadCondWait up to its cond wait: does it sleep? *)
| SIdleWake : scall unit                          (* the return of that cond wait *)
| SInterProStart : scall bool
| SInterProEnd : scall bool
| SBlock : scall Z
| SWakeup : scall unit
| SIdleDone : scall bool                          (* reads idle_done *)
| SSetIdleDone : scall unit                       (* idle_done = 1 *)
| SIdleSignal : scall unit.                       (* pthread_cond_signal(&idle_cond) *)

Inductive op : Type -> Type :=
| Call {X} (c : scall X) : op X
| Rt {X} (m : RTM X) : op X            (* globals and POSIX objects, with the turn *)
| Free {X} (m : RTM X) : op X          (* the same without the turn *)
| Tls {X} (m : M tls X) : op X         (* thread-local variables *)
| Self : op Z                          (* self(), thread-local *)
| SetSelf : op unit                    (* self(pthread_self()) *)
| Forked : op unit                     (* childForkReturn, in the child process *)
| Env (call : string) : op Z.          (* the next input of the thread: the clock, a system call *)

Inductive prog (A : Type) : Type :=
| Ret (a : A)
| Act {X : Type} (o : op X) (k : X -> prog A)
| Iter {S X : Type} (body : S -> prog (S + X)) (s : S) (k : X -> prog A).
Arguments Ret {A} a.
Arguments Act {A X} o k.
Arguments Iter {A S X} body s k.

Fixpoint pbind {A B} (p : prog A) (f : A -> prog B) : prog B :=
  match p with
  | Ret a => f a
  | Act o k => Act o (fun x => pbind (k x) f)
  | Iter body s k => Iter body s (fun x => pbind (k x) f)
  end.
#[export] Instance prog_ret : MRet prog := @Ret.
#[export] Instance prog_bind : MBind prog := fun A B f p => pbind p f.

Definition act {X} (o : op X) : prog X := Act o Ret.
Abbreviation call c := (act (Call c)).
Abbreviation rt_do m := (act (Rt m)).
Abbreviation tls_do m := (act (Tls m)).
Definition tls_get {X} (f : tls -> X) : prog X := tls_do (gets f).
Definition tls_set (f : tls -> tls) : prog unit := tls_do (modify f).
Definition rt_get {X} (f : rt -> X) : prog X := rt_do (gets f).
Definition rt_set (f : rt -> rt) : prog unit := rt_do (modify f).

(** [if (b) p], [assert(b)] and a loop that repeats [body] while it returns None *)
Definition pwhen (b : bool) (p : prog unit) : prog unit := if b then p else mret tt.
Definition passert (ndebug b : bool) (msg : string) : prog unit :=
  if b || ndebug then mret tt else tls_do (fail (AssertFail msg)).
Definition ploop {X} (body : prog (option X)) : prog X :=
  Iter (fun _ : unit => r ← body; mret (match r with None => inl tt | Some x => inr x end)) tt Ret.
Fixpoint pfor {A} (f : A -> prog unit) (l : list A) : prog unit :=
  match l with
  | [] => mret tt
  | x :: l' => _ ← f x; pfor f l'
  end.
(** wait() of the scheduler *)
Definition S_wait (chan timeout : Z) : prog Z := _ ← call (SWaitBegin chan timeout); call SWaitEnd.

(** ** Executions *)
Record world : Type := World {
  w_s : sched;
  w_rt : rt;
  w_tls : gmap Z tls;             (* by pthread_t; absent: the initial values *)
  w_self : gmap Z (Z * Z);        (* self_tid and self_roleid, by pthread_t *)
  w_env : gmap Z (list Z)         (* the inputs each thread will get *)
}.
Definition tls_of (w : world) (th : Z) : tls := default tls0 (w_tls w !! th).
Definition ids_of (w : world) (th : Z) : Z * Z := default (-1, -1) (w_self w !! th).
Definition self_of (w : world) (th : Z) : Z := (ids_of w th).1.
Definition env_of (w : world) (th : Z) : list Z := default [] (w_env w !! th).
Definition set_s (s : sched) (w : world) : world :=
  World s (w_rt w) (w_tls w) (w_self w) (w_env w).
Definition set_rt (r : rt) (w : world) : world :=
  World (w_s w) r (w_tls w) (w_self w) (w_env w).
Definition set_tls (th : Z) (t : tls) (w : world) : world :=
  World (w_s w) (w_rt w) (<[th := t]> (w_tls w)) (w_self w) (w_env w).
Definition set_ids (th : Z) (i : Z * Z) (w : world) : world :=
  World (w_s w) (w_rt w) (w_tls w) (<[th := i]> (w_self w)) (w_env w).
Definition set_env (th : Z) (l : list Z) (w : world) : world :=
  World (w_s w) (w_rt w) (w_tls w) (w_self w) (<[th := l]> (w_env w)).

Section exec.
Context `{O : Options, U : UnorderedIter, G : GlobalAddrs}.

(** the code of a scheduler call made by thread [self] with handle [th] *)
Definition scall_code {X} (c : scall X) (self th : Z) : SM X :=
  match c with
  | SGetTurn => getTurn self
  | SPutTurn e st => putTurn self th e st
  | SWaitBegin ch n => wait_begin self ch n
  | SWaitEnd => wait_end self
  | SSignal ch all => signal self ch all
  | SInc => incTurnCount self
  | SGetCount => getTurnCount
  | SCreate t f => sched_create self t f
  | SJoin t => join t
  | SZombie t => gets (fun s => zombie t (s_tids s))
  | SRoleid t => sched_getRoleid t
  | SChangeRole t f => sched_changeRole t f
  | SNthread => gets (fun s => nthread (s_tids s))
  | SRunqSize => on_runq q_size
  | SNonDetWait d => modify (fun s => set_nNonDetWait (s_nNonDetWait s + d) s)
  | SIdleCondWait => idleThreadCondWait self th ;; gets s_idle_sleeping
  | SIdleWake => b ← gets s_idle_sleeping; if b : bool then fail WouldBlock else mret tt
  | SInterProStart => interProStart self
  | SInterProEnd => interProEnd self
  | SBlock => block self
  | SWakeup => wakeup self
  | SIdleDone => gets s_idle_done
  | SSetIdleDone => modify (fun s => set_idle true (s_idle_sleeping s) s)
  | SIdleSignal => modify (fun s => set_idle (s_idle_done s) false s)
  end.

Definition exec {X} (th : Z) (o : op X) (w : world) : res (X * world) :=
  match o with
  | Call c => zoom w_s set_s (scall_code c (self_of w th) th) w
  | Rt m => zoom w_rt set_rt m w
  | Free m => zoom w_rt set_rt m w
  | Tls m => zoom (fun w => tls_of w th) (set_tls th) m w
  | Self => Ok (self_of w th, w)
  | SetSelf =>
      match set_self th (s_tids (w_s w)) with
      | Ok ((t, role), _) => Ok (tt, set_ids th (t, default (ids_of w th).2 role) w)
      | Err e => Err e
      end
  | Forked =>
      match childForkReturn th (w_s w) with
      | Ok ((t, role), s') => Ok (tt, set_ids th (t, default (ids_of w th).2 role) (set_s s' w))
      | Err e => Err e
      end
  | Env _ =>
      match env_of w th with
      | [] => Err WouldBlock
      | v :: l => Ok (v, set_env th l w)
      end
  end.

(** one step of thread [th]; a finished program has none *)
Definition step {A} (th : Z) (p : prog A) (w : world) : res (prog A * world) :=
  match p with
  | Ret a => Err WouldBlock
  | Act o k =>
      match exec th o w with
      | Ok (x, w') => Ok (k x, w')
      | Err e => Err e
      end
  | Iter body s k =>
      Ok (r ← body s; match r with inl s' => Iter body s' k | inr x => k x end, w)
  end.

(** run thread [th] alone, until it ends, blocks or fails *)
Inductive outcome (A : Type) : Type :=
| Done (a : A) (w : world)
| Blocked (p : prog A) (w : world)
| Failed (e : error) (w : world)
| Running (p : prog A) (w : world).              (* after the given number of steps *)
Fixpoint run {A} (n : nat) (th : Z) (p : prog A) (w : world) : outcome A :=
  match p with
  | Ret a => Done _ a w
  | _ =>
      match n with
      | 0%nat => Running _ p w
      | S n' =>
          match step th p w with
          | Ok (p', w') => run n' th p' w'
          | Err WouldBlock => Blocked _ p w
          | Err e => Failed _ e w
          end
      end
  end.

(** ** Processes *)
Record process : Type := Process { p_threads : gmap Z (prog unit); p_world : world }.

Inductive pstep (c : process) (th : Z) (c' : process) : Prop :=
| PStep p p' w' : p_threads c !! th = Some p -> step th p (p_world c) = Ok (p', w') ->
    c' = Process (<[th := p']> (p_threads c)) w' -> pstep c th c'.

Inductive psteps : process -> list Z -> process -> Prop :=
| psteps_nil c : psteps c [] c
| psteps_cons c th c1 l c2 : pstep c th c1 -> psteps c1 l c2 -> psteps c (th :: l) c2.

(** no thread can make a step *)
Definition quiescent (c : process) : Prop := forall th c', ~ pstep c th c'.

(** an executable schedule: the threads to step, in order *)
Fixpoint run_schedule (l : list Z) (c : process) : option process :=
  match l with
  | [] => Some c
  | th :: l' =>
      match p_threads c !! th with
      | Some p =>
          match step th p (p_world c) with
          | Ok (p', w') => run_schedule l' (Process (<[th := p']> (p_threads c)) w')
          | Err _ => None
          end
      | None => None
      end
  end.

Lemma run_schedule_psteps l : forall c c', run_schedule l c = Some c' -> psteps c l c'.
Proof using Type.
  induction l as [|th l IH]; intros c c'; simpl.
  - intros [= ->]. constructor.
  - destruct (p_threads c !! th) as [p|] eqn:Hp; [|done].
    destruct (step th p (p_world c)) as [[p' w']|] eqn:Hs; [|done].
    intros Hr%IH. econstructor; [|exact Hr]. by econstructor.
Qed.
End exec.
Arguments Done {A} a w.
Arguments Blocked {A} p w.
Arguments Failed {A} e w.
Arguments Running {A} p w.
