(* ===== verification/RtBase.v ===== *)
(** * The common parts of the runtime's methods

    lib/runtime/record-runtime.cpp: the choice of the strategy of putTurn, the
    conversion of times to turns, and the macros SCHED_TIMER_* and BLOCK_TIMER_*.  What
    update_time (Console.v) and record_rdtsc_op (Rdtsc.v) measure is only logged; their
    calls are left out of the methods. *)
From S2P Require Import Prelude Options TidMap Scheduler SyncFuncs RtState Proc.

(** ** Times *)

Definition time_diff (start fin : timespec) : timespec :=
  if tv_nsec fin - tv_nsec start <? 0 then
    Timespec (tv_sec fin - tv_sec start - 1) (1000000000 - tv_nsec start + tv_nsec fin)
  else Timespec (tv_sec fin - tv_sec start) (tv_nsec fin - tv_nsec start).

Definition timespec_to_usec (t : timespec) : Z :=
  u32 (tv_sec t * 1000000 + Z.quot (tv_nsec t) 1000).

Definition MAX_REL : Z := 1000000.

Section base.
Context `{O : Options, U : UnorderedIter, G : GlobalAddrs}.

(** None: exit(1) *)
Definition time2turn (nsec : Z) : option Z :=
  if launch_idle_thread =? 0 then None
  else
    let ret64 := nsec / u64 nanosec_per_turn in
    Some (if MAX_REL <? ret64 then MAX_REL else s32 ret64).

(** [nthread] is _S::nthread; a NULL reltime is None *)
Definition relTimeToTurn (nthread : Z) (reltime : option timespec) : option Z :=
  match reltime with
  | None => Some 0
  | Some t =>
      let ns := s64 (tv_sec t * 1000000000 + tv_nsec t) in
      ret ← time2turn (u64 ns);
      Some (if ret <? 5 * nthread + 1 then 5 * nthread + 1 else ret)
  end.

(** the same as a program *)
Definition rel_turns (reltime : option timespec) : prog Z :=
  n ← call SNthread;
  match relTimeToTurn n reltime with
  | Some r => mret r
  | None => tls_do (fail (ProcessExit 1))
  end.

(** the current time for a timed operation: my_base_time, or the clock *)
Definition current_time : prog timespec :=
  b ← tls_get my_base_time;
  if tv_sec b =? 0 then
    sec ← act (Env "clock_gettime tv_sec");
    nsec ← act (Env "clock_gettime tv_nsec");
    mret (Timespec sec nsec)
  else mret b.

(** ** Counters with operator[]: an absent key is inserted with 0 *)
Definition cond_count (cv : Z) : RTM Z :=
  n ← gets (fun r => default 0 (g_cond_map r !! cv));
  modify (fun r => set_g_cond_map (<[cv := n]> (g_cond_map r)) r) ;; mret n.
Definition cond_count_set (cv n : Z) : RTM unit :=
  modify (fun r => set_g_cond_map (<[cv := n]> (g_cond_map r)) r).
Definition sem_count (sem : Z) : RTM Z :=
  n ← gets (fun r => default 0 (g_sem_map r !! sem));
  modify (fun r => set_g_sem_map (<[sem := n]> (g_sem_map r)) r) ;; mret n.
Definition sem_count_set (sem n : Z) : RTM unit :=
  modify (fun r => set_g_sem_map (<[sem := n]> (g_sem_map r)) r).

(** the object behind an Addr_n_role pointer *)
Definition load_anr (p : Z) : RTM (Z * Z) :=
  a ← gets (fun r => g_anr r !! p);
  match a with Some v => mret v | None => fail NullDeref end.
Definition line_count (k : Z * Z) : RTM (option Z) := gets (fun r => g_cv_count r !! k).

(** ** The strategy of putTurn *)
Definition getPutTurnStrategy (syncop : syncfunc.t) : M tls Z :=
  t ← get;
  if yield_this t then
    modify (set_yield_this false) ;;
    mret (if high_priority_yield then PUTTURN_STRATEGY_YIELD else 0)
  else mret
    (if (0 <? slock_n_turns t) && bool_decide (syncop = syncfunc.pthread_create)
     then PUTTURN_STRATEGY_CREATE
     else if ((0 <? inCSLevel t) && negb (noCSWholeLocal t)) || (0 <? slock_n_turns t) ||
             (negb wakeamap_plus && (negb (satisfyingCV t =? 0) || negb (satisfyingSem t =? 0)))
     then PUTTURN_STRATEGY_CURRENT_THREAD
     else if wakeamap_plus && (negb (satisfyingRole t =? 0) || negb (satisfyingSem t =? 0))
     then PUTTURN_STRATEGY_CURRENT_ROLE
     else 0).

(** called after putTurn: the counters are read without the turn *)
Definition check_cv_wait_cnt : prog unit :=
  _ ← (if negb wakeamap_plus then
         cv ← tls_get satisfyingCV;
         if cv =? 0 then mret tt
         else n ← act (Free (cond_count cv)); pwhen (n <? 1) (tls_set (set_satisfyingCV 0))
       else
         role ← tls_get satisfyingRole;
         if role =? 0 then mret tt
         else
           k ← act (Free (load_anr role));
           c ← act (Free (line_count k));
           pwhen (bool_decide (c = None)) (tls_set (set_satisfyingRole 0)));
  sem ← tls_get satisfyingSem;
  if sem =? 0 then mret tt
  else n ← act (Free (sem_count sem)); pwhen (n <? 1) (tls_set (set_satisfyingSem 0)).

(** ** Statistics and log *)
Definition recordSync (tid : Z) (op : syncfunc.t) : RTM unit :=
  when (negb (tid =? 1))
    (modify (fun r => let k := (tid, index_of op) in
                      set_g_stats (<[k := default 0 (g_stats r !! k) + 1]> (g_stats r)) r)).
Definition add_stat (f : run_stat -> run_stat) : RTM unit :=
  modify (fun r => set_g_stat (f (g_stat r)) r).
Definition count_nondet (s : run_stat) : run_stat := set_nNonDetPthreadSync (nNonDetPthreadSync s + 1) s.
Definition count_det (s : run_stat) : run_stat := set_nDetPthreadSyncOp (nDetPthreadSyncOp s + 1) s.
Definition count_inter (s : run_stat) : run_stat := set_nInterProcSyncOp (nInterProcSyncOp s + 1) s.
Definition count_succ (s : run_stat) : run_stat := set_nLineupSucc (nLineupSucc s + 1) s.
Definition count_timeout (s : run_stat) : run_stat := set_nLineupTimeout (nLineupTimeout s + 1) s.
Definition count_regions (s : run_stat) : run_stat := set_nNonDetRegions (nNonDetRegions s + 1) s.

Definition logSync (tid ins : Z) (op : syncfunc.t) (turn : Z) (after : bool) (args : list Z) : RTM unit :=
  modify (fun r => set_g_log (LogEntry tid ins op turn after args :: g_log r) r).

(** ** SCHED_TIMER_* *)

Definition CHECK_AND_CHANGE_ROLE : prog unit :=
  b ← tls_get process_proposed_role;
  if b : bool then
    m ← rt_get g_proposed;
    if bool_decide (m = ∅) then mret tt
    else
      _ ← pfor (fun th => match m !! th with
                          | Some f => call (SChangeRole th f)
                          | None => mret tt
                          end) (set_order (dom m));
      _ ← rt_set (set_g_proposed ∅);
      tls_set (set_process_proposed_role false)
  else mret tt.

(** [me] is pthread_self() *)
Definition SCHED_TIMER_START (me : Z) : prog unit :=
  _ ← (if negb (enforce_non_det_annotations =? 0) then
         b ← tls_get (fun t => negb (inNonDet t) && negb (inNoWaitNonDet t));
         passert ndebug b "!inNonDet && !inNoWaitNonDet"
       else mret tt);
  _ ← call SGetTurn;
  _ ← pwhen record_runtime_stat
        (rt_do (r ← get; when (negb (me =? g_idle_th r)) (add_stat count_det)));
  CHECK_AND_CHANGE_ROLE.

(** gives backup_errno *)
Definition SCHED_TIMER_END_COMMON (ins : Z) (syncop : syncfunc.t) (args : list Z) : prog Z :=
  backup_errno ← tls_get t_errno;
  _ ← call SInc;
  self ← act Self;
  _ ← pwhen generate_per_sync_stats (rt_do (recordSync self syncop));
  _ ← (if log_sync then
         nturn ← call SGetCount;
         rt_do (logSync self ins syncop nturn true args)
       else mret tt);
  mret backup_errno.

Definition SCHED_TIMER_END (ins : Z) (syncop : syncfunc.t) (args : list Z) : prog unit :=
  backup_errno ← SCHED_TIMER_END_COMMON ins syncop args;
  strategy ← tls_do (getPutTurnStrategy syncop);
  _ ← call (SPutTurn false strategy);
  _ ← tls_set (fun t => if 0 <? slock_n_turns t then set_slock_n_turns (slock_n_turns t - 1) t else t);
  _ ← check_cv_wait_cnt;
  tls_set (set_t_errno backup_errno).

Definition SCHED_TIMER_THREAD_END (ins : Z) (syncop : syncfunc.t) (args : list Z) : prog unit :=
  backup_errno ← SCHED_TIMER_END_COMMON ins syncop args;
  _ ← call (SPutTurn true 0);
  tls_set (set_t_errno backup_errno).

Definition SCHED_TIMER_FAKE_END (ins : Z) (syncop : syncfunc.t) (args : list Z) : prog unit :=
  nturn ← call SInc;
  self ← act Self;
  pwhen log_sync (rt_do (logSync self ins syncop nturn false args)).

(** ** Spaces (lib/common/space.cpp): in_app is current_space *)
Definition cross : prog unit := tls_set (fun t => set_in_app (negb (in_app t)) t).
Definition enterSys : prog unit :=
  b ← tls_get in_app;
  _ ← passert ndebug b "can't enter Sys space since already in Sys space!";
  cross.
Definition exitSys : prog unit :=
  b ← tls_get in_app;
  _ ← passert ndebug (negb b) "can't exit Sys space since already in App space!";
  cross.
Definition assert_app (msg : string) : prog unit := b ← tls_get in_app; passert ndebug b msg.
Definition assert_sys (msg : string) : prog unit := b ← tls_get in_app; passert ndebug (negb b) msg.

(** the common form of the hooks (lib/runtime/hooks.cpp): [error = errno; enterSys;
    ret = method; exitSys; errno = error; return ret] where [conv] is the conversion to
    the type of ret *)
Definition hook_as (conv : Z -> Z) (method : Z -> prog (Z * Z)) : prog Z :=
  error ← tls_get t_errno;
  _ ← enterSys;
  r ← method error;
  _ ← exitSys;
  _ ← tls_set (set_t_errno r.2);
  mret (conv r.1).
Definition hook : (Z -> prog (Z * Z)) -> prog Z := hook_as id.
(** the same for a method without result *)
Definition void_hook (method : prog unit) : prog unit :=
  error ← tls_get t_errno;
  _ ← enterSys;
  _ ← method;
  _ ← exitSys;
  tls_set (set_t_errno error).

(** ** BLOCK_TIMER_*: [call] is the name of the system call, which the environment
    answers with a result and an errno *)
Definition sys_call (name : string) : prog Z :=
  ret ← act (Env name);
  e ← act (Env "errno");
  _ ← tls_set (set_t_errno e);
  mret ret.

(** Runtime::__<call>: errno = error; ret = <call>; error = errno *)
Definition Runtime_call (name : string) (error : Z) : prog (Z * Z) :=
  _ ← tls_set (set_t_errno error);
  ret ← sys_call name;
  e ← tls_get t_errno;
  mret (ret, e).

Definition in_non_det : prog bool := tls_get (fun t => inNonDet t || inNoWaitNonDet t).

Definition BLOCK_TIMER_START : prog unit :=
  b ← call SInterProStart;
  if b : bool then _ ← call SBlock; mret tt else mret tt.

Definition BLOCK_TIMER_END : prog unit :=
  backup_errno ← tls_get t_errno;
  b ← call SInterProEnd;
  _ ← pwhen b (call SWakeup);
  tls_set (set_t_errno backup_errno).

(** a method between BLOCK_TIMER_START and BLOCK_TIMER_END: [after] runs before the latter,
    [conv] is the conversion to the type of the variable that holds the result, [base] the
    method of the base class *)
Definition blocking_with (conv : Z -> Z) (after : prog unit) (base : Z -> prog (Z * Z)) (error : Z) : prog (Z * Z) :=
  _ ← pwhen record_runtime_stat (act (Free (add_stat count_inter)));
  nd ← in_non_det;
  if nd : bool then base error
  else
    _ ← BLOCK_TIMER_START;
    r ← base error;
    _ ← after;
    _ ← BLOCK_TIMER_END;
    mret (conv r.1, r.2).
Definition blocking_call : (Z -> prog (Z * Z)) -> Z -> prog (Z * Z) := blocking_with id (mret tt).

(** the first lines of a method in a non-det region: count the operation and call [native] *)
Definition non_det_or (native method : prog (Z * Z)) : prog (Z * Z) :=
  nd ← in_non_det;
  if nd : bool then
    _ ← pwhen record_runtime_stat (act (Free (add_stat count_nondet)));
    native
  else method.

(** a call that failed has set errno *)
Definition note_errno (e : option Z) : prog unit :=
  match e with Some v => tls_set (set_t_errno v) | None => mret tt end.

(** [errno = error; ret = m; error = errno] with the turn held, where [m] may set errno *)
Definition with_errno (error : Z) (m : RTM (Z * option Z)) : prog (Z * Z) :=
  _ ← tls_set (set_t_errno error);
  r ← rt_do m;
  _ ← note_errno r.2;
  e ← tls_get t_errno;
  mret (r.1, e).
(** the same for a call that does not set errno, and outside the turn *)
Definition plain (m : RTM Z) : RTM (Z * option Z) := r ← m; mret (r, None).
Definition native_call (error : Z) (m : RTM (Z * option Z)) : prog (Z * Z) :=
  _ ← tls_set (set_t_errno error);
  r ← act (Free m);
  _ ← note_errno r.2;
  e ← tls_get t_errno;
  mret (r.1, e).
(** a native call that leaves the [error] of the caller alone *)
Definition native_plain (error : Z) (m : RTM (Z * option Z)) : prog (Z * Z) :=
  r ← act (Free m);
  _ ← note_errno r.2;
  mret (r.1, error).

(** syncWait and syncSignal *)
Definition syncWait (chan timeout : Z) : prog Z := S_wait chan timeout.
Definition syncSignal (chan : Z) (all : bool) : prog unit := call (SSignal chan all).

Definition absTimeToTurn : prog Z := n ← call SGetCount; mret (s32 (n +u32 30)).
End base.
