(* ===== verification/RtRuntime.v ===== *)
(** * The base class: Runtime of lib/runtime/runtime.cpp, without XTERN_PLUS_DBUG

    Its methods call the C library: [errno = error; ret = <call>; error = errno].  A
    method takes [error] and returns its result and the new value of [error]; the
    arguments of a system call do not matter to the runtime, and the environment gives
    its result and its errno. *)
From S2P Require Import Prelude Options TidMap Scheduler SyncFuncs RtState Proc RtBase.

Section runtime.
Context `{O : Options}.

(** ** Threads, mutexes and semaphores *)
Definition Runtime_pthreadCancel : Z -> prog (Z * Z) := Runtime_call "pthread_cancel".
Definition Runtime_pthread_detach : Z -> prog (Z * Z) := Runtime_call "pthread_detach".
Definition Runtime_pthread_join : prog Z := sys_call "pthread_join".
Definition Runtime_pthreadMutexInit (mu : Z) (kind : mutex_kind) (error : Z) : prog (Z * Z) :=
  native_call error (plain (os_mutex_init mu kind)).
Definition Runtime_pthreadMutexDestroy (mu error : Z) : prog (Z * Z) :=
  native_call error (plain (os_mutex_destroy mu)).
Definition Runtime_pthread_mutex_init (mu : Z) (kind : mutex_kind) (error : Z) : prog (Z * Z) :=
  native_call error (plain (os_mutex_init mu kind)).
Definition Runtime_pthread_mutex_destroy (mu error : Z) : prog (Z * Z) :=
  native_call error (plain (os_mutex_destroy mu)).
Definition Runtime_pthread_mutex_lock (me mu error : Z) : prog (Z * Z) :=
  native_call error (plain (os_mutex_lock me mu)).
Definition Runtime_pthread_mutex_unlock (me mu error : Z) : prog (Z * Z) :=
  native_call error (plain (os_mutex_unlock me mu)).
Definition Runtime_sem_init (sem value error : Z) : prog (Z * Z) := native_call error (os_sem_init sem value).
Definition Runtime_sem_wait (sem error : Z) : prog (Z * Z) := native_call error (plain (os_sem_wait sem)).
Definition Runtime_sem_post (sem error : Z) : prog (Z * Z) := native_call error (os_sem_post sem).

(** ** Reader-writer locks: [error = errno; ret = <call>; errno = error], the assignments of
    the other methods the other way round *)
Definition swapped_call (m : RTM Z) : prog (Z * Z) :=
  error ← tls_get t_errno;
  ret ← act (Free m);
  _ ← tls_set (set_t_errno error);
  mret (ret, error).
Definition Runtime_rwlock_rdlock (rw error : Z) : prog (Z * Z) := swapped_call (os_rwlock_rdlock rw).
Definition Runtime_rwlock_tryrdlock (rw error : Z) : prog (Z * Z) := swapped_call (os_rwlock_tryrdlock rw).
Definition Runtime_rwlock_wrlock (me rw error : Z) : prog (Z * Z) := swapped_call (os_rwlock_wrlock me rw).
Definition Runtime_rwlock_trywrlock (me rw error : Z) : prog (Z * Z) := swapped_call (os_rwlock_trywrlock me rw).
Definition Runtime_rwlock_unlock (rw error : Z) : prog (Z * Z) := swapped_call (os_rwlock_unlock rw).
Definition Runtime_rwlock_destroy (rw error : Z) : prog (Z * Z) := swapped_call (os_rwlock_destroy rw).
Definition Runtime_rwlock_init (rw error : Z) : prog (Z * Z) := swapped_call (os_rwlock_init rw).

(** ** Sockets *)

(** [if (options::non_block_recv) assert(sock_nonblock(sockfd));]: with NDEBUG the fcntl
    that makes the socket non-blocking is gone *)
Definition sock_nonblock : prog bool := r ← sys_call "fcntl"; mret (0 <=? r).
Definition nonblock_assert : prog unit :=
  if non_block_recv && negb ndebug then b ← sock_nonblock; passert ndebug b "sock_nonblock(sockfd)"
  else mret tt.
Definition Runtime_accept (error : Z) : prog (Z * Z) :=
  _ ← tls_set (set_t_errno error);
  ret ← sys_call "accept";
  _ ← nonblock_assert;
  e ← tls_get t_errno;
  mret (ret, e).
Definition Runtime_connect (error : Z) : prog (Z * Z) :=
  _ ← tls_set (set_t_errno error);
  ret ← sys_call "connect";
  _ ← nonblock_assert;
  e ← tls_get t_errno;
  mret (ret, e).

(** one round of the loop of __recv, with [ret] (ssize_t) and [try_count] (int); [len] is a
    size_t *)
Definition recv_round (len : Z) (st : Z * Z) : prog (Z * Z + Z) :=
  let '(ret, try_count) := st in
  if (s32 ret <? s32 len) && (try_count <? 10) then
    sr ← sys_call "recv";
    let ret := if 0 <=? sr then s64 (ret + sr) else if ret =? 0 then -1 else ret in
    if (sr <? 0) || negb non_block_recv then mret (inr ret)
    else if sr =? 0 then _ ← sys_call "nanosleep"; mret (inl (ret, try_count + 1))
    else mret (inl (ret, try_count))
  else mret (inr ret).
Definition Runtime_recv (len error : Z) : prog (Z * Z) :=
  _ ← tls_set (set_t_errno error);
  ret ← Iter (recv_round len) (0, 0) Ret;
  e ← tls_get t_errno;
  mret (ret, e).

(** ** The other system calls *)
Definition Runtime_socket : Z -> prog (Z * Z) := Runtime_call "socket".
Definition Runtime_getsockopt : Z -> prog (Z * Z) := Runtime_call "getsockopt".
Definition Runtime_setsockopt : Z -> prog (Z * Z) := Runtime_call "setsockopt".
Definition Runtime_pipe : Z -> prog (Z * Z) := Runtime_call "pipe".
Definition Runtime_fcntl : Z -> prog (Z * Z) := Runtime_call "fcntl".
Definition Runtime_listen : Z -> prog (Z * Z) := Runtime_call "listen".
Definition Runtime_accept4 : Z -> prog (Z * Z) := Runtime_call "accept4".
Definition Runtime_gethostbyname : Z -> prog (Z * Z) := Runtime_call "gethostbyname".
Definition Runtime_gethostbyname_r : Z -> prog (Z * Z) := Runtime_call "gethostbyname_r".
Definition Runtime_getaddrinfo : Z -> prog (Z * Z) := Runtime_call "getaddrinfo".
Definition Runtime_freeaddrinfo : Z -> prog (Z * Z) := Runtime_call "freeaddrinfo".
Definition Runtime_gethostbyaddr : Z -> prog (Z * Z) := Runtime_call "gethostbyaddr".
Definition Runtime_inet_ntoa : Z -> prog (Z * Z) := Runtime_call "inet_ntoa".
Definition Runtime_strtok : Z -> prog (Z * Z) := Runtime_call "strtok".
Definition Runtime_send : Z -> prog (Z * Z) := Runtime_call "send".
Definition Runtime_sendto : Z -> prog (Z * Z) := Runtime_call "sendto".
Definition Runtime_sendmsg : Z -> prog (Z * Z) := Runtime_call "sendmsg".
Definition Runtime_recvfrom : Z -> prog (Z * Z) := Runtime_call "recvfrom".
Definition Runtime_recvmsg : Z -> prog (Z * Z) := Runtime_call "recvmsg".
Definition Runtime_shutdown : Z -> prog (Z * Z) := Runtime_call "shutdown".
Definition Runtime_getpeername : Z -> prog (Z * Z) := Runtime_call "getpeername".
Definition Runtime_close : Z -> prog (Z * Z) := Runtime_call "close".
Definition Runtime_read : Z -> prog (Z * Z) := Runtime_call "read".
Definition Runtime_write : Z -> prog (Z * Z) := Runtime_call "write".
Definition Runtime_pread : Z -> prog (Z * Z) := Runtime_call "pread".
Definition Runtime_pwrite : Z -> prog (Z * Z) := Runtime_call "pwrite".
Definition Runtime_select : Z -> prog (Z * Z) := Runtime_call "select".
Definition Runtime_poll : Z -> prog (Z * Z) := Runtime_call "poll".
Definition Runtime_bind : Z -> prog (Z * Z) := Runtime_call "bind".
Definition Runtime_sigwait : Z -> prog (Z * Z) := Runtime_call "sigwait".
Definition Runtime_epoll_wait : Z -> prog (Z * Z) := Runtime_call "epoll_wait".
Definition Runtime_epoll_create : Z -> prog (Z * Z) := Runtime_call "epoll_create".
Definition Runtime_epoll_ctl : Z -> prog (Z * Z) := Runtime_call "epoll_ctl".
Definition Runtime_sleep : Z -> prog (Z * Z) := Runtime_call "sleep".
Definition Runtime_usleep : Z -> prog (Z * Z) := Runtime_call "usleep".
Definition Runtime_fgets : Z -> prog (Z * Z) := Runtime_call "fgets".
Definition Runtime_kill : Z -> prog (Z * Z) := Runtime_call "kill".
Definition Runtime_fork : Z -> prog (Z * Z) := Runtime_call "fork".
Definition Runtime_execv : Z -> prog (Z * Z) := Runtime_call "execv".
Definition Runtime_wait : Z -> prog (Z * Z) := Runtime_call "wait".
Definition Runtime_waitpid : Z -> prog (Z * Z) := Runtime_call "waitpid".
Definition Runtime_sched_yield : Z -> prog (Z * Z) := Runtime_call "sched_yield".
Definition Runtime_nanosleep : Z -> prog (Z * Z) := Runtime_call "nanosleep".
Definition Runtime_time : Z -> prog (Z * Z) := Runtime_call "time".
Definition Runtime_clock_getres : Z -> prog (Z * Z) := Runtime_call "clock_getres".
Definition Runtime_clock_gettime : Z -> prog (Z * Z) := Runtime_call "clock_gettime".
Definition Runtime_clock_settime : Z -> prog (Z * Z) := Runtime_call "clock_settime".
Definition Runtime_gettimeofday : Z -> prog (Z * Z) := Runtime_call "gettimeofday".
Definition Runtime_settimeofday : Z -> prog (Z * Z) := Runtime_call "settimeofday".
End runtime.
