(* ===== verification/RtReturns.v ===== *)
(** * Total correctness of a program that runs alone

    [returns th p Q w]: run by thread [th] from world [w], the program ends, without
    blocking and without an error, with a result and a world that satisfy [Q].
    [peq] is equality of programs up to their continuations at every result. *)
From S2P Require Import Prelude Options RunQueue TidMap NonDetSet Scheduler SyncFuncs RtState Proc RtBase.

Inductive peq {A : Type} : prog A -> prog A -> Prop :=
| peq_ret a : peq (Ret a) (Ret a)
| peq_act {X} (o : op X) k k' : (forall x, peq (k x) (k' x)) -> peq (Act o k) (Act o k')
| peq_iter {S X} (body : S -> prog (S + X)) s k k' : (forall x, peq (k x) (k' x)) ->
    peq (Iter body s k) (Iter body s k').

#[export] Instance peq_refl {A} : Reflexive (@peq A).
Proof. intros p. induction p; by constructor. Qed.
(** what [peq] says of each form of program *)
Definition peq_view {A} (p q : prog A) : Prop :=
  match p with
  | Ret a => q = Ret a
  | Act o k => exists k', q = Act o k' /\ forall x, peq (k x) (k' x)
  | Iter body s k => exists k', q = Iter body s k' /\ forall x, peq (k x) (k' x)
  end.
Lemma peq_inv {A} (p q : prog A) : peq p q -> peq_view p q.
Proof. destruct 1; simpl; eauto. Qed.
#[export] Instance peq_trans {A} : Transitive (@peq A).
Proof.
  intros p q r Hpq. revert r. induction Hpq as [a|X o k k' _ IH|S X body s k k' _ IH]; intros r Hqr%peq_inv; simpl in Hqr.
  - by subst.
  - destruct Hqr as (k2 & -> & Hk). constructor. auto.
  - destruct Hqr as (k2 & -> & Hk). constructor. auto.
Qed.
#[export] Instance peq_sym {A} : Symmetric (@peq A).
Proof. intros p q Hpq. induction Hpq; by constructor. Qed.
#[export] Instance pbind_proper {A B} :
  Proper (pointwise_relation A (@peq B) ==> @peq A ==> @peq B) (fun f p => pbind p f).
Proof. intros f f' Hf p p' Hp. induction Hp; simpl; [apply Hf|by constructor..]. Qed.
Lemma pbind_assoc {A B C} (p : prog A) (f : A -> prog B) (g : B -> prog C) (h : A -> prog C) :
  (forall a, peq (pbind (f a) g) (h a)) -> peq (pbind (pbind p f) g) (pbind p h).
Proof. intros H. induction p; simpl; [apply H|by constructor; auto..]. Qed.

Section returns.
Context `{O : Options, U : UnorderedIter, G : GlobalAddrs}.

Lemma step_peq {A} th (p q p' : prog A) w w' : peq p q -> step th p w = Ok (p', w') ->
  exists q', step th q w = Ok (q', w') /\ peq p' q'.
Proof using Type.
  intros Hpq. destruct Hpq as [a|X o k k' Hk|S X body s k k' Hk]; cbn [step]; [done| |].
  - destruct (exec th o w) as [[x w1]|]; [|done]. intros [= <- <-]. eauto.
  - intros [= <- <-]. eexists. split; [done|]. apply pbind_proper; [|reflexivity].
    intros [s'|x]; [by constructor|apply Hk].
Qed.
Lemma run_peq {A} n : forall th (p q : prog A) w a w', peq p q -> run n th p w = Done a w' ->
  run n th q w = Done a w'.
Proof using Type.
  induction n as [|n IH]; intros th p q w a w' Hpq Hrun.
  - by destruct Hpq.
  - destruct (step th p w) as [[p1 w1]|e] eqn:Hs.
    + destruct (step_peq _ _ _ _ _ _ Hpq Hs) as (q1 & Hq & Hpq1).
      destruct p; [done|..]; inversion Hpq; subst; cbn [run] in *; rewrite Hs in Hrun; rewrite Hq; by eapply IH.
    + destruct Hpq; [done|..]; cbn [run] in Hrun; rewrite Hs in Hrun; by destruct e.
Qed.
(** more fuel does no harm *)
Lemma run_more {A} n : forall m th (p : prog A) w a w', run n th p w = Done a w' -> run (n + m) th p w = Done a w'.
Proof using Type.
  induction n as [|n IH]; intros m th p w a w' Hrun.
  - destruct p; [by destruct m|done..].
  - destruct p as [a0|X o k|S X body s k]; [done|..]; cbn [run Nat.add] in *;
      (destruct (step th _ w) as [[p1 w1]|e]; [by apply IH|by destruct e]).
Qed.

Definition returns {A} (th : Z) (p : prog A) (Q : A -> world -> Prop) (w : world) : Prop :=
  exists n a w', run n th p w = Done a w' /\ Q a w'.

Lemma r_ret {A} th (a : A) Q w : Q a w -> returns th (mret a) Q w.
Proof using Type. intros H. by exists 0%nat, a, w. Qed.
Lemma r_step {A} th (p p' : prog A) Q w w' : step th p w = Ok (p', w') -> returns th p' Q w' -> returns th p Q w.
Proof using Type.
  intros Hs (n & a & w2 & Hr & HQ). exists (S n), a, w2. split; [|done].
  destruct p; [done|..]; cbn [run]; by rewrite Hs.
Qed.
Lemma r_mono {A} th (p : prog A) (P Q : A -> world -> Prop) w : returns th p P w ->
  (forall a w', P a w' -> Q a w') -> returns th p Q w.
Proof using Type. intros (n & a & w' & Hr & HP) H. exists n, a, w'. auto. Qed.
Lemma r_peq {A} th (p q : prog A) Q w : peq p q -> returns th p Q w -> returns th q Q w.
Proof using Type. intros Hpq (n & a & w' & Hr & HQ). exists n, a, w'. split; [by eapply run_peq|done]. Qed.

Lemma r_bind {A B} th (p : prog A) (f : A -> prog B) Q w :
  returns th p (fun a w' => returns th (f a) Q w') w -> returns th (p ≫= f) Q w.
Proof using Type.
  intros (n & a & w' & Hr & HQ). revert p w Hr. induction n as [|n IH]; intros p w Hr.
  - destruct p; simpl in Hr; simplify_eq. exact HQ.
  - destruct p as [a0|X o k|S X body s k]; [by simpl in Hr; simplify_eq|..]; cbn [run] in Hr.
    + destruct (step th (Act o k) w) as [[p1 w1]|e] eqn:Hs; [|by destruct e].
      cbn [step] in Hs. destruct (exec th o w) as [[x w2]|] eqn:He; [|done]. injection Hs as <- <-.
      eapply r_step; [simpl; by rewrite He|]. by apply IH.
    + cbn [step] in Hr. eapply r_step; [reflexivity|].
      eapply r_peq; [|apply IH; exact Hr].
      apply pbind_assoc. by intros [s'|x].
Qed.

Lemma r_act {X A} th (o : op X) (k : X -> prog A) Q w x w' :
  exec th o w = Ok (x, w') -> returns th (k x) Q w' -> returns th (act o ≫= k) Q w.
Proof using Type. intros He Hk. eapply r_step; [|exact Hk]. simpl. by rewrite He. Qed.
Lemma r_act_last {X} th (o : op X) Q w x w' : exec th o w = Ok (x, w') -> Q x w' -> returns th (act o) Q w.
Proof using Type. intros He HQ. eapply r_step; [simpl; by rewrite He|]. by apply r_ret. Qed.
Lemma r_iter {A S X} th (body : S -> prog (S + X)) s (k : X -> prog A) Q w :
  returns th (body s) (fun r w' => match r with
      | inl s' => returns th (Iter body s' k) Q w'
      | inr x => returns th (k x) Q w'
      end) w ->
  returns th (Iter body s k) Q w.
Proof using Type.
  intros H. eapply r_step; [reflexivity|]. apply r_bind. eapply r_mono; [exact H|].
  cbn beta. by intros [s'|x] w'.
Qed.

(** thread-local variables and inputs *)
Lemma r_tls_get {X A} th (f : tls -> X) (k : X -> prog A) Q w :
  returns th (k (f (tls_of w th))) Q (set_tls th (tls_of w th) w) -> returns th (tls_get f ≫= k) Q w.
Proof using Type. intros H. eapply r_act; [reflexivity|exact H]. Qed.
Lemma r_tls_set {A} th f (k : unit -> prog A) Q w :
  returns th (k tt) Q (set_tls th (f (tls_of w th)) w) -> returns th (tls_set f ≫= k) Q w.
Proof using Type. intros H. eapply r_act; [reflexivity|exact H]. Qed.
Lemma r_env {A} th name v l (k : Z -> prog A) Q w : env_of w th = v :: l ->
  returns th (k v) Q (set_env th l w) -> returns th (act (Env name) ≫= k) Q w.
Proof using Type. intros He H. eapply r_act; [simpl; by rewrite He|exact H]. Qed.
(** a system call takes its result and its errno from the inputs *)
Lemma r_sys_call th name v e l Q w : env_of w th = v :: e :: l ->
  Q v (set_tls th (set_t_errno e (tls_of w th)) (set_env th l w)) -> returns th (sys_call name) Q w.
Proof using Type.
  intros He H. unfold sys_call. eapply r_env; [exact He|].
  eapply r_env; [unfold env_of, set_env; simpl; by rewrite lookup_insert_eq|].
  apply r_tls_set, r_ret. replace (tls_of _ _) with (tls_of w th) by done.
  unfold set_tls, set_env in *. simpl in *. by rewrite insert_insert_eq.
Qed.

Lemma env_set_tls w th t : env_of (set_tls th t w) th = env_of w th.
Proof using Type. done. Qed.
Lemma env_set_env w th l : env_of (set_env th l w) th = l.
Proof using Type. unfold env_of, set_env. simpl. by rewrite lookup_insert_eq. Qed.
Lemma tls_set_tls w th t : tls_of (set_tls th t w) th = t.
Proof using Type. unfold tls_of, set_tls. simpl. by rewrite lookup_insert_eq. Qed.
End returns.
