(* ===== verification/RtTls.v ===== *)
(** * A logic for the thread-local variables of a program

    [twp E p Q t]: started with thread-local variables [t], whatever the other threads
    and the environment do, program [p] ends, if it ends, with a result and thread-local
    variables that satisfy [Q] (for some state of the globals at each of its operations on
    them), and its operations on thread-local variables fail only
    with errors that satisfy [E]. *)
From S2P Require Import Prelude Options RunQueue TidMap NonDetSet Scheduler SyncFuncs RtState Proc RtBase.

Definition op_twp {X} (E : error -> Prop) (o : op X) (Q : X -> tls -> Prop) (t : tls) : Prop :=
  match o in op X return (X -> tls -> Prop) -> Prop with
  | Tls m => fun Q => wpx E m Q t
  | Rt m | Free m => fun Q => forall x r r', m r = Ok (x, r') -> Q x t
  | Call _ => fun Q => forall x, Q x t
  | Self | Env _ => fun Q => forall x, Q x t
  | SetSelf | Forked => fun Q => forall x, Q x t
  end Q.
Fixpoint twp {A} (E : error -> Prop) (p : prog A) (Q : A -> tls -> Prop) (t : tls) : Prop :=
  match p with
  | Ret a => Q a t
  | Act o k => op_twp E o (fun x t' => twp E (k x) Q t') t
  | @Iter _ T X body s k => exists I : T -> tls -> Prop, I s t /\ forall s t, I s t ->
      twp E (body s) (fun r t' => match r with inl s' => I s' t' | inr x => twp E (k x) Q t' end) t
  end.

Section logic.
Context {E : error -> Prop}.

Lemma op_twp_mono {X} (o : op X) (P Q : X -> tls -> Prop) t : (forall x t, P x t -> Q x t) ->
  op_twp E o P t -> op_twp E o Q t.
Proof using Type. intros H. destruct o; simpl; eauto. intros Hm. by eapply wp_mono. Qed.
Lemma twp_mono {A} (p : prog A) : forall (P Q : A -> tls -> Prop) t, (forall a t, P a t -> Q a t) ->
  twp E p P t -> twp E p Q t.
Proof using Type.
  induction p as [A a|A X o k IH|A S X body IHb s k IHk]; intros P Q t H; simpl.
  - auto.
  - apply op_twp_mono. intros x t'. by apply IH.
  - intros (I & HI & Hb). exists I. split; [done|]. intros s' t' Hs. eapply IHb; [|by apply Hb].
    intros [s2|x] t2; [done|]. by apply IHk.
Qed.
Lemma twp_bind {A B} (p : prog A) : forall (f : A -> prog B) Q t,
  twp E p (fun a t' => twp E (f a) Q t') t -> twp E (p ≫= f) Q t.
Proof using Type.
  induction p as [A a|A X o k IH|A S X body _ s k IH]; intros f Q t; simpl.
  - done.
  - apply op_twp_mono. intros x t'. by apply IH.
  - intros (I & HI & Hb). exists I. split; [done|]. intros s' t' Hs. eapply twp_mono; [|by apply Hb].
    intros [s2|x] t2; [done|]. by apply IH.
Qed.

Context `{O : Options, U : UnorderedIter, G : GlobalAddrs}.

(** a step of the thread itself *)
Lemma twp_step {A} th (p p' : prog A) Q w w' : twp E p Q (tls_of w th) -> step th p w = Ok (p', w') ->
  twp E p' Q (tls_of w' th).
Proof using Type.
  destruct p as [a|X o k|S X body s k]; cbn [twp step]; [done| |].
  - intros Ho. destruct (exec th o w) as [[x w1]|] eqn:He; [|done]. intros [= <- <-].
    destruct o as [X c|X m|X m|X m| | | |q]; cbn [exec op_twp] in *; unfold zoom in He.
    + destruct (scall_code _ _ _ _) as [[??]|]; simplify_eq/=. apply Ho.
    + destruct (m (w_rt w)) as [[??]|] eqn:Hm; simplify_eq/=. by eapply Ho.
    + destruct (m (w_rt w)) as [[??]|] eqn:Hm; simplify_eq/=. by eapply Ho.
    + unfold wpx in Ho. destruct (m _) as [[??]|]; simplify_eq/=. unfold tls_of at 1. cbn. by rewrite lookup_insert_eq.
    + simplify_eq/=. apply Ho.
    + destruct (set_self _ _) as [[[??]?]|]; simplify_eq/=. apply Ho.
    + destruct (childForkReturn _ _) as [[[??]?]|]; simplify_eq/=. apply Ho.
    + destruct (env_of w th); simplify_eq/=. apply Ho.
  - intros (I & HI & Hb) [= <- <-]. apply twp_bind. eapply twp_mono; [|by apply Hb].
    intros [s'|x] t'; [|done]. simpl. intros HI'. by exists I.
Qed.
(** an operation on thread-local variables that fails *)
Lemma twp_fails {A X} th (m : M tls X) (k : X -> prog A) Q w e : twp E (Act (Tls m) k) Q (tls_of w th) ->
  step th (Act (Tls m) k) w = Err e -> E e.
Proof using Type.
  cbn [twp op_twp step exec]. unfold wpx, zoom. destruct (m (tls_of w th)) as [[??]|]; [done|]. by intros H [= <-].
Qed.
(** the steps of other threads do not matter *)
Lemma other_step {A} th th2 (p p' : prog A) w w' : th <> th2 -> step th p w = Ok (p', w') ->
  tls_of w' th2 = tls_of w th2.
Proof using Type.
  intros Hne. destruct p as [a|X o k|S X body s k]; cbn [step]; [done| |by intros [= _ <-]].
  destruct (exec th o w) as [[x w1]|] eqn:He; [|done]. intros [= _ <-].
  destruct o as [X c|X m|X m|X m| | | |q]; cbn [exec] in *; unfold zoom in He.
  + by destruct (scall_code _ _ _ _) as [[??]|]; simplify_eq/=.
  + by destruct (m _) as [[??]|]; simplify_eq/=.
  + by destruct (m _) as [[??]|]; simplify_eq/=.
  + destruct (m _) as [[??]|]; simplify_eq/=. unfold tls_of. cbn. by rewrite lookup_insert_ne.
  + by simplify_eq/=.
  + by destruct (set_self _ _) as [[[??]?]|]; simplify_eq/=.
  + by destruct (childForkReturn _ _) as [[[??]?]|]; simplify_eq/=.
  + by destruct (env_of w th); simplify_eq/=.
Qed.
Lemma twp_steps c l c' th Q : psteps c l c' -> forall p, p_threads c !! th = Some p ->
  twp E p Q (tls_of (p_world c) th) ->
  exists p', p_threads c' !! th = Some p' /\ twp E p' Q (tls_of (p_world c') th).
Proof using Type.
  induction 1 as [c|c th1 c1 l c2 Hs _ IH]; intros p Hp Ht; [by exists p|].
  destruct Hs as [q q' w' Hq Hs ->]. destruct (decide (th1 = th)) as [->|Hne].
  - rewrite Hp in Hq. injection Hq as <-. apply (IH q'); cbn [p_threads p_world]; [by rewrite lookup_insert_eq|].
    by eapply twp_step.
  - apply (IH p); cbn [p_threads p_world]; [by rewrite lookup_insert_ne|]. by rewrite (other_step _ _ _ _ _ _ Hne Hs).
Qed.
End logic.
