(* ===== verification/RtSync.v ===== *)
(** * Mutexes, reader-writer locks, barriers, condition variables and semaphores:
    the methods of RecorderRT in lib/runtime/record-runtime.cpp

    A method takes [me] (pthread_self()), the instruction id [ins] and the value of the
    reference parameter [error], and returns its result with the new value of [error]. *)
From S2P Require Import Prelude Options TidMap Scheduler SyncFuncs RtState Proc RtBase RtRuntime.

Section sync.
Context `{O : Options, U : UnorderedIter, G : GlobalAddrs}.

(** ** Mutexes *)

(** kind: the type set in the mutex attribute *)
Definition pthreadMutexInit (me ins error mu : Z) (kind : mutex_kind) : prog (Z * Z) :=
  non_det_or (Runtime_pthread_mutex_init mu kind error)
   (_ ← SCHED_TIMER_START me;
    r ← with_errno error (plain (os_mutex_init mu kind));
    _ ← SCHED_TIMER_END ins syncfunc.pthread_mutex_init [r.1];
    mret r).

Definition pthreadMutexDestroy (me ins error mu : Z) : prog (Z * Z) :=
  non_det_or (Runtime_pthread_mutex_destroy mu error)
   (_ ← SCHED_TIMER_START me;
    r ← with_errno error (plain (os_mutex_destroy mu));
    _ ← SCHED_TIMER_END ins syncfunc.pthread_mutex_destroy [r.1];
    mret r).

(** the loop of the three lock helpers: [trylock] is tried again after every wake-up *)
Definition lock_helper (trylock : RTM Z) (chan timeout : Z) : prog Z :=
  ploop (ret ← rt_do trylock;
         if ret =? 0 then mret (Some 0)
         else
           _ ← passert ndebug (ret =? EBUSY) "failed sync calls are not yet supported!";
           ret ← syncWait chan timeout;
           mret (if ret =? ETIMEDOUT then Some ETIMEDOUT else None)).
Definition pthreadMutexLockHelper (me mu timeout : Z) : prog Z :=
  lock_helper (os_mutex_trylock me mu) mu timeout.
Definition pthreadRWLockWrLockHelper (me rw timeout : Z) : prog Z :=
  lock_helper (os_rwlock_trywrlock me rw) rw timeout.
Definition pthreadRWLockRdLockHelper (rw timeout : Z) : prog Z :=
  lock_helper (os_rwlock_tryrdlock rw) rw timeout.

(** [errno = error; helper; error = errno] *)
Definition helper_errno (error : Z) (helper : prog Z) : prog (Z * Z) :=
  _ ← tls_set (set_t_errno error);
  r ← helper;
  e ← tls_get t_errno;
  mret (r, e).

Definition pthreadMutexLock (me ins error mu : Z) : prog (Z * Z) :=
  non_det_or (Runtime_pthread_mutex_lock me mu error)
   (_ ← SCHED_TIMER_START me;
    r ← helper_errno error (pthreadMutexLockHelper me mu FOREVER);
    _ ← pwhen (flag_set scheduling_policy 1)
          (tls_set (fun t => if noCSWholeLocal t then t else set_inCSLevel (inCSLevel t + 1) t));
    _ ← SCHED_TIMER_END ins syncfunc.pthread_mutex_lock [mu];
    mret (0, r.2)).

Definition pthreadMutexTryLock (me ins error mu : Z) : prog (Z * Z) :=
  non_det_or (native_plain error (plain (os_mutex_trylock me mu)))
   (_ ← SCHED_TIMER_START me;
    r ← with_errno error (plain (os_mutex_trylock me mu));
    _ ← passert ndebug ((r.1 =? 0) || (r.1 =? EBUSY)) "failed sync calls are not yet supported!";
    _ ← SCHED_TIMER_END ins syncfunc.pthread_mutex_trylock [mu; r.1];
    mret r).

(** pthread_mutex_timedlock and the other native timed calls block for as long as the
    environment decides *)
Definition pthreadMutexTimedLock (me ins error mu : Z) (abstime : option timespec) : prog (Z * Z) :=
  non_det_or (r ← sys_call "pthread_mutex_timedlock";
              _ ← (if r =? 0 then act (Free (os_mutex_lock me mu)) else mret 0);
              mret (r, error))
   (match abstime with
    | None => pthreadMutexLock me ins error mu
    | Some t =>
        cur_time ← current_time;
        let rel_time := time_diff cur_time t in
        _ ← SCHED_TIMER_START me;
        n ← call SGetCount;
        turns ← rel_turns (Some rel_time);
        r ← helper_errno error (pthreadMutexLockHelper me mu (n +u32 turns));
        _ ← SCHED_TIMER_END ins syncfunc.pthread_mutex_timedlock [mu; r.1];
        mret r
    end).

Definition pthreadMutexUnlock (me ins error mu : Z) : prog (Z * Z) :=
  non_det_or (Runtime_pthread_mutex_unlock me mu error)
   (_ ← SCHED_TIMER_START me;
    r ← with_errno error (plain (os_mutex_unlock me mu));
    _ ← passert ndebug (r.1 =? 0) "failed sync calls are not yet supported!";
    _ ← pwhen (flag_set scheduling_policy 1)
          (tls_set (fun t => if (0 <? inCSLevel t) && negb (noCSWholeLocal t)
                             then set_inCSLevel (inCSLevel t - 1) t else t));
    _ ← syncSignal mu false;
    _ ← SCHED_TIMER_END ins syncfunc.pthread_mutex_unlock [mu; r.1];
    mret r).

(** ** Reader-writer locks *)

Definition pthread_rwlock_rdlock (me ins error rw : Z) : prog (Z * Z) :=
  non_det_or (native_plain error (plain (os_rwlock_rdlock rw)))
   (_ ← SCHED_TIMER_START me;
    r ← helper_errno error (pthreadRWLockRdLockHelper rw FOREVER);
    _ ← SCHED_TIMER_END ins syncfunc.pthread_rwlock_rdlock [rw];
    mret (0, r.2)).

Definition pthread_rwlock_wrlock (me ins error rw : Z) : prog (Z * Z) :=
  non_det_or (native_plain error (plain (os_rwlock_wrlock me rw)))
   (_ ← SCHED_TIMER_START me;
    r ← helper_errno error (pthreadRWLockWrLockHelper me rw FOREVER);
    _ ← SCHED_TIMER_END ins syncfunc.pthread_rwlock_wrlock [rw];
    mret (0, r.2)).

(** the FIXME of the source: the deterministic branch takes the write lock *)
Definition pthread_rwlock_tryrdlock (me ins error rw : Z) : prog (Z * Z) :=
  non_det_or (native_plain error (plain (os_rwlock_tryrdlock rw)))
   (_ ← SCHED_TIMER_START me;
    r ← with_errno error (plain (os_rwlock_trywrlock me rw));
    _ ← SCHED_TIMER_END ins syncfunc.pthread_rwlock_tryrdlock [rw; r.1];
    mret r).

Definition pthread_rwlock_trywrlock (me ins error rw : Z) : prog (Z * Z) :=
  non_det_or (native_plain error (plain (os_rwlock_trywrlock me rw)))
   (_ ← SCHED_TIMER_START me;
    r ← with_errno error (plain (os_rwlock_trywrlock me rw));
    _ ← SCHED_TIMER_END ins syncfunc.pthread_rwlock_trywrlock [rw; r.1];
    mret r).

Definition pthread_rwlock_unlock (me ins error rw : Z) : prog (Z * Z) :=
  non_det_or (native_plain error (plain (os_rwlock_unlock rw)))
   (_ ← SCHED_TIMER_START me;
    r ← with_errno error (plain (os_rwlock_unlock rw));
    _ ← syncSignal rw false;
    _ ← SCHED_TIMER_END ins syncfunc.pthread_rwlock_unlock [rw; r.1];
    mret r).

Definition pthread_rwlock_destroy (me ins error rw : Z) : prog (Z * Z) :=
  non_det_or (native_plain error (plain (os_rwlock_destroy rw)))
   (_ ← SCHED_TIMER_START me;
    r ← with_errno error (plain (os_rwlock_destroy rw));
    _ ← SCHED_TIMER_END ins syncfunc.pthread_rwlock_destroy [rw; r.1];
    mret r).

Definition pthread_rwlock_init (me ins error rw attr : Z) : prog (Z * Z) :=
  non_det_or (native_plain error (plain (os_rwlock_init rw)))
   (_ ← SCHED_TIMER_START me;
    r ← with_errno error (plain (os_rwlock_init rw));
    _ ← SCHED_TIMER_END ins syncfunc.pthread_rwlock_init [rw; attr; r.1];
    mret r).

(** ** Barriers *)

(** what pthreadBarrierInit does to [barriers], and the result of pthread_barrier_init *)
Definition barrier_setup (barrier count : Z) : RTM Z :=
  let ret := if u32 count =? 0 then EINVAL else 0 in
  cassert ndebug (ret =? 0) "failed sync calls are not yet supported!" ;;
  bs ← gets g_barriers;
  cassert ndebug (bool_decide (bs !! barrier = None)) "barrier already initialized!" ;;
  modify (set_g_barriers (<[barrier := Barrier (s32 count) 0]> bs)) ;;
  mret ret.

Definition pthreadBarrierInit (me ins error barrier count : Z) : prog (Z * Z) :=
  non_det_or (native_call error (plain (barrier_setup barrier count)))
   (_ ← SCHED_TIMER_START me;
    r ← with_errno error (plain (barrier_setup barrier count));
    _ ← SCHED_TIMER_END ins syncfunc.pthread_barrier_init [barrier; count];
    mret r).

(** a thread arrives; true for the last one *)
Definition barrier_arrive (barrier : Z) : RTM bool :=
  bs ← gets g_barriers;
  cassert ndebug (bool_decide (bs !! barrier <> None)) "barrier is not initialized!" ;;
  match bs !! barrier with
  | None => fail NullDeref
  | Some b =>
      let n := b_narrived b + 1 in
      cassert ndebug (n <=? b_count b) "barrier overflow!" ;;
      let last := b_count b =? n in
      modify (set_g_barriers (<[barrier := Barrier (b_count b) (if last then 0 else n)]> bs)) ;;
      mret last
  end.

Definition pthreadBarrierWait (me ins error barrier : Z) : prog (Z * Z) :=
  non_det_or (r ← sys_call "pthread_barrier_wait"; mret (r, error))
   (_ ← SCHED_TIMER_START me;
    _ ← SCHED_TIMER_FAKE_END ins syncfunc.pthread_barrier_wait [barrier];
    last ← rt_do (barrier_arrive barrier);
    ret ← (if last : bool then
             _ ← syncSignal barrier true;
             _ ← call (SPutTurn false 0);
             _ ← call SGetTurn;
             mret PTHREAD_BARRIER_SERIAL_THREAD
           else
             _ ← syncWait barrier FOREVER;
             mret 0);
    _ ← SCHED_TIMER_END ins syncfunc.pthread_barrier_wait [barrier];
    mret (ret, error)).

(** pthread_barrier_destroy says EBUSY while a thread uses the barrier *)
Definition pthreadBarrierDestroy (me ins error barrier : Z) : prog (Z * Z) :=
  non_det_or (r ← sys_call "pthread_barrier_destroy"; mret (r, error))
   (_ ← SCHED_TIMER_START me;
    r ← helper_errno error (sys_call "pthread_barrier_destroy");
    _ ← passert ndebug ((r.1 =? 0) || (r.1 =? EBUSY)) "failed sync calls are not yet supported!";
    _ ← (if r.1 =? 0 then
           rt_do (bs ← gets g_barriers;
                  cassert ndebug (bool_decide (bs !! barrier <> None)) "barrier not initialized!" ;;
                  match bs !! barrier with
                  | None => fail NullDeref                  (* erase(end()) *)
                  | Some _ => modify (set_g_barriers (delete barrier bs))
                  end)
         else mret tt);
    _ ← SCHED_TIMER_END ins syncfunc.pthread_barrier_destroy [barrier; r.1];
    mret r).

(** ** Condition variables *)

(** [new Addr_n_role], recorded as the line where threads block on [cv]; the pointer *)
Definition anr_block (cv addr role : Z) : RTM Z :=
  p ← gets g_next_anr;
  modify (fun r => set_g_next_anr (p + 1) (set_g_anr (<[p := (addr, role)]> (g_anr r)) r)) ;;
  modify (fun r => set_g_cv_line (<[cv := p]> (g_cv_line r)) r) ;;
  modify (fun r => set_g_cv_count
    (<[(addr, role) := default 0 (g_cv_count r !! (addr, role)) + 1]> (g_cv_count r)) r) ;;
  mret p.
(** [blocked_cv_line_map[cv]] *)
Definition anr_line (cv : Z) : RTM Z :=
  p ← gets (fun r => default 0 (g_cv_line r !! cv));
  modify (fun r => set_g_cv_line (<[cv := p]> (g_cv_line r)) r) ;; mret p.
(** [--blocked_cv_count_map[*p]], erasing the entries of [cv] when nothing is left *)
Definition anr_unblock (cv p : Z) : RTM Z :=
  k ← load_anr p;
  n ← gets (fun r => default 0 (g_cv_count r !! k) - 1);
  modify (fun r => set_g_cv_count (<[k := n]> (g_cv_count r)) r) ;;
  when (n <=? 0)
    (modify (fun r => set_g_cv_line (delete cv (g_cv_line r))
                        (set_g_cv_count (delete k (g_cv_count r)) r))) ;;
  mret n.

(** [new Addr_n_role(get_caller(), getRoleid(self()))] under wakeamap_plus; 0 without *)
Definition block_line (cv : Z) : prog Z :=
  if wakeamap_plus then
    addr ← act (Env "get_caller");
    self ← act Self;
    role ← call (SRoleid self);
    rt_do (anr_block cv addr role)
  else mret 0.

Definition pthreadCondWait (me ins error cv mu : Z) : prog (Z * Z) :=
  non_det_or (_ ← act (Free (os_mutex_unlock me mu));
              r ← sys_call "pthread_cond_wait";
              _ ← act (Free (os_mutex_lock me mu));
              mret (r, error))
   (_ ← SCHED_TIMER_START me;
    _ ← rt_do (n ← cond_count cv; cond_count_set cv (n + 1));
    _ ← block_line cv;
    _ ← rt_do (os_mutex_unlock me mu);
    _ ← syncSignal mu false;
    _ ← SCHED_TIMER_FAKE_END ins syncfunc.pthread_cond_wait [cv; mu];
    _ ← syncWait cv FOREVER;
    r ← helper_errno error (pthreadMutexLockHelper me mu FOREVER);
    _ ← SCHED_TIMER_END ins syncfunc.pthread_cond_wait [cv; mu];
    mret (0, r.2)).

Definition pthreadCondTimedWait (me ins error cv mu : Z) (abstime : option timespec) : prog (Z * Z) :=
  match abstime with
  | None => pthreadCondWait me ins error cv mu
  | Some t =>
      cur_time ← current_time;
      let rel_time := time_diff cur_time t in
      non_det_or (_ ← act (Free (os_mutex_unlock me mu));
                  r ← sys_call "pthread_cond_timedwait";
                  _ ← act (Free (os_mutex_lock me mu));
                  mret (r, error))
       (_ ← SCHED_TIMER_START me;
        _ ← rt_do (os_mutex_unlock me mu);
        _ ← rt_do (n ← cond_count cv; cond_count_set cv (n + 1));
        line ← block_line cv;
        _ ← SCHED_TIMER_FAKE_END ins syncfunc.pthread_cond_timedwait [cv; mu; 0];
        _ ← syncSignal mu false;
        nTurns ← rel_turns (Some rel_time);
        n ← call SGetCount;
        saved_ret ← syncWait cv (n +u32 nTurns);
        _ ← (if saved_ret =? wake_code TIMEDOUT then
               _ ← rt_do (n ← cond_count cv; cond_count_set cv (n - 1));
               if wakeamap_plus then
                 newval ← rt_do (anr_unblock cv line);
                 pwhen (newval <=? 0) (tls_set (set_satisfyingRole 0))
               else mret tt
             else mret tt);
        r ← helper_errno error (pthreadMutexLockHelper me mu FOREVER);
        _ ← SCHED_TIMER_END ins syncfunc.pthread_cond_timedwait [cv; mu; saved_ret];
        mret (saved_ret, r.2))
  end.

(** the choice of the role to serve, at the end of pthreadCondSignal *)
Definition choose_role (line newval : Z) : prog unit :=
  k ← rt_do (load_anr line);
  c ← rt_do (line_count k);
  match c with
  | Some n =>
      if 0 <? n then
        cv0 ← tls_get satisfyingCV;
        old ← rt_do (anr_line cv0);
        role ← tls_get satisfyingRole;
        if negb (role =? 0) && negb (role =? line) && negb (old =? 0) then
          k0 ← rt_do (load_anr old);
          c0 ← rt_do (line_count k0);
          _ ← rt_set (fun r => set_g_cv_count (<[k0 := default 0 c0]> (g_cv_count r)) r);
          pwhen (default 0 c0 <? newval) (tls_set (set_satisfyingRole line))
        else tls_set (set_satisfyingRole line)
      else mret tt
  | None => mret tt
  end.

Definition pthreadCondSignal (me ins error cv : Z) : prog (Z * Z) :=
  non_det_or (r ← sys_call "pthread_cond_signal"; mret (r, error))
   (_ ← SCHED_TIMER_START me;
    _ ← syncSignal cv false;
    _ ← rt_do (n ← cond_count cv; when (0 <? n) (cond_count_set cv (n - 1)));
    line ← (if wakeamap_plus then rt_do (anr_line cv) else mret 0);
    newval ← (if wakeamap_plus && negb (line =? 0) then rt_do (anr_unblock cv line) else mret 0);
    _ ← (if flag_set scheduling_policy 2 then
           if wakeamap_plus then
             if line =? 0 then mret tt else choose_role line newval
           else
             n ← rt_do (cond_count cv);
             pwhen (0 <? n) (tls_set (set_satisfyingCV cv))
         else mret tt);
    _ ← SCHED_TIMER_END ins syncfunc.pthread_cond_signal [cv];
    mret (0, error)).

Definition pthreadCondBroadcast (me ins error cv : Z) : prog (Z * Z) :=
  non_det_or (r ← sys_call "pthread_cond_broadcast"; mret (r, error))
   (_ ← SCHED_TIMER_START me;
    _ ← syncSignal cv true;
    _ ← pwhen wakeamap_plus (rt_set (fun r => set_g_cv_line (delete cv (g_cv_line r)) r));
    _ ← tls_set (fun t => if cv =? satisfyingCV t then set_satisfyingCV 0 t else t);
    _ ← rt_do (cond_count_set cv 0);
    _ ← SCHED_TIMER_END ins syncfunc.pthread_cond_broadcast [cv];
    mret (0, error)).

(** ** Semaphores *)

(** sem_trywait with the turn held; it sets errno when it fails *)
Definition try_sem (sem : Z) : prog Z :=
  r ← rt_do (os_sem_trywait sem);
  _ ← note_errno r.2;
  _ ← (if r.1 =? 0 then mret tt
       else e ← tls_get t_errno;
            passert ndebug (e =? EAGAIN) "failed sync calls are not yet supported!");
  mret r.1.

Definition semWait (me ins error sem : Z) : prog (Z * Z) :=
  non_det_or (Runtime_sem_wait sem error)
   (_ ← SCHED_TIMER_START me;
    _ ← ploop (ret ← try_sem sem;
               if ret =? 0 then mret (Some tt)
               else
                 _ ← rt_do (n ← sem_count sem; sem_count_set sem (n + 1));
                 _ ← syncWait sem FOREVER;
                 mret None);
    _ ← SCHED_TIMER_END ins syncfunc.sem_wait [sem];
    mret (0, error)).

Definition semTryWait (me ins error sem : Z) : prog (Z * Z) :=
  non_det_or (native_plain error (os_sem_trywait sem))
   (_ ← SCHED_TIMER_START me;
    r ← with_errno error (os_sem_trywait sem);
    _ ← (if r.1 =? 0 then mret tt
         else e ← tls_get t_errno;
              passert ndebug (e =? EAGAIN) "failed sync calls are not yet supported!");
    _ ← SCHED_TIMER_END ins syncfunc.sem_trywait [sem; r.1];
    mret r).

(** the loop gives the result, saved_err and error *)
Definition semTimedWait (me ins error sem : Z) (abstime : option timespec) : prog (Z * Z) :=
  match abstime with
  | None => semWait me ins error sem
  | Some t =>
      cur_time ← current_time;
      let rel_time := time_diff cur_time t in
      non_det_or (r ← sys_call "sem_timedwait";
                  _ ← (if r =? 0 then act (Free (os_sem_wait sem)) else mret 0);
                  mret (r, error))
       (_ ← SCHED_TIMER_START me;
        n ← call SGetCount;
        turns ← rel_turns (Some rel_time);
        res ← ploop (ret ← try_sem sem;
                     if ret =? 0 then mret (Some (0, 0, error))
                     else
                       _ ← rt_do (n ← sem_count sem; sem_count_set sem (n + 1));
                       ret ← syncWait sem (n +u32 turns);
                       if ret =? ETIMEDOUT then
                         _ ← rt_do (n ← sem_count sem; sem_count_set sem (n - 1));
                         mret (Some (-1, ETIMEDOUT, ETIMEDOUT))
                       else mret None);
        _ ← SCHED_TIMER_END ins syncfunc.sem_timedwait [sem; res.1.1];
        _ ← tls_set (set_t_errno res.1.2);
        mret (res.1.1, res.2))
  end.

Definition semPost (me ins error sem : Z) : prog (Z * Z) :=
  non_det_or (Runtime_sem_post sem error)
   (_ ← SCHED_TIMER_START me;
    r ← rt_do (os_sem_post sem);
    _ ← note_errno r.2;
    _ ← passert ndebug (r.1 =? 0) "failed sync calls are not yet supported!";
    _ ← syncSignal sem false;
    n ← rt_do (n ← sem_count sem; when (0 <? n) (sem_count_set sem (n - 1)) ;; sem_count sem);
    _ ← pwhen (flag_set scheduling_policy 2 && (0 <? n)) (tls_set (set_satisfyingSem sem));
    _ ← SCHED_TIMER_END ins syncfunc.sem_post [sem; r.1];
    mret (0, error)).

Definition semInit (me ins error sem value : Z) : prog (Z * Z) :=
  non_det_or (Runtime_sem_init sem value error)
   (_ ← SCHED_TIMER_START me;
    r ← rt_do (os_sem_init sem value);
    _ ← note_errno r.2;
    _ ← passert ndebug (r.1 =? 0) "failed sync calls are not yet supported!";
    _ ← SCHED_TIMER_END ins syncfunc.sem_init [sem; r.1];
    mret (0, error)).
End sync.
