(* ===== verification/BusyWait.v ===== *)
(** * The busy wait: lib/runtime/busywait.c (balanceprofiler/busywait.c is the same file)

    Times are pairs of 64-bit seconds and microseconds.  The loops of timeval_normalize
    run as often as their fuel says; [carry_down_exit] and [carry_up_exit] show that they
    have ended then. *)
From S2P Require Import Prelude Options RtState Proc.

Definition USEC_PER_SEC : Z := 1000000.
Record timeval : Type := Timeval { tval_sec : Z; tval_usec : Z }.

Definition timeval_lt (tv1 tv2 : timeval) : bool :=
  (tval_sec tv1 <? tval_sec tv2) || ((tval_sec tv1 =? tval_sec tv2) && (tval_usec tv1 <? tval_usec tv2)).

(** [while (tv.tv_usec >= USEC_PER_SEC)] *)
Fixpoint carry_down (fuel : nat) (tv : timeval) : timeval :=
  match fuel with
  | 0%nat => tv
  | S fuel' =>
      if USEC_PER_SEC <=? tval_usec tv
      then carry_down fuel' (Timeval (s64 (tval_sec tv + 1)) (tval_usec tv - USEC_PER_SEC))
      else tv
  end.
(** [while (tv.tv_usec <= -USEC_PER_SEC)] *)
Fixpoint carry_up (fuel : nat) (tv : timeval) : timeval :=
  match fuel with
  | 0%nat => tv
  | S fuel' =>
      if tval_usec tv <=? - USEC_PER_SEC
      then carry_up fuel' (Timeval (s64 (tval_sec tv - 1)) (tval_usec tv + USEC_PER_SEC))
      else tv
  end.
Definition rounds (tv : timeval) : nat := S (Z.to_nat (Z.abs (tval_usec tv) / USEC_PER_SEC)).
(** seconds and microseconds get the same sign *)
Definition same_sign (tv : timeval) : timeval :=
  if (tval_usec tv <? 0) && (0 <? tval_sec tv)
  then Timeval (tval_sec tv - 1) (USEC_PER_SEC - (-1 * tval_usec tv))
  else if (0 <? tval_usec tv) && (tval_sec tv <? 0)
  then Timeval (tval_sec tv + 1) (- USEC_PER_SEC - (-1 * tval_usec tv))
  else tv.
Definition timeval_normalize (tv : timeval) : timeval :=
  let tv := carry_down (rounds tv) tv in
  let tv := carry_up (rounds tv) tv in
  same_sign tv.

(** when the loop of busy_wait that starts at [now] stops *)
Definition stop_time (now : timeval) (wait_usec : Z) : timeval :=
  timeval_normalize (Timeval (tval_sec now) (s64 (tval_usec now + wait_usec))).

Definition gettimeofday : prog timeval :=
  sec ← act (Env "gettimeofday tv_sec");
  usec ← act (Env "gettimeofday tv_usec");
  mret (Timeval sec usec).
Definition busy_wait (wait_usec : Z) : prog unit :=
  start ← gettimeofday;
  let stop := stop_time start wait_usec in
  ploop (now ← gettimeofday; mret (if timeval_lt now stop then None else Some tt)).

(** ** Facts *)
Definition usec_of (tv : timeval) : Z := tval_sec tv * USEC_PER_SEC + tval_usec tv.
(** the readings of the clock *)
Definition clock_reading (tv : timeval) : Prop := 0 <= tval_sec tv < 2 ^ 62 /\ 0 <= tval_usec tv < USEC_PER_SEC.

Lemma carry_down_exit fuel : forall tv, - 2 ^ 62 <= tval_sec tv -> Z.of_nat fuel + tval_sec tv < 2 ^ 62 ->
  tval_usec tv < Z.of_nat fuel * USEC_PER_SEC ->
  let tv' := carry_down fuel tv in
  tval_usec tv' < USEC_PER_SEC /\ usec_of tv' = usec_of tv /\ tval_sec tv <= tval_sec tv' <= tval_sec tv + Z.of_nat fuel /\
  (0 <= tval_usec tv -> 0 <= tval_usec tv') /\ (tval_usec tv < 0 -> tv' = tv).
Proof.
  unfold usec_of, USEC_PER_SEC. induction fuel as [|fuel IH]; intros [s u] H1 H2 H3; simpl in *; [split_and!; (done || lia)|].
  unfold USEC_PER_SEC. destruct (Z.leb_spec 1000000 u); simpl; [|split_and!; (done || lia)].
  rewrite s64_small by lia. specialize (IH (Timeval (s + 1) (u - 1000000))). simpl in IH.
  destruct IH as (A & B & C & D & E); [lia..|]. split_and!; [lia..|]. intros Hn. exfalso. lia.
Qed.
Lemma carry_up_exit fuel : forall tv, tval_sec tv < 2 ^ 62 -> - 2 ^ 62 <= tval_sec tv - Z.of_nat fuel ->
  - tval_usec tv < Z.of_nat fuel * USEC_PER_SEC ->
  let tv' := carry_up fuel tv in
  - USEC_PER_SEC < tval_usec tv' /\ usec_of tv' = usec_of tv /\ (tval_usec tv < USEC_PER_SEC -> tval_usec tv' < USEC_PER_SEC) /\
  tval_sec tv - Z.of_nat fuel <= tval_sec tv' <= tval_sec tv.
Proof.
  unfold usec_of, USEC_PER_SEC. induction fuel as [|fuel IH]; intros [s u] H1 H2 H3; simpl in *; [split_and!; (done || lia)|].
  change (- USEC_PER_SEC) with (-1000000). change USEC_PER_SEC with 1000000. destruct (Z.leb_spec u (-1000000)); simpl; [|split_and!; (done || lia)].
  rewrite s64_small by lia. specialize (IH (Timeval (s - 1) (u + 1000000))). simpl in IH.
  destruct IH as (A & B & C & D); [lia..|]. split_and!; lia.
Qed.
Lemma rounds_enough tv : Z.abs (tval_usec tv) < Z.of_nat (rounds tv) * USEC_PER_SEC /\
  Z.of_nat (rounds tv) <= Z.abs (tval_usec tv) / USEC_PER_SEC + 1.
Proof.
  unfold rounds. pose proof (Z.div_pos (Z.abs (tval_usec tv)) USEC_PER_SEC ltac:(lia) ltac:(done)).
  rewrite Nat2Z.inj_succ, Z2Nat.id by done. split; [|lia].
  pose proof (Z.mul_succ_div_gt (Z.abs (tval_usec tv)) USEC_PER_SEC ltac:(done)). lia.
Qed.

(** the loops of timeval_normalize end, and its result stands for the same time and is
    normalised: less than a second of microseconds, with the sign of the seconds *)
Lemma normalize_spec tv : - 2 ^ 60 <= tval_sec tv < 2 ^ 60 -> - 2 ^ 63 <= tval_usec tv < 2 ^ 63 ->
  let tv' := timeval_normalize tv in
  usec_of tv' = usec_of tv /\ - USEC_PER_SEC < tval_usec tv' < USEC_PER_SEC /\
  ~ (tval_usec tv' < 0 /\ 0 < tval_sec tv') /\ ~ (0 < tval_usec tv' /\ tval_sec tv' < 0).
Proof.
  intros Hs Hu. unfold timeval_normalize. cbv zeta.
  assert (Hb : forall x, Z.abs x <= 2 ^ 63 -> Z.abs x / USEC_PER_SEC < 2 ^ 60).
  { intros x Hx. apply Z.div_lt_upper_bound; unfold USEC_PER_SEC; lia. }
  destruct (rounds_enough tv) as [H1 H2]. pose proof (Hb (tval_usec tv) ltac:(lia)).
  destruct (carry_down_exit (rounds tv) tv) as (A1 & A2 & A3 & A4 & A5); [lia..|].
  set (t1 := carry_down (rounds tv) tv) in *.
  assert (Hu1 : - 2 ^ 63 <= tval_usec t1 < USEC_PER_SEC).
  { destruct (Z.lt_ge_cases (tval_usec tv) 0) as [Hn|Hn]; [rewrite (A5 Hn)|]; unfold USEC_PER_SEC in *; lia. }
  destruct (rounds_enough t1) as [B1 B2]. pose proof (Hb (tval_usec t1) ltac:(unfold USEC_PER_SEC in *; lia)).
  destruct (carry_up_exit (rounds t1) t1) as (C1 & C2 & C3 & C4); [lia..|].
  set (t2 := carry_up (rounds t1) t1) in *. specialize (C3 ltac:(lia)). rewrite <-A2, <-C2. clearbody t2. clear -C1 C3.
  unfold same_sign, usec_of, USEC_PER_SEC in *. destruct t2 as [s u]. simpl in *.
  destruct (Z.ltb_spec u 0), (Z.ltb_spec 0 s); simpl; try (split_and!; lia);
    destruct (Z.ltb_spec 0 u), (Z.ltb_spec s 0); simpl; split_and!; lia.
Qed.

(** comparing normalised times with timeval_lt is comparing the microseconds *)
Lemma timeval_lt_usec a b : clock_reading a -> clock_reading b -> timeval_lt a b = (usec_of a <? usec_of b).
Proof.
  unfold clock_reading, timeval_lt, usec_of, USEC_PER_SEC. destruct a as [s1 u1], b as [s2 u2]. simpl. intros H1 H2.
  destruct (Z.ltb_spec s1 s2), (Z.eqb_spec s1 s2), (Z.ltb_spec u1 u2); simpl; symmetry; (apply Z.ltb_lt || apply Z.ltb_ge); lia.
Qed.
Lemma stop_time_spec now wait : 0 <= tval_sec now < 2 ^ 60 -> 0 <= tval_usec now < USEC_PER_SEC -> 0 <= wait < 2 ^ 32 ->
  clock_reading (stop_time now wait) /\ usec_of (stop_time now wait) = usec_of now + wait.
Proof.
  intros Hs Hu Hw. unfold stop_time. rewrite s64_small by (unfold USEC_PER_SEC in *; lia).
  destruct (normalize_spec (Timeval (tval_sec now) (tval_usec now + wait))) as (A & B & C & D);
    [simpl; unfold USEC_PER_SEC in *; lia..|].
  assert (Heq : usec_of (Timeval (tval_sec now) (tval_usec now + wait)) = usec_of now + wait)
    by (unfold usec_of; simpl; lia).
  rewrite Heq in A. split; [|done]. clear Heq. set (t := timeval_normalize _) in *. clearbody t.
  unfold clock_reading, usec_of, USEC_PER_SEC in *. destruct t as [s u], now as [s0 u0]. simpl in *. lia.
Qed.
