(* ===== verification/Rdtsc.v ===== *)
(** * The log of cycle counters: lib/runtime/rdtsc.cpp, and the clock functions of
    dync_hook/xtern-annot.cpp

    record_rdtsc_op puts entries into the storage that the vector rdtsc_log has reserved,
    without changing its size; the model has that storage as a map from indices.  The
    entries of the file are in the order in which they are printed.  The initialisation is
    not under the lock, so it is an operation of its own. *)
From S2P Require Import Prelude Options BinLogThms RtState BusyWait.

Definition max_v_size : Z := 300000000.
Record sync_op_entry : Type := SyncOpEntry {
  rd_tid : Z; rd_op : string; rd_suffix : string; rd_depth : Z; rd_clock : Z; rd_eip : Z
}.
Record rdtsc_state : Type := Rdtsc {
  rdtsc_index : Z;                       (* size_t *)
  rdtsc_log : gmap Z sync_op_entry;      (* the reserved storage *)
  rd_handlers : nat;                     (* how often atexit was called *)
  rd_file : list sync_op_entry
}.
Definition set_rdtsc_index (x : Z) (r : rdtsc_state) : rdtsc_state := Rdtsc x (rdtsc_log r) (rd_handlers r) (rd_file r).
Definition set_rdtsc_log (x : gmap Z sync_op_entry) (r : rdtsc_state) : rdtsc_state :=
  Rdtsc (rdtsc_index r) x (rd_handlers r) (rd_file r).
Definition set_rd_handlers (x : nat) (r : rdtsc_state) : rdtsc_state := Rdtsc (rdtsc_index r) (rdtsc_log r) x (rd_file r).
Definition set_rd_file (x : list sync_op_entry) (r : rdtsc_state) : rdtsc_state :=
  Rdtsc (rdtsc_index r) (rdtsc_log r) (rd_handlers r) x.
Definition rdtsc0 : rdtsc_state := Rdtsc (2 ^ 64 - 1) ∅ 0 [].
Abbreviation RDM := (M rdtsc_state).

Section rdtsc.
Context `{O : Options}.
(** options::record_rdtsc *)
Context (record_rdtsc : bool).

(** the loop of process_rdtsc_log over the indices [i], [i]+1, ... *)
Fixpoint print_entries (n : nat) (i : Z) : RDM unit :=
  match n with
  | 0%nat => mret tt
  | S n' =>
      log ← gets rdtsc_log;
      match log !! i with
      | None => fail UninitRead
      | Some entry =>
          cassert ndebug (rd_depth entry <? 3) "entry->op_print_depth < 3" ;;
          (if rd_depth entry <? 3 then mret tt else fail OutOfBounds) ;;       (* opdeps[3] *)
          modify (fun s => set_rd_file (rd_file s ++ [entry]) s) ;;
          print_entries n' (i + 1)
      end
  end.
Definition process_rdtsc_log : RDM unit :=
  n ← gets rdtsc_index;
  print_entries (Z.to_nat n) 0 ;;
  modify (set_rdtsc_index 0).
(** the part of record_rdtsc_op before the lock *)
Definition rdtsc_init : RDM unit :=
  modify (fun s => set_rdtsc_index 0 (set_rd_handlers (S (rd_handlers s)) s)).
(** the critical section; [entry] has the reading of the counter *)
Definition rdtsc_append (entry : sync_op_entry) : RDM unit :=
  n ← gets rdtsc_index;
  when (max_v_size <=? n) process_rdtsc_log ;;
  n ← gets rdtsc_index;
  modify (fun s => set_rdtsc_log (<[n := entry]> (rdtsc_log s)) s) ;;
  modify (set_rdtsc_index (n +u64 1)).
Definition record_rdtsc_op (entry : sync_op_entry) : RDM unit :=
  when record_rdtsc
    (n ← gets rdtsc_index;
     when (n =? 2 ^ 64 - 1) rdtsc_init ;;
     rdtsc_append entry).

(** ** Nothing is lost *)
(** [l] has been recorded, and the entries from the one with index 0 on are still to be printed *)
Definition recorded (l : list sync_op_entry) (s : rdtsc_state) : Prop :=
  exists pending, l = rd_file s ++ pending /\ rdtsc_index s = Z.of_nat (length pending) /\ rdtsc_index s <= max_v_size /\
    (forall i e, pending !! i = Some e -> rdtsc_log s !! Z.of_nat i = Some e) /\ Forall (fun e => rd_depth e < 3) l.
Lemma wp_print_entries pending : forall i s (Q : unit -> rdtsc_state -> Prop),
  (forall j e, pending !! j = Some e -> rdtsc_log s !! (i + Z.of_nat j) = Some e) ->
  Forall (fun e => rd_depth e < 3) pending -> Q tt (set_rd_file (rd_file s ++ pending) s) ->
  wp (print_entries (length pending) i) Q s.
Proof using Type.
  induction pending as [|e pending IH]; intros i s Q Hlog Hd HQ; simpl.
  - apply wp_ret. rewrite app_nil_r in HQ. by destruct s.
  - apply wp_bind, wp_gets. pose proof (Hlog 0%nat e eq_refl) as He. rewrite Z.add_0_r in He. rewrite He.
    apply Forall_cons in Hd as [Hd1 Hd]. apply Z.ltb_lt in Hd1. apply wp_bind, wp_cassert; [done|].
    rewrite Hd1. apply wp_bind, wp_ret, wp_bind, wp_modify. apply IH; [|done|].
    + intros j e' Hj. simpl. replace (i + 1 + Z.of_nat j) with (i + Z.of_nat (S j)) by lia. by apply Hlog.
    + simpl. by rewrite <-app_assoc.
Qed.
Lemma wp_process l s Q : recorded l s -> (forall s', rd_file s' = l -> recorded l s' -> rdtsc_index s' = 0 -> Q tt s') ->
  wp process_rdtsc_log Q s.
Proof using Type.
  intros (pending & Hl & Hn & Hmax & Hlog & Hd) HQ. unfold process_rdtsc_log. apply wp_bind, wp_gets.
  rewrite Hn, Nat2Z.id. apply wp_bind, wp_print_entries; [done|rewrite Hl in Hd; by apply Forall_app in Hd as [_ Hd]|].
  apply wp_modify, HQ; [by rewrite Hl| |done]. exists []. simpl. rewrite app_nil_r. unfold max_v_size. split_and!; done.
Qed.
Lemma wp_append l s e Q : recorded l s -> rd_depth e < 3 -> (forall s', recorded (l ++ [e]) s' -> Q tt s') ->
  wp (rdtsc_append e) Q s.
Proof using Type.
  intros Hs Hd HQ. unfold rdtsc_append. apply wp_bind, wp_gets.
  assert (forall s, recorded l s -> rdtsc_index s < max_v_size ->
    wp (n ← gets rdtsc_index; modify (fun s => set_rdtsc_log (<[n := e]> (rdtsc_log s)) s) ;;
        modify (set_rdtsc_index (n +u64 1)) : RDM unit) Q s) as Hput.
  { intros s1 (pending & Hl & Hn & Hmax & Hlog & Hds) Hlt. apply wp_bind, wp_gets, wp_bind, wp_modify, wp_modify, HQ.
    exists (pending ++ [e]). unfold max_v_size in *. simpl. rewrite Hn in *. rewrite length_app. simpl. split_and!.
    - by rewrite Hl, app_assoc.
    - unfold u64. rewrite Z.mod_small; lia.
    - unfold u64. rewrite Z.mod_small; lia.
    - intros i e' [Hi|[Hi He]]%lookup_app_Some.
      + rewrite lookup_insert_ne by (apply lookup_lt_Some in Hi; lia). by apply Hlog.
      + destruct (i - length pending)%nat eqn:Hi0; [|done]. injection He as <-.
        replace i with (length pending) by lia. by rewrite lookup_insert_eq.
    - apply Forall_app. split; [done|]. by constructor. }
  apply wp_bind, wp_when; intros Hb.
  - eapply wp_process; [exact Hs|]. intros s' _ Hs' Hn. apply Hput; [done|]. rewrite Hn. done.
  - apply Hput; [done|]. lia.
Qed.
Lemma wp_record l s e Q : record_rdtsc = true -> recorded l s -> rd_depth e < 3 ->
  (forall s', recorded (l ++ [e]) s' -> Q tt s') -> wp (record_rdtsc_op e) Q s.
Proof using Type.
  intros Hon Hs Hd HQ. unfold record_rdtsc_op. rewrite Hon. apply wp_bind, wp_gets.
  assert (rdtsc_index s <= max_v_size) as Hmax by (by destruct Hs as (? & _ & _ & ? & _)).
  rewrite (proj2 (Z.eqb_neq _ _)) by (unfold max_v_size in Hmax; lia). apply wp_bind, wp_ret. by eapply wp_append.
Qed.
Lemma recorded_all l : record_rdtsc = true -> forall l0 s, recorded l0 s -> Forall (fun e => rd_depth e < 3) l ->
  wp (for_each record_rdtsc_op l) (fun _ => recorded (l0 ++ l)) s.
Proof using Type.
  intros Hon. induction l as [|e l IH]; intros l0 s Hs Hd; simpl; [apply wp_ret; by rewrite app_nil_r|].
  apply Forall_cons in Hd as [Hd1 Hd]. apply wp_bind. eapply wp_record; [done|exact Hs|done|]. intros s' Hs'.
  rewrite cons_middle, app_assoc. by apply IH.
Qed.
End rdtsc.

(** The log of cycle counters is complete: when the first call has initialised it before
    any other call, the file that is written at the end has every recorded entry exactly
    once, in the order of the critical sections, however many there are: when the storage
    is full it is printed and used again. *)
Theorem rdtsc_log_complete `{O : Options} (e : sync_op_entry) (l : list sync_op_entry) :
  Forall (fun e => rd_depth e < 3) (e :: l) ->
  exists s, (for_each (record_rdtsc_op true) (e :: l) ;; process_rdtsc_log) rdtsc0 = Ok (tt, s) /\ rd_file s = e :: l.
Proof.
  intros Hd. apply Forall_cons in Hd as [Hd1 Hd].
  assert (wp (for_each (record_rdtsc_op true) (e :: l) ;; process_rdtsc_log) (fun _ s => rd_file s = e :: l) rdtsc0) as Hwp.
  { apply wp_bind. simpl. apply wp_bind. unfold record_rdtsc_op at 1. simpl. apply wp_bind, wp_gets.
    change (rdtsc_index rdtsc0 =? 2 ^ 64 - 1) with true. apply wp_bind, wp_modify.
    eapply (wp_append []); [by exists []|exact Hd1|]. intros s Hs.
    eapply wp_mono; [apply (recorded_all true l eq_refl [e] s Hs Hd)|].
    intros [] s' Hs'. eapply wp_process; [exact Hs'|]. done. }
  apply wp_elim in Hwp as ([] & s & Hrun & Hf). by exists s.
Qed.
Definition race_entry (tid clock : Z) : sync_op_entry := SyncOpEntry tid "GET_TURN" "START" 2 clock 0.
Lemma rdtsc_log_complete_witness :
  exists s, (for_each (@record_rdtsc_op (bin_options false) true) [race_entry 7 10; race_entry 8 20] ;;
    @process_rdtsc_log (bin_options false)) rdtsc0 = Ok (tt, s) /\ rd_file s = [race_entry 7 10; race_entry 8 20].
Proof. apply (@rdtsc_log_complete (bin_options false)). repeat constructor; simpl; lia. Defined.
(** two first calls whose initialisations overlap: the second one discards the entry *)
Example rdtsc_init_race `{O : Options} :
  match (rdtsc_init ;; rdtsc_append (race_entry 7 10) ;; rdtsc_init ;; rdtsc_append (race_entry 8 20) ;; process_rdtsc_log) rdtsc0 with
  | Ok (_, s) => rd_file s = [race_entry 8 20] /\ rd_handlers s = 2%nat
  | Err _ => False
  end.
Proof. by vm_compute. Qed.

(** ** Clock functions of libxtern-annot, in 64-bit arithmetic *)
Definition time_to_long (tv : timeval) : Z := s64 (tval_sec tv * 100000 + tval_usec tv).
Definition tern_time_diff (fin start : timeval) : Z :=
  s64 (s64 (s64 (tval_sec fin - tval_sec start) * 1000000) + (tval_usec fin - tval_usec start)).
(** tern_time_diff is exact, time_to_long (which multiplies by 100000) is not even monotone *)
Lemma tern_time_diff_exact fin start : clock_reading fin -> clock_reading start ->
  Z.abs (usec_of fin - usec_of start) < 2 ^ 62 -> tern_time_diff fin start = usec_of fin - usec_of start.
Proof.
  unfold clock_reading, usec_of, USEC_PER_SEC, tern_time_diff. intros [H1 H2] [H3 H4] Hd.
  rewrite (s64_small (tval_sec fin - tval_sec start)) by lia.
  rewrite (s64_small ((tval_sec fin - tval_sec start) * 1000000)) by lia. rewrite s64_small by lia. lia.
Qed.
Example time_to_long_decreases : time_to_long (Timeval 5 0) < time_to_long (Timeval 4 900000) /\
  tern_time_diff (Timeval 5 0) (Timeval 4 900000) = 100000.
Proof. done. Qed.
