(* ===== verification/RtAnnot.v ===== *)
(** * Annotations of the application and sleeping: the methods of RecorderRT for soft
    barriers (lineup), non-deterministic regions, turn locking, tasks, thread roles,
    external turns and the sleep family (lib/runtime/record-runtime.cpp) *)
From S2P Require Import Prelude Options TidMap Scheduler SyncFuncs RtState Proc RtBase RtRuntime BusyWait.

(** addresses the runtime uses as channels or thread functions: the node of a
    refcnt_bars entry, idle_mutex, idle_thread *)
Class NodeAddrs : Type := {
  node_addr : Z -> Z;
  node_addr_pos k : 0 < node_addr k;
  addr_idle_mutex : Z;
  addr_idle_mutex_pos : 0 < addr_idle_mutex;
  addr_idle_thread : Z
}.

Section annot.
Context `{O : Options, U : UnorderedIter, G : GlobalAddrs, A : NodeAddrs}.

(** ** Soft barriers; the key of refcnt_bars is unsigned *)

(** the first lines of the lineup methods in a non-det region: count and return *)
Definition unless_non_det (method : prog unit) : prog unit :=
  nd ← in_non_det;
  if nd : bool then pwhen record_runtime_stat (act (Free (add_stat count_nondet))) else method.

Definition refcnt_get (key : Z) : RTM ref_cnt_barrier_t :=
  bs ← gets g_refcnt;
  cassert ndebug (bool_decide (bs !! key <> None)) "refcnt barrier is not initialized!" ;;
  match bs !! key with
  | Some b => mret b
  | None => fail NullDeref
  end.
Definition refcnt_put (key : Z) (b : ref_cnt_barrier_t) : RTM unit :=
  modify (fun r => set_g_refcnt (<[key := b]> (g_refcnt r)) r).
(** the entry behind a reference taken before: it must not have been erased *)
Definition refcnt_deref (key : Z) : RTM ref_cnt_barrier_t :=
  b ← gets (fun r => g_refcnt r !! key);
  match b with Some b => mret b | None => fail UseAfterFree end.

Definition lineupInit (me opaque_type count timeout_turns : Z) : prog unit :=
  let key := u32 opaque_type in
  unless_non_det
   (_ ← SCHED_TIMER_START me;
    _ ← rt_do (bs ← gets g_refcnt;
               cassert ndebug (bool_decide (bs !! key = None)) "false" ;;
               let old := default new_refcnt (bs !! key) in
               refcnt_put key (RefBarrier count 0 timeout_turns ARRIVING
                                 (r_nSuccess old) (r_nTimeout old)));
    SCHED_TIMER_END key syncfunc.tern_lineup_init [opaque_type; count; timeout_turns]).

Definition lineupDestroy (me opaque_type : Z) : prog unit :=
  let key := u32 opaque_type in
  unless_non_det
   (_ ← SCHED_TIMER_START me;
    _ ← rt_do (bs ← gets g_refcnt;
               cassert ndebug (bool_decide (bs !! key <> None)) "refcnt barrier is not initialized!" ;;
               modify (set_g_refcnt (delete key bs)));
    SCHED_TIMER_END key syncfunc.tern_lineup_destroy [opaque_type]).

(** all threads blocked on the barrier go on *)
Definition lineup_release (key : Z) (count : run_stat -> run_stat) : prog unit :=
  _ ← pwhen record_runtime_stat (rt_do (add_stat count));
  _ ← rt_do (b ← refcnt_deref key; refcnt_put key (set_r_phase LEAVING b));
  syncSignal (node_addr key) true.

Definition lineupStart (me opaque_type : Z) : prog unit :=
  let key := u32 opaque_type in
  unless_non_det
   (_ ← SCHED_TIMER_START me;
    b ← rt_do (b ← refcnt_get key;
               let b' := set_r_nactive (r_nactive b +u32 1) b in
               refcnt_put key b' ;; mret b');
    _ ← (if r_nactive b =? r_count b then
           pwhen (isArriving b) (lineup_release key count_succ)
         else if isArriving b then
           n ← call SGetCount;
           _ ← syncWait (node_addr key) (n +u32 r_timeout b);
           b ← rt_do (refcnt_deref key);
           pwhen ((r_nactive b <? r_count b) && isArriving b) (lineup_release key count_timeout)
         else mret tt);
    SCHED_TIMER_END key syncfunc.tern_lineup_start [opaque_type]).

Definition lineupEnd (me opaque_type : Z) : prog unit :=
  let key := u32 opaque_type in
  unless_non_det
   (_ ← SCHED_TIMER_START me;
    _ ← rt_do (b ← refcnt_get key;
               let b := set_r_nactive (r_nactive b -u32 1) b in
               refcnt_put key (if (r_nactive b =? 0) && isLeaving b then set_r_phase ARRIVING b else b));
    SCHED_TIMER_END key syncfunc.tern_lineup_end [opaque_type]).

(** ** Non-deterministic regions *)

Definition nonDetStart (me : Z) : prog unit :=
  _ ← SCHED_TIMER_START me;
  _ ← pwhen record_runtime_stat (rt_do (add_stat count_regions));
  _ ← call (SNonDetWait 1);
  _ ← S_wait addr_nonDetCV FOREVER;
  _ ← call (SNonDetWait (-1));
  _ ← SCHED_TIMER_END 0 syncfunc.tern_non_det_start [0];
  _ ← call SBlock;
  b ← tls_get inNonDet;
  _ ← passert ndebug (negb b) "!inNonDet";
  tls_set (set_inNonDet true).

(** nonDetEnd and nonDetBarrierEnd (without dbug) *)
Definition nonDetEnd : prog unit :=
  _ ← passert ndebug (enforce_non_det_annotations =? 1) "options::enforce_non_det_annotations == 1";
  b ← tls_get inNonDet;
  _ ← passert ndebug b "inNonDet";
  _ ← tls_set (set_inNonDet false);
  call SWakeup.
Definition nonDetBarrierEnd (bar_id cnt : Z) : prog unit := nonDetEnd.

Definition noWaitNonDetStart : prog unit :=
  b ← in_non_det;
  _ ← passert ndebug (negb b) "!inNonDet && !inNoWaitNonDet";
  if enforce_no_wait_non_det_annotations =? 1 then tls_set (set_inNoWaitNonDet true)
  else if enforce_no_wait_non_det_annotations =? 2 then tls_set (set_noCSWholeLocal true)
  else mret tt.

Definition noWaitNonDetEnd : prog unit :=
  b ← tls_get inNoWaitNonDet;
  _ ← passert ndebug b "inNoWaitNonDet";
  if enforce_no_wait_non_det_annotations =? 1 then tls_set (set_inNoWaitNonDet false)
  else if enforce_no_wait_non_det_annotations =? 2 then tls_set (set_noCSWholeLocal false)
  else mret tt.

(** ** Turn locking, tasks, roles *)

Definition set_slock_next_n (next_n_turns : Z) : prog unit :=
  pwhen enforce_next_n_annotations (tls_set (set_slock_n_turns (next_n_turns - 1))).

Definition read_clock : prog timespec :=
  sec ← act (Env "clock_gettime tv_sec");
  nsec ← act (Env "clock_gettime tv_nsec");
  mret (Timespec sec nsec).

Definition mark_task_start (task_id : Z) : prog unit :=
  _ ← tls_set (set_this_task (u32 task_id));
  t ← read_clock;
  tls_set (set_task_start_time t).

Definition DELAY_TASK_NOT_FOUND : Z := 32.

(** what a task that ends is delayed by, in microseconds, 0 for no busy wait; None: exit(32).
    A value 0 in the table is a NULL pointer *)
Definition task_delay (max_time elapsed : Z) : option Z :=
  if log_task_time =? 1 then Some 0
  else if (log_task_time =? 2) || enforce_delays then
    if (log_task_time =? 2) && (max_time =? 0) then Some 0
    else if enforce_delays then
      if max_time =? 0 then None
      else Some (if (50 <? max_time) && (elapsed <? max_time) then max_time - elapsed else 0)
    else Some 0
  else Some 0.

Definition mark_task_end (task_id : Z) : prog unit :=
  fin ← read_clock;
  t ← tls_get (fun t => (this_task t, task_start_time t));
  _ ← passert ndebug (t.1 =? u32 task_id) "Task id does not match!";
  if t.1 =? u32 task_id then
    let elapsed := timespec_to_usec (time_diff t.2 fin) in
    max_time ← act (Free (gets (fun r => default 0 (g_delays r !! task_id))));
    match task_delay max_time elapsed with
    | None => tls_do (fail (ProcessExit DELAY_TASK_NOT_FOUND))
    | Some d => _ ← pwhen (0 <? d) (busy_wait d); tls_set (set_this_task 0)
    end
  else tls_set (set_this_task 0).

Definition unmark_task (task_id : Z) : prog unit :=
  t ← tls_get this_task;
  _ ← passert ndebug (t =? u32 task_id) "Task id does not match!";
  tls_set (set_this_task 0).

Definition ext_turn_enabled : prog bool :=
  nd ← in_non_det;
  mret (enforce_ext_turn && negb nd && (0 <=? enforce_turn_type)).

Definition ext_get_turn (me : Z) : prog unit :=
  b ← ext_turn_enabled;
  if b : bool then
    _ ← SCHED_TIMER_START me;
    _ ← rt_do (h ← gets g_lock_holder;
               cassert ndebug (h =? -1) "dmt_lock_holder == -1" ;;
               modify (set_g_lock_holder (s32 me)));
    _ ← tls_set (fun t => set_inCSLevel (inCSLevel t + 1) t);
    SCHED_TIMER_END 0 syncfunc.tern_ext_get_turn [0]
  else mret tt.

Definition ext_put_turn (me : Z) : prog unit :=
  b ← ext_turn_enabled;
  if b : bool then
    _ ← SCHED_TIMER_START me;
    _ ← rt_do (h ← gets g_lock_holder;
               cassert ndebug (u32 h =? u32 me) "dmt_lock_holder == (unsigned)pthread_self()" ;;
               modify (set_g_lock_holder (-1)));
    _ ← tls_set (fun t => if 0 <? inCSLevel t then set_inCSLevel (inCSLevel t - 1) t else t);
    SCHED_TIMER_END 0 syncfunc.tern_ext_put_turn [0]
  else mret tt.

Definition propose_thread_role (th role_func : Z) : prog unit :=
  _ ← act (Free (modify (fun r => set_g_proposed (<[th := role_func]> (g_proposed r)) r)));
  tls_set (set_process_proposed_role true).

Definition setBaseTime (ts : option timespec) : prog unit :=
  match ts with
  | Some t => tls_set (set_my_base_time t)
  | None => tls_do (fail NullDeref)
  end.

Definition dummySync (me : Z) : prog unit :=
  _ ← passert ndebug enforce_dummy_sync "options::enforce_dummy_sync";
  _ ← SCHED_TIMER_START me;
  SCHED_TIMER_END 0 syncfunc.tern_dummy_sync [0].

Definition symbolic (me ins addr nbyte : Z) : prog unit :=
  _ ← SCHED_TIMER_START me;
  SCHED_TIMER_END ins syncfunc.tern_symbolic [addr; nbyte].

(** ** Yielding and sleeping *)

Definition schedYield (me ins error : Z) : prog (Z * Z) :=
  nd ← in_non_det;
  if nd : bool then Runtime_sched_yield error
  else
    _ ← SCHED_TIMER_START me;
    ret ← sys_call "sched_yield";
    _ ← tls_set (set_yield_this true);
    _ ← SCHED_TIMER_END ins syncfunc.sched_yield [ret];
    mret (ret, error).

(** wait for the logical time [ts]; only with turn types 1 and 2 *)
Definition sleep_turns (ts : option timespec) : prog unit :=
  if 0 <? enforce_turn_type then
    n ← call SGetCount;
    turns ← rel_turns ts;
    _ ← S_wait 0 (n +u32 turns);
    mret tt
  else mret tt.
Definition really_sleep (name : string) : prog unit :=
  pwhen exec_sleep (_ ← sys_call name; mret tt).

Definition rt_sleep (me ins error seconds : Z) : prog (Z * Z) :=
  _ ← SCHED_TIMER_START me;
  _ ← sleep_turns (Some (Timespec seconds 0));
  _ ← SCHED_TIMER_END ins syncfunc.sleep [u64 (seconds * 1000000000)];
  _ ← really_sleep "sleep";
  mret (0, error).

(** useconds_t is a 32-bit unsigned: 1000*usec wraps *)
Definition rt_usleep (me ins error usec : Z) : prog (Z * Z) :=
  _ ← SCHED_TIMER_START me;
  _ ← sleep_turns (Some (Timespec 0 (u32 (1000 * usec))));
  _ ← SCHED_TIMER_END ins syncfunc.usleep [u64 (usec * 1000)];
  _ ← really_sleep "usleep";
  mret (0, error).

Definition rt_nanosleep (me ins error : Z) (req : option timespec) : prog (Z * Z) :=
  _ ← SCHED_TIMER_START me;
  _ ← sleep_turns req;
  let nsec := match req with None => 0 | Some t => u64 (tv_sec t * 1000000000 + tv_nsec t) end in
  _ ← SCHED_TIMER_END ins syncfunc.nanosleep [nsec];
  _ ← really_sleep "nanosleep";
  mret (0, error).
End annot.
