(* ===== verification/RtThread.v ===== *)
(** * Threads and processes: creation, start, end and join of threads, the idle thread
    and fork (lib/runtime/record-runtime.cpp, lib/runtime/helper.cpp) *)
From S2P Require Import Prelude Options TidMap Scheduler SyncFuncs RtState Proc RtBase RtRuntime RtSync RtAnnot.

(** unsigned ids of the instructions of the idle thread *)
Definition INVALID_INSID : Z := u32 (-1).
Definition IDLE_MUTEX_INS : Z := 0xdeadbeaf.
Definition IDLE_CREATE_INS : Z := 0xdead0000.

Section threads.
Context `{O : Options, U : UnorderedIter, G : GlobalAddrs, A : NodeAddrs}.

(** ** The semaphores that hand over the thread id, outside the turn *)
Definition begin_wait : RTM unit :=
  n ← gets g_begin_sem;
  if 0 <? n then modify (set_g_begin_sem (n - 1)) else fail WouldBlock.
Definition begin_post : RTM unit := modify (fun r => set_g_begin_sem (g_begin_sem r + 1) r).
Definition done_wait : RTM unit :=
  n ← gets g_begin_done_sem;
  if 0 <? n then modify (set_g_begin_done_sem (n - 1)) else fail WouldBlock.
Definition done_post : RTM unit := modify (fun r => set_g_begin_done_sem (g_begin_done_sem r + 1) r).

Definition threadBegin (me : Z) : prog unit :=
  self ← act Self;
  _ ← (if self =? MainThreadTid then mret tt
       else
         _ ← act (Free begin_wait);
         _ ← act SetSelf;
         act (Free done_post));
  self ← act Self;
  _ ← passert ndebug (negb (self =? InvalidTid)) "_S::self() != _S::InvalidTid";
  _ ← SCHED_TIMER_START me;
  SCHED_TIMER_END INVALID_INSID syncfunc.tern_thread_begin [me].

Definition threadEnd (me ins : Z) : prog unit :=
  _ ← SCHED_TIMER_START me;
  SCHED_TIMER_THREAD_END ins syncfunc.tern_thread_end [me].

(** the hooks of lib/runtime/hooks.cpp for the begin and the end of a thread: a thread begins
    and ends in Sys space *)
Definition tern_thread_begin (me : Z) : prog unit :=
  _ ← assert_sys "tern_thread_begin must start in sys space";
  error ← tls_get t_errno;
  _ ← threadBegin me;
  _ ← exitSys;
  _ ← tls_set (set_t_errno error);
  assert_app "tern_thread_begin must end in app space".
Definition tern_thread_end (me ins : Z) : prog unit :=
  _ ← assert_app "tern_thread_end must start in app space";
  error ← tls_get t_errno;
  _ ← enterSys;
  _ ← threadEnd me ins;
  _ ← tls_set (set_t_errno error);
  assert_sys "tern_thread_end must end in sys space".
(** the main thread calls exit(0); for any other thread this is its last call *)
Definition tern_pthread_exit (me ins : Z) : prog unit :=
  self ← act Self;
  _ ← (if negb (self =? MainThreadTid) then tern_thread_end me ins
       else tls_do (fail (ProcessExit 0)));
  assert_sys "Space::isSys()".

(** the start routine of every thread: __tern_thread_func of helper.cpp, which runs once the
    system has started the thread *)
Definition os_started_wait (me : Z) : RTM unit :=
  st ← gets os_started; if bool_decide (me ∈ st) then mret tt else fail WouldBlock.
Definition tern_thread_func (me : Z) (body : prog unit) : prog unit :=
  _ ← act (Free (os_started_wait me));
  _ ← tern_thread_begin me;
  _ ← body;
  tern_pthread_exit me INVALID_INSID.

(** ** pthread_create *)

(** the part after the idle thread has been dealt with.  The environment gives the result
    of the system's pthread_create and the handle of the new thread, which starts to run
    at once.  Gives the result and the handle *)
Definition create_thread (me ins thread_func : Z) : prog (Z * Z) :=
  _ ← SCHED_TIMER_START me;
  ret ← act (Env "pthread_create");
  th ← act (Env "pthread_create thread");
  _ ← rt_set (fun r => set_os_started ({[ th ]} ∪ os_started r) r);
  _ ← passert ndebug (ret =? 0) "failed sync calls are not yet supported!";
  _ ← call (SCreate th thread_func);
  _ ← SCHED_TIMER_END ins syncfunc.pthread_create [th; ret];
  _ ← act (Free begin_post);
  _ ← act (Free done_wait);
  mret (ret, th).

(** the creation of the idle thread from App space: idle_created is set, so the inner
    pthread_create (through its hook) does not create an idle thread again *)
Definition launch_idle (me : Z) : prog Z :=
  _ ← act (Free (modify (set_g_idle_created true)));
  _ ← act (Free (os_mutex_init addr_idle_mutex NORMAL));
  error ← tls_get t_errno;
  _ ← enterSys;
  _ ← act (Free (modify (set_g_no_child false)));
  r ← create_thread me IDLE_CREATE_INS addr_idle_thread;
  _ ← act (Free (modify (set_g_idle_th r.2)));
  _ ← exitSys;
  _ ← tls_set (set_t_errno error);
  mret r.1.
(** __tern_sys_create_idle_thread *)
Definition create_idle_thread (me : Z) : prog Z :=
  _ ← exitSys;
  r ← launch_idle me;
  _ ← enterSys;
  mret r.

Definition pthreadCreate (me ins thread_func : Z) : prog (Z * Z) :=
  idle ← act (Free (gets g_idle_created));
  _ ← (if (launch_idle_thread =? 2) && negb idle then
         ret ← create_idle_thread me;
         _ ← passert ndebug (ret =? 0) "failed to create idle thread!";
         tls_set (fun t => set_slock_n_turns (slock_n_turns t + 2) t)
       else pwhen (idle || (launch_idle_thread =? 0)) (act (Free (modify (set_g_no_child false)))));
  create_thread me ins thread_func.

Definition pthreadJoin (me ins error th : Z) : prog (Z * Z) :=
  _ ← SCHED_TIMER_START me;
  _ ← ploop (z ← call (SZombie th);
             if z : bool then mret (Some tt) else _ ← S_wait th FOREVER; mret None);
  r ← helper_errno error Runtime_pthread_join;
  _ ← passert ndebug (r.1 =? 0) "failed sync calls are not yet supported!";
  _ ← call (SJoin th);
  _ ← SCHED_TIMER_END ins syncfunc.pthread_join [th];
  mret r.

Definition pthread_detach (error : Z) : prog (Z * Z) := blocking_call Runtime_pthread_detach error.

(** ** The idle thread *)

Definition idle_sleep (me : Z) : prog unit :=
  _ ← call SGetTurn;
  turn ← call SInc;
  _ ← passert ndebug (0 <=? s32 turn) "turn >= 0";
  self ← act Self;
  _ ← pwhen log_sync (rt_do (logSync self 0 syncfunc.tern_idle (s32 turn) true []));
  call (SPutTurn false 0).

(** pthread_cond_wait(&idle_cond, &idle_mutex) releases the mutex while it waits *)
Definition idle_cond_wait (me : Z) : prog unit :=
  _ ← call SGetTurn;
  turn ← call SInc;
  _ ← passert ndebug (0 <=? s32 turn) "turn >= 0";
  n ← call SRunqSize;
  if 2 <=? n then
    slept ← call SIdleCondWait;
    if slept : bool then
      _ ← act (Free (os_mutex_unlock me addr_idle_mutex));
      _ ← call SIdleWake;
      _ ← act (Free (os_mutex_lock me addr_idle_mutex));
      mret tt
    else mret tt
  else call (SPutTurn false 0).

(** the hooks that the idle thread calls *)
Definition tern_idle_sleep (me : Z) : prog unit := _ ← enterSys; _ ← idle_sleep me; exitSys.
Definition tern_idle_cond_wait (me : Z) : prog unit := _ ← enterSys; _ ← idle_cond_wait me; exitSys.
Definition tern_pthread_mutex_lock (me ins mu : Z) : prog Z := hook (fun e => pthreadMutexLock me ins e mu).
Definition tern_pthread_mutex_unlock (me ins mu : Z) : prog Z := hook (fun e => pthreadMutexUnlock me ins e mu).

(** one round of the loop of idle_thread: true when the thread ends.  idle_done is
    read between the lock and the unlock of idle_mutex *)
Definition idle_round (me : Z) : prog bool :=
  _ ← tern_pthread_mutex_lock me IDLE_MUTEX_INS addr_idle_mutex;
  fin ← call SIdleDone;
  if fin : bool then
    _ ← tern_pthread_mutex_unlock me IDLE_MUTEX_INS addr_idle_mutex;
    mret true
  else
    _ ← tern_idle_cond_wait me;
    _ ← tern_pthread_mutex_unlock me IDLE_MUTEX_INS addr_idle_mutex;
    _ ← tern_idle_sleep me;
    mret false.
Definition idle_thread (me : Z) : prog unit :=
  ploop (b ← idle_round me; mret (if b : bool then Some tt else None)).

Definition printStat (me : Z) : prog unit :=
  _ ← call SGetTurn;
  _ ← call SInc;
  strategy ← tls_do (getPutTurnStrategy syncfunc.not_sync);
  call (SPutTurn false strategy).

(** ** Processes *)

(** __fork: the environment gives the process id, 0 in the child.  The sem_init calls are
    arguments of assert, so they vanish with NDEBUG *)
Definition rt_fork (me ins error : Z) : prog (Z * Z) :=
  _ ← SCHED_TIMER_START me;
  r ← Runtime_fork error;
  _ ← (if r.1 =? 0 then
         _ ← (if ndebug then mret tt
              else rt_set (fun r => set_g_begin_done_sem 0 (set_g_begin_sem 0 r)));
         act Forked
       else passert ndebug (0 <? r.1) "ret > 0");
  _ ← SCHED_TIMER_END ins syncfunc.fork [r.1];
  _ ← (if (r.1 =? 0) && negb (launch_idle_thread =? 0) then
         _ ← exitSys;
         res ← launch_idle me;
         _ ← passert ndebug (res =? 0) "tern_pthread_create failed!";
         enterSys
       else mret tt);
  mret r.

(** __execv: the environment answers only when execv fails *)
Definition rt_execv (me error : Z) : prog (Z * Z) :=
  _ ← SCHED_TIMER_START me;
  r ← Runtime_execv error;
  _ ← passert ndebug false "execv failed.";
  mret r.
End threads.
