(* ===== verification/RtNet.v ===== *)
(** * System calls: the methods of RecorderRT that run between BLOCK_TIMER_START and
    BLOCK_TIMER_END (lib/runtime/record-runtime.cpp)

    A method takes [error] and returns its result and the new value of [error]. *)
From S2P Require Import Prelude Options TidMap Scheduler SyncFuncs RtState Proc RtBase RtRuntime.

Definition S_IFMT : Z := 0xF000.
Definition S_IFSOCK : Z := 0xC000.
Definition S_IFIFO : Z := 0x1000.

Section net.
Context `{O : Options, U : UnorderedIter, G : GlobalAddrs}.

(** regularFile(fd): the environment gives the st_mode of fstat *)
Definition regular_mode (st_mode : Z) : bool :=
  negb (Z.land st_mode S_IFMT =? S_IFSOCK) && negb (Z.land st_mode S_IFMT =? S_IFIFO).
Definition regularFile : prog bool := m ← act (Env "fstat st_mode"); mret (regular_mode m).

(** [if (RR_ignore_rw_regular_file && regularFile(fd)) return <native call>;] *)
Definition file_call (name : string) (base : Z -> prog (Z * Z)) (error : Z) : prog (Z * Z) :=
  reg ← (if rr_ignore_rw_regular_file then regularFile else mret false);
  if reg : bool then r ← sys_call name; mret (r, error) else blocking_call base error.

(** with log_sync the port of the peer is read through the pointer *)
Definition log_port (addr : Z) : prog unit :=
  pwhen log_sync (if addr =? 0 then tls_do (fail NullDeref) else _ ← sys_call "getsockname"; mret tt).
Definition rt_accept (error cliaddr : Z) : prog (Z * Z) :=
  blocking_with id (log_port cliaddr) Runtime_accept error.
Definition rt_connect (error serv_addr : Z) : prog (Z * Z) :=
  blocking_with id (log_port serv_addr) Runtime_connect error.

(** the result goes through an int *)
Definition rt_send : Z -> prog (Z * Z) := blocking_with s32 (mret tt) Runtime_send.
Definition rt_sendto : Z -> prog (Z * Z) := blocking_with s32 (mret tt) Runtime_sendto.
Definition rt_sendmsg : Z -> prog (Z * Z) := blocking_with s32 (mret tt) Runtime_sendmsg.

(** the calls that may block or talk to another process *)
Definition rt_accept4 : Z -> prog (Z * Z) := blocking_call Runtime_accept4.
Definition rt_recv (len : Z) : Z -> prog (Z * Z) := blocking_call (Runtime_recv len).
Definition rt_recvfrom : Z -> prog (Z * Z) := blocking_call Runtime_recvfrom.
Definition rt_recvmsg : Z -> prog (Z * Z) := blocking_call Runtime_recvmsg.
Definition rt_select : Z -> prog (Z * Z) := blocking_call Runtime_select.
Definition rt_epoll_wait : Z -> prog (Z * Z) := blocking_call Runtime_epoll_wait.
Definition rt_epoll_create : Z -> prog (Z * Z) := blocking_call Runtime_epoll_create.
Definition rt_epoll_ctl : Z -> prog (Z * Z) := blocking_call Runtime_epoll_ctl.
Definition rt_poll : Z -> prog (Z * Z) := blocking_call Runtime_poll.
Definition rt_bind : Z -> prog (Z * Z) := blocking_call Runtime_bind.
Definition rt_sigwait : Z -> prog (Z * Z) := blocking_call Runtime_sigwait.
Definition rt_kill : Z -> prog (Z * Z) := blocking_call Runtime_kill.
Definition rt_wait : Z -> prog (Z * Z) := blocking_call Runtime_wait.
Definition rt_waitpid : Z -> prog (Z * Z) := blocking_call Runtime_waitpid.
Definition rt_socket : Z -> prog (Z * Z) := blocking_call Runtime_socket.
Definition rt_listen : Z -> prog (Z * Z) := blocking_call Runtime_listen.
Definition rt_shutdown : Z -> prog (Z * Z) := blocking_call Runtime_shutdown.
Definition rt_getsockopt : Z -> prog (Z * Z) := blocking_call Runtime_getsockopt.
Definition rt_setsockopt : Z -> prog (Z * Z) := blocking_call Runtime_setsockopt.
Definition rt_pipe : Z -> prog (Z * Z) := blocking_call Runtime_pipe.
Definition rt_fcntl : Z -> prog (Z * Z) := blocking_call Runtime_fcntl.
Definition rt_gethostbyname : Z -> prog (Z * Z) := blocking_call Runtime_gethostbyname.
Definition rt_gethostbyname_r : Z -> prog (Z * Z) := blocking_call Runtime_gethostbyname_r.
Definition rt_getaddrinfo : Z -> prog (Z * Z) := blocking_call Runtime_getaddrinfo.
Definition rt_freeaddrinfo : Z -> prog (Z * Z) := blocking_call Runtime_freeaddrinfo.
Definition rt_gethostbyaddr : Z -> prog (Z * Z) := blocking_call Runtime_gethostbyaddr.
Definition rt_inet_ntoa : Z -> prog (Z * Z) := blocking_call Runtime_inet_ntoa.
Definition rt_strtok : Z -> prog (Z * Z) := blocking_call Runtime_strtok.

(** calls on a file descriptor: regular files bypass the scheduler *)
Definition rt_read : Z -> prog (Z * Z) := file_call "read" Runtime_read.
Definition rt_write : Z -> prog (Z * Z) := file_call "write" Runtime_write.
Definition rt_pread : Z -> prog (Z * Z) := file_call "pread" Runtime_pread.
Definition rt_pwrite : Z -> prog (Z * Z) := file_call "pwrite" Runtime_pwrite.
Definition rt_fgets : Z -> prog (Z * Z) := file_call "fgets" Runtime_fgets.
Definition rt_close : Z -> prog (Z * Z) := file_call "close" Runtime_close.

(** calls that only go to the base class *)
Definition rt_getpeername : Z -> prog (Z * Z) := Runtime_getpeername.
Definition rt_time : Z -> prog (Z * Z) := Runtime_time.
Definition rt_clock_getres : Z -> prog (Z * Z) := Runtime_clock_getres.
Definition rt_clock_gettime : Z -> prog (Z * Z) := Runtime_clock_gettime.
Definition rt_clock_settime : Z -> prog (Z * Z) := Runtime_clock_settime.
Definition rt_gettimeofday : Z -> prog (Z * Z) := Runtime_gettimeofday.
Definition rt_settimeofday : Z -> prog (Z * Z) := Runtime_settimeofday.
End net.
