(* ===== verification/Hooks.v ===== *)
(** * The hooks: lib/runtime/hooks.cpp

    The interposition library calls a hook in place of a library function; [me] is
    pthread_self() and [ins] the instruction that calls.  A hook saves errno, enters Sys
    space, calls the method of the runtime and leaves Sys space again. *)
From S2P Require Import Prelude Options TidMap Scheduler SyncFuncs RtState Proc RtBase RtRuntime RtSync RtAnnot RtThread RtNet.

Section hooks.
Context `{O : Options, U : UnorderedIter, G : GlobalAddrs, A : NodeAddrs}.

(** ** Threads *)
Definition tern_pthread_cancel : prog Z := hook Runtime_pthreadCancel.
(** gives the result and the handle *)
Definition tern_pthread_create (me ins thread_func : Z) : prog (Z * Z) :=
  error ← tls_get t_errno;
  _ ← enterSys;
  r ← pthreadCreate me ins thread_func;
  _ ← exitSys;
  _ ← tls_set (set_t_errno error);
  mret r.
Definition tern_pthread_join (me ins th : Z) : prog Z := hook (fun e => pthreadJoin me ins e th).
Definition tern_pthread_detach : prog Z := hook pthread_detach.

(** ** Mutexes; [attr] is the type in the attribute, None for a NULL attribute *)
Definition tern_pthread_mutex_init (me ins mu : Z) (attr : option mutex_kind) : prog Z :=
  error ← tls_get t_errno;
  _ ← enterSys;
  let kind := match attr with
              | Some k => k
              | None => if set_mutex_errorcheck then ERRORCHECK else NORMAL
              end in
  r ← pthreadMutexInit me ins error mu kind;
  _ ← exitSys;
  _ ← tls_set (set_t_errno r.2);
  mret r.1.
Definition tern_pthread_mutex_destroy (me ins mu : Z) : prog Z := hook (fun e => pthreadMutexDestroy me ins e mu).
Definition tern_pthread_mutex_trylock (me ins mu : Z) : prog Z := hook (fun e => pthreadMutexTryLock me ins e mu).
Definition tern_pthread_mutex_timedlock (me ins mu : Z) (t : option timespec) : prog Z :=
  hook (fun e => pthreadMutexTimedLock me ins e mu t).

(** ** Condition variables, barriers, semaphores *)
Definition tern_pthread_cond_wait (me ins cv mu : Z) : prog Z := hook (fun e => pthreadCondWait me ins e cv mu).
Definition tern_pthread_cond_timedwait (me ins cv mu : Z) (t : option timespec) : prog Z :=
  hook (fun e => pthreadCondTimedWait me ins e cv mu t).
Definition tern_pthread_cond_signal (me ins cv : Z) : prog Z := hook (fun e => pthreadCondSignal me ins e cv).
Definition tern_pthread_cond_broadcast (me ins cv : Z) : prog Z := hook (fun e => pthreadCondBroadcast me ins e cv).
Definition tern_pthread_barrier_init (me ins barrier count : Z) : prog Z :=
  hook (fun e => pthreadBarrierInit me ins e barrier count).
Definition tern_pthread_barrier_wait (me ins barrier : Z) : prog Z := hook (fun e => pthreadBarrierWait me ins e barrier).
Definition tern_pthread_barrier_destroy (me ins barrier : Z) : prog Z :=
  hook (fun e => pthreadBarrierDestroy me ins e barrier).
Definition tern_sem_init (me ins sem value : Z) : prog Z := hook (fun e => semInit me ins e sem value).
Definition tern_sem_wait (me ins sem : Z) : prog Z := hook (fun e => semWait me ins e sem).
Definition tern_sem_trywait (me ins sem : Z) : prog Z := hook (fun e => semTryWait me ins e sem).
Definition tern_sem_timedwait (me ins sem : Z) (t : option timespec) : prog Z := hook (fun e => semTimedWait me ins e sem t).
Definition tern_sem_post (me ins sem : Z) : prog Z := hook (fun e => semPost me ins e sem).

(** ** Reader-writer locks *)
Definition tern_pthread_rwlock_rdlock (me ins rw : Z) : prog Z := hook (fun e => pthread_rwlock_rdlock me ins e rw).
Definition tern_pthread_rwlock_tryrdlock (me ins rw : Z) : prog Z := hook (fun e => pthread_rwlock_tryrdlock me ins e rw).
Definition tern_pthread_rwlock_wrlock (me ins rw : Z) : prog Z := hook (fun e => pthread_rwlock_wrlock me ins e rw).
Definition tern_pthread_rwlock_trywrlock (me ins rw : Z) : prog Z := hook (fun e => pthread_rwlock_trywrlock me ins e rw).
Definition tern_pthread_rwlock_unlock (me ins rw : Z) : prog Z := hook (fun e => pthread_rwlock_unlock me ins e rw).
Definition tern_pthread_rwlock_destroy (me ins rw : Z) : prog Z := hook (fun e => pthread_rwlock_destroy me ins e rw).
Definition tern_pthread_rwlock_init (me ins rw attr : Z) : prog Z := hook (fun e => pthread_rwlock_init me ins e rw attr).

(** ** Annotations *)
Definition tern_symbolic_real (me ins addr nbytes : Z) : prog unit :=
  error ← tls_get t_errno;
  _ ← symbolic me ins addr nbytes;
  tls_set (set_t_errno error).
(** __tern_symbolic and __tern_symbolic_argv of helper.cpp; an argument is its address and
    the length of its text *)
Definition tern_symbolic_call (me ins addr nbytes : Z) : prog unit :=
  if (nbytes <=? 0) || (addr =? 0) then mret tt else tern_symbolic_real me ins addr nbytes.
Definition tern_symbolic_argv (me ins : Z) (argv : list (Z * Z)) : prog unit :=
  pfor (fun a => tern_symbolic_real me ins a.1 (a.2 + 1)) argv.
Definition tern_dummy_sync_real (me : Z) : prog unit :=
  if enforce_dummy_sync then _ ← enterSys; _ ← dummySync me; exitSys else mret tt.
Definition tern_lineup_init_real (me o count timeout_turns : Z) : prog unit := void_hook (lineupInit me o count timeout_turns).
Definition tern_lineup_destroy_real (me o : Z) : prog unit := void_hook (lineupDestroy me o).
Definition tern_lineup_start_real (me o : Z) : prog unit := void_hook (lineupStart me o).
Definition tern_lineup_end_real (me o : Z) : prog unit := void_hook (lineupEnd me o).
Definition tern_non_det_start_real (me : Z) : prog unit := void_hook (nonDetStart me).
Definition tern_non_det_end_real : prog unit := void_hook nonDetEnd.
Definition tern_non_det_barrier_end_real (bar_id cnt : Z) : prog unit := void_hook (nonDetBarrierEnd bar_id cnt).
Definition tern_no_wait_non_det_start_real : prog unit := noWaitNonDetStart.
Definition tern_no_wait_non_det_end_real : prog unit := noWaitNonDetEnd.
Definition tern_set_slock_next_n (n : Z) : prog unit := void_hook (set_slock_next_n n).
(** these save errno but stay in the caller's space *)
Definition saving_errno (method : prog unit) : prog unit :=
  error ← tls_get t_errno; _ ← method; tls_set (set_t_errno error).
Definition tern_mark_task_start (id : Z) : prog unit := saving_errno (mark_task_start id).
Definition tern_mark_task_end (id : Z) : prog unit := saving_errno (mark_task_end id).
Definition tern_unmark_task (id : Z) : prog unit := saving_errno (unmark_task id).
Definition tern_propose_thread_role (th role_func : Z) : prog unit := void_hook (propose_thread_role th role_func).
Definition tern_ext_get_turn (me : Z) : prog unit := void_hook (ext_get_turn me).
Definition tern_ext_put_turn (me : Z) : prog unit := void_hook (ext_put_turn me).
(** threadDetach does nothing without dbug *)
Definition tern_detach_real : prog unit := void_hook (mret tt).
Definition tern_set_base_time_real (ts : option timespec) : prog unit := void_hook (setBaseTime ts).
Definition tern_print_runtime_stat (me : Z) : prog unit := _ ← enterSys; _ ← printStat me; exitSys.

(** ** Yielding, sleeping, processes *)
Definition tern_sched_yield (me ins : Z) : prog Z := hook (schedYield me ins).
Definition tern_sleep (me ins seconds : Z) : prog Z := hook (fun e => rt_sleep me ins e seconds).
Definition tern_usleep (me ins usec : Z) : prog Z := hook (fun e => rt_usleep me ins e usec).
Definition tern_nanosleep (me ins : Z) (req : option timespec) : prog Z := hook (fun e => rt_nanosleep me ins e req).
Definition tern_fork (me ins : Z) : prog Z := hook (rt_fork me ins).
Definition tern_execv (me : Z) : prog Z := hook (rt_execv me).

(** ** System calls *)
Definition tern_accept (cliaddr : Z) : prog Z := hook (fun e => rt_accept e cliaddr).
Definition tern_connect (serv_addr : Z) : prog Z := hook (fun e => rt_connect e serv_addr).
Definition tern_sigwait : prog Z := hook rt_sigwait.
Definition tern_socket : prog Z := hook rt_socket.
Definition tern_listen : prog Z := hook rt_listen.
Definition tern_accept4 : prog Z := hook rt_accept4.
Definition tern_gethostbyname : prog Z := hook rt_gethostbyname.
Definition tern_gethostbyname_r : prog Z := hook rt_gethostbyname_r.
Definition tern_getaddrinfo : prog Z := hook rt_getaddrinfo.
Definition tern_freeaddrinfo : prog Z := hook rt_freeaddrinfo.
Definition tern_gethostbyaddr : prog Z := hook rt_gethostbyaddr.
Definition tern_inet_ntoa : prog Z := hook rt_inet_ntoa.
Definition tern_strtok : prog Z := hook rt_strtok.
Definition tern_shutdown : prog Z := hook rt_shutdown.
Definition tern_getpeername : prog Z := hook rt_getpeername.
Definition tern_getsockopt : prog Z := hook rt_getsockopt.
Definition tern_setsockopt : prog Z := hook rt_setsockopt.
Definition tern_pipe : prog Z := hook rt_pipe.
Definition tern_fcntl : prog Z := hook rt_fcntl.
Definition tern_close : prog Z := hook rt_close.
Definition tern_epoll_wait : prog Z := hook rt_epoll_wait.
Definition tern_epoll_create : prog Z := hook rt_epoll_create.
Definition tern_epoll_ctl : prog Z := hook rt_epoll_ctl.
Definition tern_select : prog Z := hook rt_select.
Definition tern_poll : prog Z := hook rt_poll.
Definition tern_bind : prog Z := hook rt_bind.
Definition tern_fgets : prog Z := hook rt_fgets.
Definition tern_kill : prog Z := hook rt_kill.
Definition tern_wait : prog Z := hook rt_wait.
Definition tern_waitpid : prog Z := hook rt_waitpid.
Definition tern_clock_getres : prog Z := hook rt_clock_getres.
Definition tern_clock_gettime : prog Z := hook rt_clock_gettime.
Definition tern_clock_settime : prog Z := hook rt_clock_settime.
Definition tern_gettimeofday : prog Z := hook rt_gettimeofday.
Definition tern_settimeofday : prog Z := hook rt_settimeofday.
(** a ssize_t or time_t result goes through an int *)
Definition tern_recv (len : Z) : prog Z := hook_as s32 (rt_recv len).
Definition tern_send : prog Z := hook_as s32 rt_send.
Definition tern_sendto : prog Z := hook_as s32 rt_sendto.
Definition tern_sendmsg : prog Z := hook_as s32 rt_sendmsg.
Definition tern_recvfrom : prog Z := hook_as s32 rt_recvfrom.
Definition tern_recvmsg : prog Z := hook_as s32 rt_recvmsg.
Definition tern_read : prog Z := hook_as s32 rt_read.
Definition tern_write : prog Z := hook_as s32 rt_write.
Definition tern_pread : prog Z := hook_as s32 rt_pread.
Definition tern_pwrite : prog Z := hook_as s32 rt_pwrite.
Definition tern_time : prog Z := hook_as s32 rt_time.
End hooks.
