(* ===== verification/RtProg.v ===== *)
(** * Begin and end of a program: lib/runtime/helper.cpp, dync_hook/spec_hooks.cpp

    The interposition library calls __tern_prog_begin in the main thread before main, which
    registers __tern_prog_end with atexit.  Reading the options and installing the runtime
    happen before the state of the model exists. *)
From S2P Require Import Prelude Options TidMap Scheduler SyncFuncs RtState Proc RtBase RtSync RtAnnot RtThread Hooks.

Definition IDLE_JOIN_INS : Z := 0xdeadffff.

Section prog.
Context `{O : Options, U : UnorderedIter, G : GlobalAddrs, A : NodeAddrs}.

(** the hooks: progBegin and progEnd of the runtime only deal with files and output *)
Definition tern_prog_begin : prog unit :=
  _ ← assert_sys "tern_prog_begin must start in sys space";
  assert_sys "tern_prog_begin must end in sys space".
Definition tern_prog_end : prog unit :=
  _ ← assert_sys "tern_prog_end must start in sys space";
  assert_sys "tern_prog_end must end in sys space".

Definition tern_create_idle_thread (me : Z) : prog Z :=
  _ ← act (Free (modify (set_g_idle_created true)));
  _ ← tern_pthread_mutex_init me IDLE_MUTEX_INS addr_idle_mutex None;
  r ← tern_pthread_create me IDLE_CREATE_INS addr_idle_thread;
  _ ← act (Free (modify (set_g_idle_th r.2)));
  mret r.1.

Definition tern_prog_begin_main (me : Z) : prog unit :=
  began ← act (Free (gets g_prog_began));
  _ ← passert ndebug (negb began) "__tern_prog_begin() already called!";
  _ ← act (Free (modify (set_g_prog_began true)));
  _ ← assert_sys "__tern_prog_begin must start in sys space";
  _ ← tern_prog_begin;
  _ ← assert_sys "Space::isSys()";
  _ ← tern_thread_begin me;
  _ ← assert_app "Space::isApp()";
  _ ← (if (launch_idle_thread =? 1) || (negb (launch_idle_thread =? 0) && (non_det_for_single_thread =? 0))
       then _ ← tern_create_idle_thread me; mret tt else mret tt);
  assert_app "__tern_prog_begin must end in app space".

(** the native calls of __tern_prog_end that wake the idle thread *)
Definition wake_idle_thread (me : Z) : prog unit :=
  _ ← enterSys;
  _ ← act (Free (os_mutex_lock me addr_idle_mutex));
  _ ← call SIdleSignal;
  _ ← act (Free (os_mutex_unlock me addr_idle_mutex));
  exitSys.

Definition tern_prog_end_main (me : Z) : prog unit :=
  began ← act (Free (gets g_prog_began));
  _ ← passert ndebug began "__tern_prog_begin() not called or __tern_prog_end() already called!";
  _ ← act (Free (modify (set_g_prog_began false)));
  _ ← assert_app "__tern_prog_end must start in app space";
  _ ← tern_print_runtime_stat me;
  _ ← tern_pthread_mutex_lock me IDLE_MUTEX_INS addr_idle_mutex;
  _ ← call SSetIdleDone;
  _ ← tern_pthread_mutex_unlock me IDLE_MUTEX_INS addr_idle_mutex;
  _ ← tern_pthread_cond_signal me IDLE_MUTEX_INS addr_idle_cond;
  _ ← wake_idle_thread me;
  created ← act (Free (gets g_idle_created));
  _ ← (if negb (launch_idle_thread =? 0) && created then
         idle ← act (Free (gets g_idle_th));
         _ ← passert ndebug (negb (me =? idle)) "idle_th should never reach __tern_prog_end";
         _ ← tern_pthread_join me IDLE_JOIN_INS idle; mret tt
       else mret tt);
  _ ← tern_thread_end me INVALID_INSID;
  _ ← assert_sys "Space::isSys()";
  _ ← tern_prog_end;
  assert_sys "__tern_prog_end must end in system space".

(** a hook that nothing calls any more *)
Definition tern_exit (me ins status : Z) : prog unit :=
  _ ← passert ndebug false "why do we call tern_exit?";
  _ ← tern_thread_end me ins;
  _ ← tern_prog_end;
  _ ← assert_sys "Space::isSys()";
  tls_do (fail (ProcessExit status)).

(** ** __libc_start_main of dync_hook/spec_hooks.cpp

    The C library calls the init function, main and, when main has returned, what has been
    registered with atexit; the library functions that the saved init function calls are
    not taken over, since the main thread starts in Sys space. *)
Definition tern_init_func (me : Z) (saved_init_func : option (prog unit)) : prog unit :=
  _ ← match saved_init_func with Some init => init | None => mret tt end;
  tern_prog_begin_main me.
Definition my_main (main_func : prog unit) : prog unit := main_func.
Definition main_thread (me : Z) (init : option (prog unit)) (main_func : prog unit) : prog unit :=
  _ ← tern_init_func me init; _ ← my_main main_func; tern_prog_end_main me.
End prog.
