(* ===== verification/Interpose.v ===== *)
(** * The interposition library: dync_hook

    interpose.so defines the library functions that xtern takes over.  code_gen makes one
    definition per entry of hook_func.def from three templates: in App space the function
    calls its hook, or the library when the runtime is off, and in Sys space, that is when
    the runtime itself calls it, the library.  [orig] is the function of the C library,
    [h] the hook as a function of the instruction id. *)
From Stdlib Require Import Ascii.
From S2P Require Import Prelude CText Options TidMap Scheduler SyncFuncs RtState Proc RtBase RtSync RtAnnot RtThread Hooks RtProg.

Section interpose.
Context `{O : Options, U : UnorderedIter, G : GlobalAddrs, A : NodeAddrs}.

(** ** The caller's address: get_eip of hook.cpp *)

(** the local array tracePtrs has [eip_len] entries; backtrace fills the first ones *)
Definition eip_len : nat := 5.
Definition idx_offset : Z := 2.
(** backtrace(tracePtrs, n) for a stack whose return addresses are [stack], innermost first *)
Definition backtrace (n : nat) (stack : list Z) : res (list Z) :=
  let ptrs := take n stack in
  if bool_decide (length ptrs <= eip_len)%nat then Ok ptrs else Err OutOfBounds.
Definition get_eip (stack : list Z) : res Z :=
  if whole_stack_eip_signature then
    match backtrace eip_len stack with
    | Ok ptrs => Ok (foldl (fun ret p => u64 (ret * 97 + p)) 0 ptrs)
    | Err e => Err e
    end
  else
    let idx := backtrace_level + idx_offset in
    match backtrace (Z.to_nat (idx + 1)) stack with
    | Ok ptrs =>
        let count := Z.of_nat (length ptrs) in
        let i := if count <? idx then count - 1 else idx in
        if (i <? 0) || (Z.of_nat eip_len <=? i) then Err OutOfBounds
        else match ptrs !! Z.to_nat i with Some v => Ok v | None => Err UninitRead end
    | Err e => Err e
    end.

(** the environment gives the depth of the stack and the return addresses *)
Fixpoint read_stack (n : nat) : prog (list Z) :=
  match n with
  | 0%nat => mret []
  | S n => a ← act (Env "return address"); l ← read_stack n; mret (a :: l)
  end.
Definition input_eip : prog Z :=
  if dync_geteip then
    _ ← enterSys;
    d ← act (Env "stack depth");
    stack ← read_stack (Z.to_nat d);
    eip ← match get_eip stack with Ok v => mret v | Err e => tls_do (fail e) end;
    _ ← exitSys;
    mret eip
  else mret 0.

(** ** The templates *)

(** the library is called in Sys space *)
Definition call_orig {A} (orig : prog A) : prog A :=
  _ ← enterSys; r ← orig; _ ← exitSys; mret r.
Definition template {A} (dmt : prog bool) (h : Z -> prog A) (orig : prog A) : prog A :=
  app ← tls_get in_app;
  if app : bool then
    d ← dmt;
    eip ← input_eip;
    if d : bool then h (u32 eip) else call_orig orig
  else orig.

(** options::DMT && !(options::non_det_for_single_thread && no_child_threads_created) *)
Definition deterministic : prog bool :=
  if negb DMT then mret false
  else if non_det_for_single_thread =? 0 then mret true
  else n ← act (Free (gets g_no_child)); mret (negb n).
Definition func_template {A} : (Z -> prog A) -> prog A -> prog A := template deterministic.
Definition void_func_template : (Z -> prog unit) -> prog unit -> prog unit := template deterministic.
(** var_arg_template.cpp *)
Definition app_fcntl : prog Z -> prog Z := template deterministic (fun _ => tern_fcntl).
(** pthread_create and pthread_barrier_init *)
Definition always_check_func_template {A} : (Z -> prog A) -> prog A -> prog A := template (mret DMT).

(** ** The annotations: annotation_hooks.cpp *)
Definition annotated (enabled : bool) (real : prog unit) : prog unit :=
  app ← tls_get in_app;
  if app && DMT && enforce_annotations && enabled then real else mret tt.

Definition soba_init (me o count timeout_turns : Z) : prog unit :=
  annotated (negb disable_soba) (tern_lineup_init_real me o count timeout_turns).
Definition soba_destroy (me o : Z) : prog unit := annotated (negb disable_soba) (tern_lineup_destroy_real me o).
Definition tern_lineup_start (me o : Z) : prog unit := annotated (negb disable_soba) (tern_lineup_start_real me o).
Definition tern_lineup_end (me o : Z) : prog unit := annotated (negb disable_soba) (tern_lineup_end_real me o).
Definition soba_wait (me o : Z) : prog unit :=
  annotated (negb disable_soba) (_ ← tern_lineup_start_real me o; tern_lineup_end_real me o).
Definition pcs_enter (me : Z) : prog unit :=
  annotated (negb (enforce_non_det_annotations =? 0)) (tern_non_det_start_real me).
Definition pcs_exit : prog unit := annotated (negb (enforce_non_det_annotations =? 0)) tern_non_det_end_real.
Definition no_wait_pcs_enter : prog unit :=
  annotated (negb (enforce_no_wait_non_det_annotations =? 0)) tern_no_wait_non_det_start_real.
Definition no_wait_pcs_exit : prog unit :=
  annotated (negb (enforce_no_wait_non_det_annotations =? 0)) tern_no_wait_non_det_end_real.
Definition slock_next_n (n : Z) : prog unit := annotated enforce_next_n_annotations (tern_set_slock_next_n n).
Definition tasks_on : bool := enforce_delays || negb (log_task_time =? 0).
Definition app_mark_task_start (id : Z) : prog unit := if tasks_on then tern_mark_task_start id else mret tt.
Definition app_mark_task_end (id : Z) : prog unit := if tasks_on then tern_mark_task_end id else mret tt.
Definition app_unmark_task (id : Z) : prog unit := if tasks_on then tern_unmark_task id else mret tt.
Definition app_ext_get_turn (me : Z) : prog unit := annotated enforce_ext_turn (tern_ext_get_turn me).
Definition app_ext_put_turn (me : Z) : prog unit := annotated enforce_ext_turn (tern_ext_put_turn me).
Definition tern_dummy_sync (me : Z) : prog unit := annotated enforce_dummy_sync (tern_dummy_sync_real me).
Definition app_propose_thread_role (th role_func : Z) : prog unit := annotated true (tern_propose_thread_role th role_func).
Definition tern_set_base_timespec (ts : option timespec) : prog unit := annotated true (tern_set_base_time_real ts).
(** a timeval, in microseconds; tv is dereferenced first *)
Definition tern_set_base_timeval (sec usec : Z) : prog unit :=
  annotated true (tern_set_base_time_real (Some (Timespec sec (s64 (usec * 1000))))).
Definition tern_detach : prog unit := annotated true tern_detach_real.
Definition pcs_barrier_exit (bar_id cnt : Z) : prog unit :=
  annotated (negb (enforce_non_det_annotations =? 0)) (tern_non_det_barrier_end_real bar_id cnt).

(** ** The start of a program: __libc_start_main of spec_hooks.cpp *)

(** the C library next to the library that defines dlsym: the name up to the last slash,
    or the whole name if it has none *)
Definition find_last_of (c : Ascii.ascii) (st : text) : option nat :=
  match skip_while (fun a => negb (Ascii.eqb a c)) (reverse st) with
  | [] => None
  | _ :: before => Some (length before)
  end.
Definition libc_path (dli_fname : text) : text :=
  match find_last_of "/"%char dli_fname with Some n => take n dli_fname | None => dli_fname end ++ txt "/libc.so.6".

Definition abort {A} : prog A := tls_do (fail (AssertFail "abort")).
(** [opened]: dlopen has given a handle; [dl_error]: dlsym has failed; [use_tern_runtime]: the
    macro __USE_TERN_RUNTIME *)
Definition libc_start_main (use_tern_runtime opened dl_error : bool) (me : Z) (init : option (prog unit))
    (main_func : prog unit) : prog unit :=
  if negb opened then abort
  else if dl_error then abort
  else if use_tern_runtime then main_thread me init main_func
  else _ ← match init with Some i => i | None => mret tt end; main_func.
(** defined, but not passed on *)
Definition tern_fini_func (me : Z) (saved_fini_func : option (prog unit)) : prog unit :=
  _ ← tern_prog_end_main me;
  match saved_fini_func with Some fini => fini | None => mret tt end.

(** ** libxtern-annot: the annotations of a program that runs without the library *)
Definition stub (name : string) : string * prog unit := (name, mret tt).
Definition annot_stubs : list (string * prog unit) :=
  stub <$> ["soba_init"; "soba_destroy"; "tern_lineup_start"; "tern_lineup_end"; "soba_wait"; "pcs_enter"; "pcs_exit";
    "no_wait_pcs_enter"; "no_wait_pcs_exit"; "slock_next_n"; "mark_task_start"; "mark_task_end"; "unmark_task";
    "ext_get_turn"; "ext_put_turn"].
Definition annot_stubs_more : list (string * prog unit) :=
  stub <$> ["propose_thread_role"; "scwf_ignore_variable"; "tern_dummy_sync"; "tern_set_base_timespec";
    "tern_set_base_timeval"; "tern_detach"; "pcs_barrier_exit"; "tern_set_iter"].

(** with the annotations switched off, or the runtime, an annotation does what its stub does *)
Lemma annotated_off enabled real th w : DMT && enforce_annotations && enabled = false ->
  exists w', run 1 th (annotated enabled real) w = Done tt w' /\ tls_of w' th = tls_of w th /\ w_s w' = w_s w /\ w_rt w' = w_rt w.
Proof using Type.
  intros Hoff. unfold annotated. cbn. rewrite andb_false_iff, andb_false_iff in Hoff.
  replace (in_app (tls_of w th) && DMT && enforce_annotations && enabled) with false.
  - eexists. split_and!; [done| |done..]. unfold tls_of at 1. cbn. by rewrite lookup_insert_eq.
  - symmetry. rewrite !andb_false_iff. tauto.
Qed.
End interpose.

(** ** The frame get_eip picks *)
Section eip.
Context `{O : Options}.
(** the chosen index is inside the array *)
Ltac in_array :=
  rewrite (proj2 (orb_false_iff _ _)) by (split; [apply Z.ltb_ge|apply Z.leb_gt]; unfold eip_len, idx_offset in *; lia).
Context (Hwhole : whole_stack_eip_signature = false).

Lemma backtrace_ok n stack : (length stack <= eip_len)%nat \/ (n <= eip_len)%nat -> backtrace n stack = Ok (take n stack).
Proof using Type. intros H. unfold backtrace. rewrite bool_decide_true; [done|]. rewrite length_take. lia. Qed.

(** the caller of the library function, [backtrace_level] frames up, or the outermost frame
    when the stack is shallow *)
Lemma get_eip_frame stack v : 0 <= backtrace_level <= 2 ->
  let idx := Z.to_nat (backtrace_level + idx_offset) in
  length stack <> idx -> stack !! (Nat.min idx (length stack - 1)) = Some v -> get_eip stack = Ok v.
Proof using Hwhole.
  intros Hl idx Hne Hv. assert (Hidx : Z.of_nat idx = backtrace_level + idx_offset) by (unfold idx, idx_offset; lia).
  unfold get_eip. rewrite Hwhole, <-Hidx. replace (Z.to_nat (Z.of_nat idx + 1)) with (S idx) by lia.
  rewrite backtrace_ok by (right; unfold eip_len, idx_offset in *; lia). rewrite length_take.
  pose proof (lookup_lt_Some _ _ _ Hv) as Hlen.
  destruct (Z.ltb_spec (Z.of_nat (S idx `min` length stack)) (Z.of_nat idx)) as [Hs|Hs].
  - in_array.
    rewrite lookup_take_lt by lia. replace (Z.to_nat _) with (Nat.min idx (length stack - 1)) by lia. by rewrite Hv.
  - in_array.
    rewrite lookup_take_lt by lia. replace (Z.to_nat _) with (Nat.min idx (length stack - 1)) by lia. by rewrite Hv.
Qed.
(** with exactly that many frames the array is read one beyond what backtrace has written *)
Lemma get_eip_uninit stack : 0 <= backtrace_level <= 2 -> Z.of_nat (length stack) = backtrace_level + idx_offset ->
  get_eip stack = Err UninitRead.
Proof using Hwhole.
  intros Hl Hlen. unfold get_eip. rewrite Hwhole, <-Hlen.
  rewrite backtrace_ok by (right; unfold eip_len, idx_offset in *; lia).
  rewrite take_ge by lia. rewrite Z.ltb_irrefl. in_array.
  by rewrite Nat2Z.id, lookup_ge_None_2 by lia.
Qed.
(** from level 3 on backtrace may write beyond the array *)
Lemma get_eip_overflow stack : 3 <= backtrace_level -> (eip_len < length stack)%nat -> get_eip stack = Err OutOfBounds.
Proof using Hwhole.
  intros Hl Hlen. unfold get_eip, backtrace. rewrite Hwhole, bool_decide_false; [done|].
  rewrite length_take. unfold eip_len, idx_offset in *. lia.
Qed.
End eip.
