(* ===== verification/HooksSpace.v ===== *)
(** * Spaces: every hook is entered in App space, runs in Sys space and returns to App space *)
From S2P Require Import Prelude Options RunQueue TidMap NonDetSet Scheduler SyncFuncs RtState Proc.
From S2P Require Import RtBase RtTls RtRuntime RtSync RtAnnot RtThread RtNet Hooks.

(** the assertions about spaces *)
Definition space_errors : list string := [
  "can't enter Sys space since already in Sys space!";
  "can't exit Sys space since already in App space!";
  "tern_thread_begin must start in sys space"; "tern_thread_begin must end in app space";
  "tern_thread_end must start in app space"; "tern_thread_end must end in sys space";
  "Space::isSys()"; "Space::isApp()";
  "tern_prog_begin must start in sys space"; "tern_prog_begin must end in sys space";
  "tern_prog_end must start in sys space"; "tern_prog_end must end in sys space";
  "__tern_prog_begin must start in sys space"; "__tern_prog_begin must end in app space";
  "__tern_prog_end must start in app space"; "__tern_prog_end must end in system space"].
Definition space_error (e : error) : bool :=
  match e with AssertFail m => bool_decide (m ∈ space_errors) | _ => false end.
Definition no_space_error (e : error) : Prop := space_error e = false.

(** [sp b b' p]: started in App ([b = true]) or Sys space, [p] fails no assertion about
    spaces and ends in the space [b'] *)
Definition sp {A} (b b' : bool) (p : prog A) : Prop := forall t, in_app t = b ->
  twp no_space_error p (fun _ t' => in_app t' = b') t.

Create HintDb space discriminated.
#[export] Hint Constants Opaque : space.
Section rules.
Context `{O : Options, U : UnorderedIter, G : GlobalAddrs, N : NodeAddrs}.
Implicit Types b : bool.

Lemma s_bind {A B} b b1 b2 (p : prog A) (f : A -> prog B) : sp b b1 p -> (forall a, sp b1 b2 (f a)) -> sp b b2 (p ≫= f).
Proof using Type.
  intros Hp Hf t Ht. apply twp_bind. eapply twp_mono; [|by apply Hp]. cbn beta. intros a t' Ht'. by apply Hf.
Qed.
Lemma s_ret {A} b (a : A) : sp b b (mret a).
Proof using Type. by intros t Ht. Qed.
Lemma s_call {X} (c : scall X) b : sp b b (call c).
Proof using Type. by intros t Ht x. Qed.
Lemma s_rt {X} (m : RTM X) b : sp b b (rt_do m).
Proof using Type. by intros t Ht x r r' _. Qed.
Lemma s_free {X} (m : RTM X) b : sp b b (act (Free m)).
Proof using Type. by intros t Ht x r r' _. Qed.
Lemma s_self b : sp b b (act Self).
Proof using Type. by intros t Ht x. Qed.
Lemma s_set_self b : sp b b (act SetSelf).
Proof using Type. by intros t Ht x. Qed.
Lemma s_forked b : sp b b (act Forked).
Proof using Type. by intros t Ht x. Qed.
Lemma s_env q b : sp b b (act (Env q)).
Proof using Type. by intros t Ht x. Qed.
Lemma s_rt_get {X} (f : rt -> X) b : sp b b (rt_get f).
Proof using Type. apply s_rt. Qed.
Lemma s_rt_set f b : sp b b (rt_set f).
Proof using Type. apply s_rt. Qed.
Lemma s_tls_get {X} (f : tls -> X) b : sp b b (tls_get f).
Proof using Type. by intros t Ht. Qed.
Lemma s_tls_set f b : (forall t, in_app (f t) = in_app t) -> sp b b (tls_set f).
Proof using Type. intros H t Ht. cbn. by rewrite H. Qed.
Lemma s_fail {X} e b b' : no_space_error e -> sp b b' (tls_do (fail (A := X) e)).
Proof using Type. intros He t Ht. exact He. Qed.
Lemma s_passert nd c msg b : no_space_error (AssertFail msg) -> sp b b (passert nd c msg).
Proof using Type. intros H. unfold passert. destruct (_ || _); [apply s_ret|by apply s_fail]. Qed.
Lemma s_pwhen c b p : sp b b p -> sp b b (pwhen c p).
Proof using Type. destruct c; [done|]. intros _. apply s_ret. Qed.
Lemma s_ploop {X} (body : prog (option X)) b : sp b b body -> sp b b (ploop body).
Proof using Type.
  intros H t Ht. exists (fun _ t => in_app t = b). split; [done|]. intros _ t' Ht'. apply twp_bind.
  eapply twp_mono; [|by apply H]. cbn beta. by intros [x|] t2 Ht2.
Qed.
Lemma s_iter {S X A} (body : S -> prog (S + X)) s (k : X -> prog A) b b' :
  (forall s, sp b b (body s)) -> (forall x, sp b b' (k x)) -> sp b b' (Iter body s k).
Proof using Type.
  intros H Hk t Ht. exists (fun _ t => in_app t = b). split; [done|]. intros s' t' Ht'.
  eapply twp_mono; [|by apply H]. cbn beta. intros [x|x] t2 Ht2; [done|by apply Hk].
Qed.
Lemma s_pfor {A} (f : A -> prog unit) l b : (forall x, sp b b (f x)) -> sp b b (pfor f l).
Proof using Type. intros H. induction l; [apply s_ret|]. by eapply s_bind; [apply H|]. Qed.

(** the value of current_space is known *)
Lemma s_known {A} b b' (f : bool -> prog A) : sp b b' (f b) -> sp b b' (tls_get in_app ≫= f).
Proof using Type. intros H t Ht. cbn. rewrite Ht. by apply H. Qed.
Lemma s_cross b : sp b (negb b) cross.
Proof using Type. intros t Ht. cbn. by rewrite Ht. Qed.
Lemma s_enter : sp true false enterSys.
Proof using Type. apply s_known. eapply s_bind; [apply s_ret|]. intros _. apply (s_cross true). Qed.
Lemma s_exit : sp false true exitSys.
Proof using Type. apply s_known. eapply s_bind; [apply s_ret|]. intros _. apply (s_cross false). Qed.
Lemma s_assert_app msg : sp true true (assert_app msg).
Proof using Type. apply s_known, s_ret. Qed.
Lemma s_assert_sys msg : sp false false (assert_sys msg).
Proof using Type. apply s_known, s_ret. Qed.
Lemma s_strategy op b : sp b b (tls_do (getPutTurnStrategy op)).
Proof using Type. intros t Ht. unfold getPutTurnStrategy. cbn. unfold wpx, mbind, M_bind, get, modify, mret, M_ret. by destruct (yield_this t). Qed.
End rules.
#[export] Hint Resolve s_ret s_call s_rt s_free s_self s_set_self s_forked s_env s_rt_get s_rt_set s_tls_get
  s_enter s_exit s_assert_app s_assert_sys s_strategy : space.
#[export] Hint Extern 1 (sp _ _ (passert _ _ _)) => (apply s_passert; reflexivity) : space.
#[export] Hint Extern 1 (sp _ _ (act (Tls (fail _)))) => (apply s_fail; reflexivity) : space.

Ltac s_set := apply s_tls_set; intros []; cbv beta iota; repeat case_match; reflexivity.
Ltac space_auto :=
  repeat first
    [ progress intros
    | solve [auto 2 with space]
    | match goal with H : context [sp] |- _ => apply H end
    | apply s_pwhen
    | apply s_ploop
    | apply s_iter
    | apply s_pfor
    | eapply s_bind
    | match goal with |- sp _ _ (match ?x with _ => _ end) => destruct x end
    | s_set ].

Section methods.
Context `{O : Options, U : UnorderedIter, G : GlobalAddrs, N : NodeAddrs}.
Implicit Types b : bool.

(** ** The macros *)
Lemma s_note_errno e b : sp b b (note_errno e).
Proof using Type. unfold note_errno. space_auto. Qed.
Lemma s_wait c n b : sp b b (S_wait c n).
Proof using Type. unfold S_wait. space_auto. Qed.
Lemma s_signal c a b : sp b b (syncSignal c a).
Proof using Type. apply s_call. Qed.
Lemma s_syncWait c n b : sp b b (syncWait c n).
Proof using Type. apply s_wait. Qed.
Lemma s_in_non_det b : sp b b in_non_det.
Proof using Type. apply s_tls_get. Qed.
Hint Resolve s_note_errno s_wait s_signal s_syncWait s_in_non_det : space.
Lemma s_change_role b : sp b b CHECK_AND_CHANGE_ROLE.
Proof using Type. unfold CHECK_AND_CHANGE_ROLE. space_auto. Qed.
Hint Resolve s_change_role : space.
Lemma s_start me b : sp b b (SCHED_TIMER_START me).
Proof using Type. unfold SCHED_TIMER_START. space_auto. Qed.
Lemma s_common ins op args b : sp b b (SCHED_TIMER_END_COMMON ins op args).
Proof using Type. unfold SCHED_TIMER_END_COMMON. space_auto. Qed.
Lemma s_check b : sp b b check_cv_wait_cnt.
Proof using Type. unfold check_cv_wait_cnt. space_auto. Qed.
Hint Resolve s_start s_common s_check : space.
Lemma s_end ins op args b : sp b b (SCHED_TIMER_END ins op args).
Proof using Type. unfold SCHED_TIMER_END. space_auto. Qed.
Lemma s_thread_end ins op args b : sp b b (SCHED_TIMER_THREAD_END ins op args).
Proof using Type. unfold SCHED_TIMER_THREAD_END. space_auto. Qed.
Lemma s_fake_end ins op args b : sp b b (SCHED_TIMER_FAKE_END ins op args).
Proof using Type. unfold SCHED_TIMER_FAKE_END. space_auto. Qed.
Lemma s_with_errno e m b : sp b b (with_errno e m).
Proof using Type. unfold with_errno. space_auto. Qed.
Lemma s_native_call e m b : sp b b (native_call e m).
Proof using Type. unfold native_call. space_auto. Qed.
Lemma s_native_plain e m b : sp b b (native_plain e m).
Proof using Type. unfold native_plain. space_auto. Qed.
Lemma s_sys_call q b : sp b b (sys_call q).
Proof using Type. unfold sys_call. space_auto. Qed.
Hint Resolve s_end s_thread_end s_fake_end s_with_errno s_native_call s_native_plain s_sys_call : space.
Lemma s_helper_errno e p b : sp b b p -> sp b b (helper_errno e p).
Proof using Type. intros H. unfold helper_errno. space_auto. Qed.
Lemma s_runtime_call q e b : sp b b (Runtime_call q e).
Proof using Type. unfold Runtime_call. space_auto. Qed.
Lemma s_current_time b : sp b b current_time.
Proof using Type. unfold current_time. space_auto. Qed.
Lemma s_rel_turns t b : sp b b (rel_turns t).
Proof using Type. unfold rel_turns. space_auto. Qed.
Lemma s_non_det_or p q b : sp b b p -> sp b b q -> sp b b (non_det_or p q).
Proof using Type. intros Hp Hq. unfold non_det_or. space_auto. Qed.
Lemma s_unless p b : sp b b p -> sp b b (unless_non_det p).
Proof using Type. intros Hp. unfold unless_non_det. space_auto. Qed.
Lemma s_lock_helper m c n b : sp b b (lock_helper m c n).
Proof using Type. unfold lock_helper. space_auto. Qed.
Lemma s_block_line cv b : sp b b (block_line cv).
Proof using Type. unfold block_line. space_auto. Qed.
Lemma s_choose_role l n b : sp b b (choose_role l n).
Proof using Type. unfold choose_role. space_auto. Qed.
Lemma s_try_sem s b : sp b b (try_sem s).
Proof using Type. unfold try_sem. space_auto. Qed.
Lemma s_release k f b : sp b b (lineup_release k f).
Proof using Type. unfold lineup_release. space_auto. Qed.
Hint Resolve s_helper_errno s_runtime_call s_current_time s_rel_turns s_lock_helper s_block_line
  s_choose_role s_try_sem s_release : space.
Lemma s_sleep_turns t b : sp b b (sleep_turns t).
Proof using Type. unfold sleep_turns. space_auto. Qed.
Lemma s_really_sleep q b : sp b b (really_sleep q).
Proof using Type. unfold really_sleep. space_auto. Qed.
Hint Resolve s_sleep_turns s_really_sleep : space.

(** ** Methods that other methods and the helpers call *)
Ltac method_auto := repeat first [progress space_auto | apply s_non_det_or | apply s_unless].
Lemma s_MutexLock me ins e mu b : sp b b (pthreadMutexLock me ins e mu).
Proof using Type. unfold pthreadMutexLock, pthreadMutexLockHelper, Runtime_pthread_mutex_lock. method_auto. Qed.
Lemma s_MutexUnlock me ins e mu b : sp b b (pthreadMutexUnlock me ins e mu).
Proof using Type. unfold pthreadMutexUnlock, Runtime_pthread_mutex_unlock. method_auto. Qed.
Lemma s_CondWait me ins e cv mu b : sp b b (pthreadCondWait me ins e cv mu).
Proof using Type. unfold pthreadCondWait, pthreadMutexLockHelper. method_auto. Qed.
Lemma s_semWait me ins e sem b : sp b b (semWait me ins e sem).
Proof using Type. unfold semWait, Runtime_sem_wait. method_auto. Qed.
Lemma s_nonDetEnd b : sp b b nonDetEnd.
Proof using Type. unfold nonDetEnd. method_auto. Qed.
Hint Resolve s_MutexLock s_MutexUnlock s_CondWait s_semWait s_nonDetEnd : space.
Lemma s_blocking conv after base e b : sp b b after -> (forall e, sp b b (base e)) -> sp b b (blocking_with conv after base e).
Proof using Type. intros Ha Hb. unfold blocking_with, BLOCK_TIMER_START, BLOCK_TIMER_END. method_auto. Qed.
Lemma s_blocking_call base e b : (forall e, sp b b (base e)) -> sp b b (blocking_call base e).
Proof using Type. intros Hb. apply s_blocking; [apply s_ret|done]. Qed.
Lemma s_file_call q base e b : (forall e, sp b b (base e)) -> sp b b (file_call q base e).
Proof using Type. intros Hb. unfold file_call, regularFile. pose proof (s_blocking_call base e b Hb). method_auto. Qed.
Lemma s_nonblock b : sp b b nonblock_assert.
Proof using Type. unfold nonblock_assert, sock_nonblock. method_auto. Qed.
Lemma s_log_port a b : sp b b (log_port a).
Proof using Type. unfold log_port. method_auto. Qed.
Hint Resolve s_nonblock s_log_port : space.
Lemma s_accept e b : sp b b (Runtime_accept e).
Proof using Type. unfold Runtime_accept. method_auto. Qed.
Lemma s_connect e b : sp b b (Runtime_connect e).
Proof using Type. unfold Runtime_connect. method_auto. Qed.
Lemma s_recv n e b : sp b b (Runtime_recv n e).
Proof using Type.
  unfold Runtime_recv. method_auto.
  unfold recv_round. destruct s. method_auto.
Qed.
Hint Resolve s_accept s_connect s_recv : space.
Lemma s_threadBegin me b : sp b b (threadBegin me).
Proof using Type. unfold threadBegin. method_auto. Qed.
Lemma s_threadEnd me ins b : sp b b (threadEnd me ins).
Proof using Type. unfold threadEnd. method_auto. Qed.
Lemma s_create_thread me ins f b : sp b b (create_thread me ins f).
Proof using Type. unfold create_thread. method_auto. Qed.
Lemma s_idle_sleep me b : sp b b (idle_sleep me).
Proof using Type. unfold idle_sleep. method_auto. Qed.
Lemma s_idle_cond_wait me b : sp b b (idle_cond_wait me).
Proof using Type. unfold idle_cond_wait. method_auto. Qed.
Lemma s_printStat me b : sp b b (printStat me).
Proof using Type. unfold printStat. method_auto. Qed.
Hint Resolve s_threadBegin s_threadEnd s_create_thread s_idle_sleep s_idle_cond_wait s_printStat : space.
(** the creation of the idle thread crosses to App space and back *)
Lemma s_launch me : sp true true (launch_idle me).
Proof using Type. unfold launch_idle. method_auto. Qed.
Hint Resolve s_launch : space.
Lemma s_create_idle me : sp false false (create_idle_thread me).
Proof using Type. unfold create_idle_thread. method_auto. Qed.
Hint Resolve s_create_idle : space.
Lemma s_pthreadCreate me ins f : sp false false (pthreadCreate me ins f).
Proof using Type. unfold pthreadCreate. method_auto. Qed.
Lemma s_fork me ins e : sp false false (rt_fork me ins e).
Proof using Type. unfold rt_fork, Runtime_fork. method_auto. Qed.

(** ** Hooks *)
Lemma s_hook conv m : (forall e, sp false false (m e)) -> sp true true (hook_as conv m).
Proof using Type. intros H. unfold hook_as. method_auto. Qed.
Lemma s_void_hook m : sp false false m -> sp true true (void_hook m).
Proof using Type. intros H. unfold void_hook. method_auto. Qed.
Lemma s_begin me : sp false true (tern_thread_begin me).
Proof using Type. unfold tern_thread_begin. method_auto. Qed.
Lemma s_tern_end me ins : sp true false (tern_thread_end me ins).
Proof using Type. unfold tern_thread_end. method_auto. Qed.
Hint Resolve s_begin s_tern_end : space.
Lemma s_pthread_exit me ins : sp true false (tern_pthread_exit me ins).
Proof using Type. unfold tern_pthread_exit. method_auto. Qed.
End methods.
