(* ===== verification/RtDisc.v ===== *)
(** * The turn discipline and determinism

    [disc I b b' p]: program [p], started with the turn held ([b]) or not, only touches
    shared state while it holds the turn and ends with the turn held or not ([b']), as
    long as its thread-local variables satisfy [I].  Processes whose threads follow the
    discipline are deterministic: the interleaving does not matter. *)
From S2P Require Import Prelude Options RunQueue TidMap NonDetSet Scheduler SchedInv SchedOps SchedTurns.
From S2P Require Import SyncFuncs RtState Proc.

(** does a call need the turn, and does the caller have it afterwards?  None: the call is
    not part of the discipline (system calls and the idle thread) *)
Definition scall_turn {X} (c : scall X) (held : bool) : option bool :=
  match c with
  | SGetTurn | SWaitEnd => if held then None else Some true
  | SPutTurn _ _ | SWaitBegin _ _ => if held then Some false else None
  | SSignal _ _ | SInc | SGetCount | SCreate _ _ | SJoin _ | SZombie _ | SRoleid _
  | SChangeRole _ _ | SNthread | SRunqSize | SNonDetWait _ => if held then Some true else None
  | SIdleCondWait | SIdleWake | SInterProStart | SInterProEnd | SBlock | SWakeup | SIdleDone
  | SSetIdleDone | SIdleSignal => None
  end.

Definition op_disc {X} (I : tls -> Prop) (b : bool) (o : op X) (Q : bool -> X -> Prop) : Prop :=
  match o in op X return (bool -> X -> Prop) -> Prop with
  | Call c => fun Q => match scall_turn c b with Some b' => forall x, Q b' x | None => False end
  | Rt m => fun Q => b = true /\ forall x, Q true x
  | Tls m => fun Q => forall t x t', I t -> m t = Ok (x, t') -> I t' /\ Q b x
  | Self => fun Q => forall x, Q b x
  | Env _ => fun Q => forall x, Q b x
  | Free _ | SetSelf | Forked => fun Q => False
  end Q.

Fixpoint disc {A} (I : tls -> Prop) (b b' : bool) (p : prog A) : Prop :=
  match p with
  | Ret _ => b = b'
  | Act o k => op_disc I b o (fun b2 x => disc I b2 b' (k x))
  | Iter body s k => (forall s, disc I b b (body s)) /\ (forall x, disc I b b' (k x))
  end.

Lemma op_disc_mono {X} I b (o : op X) (P Q : bool -> X -> Prop) :
  (forall b x, P b x -> Q b x) -> op_disc I b o P -> op_disc I b o Q.
Proof.
  intros HPQ. destruct o; simpl; try done; [|naive_solver..].
  destruct (scall_turn c b); [|done]. auto.
Qed.

Lemma disc_bind {A B} I (p : prog A) : forall b b1 b2 (f : A -> prog B),
  disc I b b1 p -> (forall a, disc I b1 b2 (f a)) -> disc I b b2 (p ≫= f).
Proof.
  induction p as [A a|A X o k IH|A S X body _ s k IH]; intros b b1 b2 f Hp Hf; simpl in *.
  - subst. apply Hf.
  - eapply op_disc_mono; [|exact Hp]. cbn beta. intros b3 x Hx. by eapply IH.
  - destruct Hp as [H1 H2]. split; [done|]. intros x. by eapply IH.
Qed.

(** ** Steps that are local to a thread, and steps on the shared state *)
Inductive upd (th : Z) : (world -> world) -> Prop :=
| upd_id : upd th id
| upd_tls t : upd th (set_tls th t)
| upd_env l : upd th (set_env th l).

Definition agree (th : Z) (w w2 : world) : Prop :=
  tls_of w th = tls_of w2 th /\ ids_of w th = ids_of w2 th /\ env_of w th = env_of w2 th.

Lemma upd_agree th th2 f w : upd th f -> th <> th2 -> agree th2 w (f w).
Proof.
  intros Hf Hne. unfold agree, tls_of, ids_of, env_of.
  destruct Hf; cbn; rewrite ?lookup_insert_ne by done; auto.
Qed.
Lemma upd_comm th th2 f g w : upd th f -> upd th2 g -> th <> th2 -> f (g w) = g (f w).
Proof.
  intros Hf Hg Hne. destruct w, Hf, Hg; try done; unfold set_tls, set_env; cbn;
    by rewrite insert_insert_ne.
Qed.
Lemma upd_shared th f w : upd th f -> w_s (f w) = w_s w /\ w_rt (f w) = w_rt w /\ w_self (f w) = w_self w.
Proof. by intros []. Qed.

(** the update of the shared state *)
Definition shared (s : sched) (r : rt) (w : world) : world := set_s s (set_rt r w).
Lemma shared_upd th f s r w : upd th f -> f (shared s r w) = shared s r (f w).
Proof. by intros []. Qed.

Definition local_op {X} (o : op X) : bool :=
  match o with Tls _ | Self | Env _ => true | _ => false end.
Definition local_prog {A} (p : prog A) : bool :=
  match p with Ret _ => true | Act o _ => local_op o | Iter _ _ _ => true end.

Section exec.
Context `{O : Options, U : UnorderedIter, G : GlobalAddrs}.

Lemma local_step {A} th (p p' : prog A) w w' : local_prog p = true -> step th p w = Ok (p', w') ->
  exists f, upd th f /\ w' = f w /\ forall w2, agree th w w2 -> step th p w2 = Ok (p', f w2).
Proof using Type.
  destruct p as [a|X o k|S X body s k]; simpl; [done| |].
  - destruct o as [X c|X m|X m|X m| | | |q]; simpl; try done; intros _.
    + unfold zoom. destruct (m (tls_of w th)) as [[x t]|] eqn:Hm; [|done]. intros [= <- <-].
      exists (set_tls th t). split_and!; [constructor|done|]. intros w2 (E1 & _ & _).
      unfold zoom. by rewrite <-E1, Hm.
    + intros [= <- <-]. exists id. split_and!; [constructor|done|]. intros w2 (_ & E & _).
      unfold self_of. by rewrite E.
    + destruct (env_of w th) as [|v l] eqn:Hl; [done|]. intros [= <- <-].
      exists (set_env th l). split_and!; [constructor|done|]. intros w2 (_ & _ & E). by rewrite <-E, Hl.
  - intros _ [= <- <-]. exists id. split_and!; [constructor|done|]. done.
Qed.

(** a step on the shared state, of an operation of the discipline *)
Lemma shared_step {A} th (p p' : prog A) w w' I b b' : local_prog p = false -> disc I b b' p ->
  step th p w = Ok (p', w') ->
  exists s r, w' = shared s r w /\
    forall w2, w_s w2 = w_s w -> w_rt w2 = w_rt w -> ids_of w2 th = ids_of w th ->
      step th p w2 = Ok (p', shared s r w2).
Proof using Type.
  destruct p as [a|X o k|S X body s k]; simpl; [done| |done].
  destruct o as [X c|X m|X m|X m| | | |q]; simpl; try done; intros _ _.
  - unfold zoom. destruct (scall_code c (self_of w th) th (w_s w)) as [[x s]|] eqn:Hc; [|done].
    intros [= <- <-]. exists s, (w_rt w). split; [by destruct w|]. intros w2 E1 E2 E3.
    unfold self_of in *. rewrite E1, E3, Hc. unfold shared. rewrite <-E2. by destruct w2.
  - unfold zoom. destruct (m (w_rt w)) as [[x r]|] eqn:Hm; [|done].
    intros [= <- <-]. exists (w_s w), r. split; [by destruct w|]. intros w2 E1 E2 E3.
    rewrite E2, Hm. unfold shared. rewrite <-E1. by destruct w2.
Qed.

(** ** The invariant of a disciplined process *)
Record good (I : tls -> Prop) (tok : turn_state) (c : process) : Prop := {
  gd_turn : turn_at tok (w_s (p_world c));
  gd_prog th p : p_threads c !! th = Some p ->
    disc I (bool_decide (tok = Held (self_of (p_world c) th))) false p;
  gd_tls th : is_Some (p_threads c !! th) -> I (tls_of (p_world c) th);
  gd_inj th1 th2 : is_Some (p_threads c !! th1) -> is_Some (p_threads c !! th2) ->
    self_of (p_world c) th1 = self_of (p_world c) th2 -> th1 = th2
}.

Context (Htt : 0 <= enforce_turn_type <= 2) (I : tls -> Prop).

(** what a call of the discipline does to the turn *)
Lemma scall_turn_spec {X} (c : scall X) self th b b' tok s x s' :
  scall_turn c b = Some b' -> turn_at tok s -> b = bool_decide (tok = Held self) ->
  scall_code c self th s = Ok (x, s') ->
  exists tok', turn_at tok' s' /\ b' = bool_decide (tok' = Held self) /\
    (tok = Held self \/ tok = Posted self) /\
    (forall t, t <> self -> tok' <> Held t).
Proof using Htt.
  intros Hc Hs Hb Hrun.
  assert (Hw : forall (m : SM X) Q, m s = Ok (x, s') -> wpx any_error m Q s -> Q x s')
    by (intros m Q Hm; unfold wpx; by rewrite Hm).
  assert (Hk : b = true -> b' = true -> keeps (scall_code c self th) -> exists tok', turn_at tok' s' /\
    b' = bool_decide (tok' = Held self) /\ (tok = Held self \/ tok = Posted self) /\
    (forall t, t <> self -> tok' <> Held t)).
  { intros -> -> Hkeep. symmetry in Hb. apply bool_decide_eq_true in Hb as ->. exists (Held self).
    split_and!; [|by rewrite bool_decide_eq_true_2|by left|congruence].
    apply turn_at_held. apply turn_at_held in Hs. exact (Hw _ _ Hrun (Hkeep _ Hs)). }
  assert (Hg : b = true -> b' = false -> gives (scall_code c self th) -> exists tok', turn_at tok' s' /\
    b' = bool_decide (tok' = Held self) /\ (tok = Held self \/ tok = Posted self) /\
    (forall t, t <> self -> tok' <> Held t)).
  { intros -> -> Hgive. symmetry in Hb. apply bool_decide_eq_true in Hb as ->.
    apply turn_at_held in Hs. destruct (Hw _ _ Hrun (Hgive _ Hs)) as (tok' & H1 & H2). exists tok'.
    split_and!; [done|by rewrite bool_decide_eq_false_2; [|intros ->]|by left|by intros t _ ->]. }
  assert (Hget : b = false -> b' = true -> tok = Posted self /\ turn_at (Held self) s' ->
    exists tok', turn_at tok' s' /\ b' = bool_decide (tok' = Held self) /\
    (tok = Held self \/ tok = Posted self) /\ (forall t, t <> self -> tok' <> Held t)).
  { intros _ -> [Ht H]. exists (Held self).
    split_and!; [done|by rewrite bool_decide_eq_true_2|by right|congruence]. }
  destruct c; simpl in Hc; try done; destruct b; simplify_eq/=; try done.
  - apply Hget; [done..|]. exact (Hw _ _ Hrun (getTurn_takes Htt _ _ _ Hs)).
  - apply Hg; [done..|]. by apply gives_putTurn.
  - apply Hg; [done..|]. by apply gives_wait_begin.
  - apply Hget; [done..|]. exact (Hw _ _ Hrun (wait_end_takes Htt _ _ _ Hs)).
  - apply Hk; [done..|]. by apply keeps_signal.
  - apply Hk; [done..|]. by apply keeps_incTurnCount.
  - apply Hk; [done..|]. apply keeps_bind; [apply keeps_gets|intros; apply keeps_ret].
  - apply Hk; [done..|]. by apply keeps_create.
  - apply Hk; [done..|]. apply keeps_on_tids.
  - apply Hk; [done..|]. apply keeps_gets.
  - apply Hk; [done..|]. apply keeps_on_tids.
  - apply Hk; [done..|]. apply keeps_on_tids.
  - apply Hk; [done..|]. apply keeps_gets.
  - apply Hk; [done..|]. apply keeps_on_runq.
  - apply Hk; [done..|]. by apply keeps_modify.
Qed.

(** a shared step is made by the thread that has the turn, or takes it *)
Lemma shared_step_turn {A} th (p p' : prog A) w w' b' tok : local_prog p = false ->
  turn_at tok (w_s w) -> disc I (bool_decide (tok = Held (self_of w th))) b' p ->
  step th p w = Ok (p', w') ->
  exists tok', turn_at tok' (w_s w') /\ disc I (bool_decide (tok' = Held (self_of w th))) b' p' /\
    (tok = Held (self_of w th) \/ tok = Posted (self_of w th)) /\
    (forall t, t <> self_of w th -> tok' <> Held t).
Proof using Htt.
  destruct p as [a|X o k|S X body s k]; simpl; [done| |done].
  destruct o as [X c|X m|X m|X m| | | |q]; simpl; try done; intros _ Ht Hd.
  - unfold zoom. destruct (scall_code c (self_of w th) th (w_s w)) as [[x s]|] eqn:Hc; [|done].
    intros [= <- <-]. destruct (scall_turn c _) as [b2|] eqn:Hb; [|done].
    destruct (scall_turn_spec _ _ _ _ _ _ _ _ _ Hb Ht eq_refl Hc) as (tok' & H1 & -> & H2 & H3).
    exists tok'. split_and!; [done|apply Hd|done|done].
  - unfold zoom. destruct (m (w_rt w)) as [[x r]|] eqn:Hm; [|done]. intros [= <- <-].
    destruct Hd as [Hb Hd]. apply bool_decide_eq_true in Hb as Hb'. exists tok.
    split_and!; [done|by rewrite Hb|by left|]. rewrite Hb'. congruence.
Qed.

(** a local step keeps the turn where it is *)
Lemma local_step_disc {A} th (p p' : prog A) w w' b b' : local_prog p = true ->
  I (tls_of w th) -> disc I b b' p -> step th p w = Ok (p', w') ->
  I (tls_of w' th) /\ disc I b b' p'.
Proof using Type.
  clear Htt. destruct p as [a|X o k|S X body s k]; simpl; [done| |].
  - destruct o as [X c|X m|X m|X m| | | |q]; simpl; try done; intros _ HI Hd.
    + unfold zoom. destruct (m (tls_of w th)) as [[x t]|] eqn:Hm; [|done]. intros [= <- <-].
      destruct (Hd _ _ _ HI Hm) as [H1 H2]. split; [|done].
      unfold tls_of. cbn. by rewrite lookup_insert_eq.
    + by intros [= <- <-].
    + destruct (env_of w th) as [|v l]; [done|]. by intros [= <- <-].
  - intros _ HI [H1 H2] [= <- <-]. split; [done|]. eapply disc_bind; [apply H1|].
    intros [s'|x]; [by split|apply H2].
Qed.

Lemma good_step tok c th c' : good I tok c -> pstep c th c' -> exists tok', good I tok' c'.
Proof using Htt.
  intros [G1 G2 G3 G4] [p p' w' Hp Hs ->]. pose proof (G2 _ _ Hp) as Hd.
  assert (HI : I (tls_of (p_world c) th)) by (apply G3; by eexists).
  assert (Hdom : forall t, is_Some (<[th:=p']> (p_threads c) !! t) <-> is_Some (p_threads c !! t)).
  { intros t. destruct (decide (t = th)) as [->|]; [rewrite lookup_insert_eq, Hp; split; eauto|].
    by rewrite lookup_insert_ne. }
  destruct (local_prog p) eqn:Hl.
  - destruct (local_step _ _ _ _ _ Hl Hs) as (f & Hf & -> & _). exists tok.
    destruct (upd_shared _ _ (p_world c) Hf) as (E1 & E2 & E3).
    assert (Hself : forall t, self_of (f (p_world c)) t = self_of (p_world c) t)
      by (intros t; unfold self_of, ids_of; by rewrite E3).
    destruct (local_step_disc _ _ _ _ _ _ _ Hl HI Hd Hs) as [HI' Hd'].
    split; cbn [p_threads p_world].
    + by rewrite E1.
    + intros t q. rewrite Hself. destruct (decide (t = th)) as [->|Hne].
      * rewrite lookup_insert_eq. by intros [= <-].
      * rewrite lookup_insert_ne by done. apply G2.
    + intros t Ht%Hdom. destruct (decide (t = th)) as [->|Hne]; [done|].
      rewrite <-(proj1 (upd_agree th t f _ Hf (not_eq_sym Hne))). by apply G3.
    + intros t1 t2 H1%Hdom H2%Hdom. rewrite !Hself. by apply G4.
  - destruct (shared_step _ _ _ _ _ _ _ _ Hl Hd Hs) as (s & r & -> & _).
    destruct (shared_step_turn _ _ _ _ _ _ _ Hl G1 Hd Hs) as (tok' & T1 & T2 & T3 & T4).
    exists tok'. split; cbn [p_threads p_world].
    + done.
    + intros t q. change (self_of (shared s r (p_world c)) t) with (self_of (p_world c) t).
      destruct (decide (t = th)) as [->|Hne].
      * rewrite lookup_insert_eq. by intros [= <-].
      * rewrite lookup_insert_ne by done. intros Hq.
        assert (Hns : self_of (p_world c) t <> self_of (p_world c) th)
          by (intros E; apply Hne, G4; [by eexists|by eexists|done]).
        specialize (G2 _ _ Hq).
        rewrite bool_decide_eq_false_2 in G2 by (destruct T3 as [->| ->]; congruence).
        rewrite bool_decide_eq_false_2; [done|by apply T4].
    + intros t Ht%Hdom. by apply G3.
    + intros t1 t2 H1%Hdom H2%Hdom. by apply G4.
Qed.

(** ** Diamond *)
Lemma diamond tok c th1 th2 c1 c2 : good I tok c -> th1 <> th2 -> pstep c th1 c1 -> pstep c th2 c2 ->
  exists c', pstep c1 th2 c' /\ pstep c2 th1 c'.
Proof using Htt.
  intros [G1 G2 G3 G4] Hne [p1 p1' w1 Hp1 Hs1 ->] [p2 p2' w2 Hp2 Hs2 ->].
  pose proof (G2 _ _ Hp1) as Hd1. pose proof (G2 _ _ Hp2) as Hd2.
  assert (Hmk : forall w', step th2 p2 w1 = Ok (p2', w') -> step th1 p1 w2 = Ok (p1', w') ->
    exists c', pstep (Process (<[th1:=p1']> (p_threads c)) w1) th2 c' /\
               pstep (Process (<[th2:=p2']> (p_threads c)) w2) th1 c').
  { intros w' H1 H2. exists (Process (<[th2:=p2']> (<[th1:=p1']> (p_threads c))) w'). split.
    - econstructor; [|exact H1|done]. cbn. by rewrite lookup_insert_ne.
    - econstructor; [|exact H2|]; cbn; [by rewrite lookup_insert_ne|].
      by rewrite insert_insert_ne. }
  destruct (local_prog p1) eqn:Hl1, (local_prog p2) eqn:Hl2.
  - destruct (local_step _ _ _ _ _ Hl1 Hs1) as (f & Hf & -> & Hf2).
    destruct (local_step _ _ _ _ _ Hl2 Hs2) as (g & Hg & -> & Hg2).
    apply (Hmk (g (f (p_world c)))); [by eapply Hg2, upd_agree|].
    rewrite <-(upd_comm th1 th2) by done. by eapply Hf2, upd_agree.
  - destruct (local_step _ _ _ _ _ Hl1 Hs1) as (f & Hf & -> & Hf2).
    destruct (shared_step _ _ _ _ _ _ _ _ Hl2 Hd2 Hs2) as (s & r & -> & Hsh).
    destruct (upd_shared _ _ (p_world c) Hf) as (E1 & E2 & E3).
    apply (Hmk (shared s r (f (p_world c)))).
    + apply Hsh; [done..|]. unfold ids_of. by rewrite E3.
    + rewrite <-(shared_upd th1) by done. apply Hf2. done.
  - destruct (local_step _ _ _ _ _ Hl2 Hs2) as (f & Hf & -> & Hf2).
    destruct (shared_step _ _ _ _ _ _ _ _ Hl1 Hd1 Hs1) as (s & r & -> & Hsh).
    destruct (upd_shared _ _ (p_world c) Hf) as (E1 & E2 & E3).
    apply (Hmk (shared s r (f (p_world c)))).
    + rewrite <-(shared_upd th2) by done. apply Hf2. done.
    + apply Hsh; [done..|]. unfold ids_of. by rewrite E3.
  - exfalso. apply Hne, G4; [by eexists|by eexists|].
    destruct (shared_step_turn _ _ _ _ _ _ _ Hl1 G1 Hd1 Hs1) as (_ & _ & _ & T1 & _).
    destruct (shared_step_turn _ _ _ _ _ _ _ Hl2 G1 Hd2 Hs2) as (_ & _ & _ & T2 & _).
    destruct T1 as [->| ->], T2; congruence.
Qed.

Lemma pstep_fun c th c1 c2 : pstep c th c1 -> pstep c th c2 -> c1 = c2.
Proof using Type. intros [p1 q1 w1 H1 E1 ->] [p2 q2 w2 H2 E2 ->]. simplify_eq. rewrite E1 in E2. by injection E2 as -> ->. Qed.

Lemma swap_first l : forall tok c th c' d, good I tok c -> pstep c th c' -> psteps c l d -> quiescent d ->
  exists l', psteps c' l' d /\ length l = S (length l').
Proof using Htt.
  induction l as [|th1 l IH]; intros tok c th c' d Hg Hs Hl Hq.
  - inversion Hl; subst. by destruct (Hq th c').
  - inversion Hl as [|? ? c1 ? ? H1 H2]; subst. destruct (decide (th1 = th)) as [->|Hne].
    + rewrite (pstep_fun _ _ _ _ Hs H1). eauto.
    + destruct (diamond _ _ _ _ _ _ Hg Hne H1 Hs) as (e & H3 & H4).
      destruct (good_step _ _ _ _ Hg H1) as [tok' Hg'].
      destruct (IH _ _ _ _ _ Hg' H3 H2 Hq) as (l' & H5 & H6). exists (th1 :: l').
      split; [by econstructor|]. simpl. lia.
Qed.

Lemma confluent l1 : forall tok c l2 c1 c2, good I tok c -> psteps c l1 c1 -> psteps c l2 c2 ->
  quiescent c1 -> quiescent c2 -> c1 = c2 /\ length l1 = length l2.
Proof using Htt.
  induction l1 as [|th l1 IH]; intros tok c l2 c1 c2 Hg H1 H2 Hq1 Hq2.
  - inversion H1; subst. inversion H2 as [|? ? ? ? ? Hs]; subst; [done|]. by destruct (Hq1 _ _ Hs).
  - inversion H1 as [|? ? d ? ? Hs Hr]; subst.
    destruct (swap_first _ _ _ _ _ _ Hg Hs H2 Hq2) as (l' & H3 & H4).
    destruct (good_step _ _ _ _ Hg Hs) as [tok' Hg'].
    destruct (IH _ _ _ _ _ Hg' Hr H3 Hq1 Hq2) as [-> H5]. split; [done|]. simpl. lia.
Qed.
End exec.
