(* ===== verification/SchedClock.v ===== *)
(** * Which operations of the scheduler advance the turn counter

    incTurnCount and wait count one turn; no other operation changes turnCount.  Like
    SchedTurns this needs no invariant and holds for all scheduling policies. *)
From S2P Require Import Prelude Options RunQueue TidMap NonDetSet Scheduler.
From S2P Require Import SchedInv SchedOps SchedTurns SyncFuncs RtState Proc RtDisc.

Create HintDb clock.

Section clock.
Context `{O : Options, U : UnorderedIter, G : GlobalAddrs}.

Definition keeps_clock {A} (m : SM A) : Prop :=
  forall s, wpx any_error m (fun _ s' => s_turnCount s' = s_turnCount s) s.

Lemma kc_ret {A} (a : A) : keeps_clock (mret a).
Proof using Type. done. Qed.
Lemma kc_bind {A B} (m : SM A) (k : A -> SM B) : keeps_clock m -> (forall a, keeps_clock (k a)) -> keeps_clock (m ≫= k).
Proof using Type.
  intros Hm Hk s. wp_step. eapply wp_mono; [apply Hm|]. cbn beta. intros a s1 E1.
  eapply wp_mono; [apply Hk|]. cbn beta. congruence.
Qed.
Lemma kc_fail {A} e : keeps_clock (fail (A := A) e).
Proof using Type. done. Qed.
Lemma kc_gets {A} (f : sched -> A) : keeps_clock (gets f).
Proof using Type. done. Qed.
Lemma kc_get : keeps_clock get.
Proof using Type. done. Qed.
Lemma kc_modify f : (forall s, s_turnCount (f s) = s_turnCount s) -> keeps_clock (modify f).
Proof using Type. intros Hf s. apply Hf. Qed.
Lemma kc_zoom {T A} (g : sched -> T) p (m : M T A) : (forall t s, s_turnCount (p t s) = s_turnCount s) -> keeps_clock (zoom g p m).
Proof using Type. intros Hp s. unfold zoom, wpx. destruct (m (g s)) as [[a t]|e]; [|done]. apply Hp. Qed.
Lemma kc_when b m : keeps_clock m -> keeps_clock (when b m).
Proof using Type. by destruct b. Qed.
Lemma kc_cassert nd b msg : keeps_clock (cassert nd b msg).
Proof using Type. unfold cassert. by destruct (_ || _). Qed.
Lemma kc_for_each {A} (f : A -> SM unit) l : (forall x, keeps_clock (f x)) -> keeps_clock (for_each f l).
Proof using Type. intros Hf. induction l; simpl; [apply kc_ret|]. by apply kc_bind. Qed.
Lemma kc_waits_get t : keeps_clock (waits_get t).
Proof using Type. unfold waits_get. by destruct (in_range t). Qed.
Lemma kc_waits_upd t f : keeps_clock (waits_upd t f).
Proof using Type. unfold waits_upd. by destruct (in_range t). Qed.
Hint Resolve kc_ret kc_fail kc_gets kc_get kc_cassert kc_waits_get kc_waits_upd : clock.

Ltac clock_auto :=
  repeat first
    [ progress intros
    | solve [auto 2 with clock]
    | apply kc_bind
    | apply kc_when
    | apply kc_for_each
    | apply kc_modify; intros; reflexivity
    | apply kc_zoom; done
    | match goal with |- keeps_clock (match ?x with _ => _ end) => destruct x end ].

Lemma kc_on_runq {A} (m : R A) : keeps_clock (on_runq m).
Proof using Type. unfold on_runq. clock_auto. Qed.
Lemma kc_on_hp {A} (m : R A) : keeps_clock (on_hp_runq m).
Proof using Type. unfold on_hp_runq. clock_auto. Qed.
Lemma kc_on_tids {A} (m : M tidmap A) : keeps_clock (on_tids m).
Proof using Type. unfold on_tids. clock_auto. Qed.
Lemma kc_on_non_det {A} (m : M non_det_thread_set A) : keeps_clock (on_non_det m).
Proof using Type. unfold on_non_det. clock_auto. Qed.
Hint Resolve kc_on_runq kc_on_hp kc_on_tids kc_on_non_det : clock.
Lemma kc_assert_tid t : keeps_clock (assert_tid t).
Proof using Type. unfold assert_tid. clock_auto. Qed.
Lemma kc_assert_front t : keeps_clock (assert_front t).
Proof using Type. unfold assert_front. clock_auto. Qed.
Lemma kc_assert_nonempty : keeps_clock assert_runq_nonempty.
Proof using Type. unfold assert_runq_nonempty. clock_auto. Qed.
Lemma kc_elem_get p : keeps_clock (elem_get p).
Proof using Type. apply kc_on_runq. Qed.
Lemma kc_elem_set p st : keeps_clock (elem_set_status p st).
Proof using Type. apply kc_on_runq. Qed.
Hint Resolve kc_assert_tid kc_assert_front kc_assert_nonempty kc_elem_get kc_elem_set : clock.
Lemma kc_wait t : keeps_clock (wait_t_wait t).
Proof using Type. unfold wait_t_wait. clock_auto. Qed.
Lemma kc_post t : keeps_clock (wait_t_post t).
Proof using Type. unfold wait_t_post. clock_auto. Qed.
Hint Resolve kc_wait kc_post : clock.
Lemma kc_make_runnable t : keeps_clock (make_runnable t).
Proof using Type. unfold make_runnable. clock_auto. Qed.
Hint Resolve kc_make_runnable : clock.
Lemma kc_fire_loop l : keeps_clock (fire_loop l).
Proof using Type. induction l as [|t l IH]; cbn [fire_loop]; clock_auto. Qed.
Lemma kc_check_wakeup : keeps_clock check_wakeup.
Proof using Type. unfold check_wakeup. clock_auto. Qed.
Lemma kc_signal_loop c all l : keeps_clock (signal_loop c all l).
Proof using Type. induction l as [|t l IH]; cbn [signal_loop]; clock_auto. Qed.
Hint Resolve kc_fire_loop kc_check_wakeup kc_signal_loop : clock.
Lemma kc_signal t c all : keeps_clock (signal t c all).
Proof using Type. unfold signal. clock_auto. Qed.
Lemma kc_find_idle l : forall last, keeps_clock (find_idle l last).
Proof using Type. induction l as [|t l IH]; cbn [find_idle]; clock_auto. Qed.
Hint Resolve kc_signal kc_find_idle : clock.
Lemma k_wakeUpIdleThread : keeps_clock wakeUpIdleThread.
Proof using Type. unfold wakeUpIdleThread. clock_auto. Qed.
Hint Resolve k_wakeUpIdleThread : clock.
Lemma k_nextRunnable_loop n : forall t e st, keeps_clock (nextRunnable_loop n t e st).
Proof using Type.
  induction n as [|n IH]; intros t e st; cbn [nextRunnable_loop];
    unfold runq_is_empty, wake_non_det, use_hp_runq, pass_turn, drop_head; clock_auto.
Qed.
Hint Resolve k_nextRunnable_loop : clock.
Lemma kc_next t e h st : keeps_clock (next t e h st).
Proof using Type. unfold next, nextRunnable, pop_self. clock_auto. Qed.
Hint Resolve kc_next : clock.
Lemma k_putTurn t th e st : keeps_clock (putTurn t th e st).
Proof using Type. unfold putTurn, checkNonDetBound, pop_self. clock_auto. Qed.
Lemma k_getTurn t : keeps_clock (getTurn t).
Proof using Type. unfold getTurn. clock_auto. Qed.
Hint Resolve k_getTurn : clock.
Lemma kc_wait_end t : keeps_clock (wait_end t).
Proof using Type. unfold wait_end. clock_auto. Qed.
Lemma kc_create t th f : keeps_clock (sched_create t th f).
Proof using Type. unfold sched_create. clock_auto. Qed.
Hint Resolve k_putTurn kc_wait_end kc_create : clock.

(** ** One turn passes *)
Definition clock_ticks {A} (m : SM A) : Prop :=
  forall s, wpx any_error m (fun _ s' => s_turnCount s' = s_turnCount s +u32 1) s.
Lemma ct_before {A B} (m : SM A) (k : A -> SM B) : clock_ticks m -> (forall a, keeps_clock (k a)) -> clock_ticks (m ≫= k).
Proof using Type.
  intros Hm Hk s. wp_step. eapply wp_mono; [apply Hm|]. cbn beta. intros a s1 E1.
  eapply wp_mono; [apply Hk|]. cbn beta. congruence.
Qed.
Lemma k_fireTimeouts : keeps_clock fireTimeouts.
Proof using Type. unfold fireTimeouts. clock_auto. Qed.
Lemma inc_number t s : wpx any_error (incTurnCount t) (fun n s' => n = s_turnCount s /\
  s_turnCount s' = s_turnCount s +u32 1) s.
Proof using Type.
  unfold incTurnCount, Serializer_incTurnCount. wp_steps.
  eapply wp_mono; [apply k_fireTimeouts|]. cbn beta. intros _ s1 E1. wp_step.
  eapply wp_mono; [apply kc_check_wakeup|]. cbn beta. intros _ s2 E2. wp_step. by rewrite E2, E1.
Qed.
Lemma ct_wait_begin t c n : clock_ticks (wait_begin t c n).
Proof using Type.
  unfold wait_begin. apply ct_before; [|intros; clock_auto].
  intros s. eapply wp_mono; [apply inc_number|]. by intros n' s' [_ E].
Qed.

(** what a call of the turn discipline does to the clock and what it reads from it *)
Definition call_clock {X} (c : scall X) (k : Z) (x : X) (k' : Z) : Prop :=
  match c in scall X return X -> Prop with
  | SInc => fun n => n = k /\ k' = k +u32 1
  | SWaitBegin _ _ => fun _ => k' = k +u32 1
  | SGetCount => fun n => n = k -u32 1 /\ k' = k
  | _ => fun _ => k' = k
  end x.
Lemma call_clock_spec {X} (c : scall X) b self th s x s' : is_Some (scall_turn c b) ->
  scall_code c self th s = Ok (x, s') -> call_clock c (s_turnCount s) x (s_turnCount s').
Proof using Type.
  intros [b' Hb] Hrun.
  assert (Hw : forall (m : SM X) Q, m s = Ok (x, s') -> wpx any_error m Q s -> Q x s')
    by (intros m Q Hm; unfold wpx; by rewrite Hm).
  assert (Hk : keeps_clock (scall_code c self th) -> s_turnCount s' = s_turnCount s)
    by (intros H; exact (Hw _ _ Hrun (H s))).
  destruct c; simpl in Hb |- *; try done; try (apply Hk; simpl; clock_auto; fail).
  - exact (Hw _ _ Hrun (ct_wait_begin _ _ _ s)).
  - exact (Hw _ _ Hrun (inc_number _ s)).
  - simpl in Hrun. unfold getTurnCount, Serializer_getTurnCount in Hrun. by injection Hrun as <- <-.
Qed.
End clock.
