(* ===== verification/RtDet.v ===== *)
(** * The methods of the runtime follow the turn discipline

    Outside non-deterministic regions, and without the policy that keeps the turn to
    satisfy waiters (scheduling_policy & 2), every synchronisation method takes the turn
    before it touches shared state and gives it up at its end. *)
From S2P Require Import Prelude Options RunQueue TidMap NonDetSet Scheduler SchedInv SchedOps SchedTurns.
From S2P Require Import SyncFuncs RtState Proc RtDisc RtBase RtSync RtAnnot RtThread.

(** the thread-local variables of a thread outside non-det regions *)
Record det_tls (t : tls) : Prop := {
  dt_nd : inNonDet t = false;
  dt_nw : inNoWaitNonDet t = false;
  dt_cv : satisfyingCV t = 0;
  dt_sem : satisfyingSem t = 0;
  dt_role : satisfyingRole t = 0
}.

Create HintDb disc.

Section disc_rules.
Context `{O : Options, U : UnorderedIter, G : GlobalAddrs}.
Implicit Types b : bool.
Abbreviation D := (disc det_tls).

Lemma d_ret {A} b (a : A) : D b b (mret a).
Proof using Type. done. Qed.
Lemma d_call {X} (c : scall X) b b' : scall_turn c b = Some b' -> D b b' (call c).
Proof using Type. intros H. simpl. by rewrite H. Qed.
Lemma d_rt {X} (m : RTM X) : D true true (rt_do m).
Proof using Type. done. Qed.
Lemma d_tls {X} (m : M tls X) b :
  (forall t x t', det_tls t -> m t = Ok (x, t') -> det_tls t') -> D b b (tls_do m).
Proof using Type. intros H t x t' Ht Hm. split; [by eapply H|done]. Qed.
Lemma d_tls_set f b : (forall t, det_tls t -> det_tls (f t)) -> D b b (tls_set f).
Proof using Type. intros H. apply d_tls. intros t x t' Ht [= _ <-]. by apply H. Qed.
Lemma d_tls_get {X} (f : tls -> X) b : D b b (tls_get f).
Proof using Type. apply d_tls. by intros t x t' Ht [= _ <-]. Qed.
Lemma d_tls_fail {X} e b b' : D b b' (tls_do (fail (A := X) e)).
Proof using Type. by intros t x t' _ Hm. Qed.
Lemma d_self b : D b b (act Self).
Proof using Type. done. Qed.
Lemma d_env q b : D b b (act (Env q)).
Proof using Type. done. Qed.
Lemma d_rt_get {X} (f : rt -> X) : D true true (rt_get f).
Proof using Type. done. Qed.
Lemma d_rt_set f : D true true (rt_set f).
Proof using Type. done. Qed.
Lemma d_pwhen c b p : D b b p -> D b b (pwhen c p).
Proof using Type. by destruct c. Qed.
Lemma d_pwhen_false c b p : D b b (pwhen (false && c) p).
Proof using Type. apply d_ret. Qed.
Lemma d_passert nd c msg b : D b b (passert nd c msg).
Proof using Type. unfold passert. destruct (_ || _); [apply d_ret|apply d_tls_fail]. Qed.
Lemma d_ploop {X} (body : prog (option X)) b : D b b body -> D b b (ploop body).
Proof using Type.
  intros H. split; [|done]. intros _. eapply disc_bind; [exact H|]. intros r. apply d_ret.
Qed.
Lemma d_pfor {A} (f : A -> prog unit) l b : (forall x, D b b (f x)) -> D b b (pfor f l).
Proof using Type. intros H. induction l; [apply d_ret|]. eapply disc_bind; [apply H|]. done. Qed.
Lemma d_wait c n : D true true (S_wait c n).
Proof using Type. eapply disc_bind; [by apply (d_call _ _ false)|]. intros _. by apply d_call. Qed.

(** the value of a variable that [det_tls] determines *)
Lemma d_known {X B} (g : tls -> X) (v : X) (f : X -> prog B) b b' :
  (forall t, det_tls t -> g t = v) -> D b b' (f v) -> D b b' (tls_get g ≫= f).
Proof using Type. intros Hg Hf t x t' Ht [= <- <-]. split; [done|]. by rewrite Hg. Qed.
Lemma d_non_det_or native method : D false false method -> D false false (non_det_or native method).
Proof using Type.
  intros H. unfold non_det_or, in_non_det. apply (d_known _ false); [|done].
  intros t []. by rewrite dt_nd0, dt_nw0.
Qed.
Lemma d_unless_non_det method : D false false method -> D false false (unless_non_det method).
Proof using Type.
  intros H. unfold unless_non_det, in_non_det. apply (d_known _ false); [|done].
  intros t []. by rewrite dt_nd0, dt_nw0.
Qed.
End disc_rules.

#[export] Hint Resolve d_ret d_rt d_pwhen_false d_tls_get d_self d_env d_rt_get d_rt_set d_passert d_wait d_tls_fail : disc.
#[export] Hint Extern 1 (disc det_tls _ _ (act (Call _))) => (apply d_call; reflexivity) : disc.

Ltac disc_auto :=
  repeat first
    [ progress intros
    | solve [auto 2 with disc]
    | apply d_non_det_or
    | apply d_unless_non_det
    | apply d_pwhen
    | apply d_ploop
    | apply d_pfor
    | eapply disc_bind
    | match goal with |- disc _ _ _ (match ?x with _ => _ end) => destruct x end ].

Section methods.
Context `{O : Options, U : UnorderedIter, G : GlobalAddrs, A : NodeAddrs}.
Abbreviation D := (disc det_tls).
Context (Hpol : flag_set scheduling_policy 2 = false).

(** ** The macros *)
Lemma d_set_errno e b : D b b (tls_set (set_t_errno e)).
Proof using Type. apply d_tls_set. by intros t []. Qed.
Lemma d_note_errno e b : D b b (note_errno e).
Proof using Type. destruct e; [apply d_set_errno|apply d_ret]. Qed.
Hint Resolve d_set_errno d_note_errno : disc.
Lemma d_change_role : D true true CHECK_AND_CHANGE_ROLE.
Proof using Type. unfold CHECK_AND_CHANGE_ROLE. disc_auto. apply d_tls_set. by intros t []. Qed.
Hint Resolve d_change_role : disc.
Lemma d_start me : D false true (SCHED_TIMER_START me).
Proof using Type. unfold SCHED_TIMER_START. disc_auto. Qed.
Lemma d_common ins op args : D true true (SCHED_TIMER_END_COMMON ins op args).
Proof using Type. unfold SCHED_TIMER_END_COMMON. disc_auto. Qed.
Lemma d_check : D false false check_cv_wait_cnt.
Proof using Type.
  unfold check_cv_wait_cnt. eapply (disc_bind _ _ _ false).
  - destruct wakeamap_plus; simpl negb; cbv iota; (eapply d_known; [intros t []; eassumption|]);
      rewrite Z.eqb_refl; apply d_ret.
  - intros _. eapply d_known; [intros t []; eassumption|]. rewrite Z.eqb_refl. apply d_ret.
Qed.
Lemma d_strategy op b : D b b (tls_do (getPutTurnStrategy op)).
Proof using Type.
  apply d_tls. intros t x t' Ht. unfold getPutTurnStrategy, get, mbind, M_bind.
  destruct (yield_this t); cbn; intros [= _ <-]; [by destruct Ht|done].
Qed.
Hint Resolve d_start d_common d_check d_strategy : disc.
Lemma d_end ins op args : D true false (SCHED_TIMER_END ins op args).
Proof using Type.
  unfold SCHED_TIMER_END. disc_auto. apply d_tls_set. intros t Ht. destruct (_ <? _); [|done]. by destruct Ht.
Qed.
Lemma d_thread_end ins op args : D true false (SCHED_TIMER_THREAD_END ins op args).
Proof using Type. unfold SCHED_TIMER_THREAD_END. disc_auto. Qed.
Lemma d_fake_end ins op args : D true true (SCHED_TIMER_FAKE_END ins op args).
Proof using Type. unfold SCHED_TIMER_FAKE_END. disc_auto. Qed.
Lemma d_with_errno e m : D true true (with_errno e m).
Proof using Type. unfold with_errno. disc_auto. Qed.
Lemma d_helper_errno e p : D true true p -> D true true (helper_errno e p).
Proof using Type. intros H. unfold helper_errno. disc_auto; exact H. Qed.
Lemma d_sys_call q b : D b b (sys_call q).
Proof using Type. unfold sys_call. disc_auto. Qed.
Lemma d_current_time b : D b b current_time.
Proof using Type. unfold current_time. disc_auto. Qed.
Lemma d_rel_turns t : D true true (rel_turns t).
Proof using Type. unfold rel_turns. disc_auto. Qed.
Lemma d_signal c all : D true true (syncSignal c all).
Proof using Type. by apply d_call. Qed.
Lemma d_syncWait c n : D true true (syncWait c n).
Proof using Type. apply d_wait. Qed.
Hint Resolve d_end d_thread_end d_fake_end d_with_errno d_helper_errno d_sys_call d_current_time
  d_rel_turns d_signal d_syncWait : disc.

(** ** Mutexes and reader-writer locks *)
Lemma d_lock_helper m c n : D true true (lock_helper m c n).
Proof using Type. unfold lock_helper. disc_auto. Qed.
Hint Resolve d_lock_helper : disc.
Lemma d_cs_level f b : (forall t, det_tls t -> det_tls (f t)) ->
  D b b (pwhen (flag_set scheduling_policy 1) (tls_set f)).
Proof using Type. intros H. by apply d_pwhen, d_tls_set. Qed.

Lemma d_MutexInit me ins e mu k : D false false (pthreadMutexInit me ins e mu k).
Proof using Type. unfold pthreadMutexInit. disc_auto. Qed.
Lemma d_MutexDestroy me ins e mu : D false false (pthreadMutexDestroy me ins e mu).
Proof using Type. unfold pthreadMutexDestroy. disc_auto. Qed.
Lemma d_MutexLock me ins e mu : D false false (pthreadMutexLock me ins e mu).
Proof using Type.
  unfold pthreadMutexLock, pthreadMutexLockHelper. disc_auto. apply d_tls_set. intros t Ht.
  destruct (noCSWholeLocal t); [done|]. by destruct Ht.
Qed.
Lemma d_MutexTryLock me ins e mu : D false false (pthreadMutexTryLock me ins e mu).
Proof using Type. unfold pthreadMutexTryLock. disc_auto. Qed.
Hint Resolve d_MutexLock : disc.
Lemma d_MutexTimedLock me ins e mu t : D false false (pthreadMutexTimedLock me ins e mu t).
Proof using Type. unfold pthreadMutexTimedLock, pthreadMutexLockHelper. disc_auto. Qed.
Lemma d_MutexUnlock me ins e mu : D false false (pthreadMutexUnlock me ins e mu).
Proof using Type.
  unfold pthreadMutexUnlock. disc_auto. apply d_tls_set. intros t Ht.
  destruct (_ && _); [by destruct Ht|done].
Qed.
Lemma d_rdlock me ins e rw : D false false (pthread_rwlock_rdlock me ins e rw).
Proof using Type. unfold pthread_rwlock_rdlock, pthreadRWLockRdLockHelper. disc_auto. Qed.
Lemma d_wrlock me ins e rw : D false false (pthread_rwlock_wrlock me ins e rw).
Proof using Type. unfold pthread_rwlock_wrlock, pthreadRWLockWrLockHelper. disc_auto. Qed.
Lemma d_tryrdlock me ins e rw : D false false (pthread_rwlock_tryrdlock me ins e rw).
Proof using Type. unfold pthread_rwlock_tryrdlock. disc_auto. Qed.
Lemma d_trywrlock me ins e rw : D false false (pthread_rwlock_trywrlock me ins e rw).
Proof using Type. unfold pthread_rwlock_trywrlock. disc_auto. Qed.
Lemma d_rwunlock me ins e rw : D false false (pthread_rwlock_unlock me ins e rw).
Proof using Type. unfold pthread_rwlock_unlock. disc_auto. Qed.
Lemma d_rwdestroy me ins e rw : D false false (pthread_rwlock_destroy me ins e rw).
Proof using Type. unfold pthread_rwlock_destroy. disc_auto. Qed.
Lemma d_rwinit me ins e rw a : D false false (pthread_rwlock_init me ins e rw a).
Proof using Type. unfold pthread_rwlock_init. disc_auto. Qed.

(** ** Barriers *)
Lemma d_BarrierInit me ins e ba n : D false false (pthreadBarrierInit me ins e ba n).
Proof using Type. unfold pthreadBarrierInit. disc_auto. Qed.
Lemma d_BarrierWait me ins e ba : D false false (pthreadBarrierWait me ins e ba).
Proof using Type.
  unfold pthreadBarrierWait. apply d_non_det_or. do 3 (eapply disc_bind; [auto 2 with disc|]; intros ?).
  eapply (disc_bind _ _ _ true).
  - destruct a1; disc_auto.
  - disc_auto.
Qed.
Lemma d_BarrierDestroy me ins e ba : D false false (pthreadBarrierDestroy me ins e ba).
Proof using Type. unfold pthreadBarrierDestroy. disc_auto. Qed.

(** ** Condition variables *)
Lemma d_block_line cv : D true true (block_line cv).
Proof using Type. unfold block_line. disc_auto. Qed.
Hint Resolve d_block_line : disc.
Lemma d_CondWait me ins e cv mu : D false false (pthreadCondWait me ins e cv mu).
Proof using Type. unfold pthreadCondWait, pthreadMutexLockHelper. disc_auto. Qed.
Hint Resolve d_CondWait : disc.
Lemma d_no_role b : D b b (tls_set (set_satisfyingRole 0)).
Proof using Type. apply d_tls_set. by intros t []. Qed.
Hint Resolve d_no_role : disc.
Lemma d_CondTimedWait me ins e cv mu t : D false false (pthreadCondTimedWait me ins e cv mu t).
Proof using Type. unfold pthreadCondTimedWait, pthreadMutexLockHelper. disc_auto. Qed.
Lemma d_CondSignal me ins e cv : D false false (pthreadCondSignal me ins e cv).
Proof using Hpol. unfold pthreadCondSignal. rewrite Hpol. disc_auto. Qed.
Lemma d_CondBroadcast me ins e cv : D false false (pthreadCondBroadcast me ins e cv).
Proof using Type.
  unfold pthreadCondBroadcast. disc_auto. apply d_tls_set. intros t Ht.
  destruct (_ =? _); [by destruct Ht|done].
Qed.

(** ** Semaphores *)
Lemma d_try_sem sem : D true true (try_sem sem).
Proof using Type. unfold try_sem. disc_auto. Qed.
Hint Resolve d_try_sem : disc.
Lemma d_semWait me ins e sem : D false false (semWait me ins e sem).
Proof using Type. unfold semWait. disc_auto. Qed.
Hint Resolve d_semWait : disc.
Lemma d_semTryWait me ins e sem : D false false (semTryWait me ins e sem).
Proof using Type. unfold semTryWait. disc_auto. Qed.
Lemma d_semTimedWait me ins e sem t : D false false (semTimedWait me ins e sem t).
Proof using Type. unfold semTimedWait. disc_auto. Qed.
Lemma d_semPost me ins e sem : D false false (semPost me ins e sem).
Proof using Hpol. unfold semPost. rewrite Hpol. disc_auto. Qed.
Lemma d_semInit me ins e sem v : D false false (semInit me ins e sem v).
Proof using Type. unfold semInit. disc_auto. Qed.

(** ** Annotations, yielding, sleeping *)
Lemma d_lineup_release k f : D true true (lineup_release k f).
Proof using Type. unfold lineup_release. disc_auto. Qed.
Hint Resolve d_lineup_release : disc.
Lemma d_lineupInit me o n t : D false false (lineupInit me o n t).
Proof using Type. unfold lineupInit. disc_auto. Qed.
Lemma d_lineupDestroy me o : D false false (lineupDestroy me o).
Proof using Type. unfold lineupDestroy. disc_auto. Qed.
Lemma d_lineupStart me o : D false false (lineupStart me o).
Proof using Type. unfold lineupStart. disc_auto. Qed.
Lemma d_lineupEnd me o : D false false (lineupEnd me o).
Proof using Type. unfold lineupEnd. disc_auto. Qed.
Lemma d_slock n b : D b b (set_slock_next_n n).
Proof using Type. unfold set_slock_next_n. apply d_pwhen, d_tls_set. by intros t []. Qed.
Lemma d_ext_get me : D false false (ext_get_turn me).
Proof using Type. unfold ext_get_turn, ext_turn_enabled, in_non_det. disc_auto. apply d_tls_set. by intros t []. Qed.
Lemma d_ext_put me : D false false (ext_put_turn me).
Proof using Type.
  unfold ext_put_turn, ext_turn_enabled, in_non_det. disc_auto. apply d_tls_set. intros t Ht.
  destruct (_ <? _); [by destruct Ht|done].
Qed.
Lemma d_base_time t b : D b b (setBaseTime t).
Proof using Type. unfold setBaseTime. disc_auto. apply d_tls_set. by intros t' []. Qed.
Lemma d_dummySync me : D false false (dummySync me).
Proof using Type. unfold dummySync. disc_auto. Qed.
Lemma d_symbolic me ins a n : D false false (symbolic me ins a n).
Proof using Type. unfold symbolic. disc_auto. Qed.
Lemma d_schedYield me ins e : D false false (schedYield me ins e).
Proof using Type.
  unfold schedYield, in_non_det. apply (d_known _ false).
  { intros t []. by rewrite dt_nd0, dt_nw0. }
  disc_auto. apply d_tls_set. by intros t [].
Qed.
Lemma d_sleep_turns t : D true true (sleep_turns t).
Proof using Type. unfold sleep_turns. disc_auto. Qed.
Lemma d_really_sleep q b : D b b (really_sleep q).
Proof using Type. unfold really_sleep. disc_auto. Qed.
Hint Resolve d_sleep_turns d_really_sleep : disc.
Lemma d_sleep me ins e n : D false false (rt_sleep me ins e n).
Proof using Type. unfold rt_sleep. disc_auto. Qed.
Lemma d_usleep me ins e n : D false false (rt_usleep me ins e n).
Proof using Type. unfold rt_usleep. disc_auto. Qed.
Lemma d_nanosleep me ins e t : D false false (rt_nanosleep me ins e t).
Proof using Type. unfold rt_nanosleep. disc_auto. Qed.

(** ** Threads *)
Lemma d_join me ins e th : D false false (pthreadJoin me ins e th).
Proof using Type. unfold pthreadJoin. disc_auto. Qed.
Lemma d_threadEnd me ins : D false false (threadEnd me ins).
Proof using Type. unfold threadEnd. disc_auto. Qed.
Lemma d_printStat me : D false false (printStat me).
Proof using Type. unfold printStat. disc_auto. Qed.
Lemma d_idle_sleep me : D false false (idle_sleep me).
Proof using Type. unfold idle_sleep. disc_auto. Qed.
End methods.
