(* ===== verification/RtApp.v ===== *)
(** * Applications: processes whose threads call the synchronisation methods

    A thread of an application is a tree of requests to the runtime; what it does next
    may depend on the results, and it may loop.  Its own computation between two requests
    is not visible to the runtime. *)
From S2P Require Import Prelude Options RunQueue TidMap NonDetSet Scheduler SchedInv SchedOps SchedTurns.
From S2P Require Import SyncFuncs RtState Proc RtDisc RtBase RtSync RtAnnot RtThread RtDet.

(** the methods that run under the turn; [ins] identifies the calling instruction *)
Inductive request : Type :=
| RMutexInit (mu : Z) (k : mutex_kind) | RMutexDestroy (mu : Z) | RMutexLock (mu : Z)
| RMutexTryLock (mu : Z) | RMutexTimedLock (mu : Z) (t : option timespec) | RMutexUnlock (mu : Z)
| RRdLock (rw : Z) | RWrLock (rw : Z) | RTryRdLock (rw : Z) | RTryWrLock (rw : Z) | RRwUnlock (rw : Z)
| RRwDestroy (rw : Z) | RRwInit (rw attr : Z)
| RBarrierInit (ba n : Z) | RBarrierWait (ba : Z) | RBarrierDestroy (ba : Z)
| RCondWait (cv mu : Z) | RCondTimedWait (cv mu : Z) (t : option timespec)
| RCondSignal (cv : Z) | RCondBroadcast (cv : Z)
| RSemInit (sem v : Z) | RSemWait (sem : Z) | RSemTryWait (sem : Z)
| RSemTimedWait (sem : Z) (t : option timespec) | RSemPost (sem : Z)
| RLineupInit (o n t : Z) | RLineupDestroy (o : Z) | RLineupStart (o : Z) | RLineupEnd (o : Z)
| RSlock (n : Z) | RExtGet | RExtPut | RBaseTime (t : timespec) | RDummy | RSymbolic (a n : Z)
| RYield | RSleep (n : Z) | RUSleep (n : Z) | RNanoSleep (t : option timespec)
| RJoin (th : Z) | RThreadEnd.

(** an application thread *)
Inductive app (A : Type) : Type :=
| AppEnd (a : A)
| AppDo (ins : Z) (r : request) (k : Z * Z -> app A)
| AppLoop {S X : Type} (body : S -> app (S + X)) (s : S) (k : X -> app A).
Arguments AppEnd {A} a.
Arguments AppDo {A} ins r k.
Arguments AppLoop {A S X} body s k.

Section app.
Context `{O : Options, U : UnorderedIter, G : GlobalAddrs, N : NodeAddrs}.

(** the method of a request; the results of void methods are (0, 0) *)
Definition handle (me ins : Z) (r : request) : prog (Z * Z) :=
  let void (p : prog unit) : prog (Z * Z) := _ ← p; mret (0, 0) in
  match r with
  | RMutexInit mu k => pthreadMutexInit me ins 0 mu k
  | RMutexDestroy mu => pthreadMutexDestroy me ins 0 mu
  | RMutexLock mu => pthreadMutexLock me ins 0 mu
  | RMutexTryLock mu => pthreadMutexTryLock me ins 0 mu
  | RMutexTimedLock mu t => pthreadMutexTimedLock me ins 0 mu t
  | RMutexUnlock mu => pthreadMutexUnlock me ins 0 mu
  | RRdLock rw => pthread_rwlock_rdlock me ins 0 rw
  | RWrLock rw => pthread_rwlock_wrlock me ins 0 rw
  | RTryRdLock rw => pthread_rwlock_tryrdlock me ins 0 rw
  | RTryWrLock rw => pthread_rwlock_trywrlock me ins 0 rw
  | RRwUnlock rw => pthread_rwlock_unlock me ins 0 rw
  | RRwDestroy rw => pthread_rwlock_destroy me ins 0 rw
  | RRwInit rw a => pthread_rwlock_init me ins 0 rw a
  | RBarrierInit ba n => pthreadBarrierInit me ins 0 ba n
  | RBarrierWait ba => pthreadBarrierWait me ins 0 ba
  | RBarrierDestroy ba => pthreadBarrierDestroy me ins 0 ba
  | RCondWait cv mu => pthreadCondWait me ins 0 cv mu
  | RCondTimedWait cv mu t => pthreadCondTimedWait me ins 0 cv mu t
  | RCondSignal cv => pthreadCondSignal me ins 0 cv
  | RCondBroadcast cv => pthreadCondBroadcast me ins 0 cv
  | RSemInit sem v => semInit me ins 0 sem v
  | RSemWait sem => semWait me ins 0 sem
  | RSemTryWait sem => semTryWait me ins 0 sem
  | RSemTimedWait sem t => semTimedWait me ins 0 sem t
  | RSemPost sem => semPost me ins 0 sem
  | RLineupInit o n t => void (lineupInit me o n t)
  | RLineupDestroy o => void (lineupDestroy me o)
  | RLineupStart o => void (lineupStart me o)
  | RLineupEnd o => void (lineupEnd me o)
  | RSlock n => void (set_slock_next_n n)
  | RExtGet => void (ext_get_turn me)
  | RExtPut => void (ext_put_turn me)
  | RBaseTime t => void (setBaseTime (Some t))
  | RDummy => void (dummySync me)
  | RSymbolic a n => void (symbolic me ins a n)
  | RYield => schedYield me ins 0
  | RSleep n => rt_sleep me ins 0 n
  | RUSleep n => rt_usleep me ins 0 n
  | RNanoSleep t => rt_nanosleep me ins 0 t
  | RJoin th => pthreadJoin me ins 0 th
  | RThreadEnd => void (threadEnd me ins)
  end.

Fixpoint app_prog {A} (me : Z) (a : app A) : prog A :=
  match a with
  | AppEnd x => Ret x
  | AppDo ins r k => res ← handle me ins r; app_prog me (k res)
  | AppLoop body s k => Iter (fun s => app_prog me (body s)) s (fun x => app_prog me (k x))
  end.

(** a process of application threads: the turn has been given to one of them *)
Record app_process (c : process) : Prop := {
  ap_turn : exists t, turn_at (Posted t) (w_s (p_world c));
  ap_prog th p : p_threads c !! th = Some p -> exists a, p = app_prog th a;
  ap_tls th : det_tls (tls_of (p_world c) th);
  ap_inj th1 th2 : is_Some (p_threads c !! th1) -> is_Some (p_threads c !! th2) ->
    self_of (p_world c) th1 = self_of (p_world c) th2 -> th1 = th2
}.

Context (Hpol : flag_set scheduling_policy 2 = false).

Lemma handle_disc me ins r : disc det_tls false false (handle me ins r).
Proof using Hpol.
  destruct r; cbn [handle]; try (eapply disc_bind; [|intros; apply d_ret]).
  - apply d_MutexInit. - apply d_MutexDestroy. - apply d_MutexLock. - apply d_MutexTryLock.
  - apply d_MutexTimedLock. - apply d_MutexUnlock. - apply d_rdlock. - apply d_wrlock.
  - apply d_tryrdlock. - apply d_trywrlock. - apply d_rwunlock. - apply d_rwdestroy.
  - apply d_rwinit. - apply d_BarrierInit. - apply d_BarrierWait. - apply d_BarrierDestroy.
  - apply d_CondWait. - apply d_CondTimedWait. - by apply d_CondSignal. - apply d_CondBroadcast.
  - apply d_semInit. - apply d_semWait. - apply d_semTryWait. - apply d_semTimedWait.
  - by apply d_semPost. - apply d_lineupInit. - apply d_lineupDestroy. - apply d_lineupStart.
  - apply d_lineupEnd. - apply d_slock. - apply d_ext_get. - apply d_ext_put. - apply d_base_time.
  - apply d_dummySync. - apply d_symbolic. - apply d_schedYield. - apply d_sleep. - apply d_usleep.
  - apply d_nanosleep. - apply d_join. - apply d_threadEnd.
Qed.

Lemma app_disc {A} me (a : app A) : disc det_tls false false (app_prog me a).
Proof using Hpol.
  induction a as [A x|A ins r k IH|A S X body IHb s k IHk]; cbn [app_prog].
  - done.
  - eapply disc_bind; [apply handle_disc|]. intros res. apply IH.
  - split; [intros; apply IHb|intros; apply IHk].
Qed.

Lemma app_good c : app_process c -> exists tok, good det_tls tok c.
Proof using Hpol.
  intros [[t Ht] Hp Htl Hi]. exists (Posted t). split; [done| |by intros|done].
  intros th p [a ->]%Hp. rewrite bool_decide_eq_false_2 by done. apply app_disc.
Qed.

(** every execution can be completed to the one that ends *)
Lemma completes (Htt : 0 <= enforce_turn_type <= 2) l2 : forall tok c l1 c1 c2, good det_tls tok c ->
  psteps c l1 c1 -> quiescent c1 -> psteps c l2 c2 ->
  exists l, psteps c2 l c1 /\ length l1 = (length l2 + length l)%nat.
Proof using Type.
  clear Hpol. induction l2 as [|th l2 IH]; intros tok c l1 c1 c2 Hg H1 Hq H2.
  - inversion H2; subst. eauto.
  - inversion H2 as [|? ? d ? ? Hs Hr]; subst.
    destruct (swap_first Htt _ _ _ _ _ _ _ Hg Hs H1 Hq) as (l' & H3 & H4).
    destruct (good_step Htt _ _ _ _ _ Hg Hs) as [tok' Hg'].
    destruct (IH _ _ _ _ _ Hg' H3 Hq Hr) as (l & H5 & H6). exists l. split; [done|].
    cbn [length]. lia.
Qed.

(** deciding that no thread can make a step *)
Definition quiescentb (c : process) : bool :=
  forallb (fun x => negb (is_ok (step x.1 x.2 (p_world c)))) (map_to_list (p_threads c)).
Lemma quiescentb_sound c : quiescentb c = true -> quiescent c.
Proof using Type.
  clear Hpol. unfold quiescentb. rewrite forallb_forall. intros H th c' [p p' w' Hp Hs _].
  assert (Hin : (th, p) ∈ map_to_list (p_threads c)) by by apply elem_of_map_to_list.
  apply list_elem_of_In in Hin. specialize (H _ Hin). simpl in H. by rewrite Hs in H.
Qed.
End app.
