(* ===== verification/RtRun.v ===== *)
(** * Concrete processes, for executions that can be computed *)
From S2P Require Import Prelude Options RunQueue RunQueueSpec TidMap NonDetSet Scheduler SchedInv SchedOps.
From S2P Require Import SchedSys SchedRun SchedTurns SyncFuncs RtState Proc RtDisc RtBase RtSync RtAnnot RtDet RtApp.

Definition sample_nodes : NodeAddrs := {|
  node_addr k := 2 ^ 40 + Z.abs k; node_addr_pos k := ltac:(cbn beta; lia);
  addr_idle_mutex := 12288; addr_idle_mutex_pos := eq_refl; addr_idle_thread := 16384 |}.

Section run.
Context `{O : Options, U : UnorderedIter, G : GlobalAddrs}.

(** always step the first thread of [order] that can make a step; the schedule *)
Fixpoint greedy (fuel : nat) (order : list Z) (c : process) : list Z * process :=
  match fuel with
  | 0%nat => ([], c)
  | S n =>
      match List.find (fun th => match p_threads c !! th with
                     | Some p => is_ok (step th p (p_world c))
                     | None => false end) order with
      | None => ([], c)
      | Some th =>
          match run_schedule [th] c with
          | Some c' => let r := greedy n order c' in (th :: r.1, r.2)
          | None => ([], c)
          end
      end
  end.

Lemma run_schedule_one th c c' : run_schedule [th] c = Some c' -> pstep c th c'.
Proof using Type.
  intros Hr%run_schedule_psteps. inversion Hr as [|? ? ? ? ? H1 H2]; subst. by inversion H2; subst.
Qed.
Lemma greedy_psteps n : forall order c, psteps c (greedy n order c).1 (greedy n order c).2.
Proof using Type.
  induction n as [|n IH]; intros order c; simpl; [constructor|].
  destruct (List.find _ _) as [th|]; [|constructor].
  destruct (match p_threads c !! th with Some _ => _ | None => _ end) as [c'|] eqn:Hr; [|constructor].
  econstructor; [by apply run_schedule_one|apply IH].
Qed.

(** the state after a schedule, where every step of it is possible *)
Definition after (l : list Z) (c : process) : process := default c (run_schedule l c).
Definition can_run (l : list Z) (c : process) : bool :=
  match run_schedule l c with Some _ => true | None => false end.
Lemma after_psteps l c : can_run l c = true -> psteps c l (after l c).
Proof using Type.
  unfold can_run, after. destruct (run_schedule l c) as [c'|] eqn:Hr; [|done]. intros _.
  by apply run_schedule_psteps.
Qed.
(** the program of a thread *)
Definition prog_of (c : process) (th : Z) : prog unit := default (mret tt) (p_threads c !! th).
Definition has_thread (c : process) (th : Z) : bool :=
  match p_threads c !! th with Some _ => true | None => false end.
Lemma prog_of_lookup c th : has_thread c th = true -> p_threads c !! th = Some (prog_of c th).
Proof using Type. unfold has_thread, prog_of. by destruct (p_threads c !! th). Qed.

(** thread [th] is done *)
Definition finishedb (c : process) (th : Z) : bool :=
  match p_threads c !! th with Some (Ret tt) => true | _ => false end.
Lemma finishedb_sound c th : finishedb c th = true -> p_threads c !! th = Some (mret tt).
Proof using Type. unfold finishedb. by destruct (p_threads c !! th) as [[[]| |]|]. Qed.

(** a world whose threads have the given handles, with tern ids 0, 1, ... *)
Definition world_of (s : sched) (ths : list Z) (env : gmap Z (list Z)) : world :=
  World s rt0 ∅ (list_to_map (imap (fun i th => (th, (Z.of_nat i, -1))) ths)) env.
Lemma det_tls0 : det_tls tls0.
Proof. by split. Qed.
End run.

(** where the turn is after a run of the scheduler *)
Lemma cfg_of_turn es t :
  bool_decide (is_Some (@run_from_start sample_options elements_order sample_addrs 1000 es)) = true ->
  c_tok (cfg_of es) = Posted t -> @turn_at sample_options (Posted t) (c_s (cfg_of es)).
Proof.
  intros Hr%cfg_of_reachable Ht.
  destruct (@reachable_inv sample_options elements_order sample_addrs eq_refl
    ltac:(cbn; lia) eq_refl _ Hr) as [rq Hinv].
  apply inv_turn_at in Hinv. by rewrite Ht in Hinv.
Qed.
