(* ===== verification/HooksThms.v ===== *)
(** * Properties of the hooks *)
From S2P Require Import Prelude Options RunQueue TidMap NonDetSet Scheduler SyncFuncs SchedInv SchedOps SchedTurns SchedSys SchedRun RtState Proc.
From S2P Require Import RtBase RtReturns RtTls RtRuntime RtSync RtAnnot BusyWait RtThread RtNet Hooks RtProg Interpose HooksSpace RtRun.

Section calls.
Context `{O : Options, U : UnorderedIter, G : GlobalAddrs, N : NodeAddrs}.

(** the hooks an application thread [me] can call *)
Inductive hook_call (me : Z) : forall {A}, prog A -> Prop :=
| h_pthread_cancel : hook_call me tern_pthread_cancel
| h_pthread_create ins thread_func : hook_call me (tern_pthread_create me ins thread_func)
| h_pthread_join ins th : hook_call me (tern_pthread_join me ins th)
| h_pthread_detach : hook_call me tern_pthread_detach
| h_pthread_mutex_init ins mu attr : hook_call me (tern_pthread_mutex_init me ins mu attr)
| h_pthread_mutex_destroy ins mu : hook_call me (tern_pthread_mutex_destroy me ins mu)
| h_pthread_mutex_trylock ins mu : hook_call me (tern_pthread_mutex_trylock me ins mu)
| h_pthread_mutex_timedlock ins mu t : hook_call me (tern_pthread_mutex_timedlock me ins mu t)
| h_pthread_cond_wait ins cv mu : hook_call me (tern_pthread_cond_wait me ins cv mu)
| h_pthread_cond_timedwait ins cv mu t : hook_call me (tern_pthread_cond_timedwait me ins cv mu t)
| h_pthread_cond_signal ins cv : hook_call me (tern_pthread_cond_signal me ins cv)
| h_pthread_cond_broadcast ins cv : hook_call me (tern_pthread_cond_broadcast me ins cv)
| h_pthread_barrier_init ins barrier count : hook_call me (tern_pthread_barrier_init me ins barrier count)
| h_pthread_barrier_wait ins barrier : hook_call me (tern_pthread_barrier_wait me ins barrier)
| h_pthread_barrier_destroy ins barrier : hook_call me (tern_pthread_barrier_destroy me ins barrier)
| h_sem_init ins sem value : hook_call me (tern_sem_init me ins sem value)
| h_sem_wait ins sem : hook_call me (tern_sem_wait me ins sem)
| h_sem_trywait ins sem : hook_call me (tern_sem_trywait me ins sem)
| h_sem_timedwait ins sem t : hook_call me (tern_sem_timedwait me ins sem t)
| h_sem_post ins sem : hook_call me (tern_sem_post me ins sem)
| h_pthread_rwlock_rdlock ins rw : hook_call me (tern_pthread_rwlock_rdlock me ins rw)
| h_pthread_rwlock_tryrdlock ins rw : hook_call me (tern_pthread_rwlock_tryrdlock me ins rw)
| h_pthread_rwlock_wrlock ins rw : hook_call me (tern_pthread_rwlock_wrlock me ins rw)
| h_pthread_rwlock_trywrlock ins rw : hook_call me (tern_pthread_rwlock_trywrlock me ins rw)
| h_pthread_rwlock_unlock ins rw : hook_call me (tern_pthread_rwlock_unlock me ins rw)
| h_pthread_rwlock_destroy ins rw : hook_call me (tern_pthread_rwlock_destroy me ins rw)
| h_pthread_rwlock_init ins rw attr : hook_call me (tern_pthread_rwlock_init me ins rw attr)
| h_symbolic ins addr nbytes : hook_call me (tern_symbolic_real me ins addr nbytes)
| h_dummy_sync : hook_call me (tern_dummy_sync_real me)
| h_lineup_init o count timeout_turns : hook_call me (tern_lineup_init_real me o count timeout_turns)
| h_lineup_destroy o : hook_call me (tern_lineup_destroy_real me o)
| h_lineup_start o : hook_call me (tern_lineup_start_real me o)
| h_lineup_end o : hook_call me (tern_lineup_end_real me o)
| h_non_det_start : hook_call me (tern_non_det_start_real me)
| h_non_det_end : hook_call me tern_non_det_end_real
| h_non_det_barrier_end bar_id cnt : hook_call me (tern_non_det_barrier_end_real bar_id cnt)
| h_no_wait_non_det_start : hook_call me tern_no_wait_non_det_start_real
| h_no_wait_non_det_end : hook_call me tern_no_wait_non_det_end_real
| h_set_slock_next_n n : hook_call me (tern_set_slock_next_n n)
| h_mark_task_start id : hook_call me (tern_mark_task_start id)
| h_mark_task_end id : hook_call me (tern_mark_task_end id)
| h_unmark_task id : hook_call me (tern_unmark_task id)
| h_propose_thread_role th role_func : hook_call me (tern_propose_thread_role th role_func)
| h_ext_get_turn : hook_call me (tern_ext_get_turn me)
| h_ext_put_turn : hook_call me (tern_ext_put_turn me)
| h_detach : hook_call me tern_detach_real
| h_set_base_time ts : hook_call me (tern_set_base_time_real ts)
| h_print_runtime_stat : hook_call me (tern_print_runtime_stat me)
| h_sched_yield ins : hook_call me (tern_sched_yield me ins)
| h_sleep ins seconds : hook_call me (tern_sleep me ins seconds)
| h_usleep ins usec : hook_call me (tern_usleep me ins usec)
| h_nanosleep ins req : hook_call me (tern_nanosleep me ins req)
| h_fork ins : hook_call me (tern_fork me ins)
| h_execv : hook_call me (tern_execv me)
| h_accept cliaddr : hook_call me (tern_accept cliaddr)
| h_connect serv_addr : hook_call me (tern_connect serv_addr)
| h_sigwait : hook_call me tern_sigwait
| h_socket : hook_call me tern_socket
| h_listen : hook_call me tern_listen
| h_accept4 : hook_call me tern_accept4
| h_gethostbyname : hook_call me tern_gethostbyname
| h_gethostbyname_r : hook_call me tern_gethostbyname_r
| h_getaddrinfo : hook_call me tern_getaddrinfo
| h_freeaddrinfo : hook_call me tern_freeaddrinfo
| h_gethostbyaddr : hook_call me tern_gethostbyaddr
| h_inet_ntoa : hook_call me tern_inet_ntoa
| h_strtok : hook_call me tern_strtok
| h_shutdown : hook_call me tern_shutdown
| h_getpeername : hook_call me tern_getpeername
| h_getsockopt : hook_call me tern_getsockopt
| h_setsockopt : hook_call me tern_setsockopt
| h_pipe : hook_call me tern_pipe
| h_fcntl : hook_call me tern_fcntl
| h_close : hook_call me tern_close
| h_epoll_wait : hook_call me tern_epoll_wait
| h_epoll_create : hook_call me tern_epoll_create
| h_epoll_ctl : hook_call me tern_epoll_ctl
| h_select : hook_call me tern_select
| h_poll : hook_call me tern_poll
| h_bind : hook_call me tern_bind
| h_fgets : hook_call me tern_fgets
| h_kill : hook_call me tern_kill
| h_wait : hook_call me tern_wait
| h_waitpid : hook_call me tern_waitpid
| h_clock_getres : hook_call me tern_clock_getres
| h_clock_gettime : hook_call me tern_clock_gettime
| h_clock_settime : hook_call me tern_clock_settime
| h_gettimeofday : hook_call me tern_gettimeofday
| h_settimeofday : hook_call me tern_settimeofday
| h_recv len : hook_call me (tern_recv len)
| h_send : hook_call me tern_send
| h_sendto : hook_call me tern_sendto
| h_sendmsg : hook_call me tern_sendmsg
| h_recvfrom : hook_call me tern_recvfrom
| h_recvmsg : hook_call me tern_recvmsg
| h_read : hook_call me tern_read
| h_write : hook_call me tern_write
| h_pread : hook_call me tern_pread
| h_pwrite : hook_call me tern_pwrite
| h_time : hook_call me tern_time
| h_pthread_mutex_lock ins mu : hook_call me (tern_pthread_mutex_lock me ins mu)
| h_pthread_mutex_unlock ins mu : hook_call me (tern_pthread_mutex_unlock me ins mu)
| h_idle_sleep : hook_call me (tern_idle_sleep me)
| h_idle_cond_wait : hook_call me (tern_idle_cond_wait me).

(** the functions of the C library leave the space as it is *)
Definition native {A} (orig : prog A) : Prop := forall b, sp b b orig.

(** what the interposition library defines: library functions, whose hooks are hooks, and
    annotations *)
Inductive lib_call (me : Z) : forall {A}, prog A -> Prop :=
| l_func {A} (h : Z -> prog A) orig : (forall ins, hook_call me (h ins)) -> native orig ->
    lib_call me (func_template h orig)
| l_void (h : Z -> prog unit) orig : (forall ins, hook_call me (h ins)) -> native orig ->
    lib_call me (void_func_template h orig)
| l_fcntl orig : native orig -> lib_call me (app_fcntl orig)
| l_always {A} (h : Z -> prog A) orig : (forall ins, hook_call me (h ins)) -> native orig ->
    lib_call me (always_check_func_template h orig)
| l_soba_init o count timeout_turns : lib_call me (soba_init me o count timeout_turns)
| l_soba_destroy o : lib_call me (soba_destroy me o)
| l_lineup_start o : lib_call me (tern_lineup_start me o)
| l_lineup_end o : lib_call me (tern_lineup_end me o)
| l_soba_wait o : lib_call me (soba_wait me o)
| l_pcs_enter : lib_call me (pcs_enter me)
| l_pcs_exit : lib_call me pcs_exit
| l_no_wait_pcs_enter : lib_call me no_wait_pcs_enter
| l_no_wait_pcs_exit : lib_call me no_wait_pcs_exit
| l_slock_next_n n : lib_call me (slock_next_n n)
| l_mark_task_start id : lib_call me (app_mark_task_start id)
| l_mark_task_end id : lib_call me (app_mark_task_end id)
| l_unmark_task id : lib_call me (app_unmark_task id)
| l_ext_get_turn : lib_call me (app_ext_get_turn me)
| l_ext_put_turn : lib_call me (app_ext_put_turn me)
| l_dummy_sync : lib_call me (tern_dummy_sync me)
| l_propose_thread_role th role_func : lib_call me (app_propose_thread_role th role_func)
| l_set_base_timespec ts : lib_call me (tern_set_base_timespec ts)
| l_set_base_timeval sec usec : lib_call me (tern_set_base_timeval sec usec)
| l_detach : lib_call me tern_detach
| l_pcs_barrier_exit bar_id cnt : lib_call me (pcs_barrier_exit bar_id cnt).

(** programs made of calls, in any order and number *)
Inductive calls (P : forall A, prog A -> Prop) : forall {A}, prog A -> Prop :=
| c_ret {A} (a : A) : calls P (Ret a)
| c_do {X A} (h : prog X) (k : X -> prog A) : P X h -> (forall x, calls P (k x)) -> calls P (h ≫= k)
| c_loop {A S X} (body : S -> prog (S + X)) s (k : X -> prog A) :
    (forall s, calls P (body s)) -> (forall x, calls P (k x)) -> calls P (Iter body s k).
(** an application calls what the interposition library defines, or hooks *)
Definition lib_calls (me : Z) {A} : prog A -> Prop := calls (@lib_call me).
Definition app_calls (me : Z) {A} : prog A -> Prop := calls (fun A p => lib_call me p \/ hook_call me p).
End calls.

Section space.
Context `{O : Options, U : UnorderedIter, G : GlobalAddrs, N : NodeAddrs}.

Ltac method_auto :=
  repeat first [progress space_auto | apply s_non_det_or | apply s_unless | apply s_blocking_call
    | apply s_file_call | apply s_blocking].
Ltac unfold_methods :=
  unfold
    pthreadJoin, pthread_detach, pthreadMutexInit, pthreadMutexDestroy, pthreadMutexTryLock,
    pthreadMutexTimedLock, pthreadMutexLockHelper, pthreadRWLockRdLockHelper, pthreadRWLockWrLockHelper,
    pthreadCondTimedWait, pthreadCondSignal, pthreadCondBroadcast, pthreadBarrierInit, pthreadBarrierWait,
    pthreadBarrierDestroy, semInit, semTryWait, semTimedWait, semPost, pthread_rwlock_rdlock,
    pthread_rwlock_tryrdlock, pthread_rwlock_wrlock, pthread_rwlock_trywrlock, pthread_rwlock_unlock,
    pthread_rwlock_destroy, pthread_rwlock_init, symbolic, dummySync, lineupInit, lineupDestroy, lineupStart,
    lineupEnd, nonDetStart, nonDetBarrierEnd, noWaitNonDetStart, noWaitNonDetEnd, set_slock_next_n,
    mark_task_start, mark_task_end, busy_wait, gettimeofday, unmark_task, read_clock, propose_thread_role, ext_get_turn, ext_put_turn,
    ext_turn_enabled, setBaseTime, schedYield, rt_sleep, rt_usleep, rt_nanosleep, rt_execv.
Ltac unfold_calls :=
  unfold
    rt_accept, rt_connect, rt_send, rt_sendto, rt_sendmsg, rt_accept4, rt_recv, rt_recvfrom, rt_recvmsg,
    rt_select, rt_epoll_wait, rt_epoll_create, rt_epoll_ctl, rt_poll, rt_bind, rt_sigwait, rt_kill, rt_wait,
    rt_waitpid, rt_socket, rt_listen, rt_shutdown, rt_getsockopt, rt_setsockopt, rt_pipe, rt_fcntl,
    rt_gethostbyname, rt_gethostbyname_r, rt_getaddrinfo, rt_freeaddrinfo, rt_gethostbyaddr, rt_inet_ntoa,
    rt_strtok, rt_read, rt_write, rt_pread, rt_pwrite, rt_fgets, rt_close, rt_getpeername, rt_time,
    rt_clock_getres, rt_clock_gettime, rt_clock_settime, rt_gettimeofday, rt_settimeofday,
    Runtime_pthreadCancel, Runtime_pthread_detach, Runtime_pthread_join, Runtime_pthreadMutexInit,
    Runtime_pthreadMutexDestroy, Runtime_pthread_mutex_init, Runtime_pthread_mutex_destroy,
    Runtime_pthread_mutex_lock, Runtime_pthread_mutex_unlock, Runtime_sem_init, Runtime_sem_wait,
    Runtime_sem_post, Runtime_rwlock_rdlock, Runtime_rwlock_tryrdlock, Runtime_rwlock_wrlock,
    Runtime_rwlock_trywrlock, Runtime_rwlock_unlock, Runtime_rwlock_destroy, Runtime_rwlock_init,
    Runtime_socket, Runtime_getsockopt, Runtime_setsockopt, Runtime_pipe, Runtime_fcntl, Runtime_listen,
    Runtime_accept4, Runtime_gethostbyname, Runtime_gethostbyname_r, Runtime_getaddrinfo,
    Runtime_freeaddrinfo, Runtime_gethostbyaddr, Runtime_inet_ntoa, Runtime_strtok, Runtime_send,
    Runtime_sendto, Runtime_sendmsg, Runtime_recvfrom, Runtime_recvmsg, Runtime_shutdown, Runtime_getpeername,
    Runtime_close, Runtime_read, Runtime_write, Runtime_pread, Runtime_pwrite, Runtime_select, Runtime_poll,
    Runtime_bind, Runtime_sigwait, Runtime_epoll_wait, Runtime_epoll_create, Runtime_epoll_ctl, Runtime_sleep,
    Runtime_usleep, Runtime_fgets, Runtime_kill, Runtime_fork, Runtime_execv, Runtime_wait, Runtime_waitpid,
    Runtime_sched_yield, Runtime_nanosleep, Runtime_time, Runtime_clock_getres, Runtime_clock_gettime,
    Runtime_clock_settime, Runtime_gettimeofday, Runtime_settimeofday.
Hint Resolve s_note_errno s_wait s_signal s_syncWait s_in_non_det s_change_role s_start s_common s_check s_end
  s_thread_end s_fake_end s_with_errno s_native_call s_native_plain s_sys_call s_helper_errno s_runtime_call
  s_current_time s_rel_turns s_lock_helper s_block_line s_choose_role s_try_sem s_release s_sleep_turns
  s_really_sleep s_MutexLock s_MutexUnlock s_CondWait s_semWait s_nonDetEnd s_nonblock s_log_port s_accept
  s_connect s_recv s_idle_sleep s_idle_cond_wait s_printStat s_create_idle s_pthreadCreate s_fork : space.

Lemma hook_call_space {A} me (p : prog A) : hook_call me p -> sp true true p.
Proof using Type.
  destruct 1;
  unfold
    tern_pthread_cancel, tern_pthread_create, tern_pthread_join, tern_pthread_detach, tern_pthread_mutex_init,
    tern_pthread_mutex_destroy, tern_pthread_mutex_trylock, tern_pthread_mutex_timedlock,
    tern_pthread_cond_wait, tern_pthread_cond_timedwait, tern_pthread_cond_signal,
    tern_pthread_cond_broadcast, tern_pthread_barrier_init, tern_pthread_barrier_wait,
    tern_pthread_barrier_destroy, tern_sem_init, tern_sem_wait, tern_sem_trywait, tern_sem_timedwait,
    tern_sem_post, tern_pthread_rwlock_rdlock, tern_pthread_rwlock_tryrdlock, tern_pthread_rwlock_wrlock,
    tern_pthread_rwlock_trywrlock, tern_pthread_rwlock_unlock, tern_pthread_rwlock_destroy,
    tern_pthread_rwlock_init, tern_symbolic_real, tern_dummy_sync_real, tern_lineup_init_real,
    tern_lineup_destroy_real, tern_lineup_start_real, tern_lineup_end_real, tern_non_det_start_real,
    tern_non_det_end_real, tern_non_det_barrier_end_real, tern_no_wait_non_det_start_real,
    tern_no_wait_non_det_end_real, tern_set_slock_next_n, tern_mark_task_start, tern_mark_task_end,
    tern_unmark_task, tern_propose_thread_role, tern_ext_get_turn, tern_ext_put_turn, tern_detach_real,
    tern_set_base_time_real, tern_print_runtime_stat, tern_sched_yield, tern_sleep, tern_usleep,
    tern_nanosleep, tern_fork, tern_execv, tern_accept, tern_connect, tern_sigwait, tern_socket, tern_listen,
    tern_accept4, tern_gethostbyname, tern_gethostbyname_r, tern_getaddrinfo, tern_freeaddrinfo,
    tern_gethostbyaddr, tern_inet_ntoa, tern_strtok, tern_shutdown, tern_getpeername, tern_getsockopt,
    tern_setsockopt, tern_pipe, tern_fcntl, tern_close, tern_epoll_wait, tern_epoll_create, tern_epoll_ctl,
    tern_select, tern_poll, tern_bind, tern_fgets, tern_kill, tern_wait, tern_waitpid, tern_clock_getres,
    tern_clock_gettime, tern_clock_settime, tern_gettimeofday, tern_settimeofday, tern_recv, tern_send,
    tern_sendto, tern_sendmsg, tern_recvfrom, tern_recvmsg, tern_read, tern_write, tern_pread, tern_pwrite,
    tern_time, tern_pthread_mutex_lock, tern_pthread_mutex_unlock, tern_idle_sleep, tern_idle_cond_wait,
    saving_errno;
  lazymatch goal with
  | |- sp _ _ (hook _) => apply s_hook; intros e
  | |- sp _ _ (hook_as _ _) => apply s_hook; intros e
  | |- sp _ _ (void_hook _) => apply s_void_hook
  | |- _ => idtac
  end; unfold_methods; unfold_calls; method_auto.
Qed.

Lemma calls_space (P : forall A, prog A -> Prop) b {A} (p : prog A) : (forall A p, P A p -> sp b b p) ->
  calls P p -> sp b b p.
Proof using Type.
  intros HP. induction 1 as [A a|X A h k Hh _ IH|A S X body s k _ IHb _ IHk]; [apply s_ret| |by apply s_iter].
  eapply s_bind; [by apply HP|exact IH].
Qed.

(** ** The interposition library *)
Lemma s_input_eip : sp true true input_eip.
Proof using Type.
  assert (Hs : forall n, sp false false (read_stack n)) by (intros n; induction n; cbn [read_stack]; method_auto).
  assert (Hg : forall stack e, get_eip stack = Err e -> no_space_error e).
  { intros stack e. unfold get_eip, backtrace. repeat case_match; intros; by simplify_eq. }
  unfold input_eip. destruct dync_geteip; [|apply s_ret]. eapply s_bind; [apply s_enter|]. intros _.
  eapply s_bind; [apply s_env|]. intros d. eapply s_bind; [apply Hs|]. intros stack.
  eapply (s_bind false false true).
  - destruct (get_eip stack) as [v|e] eqn:He; [apply s_ret|]. by apply s_fail, (Hg _ _ He).
  - intros eip. eapply s_bind; [apply s_exit|]. intros _. apply s_ret.
Qed.
Lemma s_template {A} dmt (h : Z -> prog A) orig b : sp true true dmt -> (forall ins, sp true true (h ins)) ->
  native orig -> sp b b (template dmt h orig).
Proof using Type.
  intros Hd Hh Ho. unfold template. destruct b; apply s_known; [|apply Ho].
  eapply s_bind; [exact Hd|]. intros d. eapply s_bind; [apply s_input_eip|]. intros eip.
  destruct d; [apply Hh|]. unfold call_orig. eapply s_bind; [apply s_enter|]. intros _.
  eapply s_bind; [apply Ho|]. intros r. eapply s_bind; [apply s_exit|]. intros _. apply s_ret.
Qed.
Lemma s_annotated on real b : sp true true real -> sp b b (annotated on real).
Proof using Type. intros H. unfold annotated. destruct b; apply s_known; [|apply s_ret]. destruct (_ && _); [done|apply s_ret]. Qed.
Lemma s_deterministic : sp true true deterministic.
Proof using Type. unfold deterministic. method_auto. Qed.
Lemma s_task p b : (forall b, sp b b p) -> sp b b (if tasks_on then p else mret tt).
Proof using Type. intros H. destruct tasks_on; [apply H|apply s_ret]. Qed.
Hint Resolve hook_call_space : space.

Lemma lib_call_space {A} me (p : prog A) b : lib_call me p -> sp b b p.
Proof using Type.
  destruct 1;
  lazymatch goal with
  | |- sp _ _ (func_template _ _) => apply s_template; [apply s_deterministic| |done]; intros; by eapply hook_call_space
  | |- sp _ _ (void_func_template _ _) => apply s_template; [apply s_deterministic| |done]; intros; by eapply hook_call_space
  | |- sp _ _ (app_fcntl _) => apply s_template; [apply s_deterministic| |done]; intros; apply (hook_call_space me), h_fcntl
  | |- sp _ _ (always_check_func_template _ _) => apply s_template; [apply s_ret| |done]; intros; by eapply hook_call_space
  | |- sp _ _ (app_mark_task_start _) => apply s_task; intros; unfold tern_mark_task_start, saving_errno, mark_task_start, read_clock; method_auto
  | |- sp _ _ (app_mark_task_end _) => apply s_task; intros; unfold tern_mark_task_end, saving_errno, mark_task_end, read_clock; method_auto
  | |- sp _ _ (app_unmark_task _) => apply s_task; intros; unfold tern_unmark_task, saving_errno, unmark_task; method_auto
  | |- sp _ _ (soba_wait _ _) => apply s_annotated; eapply s_bind; [|intros _]; eapply hook_call_space;
      [apply h_lineup_start|apply h_lineup_end]
  | |- _ => apply s_annotated
  end.
  all: eapply (hook_call_space me).
  - apply h_lineup_init.
  - apply h_lineup_destroy.
  - apply h_lineup_start.
  - apply h_lineup_end.
  - apply h_non_det_start.
  - apply h_non_det_end.
  - apply h_no_wait_non_det_start.
  - apply h_no_wait_non_det_end.
  - apply h_set_slock_next_n.
  - apply h_ext_get_turn.
  - apply h_ext_put_turn.
  - apply h_dummy_sync.
  - apply h_propose_thread_role.
  - apply h_set_base_time.
  - apply h_set_base_time.
  - apply h_detach.
  - apply h_non_det_barrier_end.
Qed.
Lemma app_calls_space {A} me (p : prog A) : app_calls me p -> sp true true p.
Proof using Type.
  apply calls_space. intros B q [H|H]; [by eapply lib_call_space|by eapply hook_call_space].
Qed.
Lemma lib_calls_space {A} me (p : prog A) b : lib_calls me p -> sp b b p.
Proof using Type. apply calls_space. intros B q H. by eapply lib_call_space. Qed.
Lemma idle_thread_space me : sp true true (idle_thread me).
Proof using All.
  unfold idle_thread, idle_round.
  pose proof (fun ins mu => hook_call_space me _ (h_pthread_mutex_lock me ins mu)).
  pose proof (fun ins mu => hook_call_space me _ (h_pthread_mutex_unlock me ins mu)).
  pose proof (hook_call_space me _ (h_idle_sleep me)). pose proof (hook_call_space me _ (h_idle_cond_wait me)).
  method_auto.
Qed.
Lemma thread_func_space me body : sp true true body -> sp false false (tern_thread_func me body).
Proof using Type.
  intros H. unfold tern_thread_func. eapply s_bind; [apply s_free|]. intros _.
  eapply s_bind; [apply s_begin|]. intros _. eapply s_bind; [exact H|]. intros _. apply s_pthread_exit.
Qed.

Ltac hook_facts me :=
  pose proof (fun ins mu => hook_call_space me _ (h_pthread_mutex_lock me ins mu));
  pose proof (fun ins mu => hook_call_space me _ (h_pthread_mutex_unlock me ins mu)).
Lemma prog_begin_space me : sp false true (tern_prog_begin_main me).
Proof using All.
  pose proof (fun ins mu k => hook_call_space me _ (h_pthread_mutex_init me ins mu k)).
  pose proof (fun ins f => hook_call_space me _ (h_pthread_create me ins f)).
  unfold tern_prog_begin_main, tern_prog_begin, tern_create_idle_thread. method_auto.
Qed.
Lemma prog_end_space me : sp true false (tern_prog_end_main me).
Proof using All.
  hook_facts me.
  pose proof (fun ins cv => hook_call_space me _ (h_pthread_cond_signal me ins cv)).
  pose proof (fun ins th => hook_call_space me _ (h_pthread_join me ins th)).
  pose proof (hook_call_space me _ (h_print_runtime_stat me)).
  unfold tern_prog_end_main, tern_prog_end, wake_idle_thread. method_auto.
Qed.
Lemma main_thread_space me init body : match init with Some i => sp false false i | None => True end ->
  sp true true body -> sp false false (main_thread me init body).
Proof using Type.
  intros Hi H. unfold main_thread, tern_init_func. eapply (s_bind false true).
  - eapply s_bind; [by destruct init; [exact Hi|apply s_ret]|]. intros _. apply prog_begin_space.
  - intros _. eapply s_bind; [exact H|]. intros _. apply prog_end_space.
Qed.

(** an application thread that runs in App space, or one that starts in Sys space: the
    main thread, with the initialisation that runs before xtern's, a new thread or the
    idle thread *)
Definition thread_ok (w : world) (th : Z) (p : prog unit) : Prop :=
  (in_app (tls_of w th) = true /\ app_calls th p) \/
  (in_app (tls_of w th) = false /\ exists body, (app_calls th body \/ body = idle_thread th) /\
     (p = tern_thread_func th body \/
      exists init, p = main_thread th init body /\ match init with Some i => lib_calls th i | None => True end)).

(** C8: the spaces are kept apart.  Take a process whose threads call functions the
    interposition library has taken over, annotations and hooks, in any order, from App
    space, or start in Sys space and run their start routine (the idle thread's included)
    or, as the main thread does, the initialisation, __tern_prog_begin, main and
    __tern_prog_end.  In every interleaving no assertion about spaces fails (a hook never
    enters Sys space twice, the creation of the idle thread inside pthread_create crosses
    out and back correctly), and a thread that is done is in the space it started in. *)
Theorem hooks_space c l c' th p : (forall th p, p_threads c !! th = Some p -> thread_ok (p_world c) th p) ->
  psteps c l c' -> p_threads c' !! th = Some p ->
  (forall X (m : M tls X) k e, p = Act (Tls m) k -> step th p (p_world c') = Err e -> space_error e = false) /\
  (p = mret tt -> in_app (tls_of (p_world c') th) = in_app (tls_of (p_world c) th)).
Proof using Type.
  intros Hall Hs Hp. assert (Hex : exists p0, p_threads c !! th = Some p0).
  { clear Hall. revert p Hp. induction Hs as [c|c th1 c1 l c2 H1 _ IH]; intros p Hp; [by exists p|].
    destruct (IH p Hp) as [p1 Hp1]. destruct H1 as [q q' w' Hq _ ->]. cbn [p_threads] in Hp1.
    apply lookup_insert_Some in Hp1 as [[<- _]|[_ ?]]; eauto. }
  destruct Hex as [p0 Hp0]. pose proof (Hall _ _ Hp0) as Hok.
  assert (Htw : twp no_space_error p0 (fun _ t' => in_app t' = in_app (tls_of (p_world c) th)) (tls_of (p_world c) th)).
  { destruct Hok as [[Ht Hc]|[Ht (body & Hb & Hp1)]]; rewrite Ht.
    - by apply (app_calls_space th p0 Hc).
    - assert (Hbody : sp true true body)
        by (destruct Hb as [Hb| ->]; [by eapply app_calls_space|apply idle_thread_space]).
      destruct Hp1 as [-> |(init & -> & Hi)]; [by apply (thread_func_space th body)|].
      apply (main_thread_space th init body); [|done..]. destruct init; [by eapply lib_calls_space|done]. }
  destruct (twp_steps _ _ _ _ _ Hs _ Hp0 Htw) as (p' & Hp' & Htw'). rewrite Hp in Hp'. injection Hp' as <-.
  split; [|by intros ->]. intros X m k e -> He. exact (twp_fails _ _ _ _ _ _ Htw' He).
Qed.
End space.

(** ** errno *)
Section errno.
Context `{O : Options, U : UnorderedIter, G : GlobalAddrs, N : NodeAddrs}.

(** programs that leave errno alone, and methods that give back their [error] *)
Definition keeps_errno {A} (p : prog A) : Prop := forall t, twp any_error p (fun _ t' => t_errno t' = t_errno t) t.
Definition gives (e : Z) (p : prog (Z * Z)) : Prop := forall t, twp any_error p (fun r _ => r.2 = e) t.

(** any result *)
Lemma runs_any {A} (p : prog A) : forall t, twp any_error p (fun _ _ => True) t.
Proof using Type.
  clear. induction p as [A a|A X o k IH|A S X body IHb s k IHk]; intros t; simpl; [done| |].
  - destruct o; simpl; auto. unfold wpx. destruct (m t) as [[x t']|]; [apply IH|done].
  - exists (fun _ _ => True). split; [done|]. intros s' t' _. eapply twp_mono; [|apply IHb].
    intros [s2|x] t2 _; [done|apply IHk].
Qed.
Lemma g_bind {A} e (p : prog A) f : (forall a, gives e (f a)) -> gives e (p ≫= f).
Proof using Type. intros H t. apply twp_bind. eapply twp_mono; [|apply runs_any]. cbn beta. intros a t' _. apply H. Qed.
Lemma g_ret e r : gives e (mret (r, e)).
Proof using Type. by intros t. Qed.
Lemma g_non_det_or e p q : gives e p -> gives e q -> gives e (non_det_or p q).
Proof using Type. intros Hp Hq. unfold non_det_or. apply g_bind. intros []; [by apply g_bind|done]. Qed.

Lemma k_bind {A B} (p : prog A) (f : A -> prog B) : keeps_errno p -> (forall a, keeps_errno (f a)) -> keeps_errno (p ≫= f).
Proof using Type.
  intros Hp Hf t. apply twp_bind. eapply twp_mono; [|apply Hp]. cbn beta. intros a t' E.
  eapply twp_mono; [|apply Hf]. cbn beta. intros b t2 ->. done.
Qed.
Lemma k_ret {A} (a : A) : keeps_errno (mret a).
Proof using Type. by intros t. Qed.
Lemma k_rt {X} (m : RTM X) : keeps_errno (rt_do m).
Proof using Type. by intros t. Qed.
Lemma k_call {X} (c : scall X) : keeps_errno (call c).
Proof using Type. by intros t. Qed.
Lemma k_passert nd b msg : keeps_errno (passert nd b msg).
Proof using Type. intros t. unfold passert. by destruct (_ || _). Qed.
Lemma k_lock_helper m c n : keeps_errno (lock_helper m c n).
Proof using Type.
  intros t. exists (fun _ t' => t_errno t' = t_errno t). split; [done|]. intros _ t' <-. apply twp_bind.
  match goal with |- twp _ ?p _ _ => assert (H : keeps_errno p) end.
  { apply k_bind; [apply k_rt|]. intros r. destruct (r =? 0); [apply k_ret|].
    apply k_bind; [apply k_passert|]. intros _. apply k_bind; [|intros; apply k_ret].
    unfold syncWait, S_wait. apply k_bind; [apply k_call|]. intros _. apply k_call. }
  eapply twp_mono; [|apply H]. cbn beta. by intros [x|] t2.
Qed.
Lemma g_helper_errno e p : keeps_errno p -> gives e (helper_errno e p).
Proof using Type.
  intros H t. unfold helper_errno. apply twp_bind. cbn. apply twp_bind.
  eapply twp_mono; [|apply H]. cbn beta. intros r t' E. cbn. by rewrite E.
Qed.
(** a call that does not set errno *)
Lemma plain_none m r x r' : plain m r = Ok (x, r') -> x.2 = None.
Proof using Type. unfold plain, mbind, M_bind, mret, M_ret. destruct (m r) as [[??]|]; [|done]. by intros [= <- <-]. Qed.
Lemma g_with_errno e m : gives e (with_errno e (plain m)).
Proof using Type.
  intros t. unfold with_errno. apply twp_bind. cbn. intros x r r' Hx%plain_none. rewrite Hx. done.
Qed.
Lemma g_native_call e m : gives e (native_call e (plain m)).
Proof using Type.
  intros t. unfold native_call. apply twp_bind. cbn. intros x r r' Hx%plain_none. rewrite Hx. done.
Qed.
Lemma g_native_plain e m : gives e (native_plain e m).
Proof using Type. unfold native_plain. do 2 (apply g_bind; intros ?). apply g_ret. Qed.
(** the result of a method that gives its error is used for the rest *)
Lemma g_then e p (f : Z * Z -> prog (Z * Z)) : gives e p -> (forall r, r.2 = e -> gives e (f r)) -> gives e (p ≫= f).
Proof using Type. intros Hp Hf t. apply twp_bind. eapply twp_mono; [|apply Hp]. cbn beta. intros r t' Hr. by apply Hf. Qed.
Lemma g_pair e r : r.2 = e -> gives e (mret r).
Proof using Type. intros H t. exact H. Qed.
Lemma g_snd e x (r : Z * Z) : r.2 = e -> gives e (mret (x, r.2)).
Proof using Type. intros H t. exact H. Qed.
End errno.

Ltac gives_auto := intros; cbv zeta;
  lazymatch goal with
  | |- gives _ (mret (_, snd _)) => apply g_snd; assumption
  | |- gives _ (mret (_, _)) => apply g_ret
  | |- gives _ (mret _) => apply g_pair; assumption
  | |- gives _ (with_errno _ (plain _)) => apply g_with_errno
  | |- gives _ (native_call _ (plain _)) => apply g_native_call
  | |- gives _ (native_plain _ _) => apply g_native_plain
  | |- gives _ (helper_errno _ (lock_helper _ _ _)) => apply g_helper_errno, k_lock_helper
  | |- gives _ (non_det_or _ _) => apply g_non_det_or; gives_auto
  | |- gives _ (with_errno _ (plain _) ≫= _) => apply g_then; gives_auto
  | |- gives _ (helper_errno _ _ ≫= _) => apply g_then; gives_auto
  | |- gives _ (_ ≫= _) => apply g_bind; gives_auto
  | |- gives _ (match ?x with _ => _ end) => destruct x; gives_auto
  | |- gives _ _ => auto with gives
  end.
Create HintDb gives discriminated.

Section silent.
Context `{O : Options, U : UnorderedIter, G : GlobalAddrs, N : NodeAddrs}.


Lemma g_MutexLock me ins e mu : gives e (pthreadMutexLock me ins e mu).
Proof using Type. unfold pthreadMutexLock, pthreadMutexLockHelper, Runtime_pthread_mutex_lock. gives_auto. Qed.
Lemma g_CondWait me ins e cv mu : gives e (pthreadCondWait me ins e cv mu).
Proof using Type. unfold pthreadCondWait, pthreadMutexLockHelper. gives_auto. Qed.

Hint Resolve g_MutexLock g_CondWait : gives.



(** time() wraps in 2038.  The hook of time() keeps the time_t result in a pid_t: from
    2^31 seconds after the epoch on, the application gets a time before 1970. *)
Theorem time_wraps th v e rest w : 2 ^ 31 <= v < 2 ^ 32 -> in_app (tls_of w th) = true ->
  env_of w th = v :: e :: rest ->
  exists n w', run n th tern_time w = Done (v - 2 ^ 32) w' /\ t_errno (tls_of w' th) = e.
Proof using Type.
  intros Hv Happ Henv.
  assert (Hr : returns th tern_time (fun r w' => r = s32 v /\ t_errno (tls_of w' th) = e) w).
  { unfold tern_time, hook_as, enterSys, cross, exitSys. apply r_tls_get, r_bind, r_tls_get.
    rewrite tls_set_tls, Happ. apply r_bind, r_ret. eapply r_act_last; [reflexivity|].
    apply r_bind. unfold rt_time, Runtime_time, Runtime_call. apply r_tls_set, r_bind.
    eapply r_sys_call; [rewrite !env_set_tls; exact Henv|]. apply r_tls_get, r_ret.
    apply r_bind, r_tls_get. rewrite !tls_set_tls. cbn [in_app set_t_errno set_in_app]. rewrite Happ.
    apply r_bind, r_ret. eapply r_act_last; [reflexivity|]. apply r_tls_set, r_ret.
    rewrite !tls_set_tls. by cbn. }
  destruct Hr as (n & r & w' & Hrun & -> & He). exists n, w'. split; [|done]. rewrite Hrun. f_equal.
  unfold s32. rewrite <-(Z_mod_plus_full _ (-1)), Z.mod_small by lia. lia.
Qed.
End silent.

(** ** Witnesses *)
Section witnesses.
Local Existing Instance sample_options.
Local Existing Instance elements_order.
Local Existing Instance sample_addrs.
Local Existing Instance sample_nodes.

(** the main thread in App space, with errno 5 *)
Definition app_world (env : list Z) : world :=
  let w := world_of (c_s (cfg_of [])) [1000] {[ 1000 := env ]} in
  set_tls 1000 (set_t_errno 5 (set_in_app true tls0)) w.

(** a whole program: the main thread, which locks and unlocks a mutex between
    __tern_prog_begin and __tern_prog_end, and the idle thread 2000 that it creates; the
    mutex has already been used by the initialisation *)
Definition lock_i : prog Z :=
  func_template (fun ins => tern_pthread_mutex_lock 1000 ins 500) (act (Free (os_mutex_lock 1000 500))).
Definition unlock_i : prog Z :=
  func_template (fun ins => tern_pthread_mutex_unlock 1000 ins 500) (act (Free (os_mutex_unlock 1000 500))).
Definition lock_unlock : prog unit := _ ← lock_i; _ ← unlock_i; mret tt.
Definition whole_program : process :=
  Process (<[1000 := main_thread 1000 (Some lock_unlock) lock_unlock]> {[ 2000 := tern_thread_func 2000 (idle_thread 2000) ]})
    (world_of (c_s (cfg_of [])) [1000] {[ 1000 := [0; 2000; 0; 0] ]}).
Definition program_end : list Z * process := greedy 1000 [1000; 2000] whole_program.
(** it comes to its end: both threads are done *)
Lemma program_ends : finishedb program_end.2 1000 && finishedb program_end.2 2000 = true.
Proof. vm_compute. reflexivity. Qed.

Lemma lock_unlock_calls : lib_calls 1000 lock_unlock.
Proof.
  apply (c_do _ lock_i).
  - apply l_func; [intros; apply h_pthread_mutex_lock|intros b; apply s_free].
  - intros _. apply (c_do _ unlock_i); [apply l_func; [intros; apply h_pthread_mutex_unlock|intros b; apply s_free]|].
    intros _. constructor.
Qed.
Lemma lib_app {A} me (p : prog A) : lib_calls me p -> app_calls me p.
Proof. induction 1; [constructor|apply c_do; auto|by constructor]. Qed.
Lemma hooks_space_witness : in_app (tls_of (p_world program_end.2) 1000) = false.
Proof.
  assert (Hend : p_threads program_end.2 !! 1000 = Some (mret tt))
    by (apply finishedb_sound; vm_compute; reflexivity).
  apply (hooks_space whole_program program_end.1 program_end.2 1000 (mret tt)).
  - intros th p. cbn [whole_program p_threads]. rewrite lookup_insert_Some, lookup_singleton_Some.
    intros [[<- <-]|(_ & <- & <-)]; right; (split; [reflexivity|]).
    + exists lock_unlock. split; [left; exact (lib_app _ _ lock_unlock_calls)|right].
      exists (Some lock_unlock). split; [done|exact lock_unlock_calls].
    + exists (idle_thread 2000). split; [by right|by left].
  - unfold program_end. exact (greedy_psteps 1000 [1000; 2000] whole_program).
  - exact Hend.
  - reflexivity.
Defined.


Lemma time_wraps_witness :
  exists n w', run n 1000 tern_time (app_world [2 ^ 31; 0]) = Done (- 2 ^ 31) w' /\ t_errno (tls_of w' 1000) = 0.
Proof. apply (time_wraps 1000 (2 ^ 31) 0 []); [done|reflexivity|reflexivity]. Defined.
End witnesses.
