(* ===== verification/RtRecv.v ===== *)
(** * Receiving: the loop of Runtime::__recv ends *)
From S2P Require Import Prelude Options RunQueue TidMap NonDetSet Scheduler SyncFuncs SchedSys SchedRun.
From S2P Require Import RtState Proc RtBase RtRuntime RtReturns RtRun.

(** what recv may answer: it got [n] > 0 bytes, the peer has shut down (then the loop
    sleeps, and the sleep has a result too), or it failed; each with its errno *)
Inductive answer : Type :=
| Got (n e : Z)
| Closed (e ret e' : Z)
| Fails (e : Z).
Definition inputs (a : answer) : list Z :=
  match a with
  | Got n e => [n; e]
  | Closed e ret e' => [0; e; ret; e']
  | Fails e => [-1; e]
  end.
Definition got (a : answer) : Z := match a with Got n _ => n | _ => 0 end.
Definition is_closed (a : answer) : bool := match a with Closed _ _ _ => true | _ => false end.
Definition is_failure (a : answer) : bool := match a with Fails _ => true | _ => false end.
Definition answer_ok (a : answer) : Prop := match a with Got n _ => 0 < n | _ => True end.

Definition total (l : list answer) : Z := foldr (fun a n => got a + n) 0 l.
Definition closings (l : list answer) : Z := foldr (fun a n => (if is_closed a then 1 else 0) + n) 0 l.

(** the answers [l] are all that __recv needs to see *)
Definition stopped (len : Z) (l : list answer) : bool :=
  existsb is_failure l || (len <=? total l) || (10 <=? closings l).
(** its result: the number of bytes, or -1 when the first call that did not return 0 failed *)
Definition recv_result (l : list answer) : Z :=
  if existsb is_failure l && (total l =? 0) then -1 else total l.

Lemma total_app l k : total (l ++ k) = total l + total k.
Proof. induction l; simpl; lia. Qed.
Lemma closings_app l k : closings (l ++ k) = closings l + closings k.
Proof. induction l as [|a l IH]; simpl; [lia|]. rewrite IH. lia. Qed.
Lemma total_pos l : Forall answer_ok l -> 0 <= total l.
Proof. induction 1 as [|a l Ha _ IH]; simpl; [lia|]. destruct a; simpl in *; lia. Qed.

(** before the end every answer was progress *)
Lemma not_stopped_short len l : Forall answer_ok l -> stopped len l = false ->
  Z.of_nat (length l) <= total l + closings l /\ total l < len /\ closings l < 10.
Proof.
  intros Hok. unfold stopped. rewrite !orb_false_iff, !Z.leb_gt. intros [[Hf H1] H2].
  split; [|done]. clear H1 H2. induction Hok as [|a l Ha _ IH]; simpl in *; [done|].
  rewrite orb_false_iff in Hf. destruct Hf as [Hf1 Hf2]. specialize (IH Hf2). destruct a; simpl in *; try done; lia.
Qed.

Section recv.
Context `{O : Options, U : UnorderedIter, G : GlobalAddrs}.
Context (Hnb : non_block_recv = true).

(** the answers [d] have been read, [l] are still to come *)
Definition reading (len : Z) (d l : list answer) : Prop :=
  Forall answer_ok (d ++ l) /\ total (d ++ l) <= len /\ existsb is_failure d = false /\
  len + 10 <= Z.of_nat (length (d ++ l)) /\
  forall j, (j < length d)%nat -> stopped len (take j d) = false.
(** the loop has ended with [ret] after [k] of the answers [l] *)
Definition ended (len : Z) (l : list answer) (rest : list Z) (k : nat) (ret : Z) (env : list Z) : Prop :=
  Z.of_nat k <= len + 10 /\ stopped len (take k l) = true /\
  (forall j, (j < k)%nat -> stopped len (take j l) = false) /\
  ret = recv_result (take k l) /\ env = (concat (inputs <$> drop k l) ++ rest)%list.

Lemma reading_next len d a l : reading len d (a :: l) -> stopped len d = false -> is_failure a = false ->
  reading len (d ++ [a]) l.
Proof using Type.
  clear Hnb. intros (H1 & H2 & H3 & H4 & H5) Hs Ha. unfold reading. rewrite <-!(assoc_L (++)%list). split_and!; [done..| |done|].
  - rewrite existsb_app, H3. simpl. by rewrite Ha.
  - intros j Hj. rewrite length_app in Hj. simpl in Hj. destruct (decide (j = length d)) as [->|].
    + by rewrite take_app_length.
    + rewrite take_app_le by lia. apply H5. lia.
Qed.
Lemma reading_ended len d l rest : 0 <= len -> reading len d l -> stopped len d = true ->
  ended len (d ++ l) rest (length d) (total d) (concat (inputs <$> l) ++ rest).
Proof using Type.
  clear Hnb. intros Hlen (H1 & H2 & H3 & H4 & H5) Hs. unfold ended. rewrite take_app_length, drop_app_length.
  split_and!; [|done| |unfold recv_result; by rewrite H3|done].
  - destruct (length d) as [|n] eqn:Hn; [lia|]. specialize (H5 n ltac:(lia)).
    apply Forall_app in H1 as [Hd _].
    destruct (not_stopped_short len (take n d)) as (B1 & B2 & B3); [by apply Forall_take|done|].
    rewrite length_take in B1. lia.
  - intros j Hj. rewrite take_app_le by lia. by apply H5.
Qed.

Lemma recv_fails len d e l rest : reading len d (Fails e :: l) -> stopped len d = false ->
  ended len (d ++ Fails e :: l) rest (S (length d)) (if total d =? 0 then -1 else total d) (concat (inputs <$> l) ++ rest).
Proof using Type.
  clear Hnb. intros (H1 & H2 & H3 & H4 & H5) Hs. unfold ended.
  replace (d ++ Fails e :: l)%list with ((d ++ [Fails e]) ++ l)%list by by rewrite <-(assoc_L (++)%list).
  replace (S (length d)) with (length (d ++ [Fails e])) by (rewrite length_app; simpl; lia).
  rewrite take_app_length, drop_app_length. apply Forall_app in H1 as [Hd _].
  destruct (not_stopped_short _ _ Hd Hs) as (B1 & B2 & B3). rewrite length_app. simpl.
  split_and!; [lia| | | |done].
  - unfold stopped. rewrite existsb_app. simpl. by rewrite orb_true_r.
  - intros j Hj. rewrite <-(assoc_L (++)%list). destruct (decide (j = length d)) as [->|].
    + by rewrite take_app_length.
    + rewrite take_app_le by lia. apply H5. lia.
  - unfold recv_result. rewrite existsb_app, total_app. simpl. rewrite orb_true_r, Z.add_0_r. simpl. by destruct (total d =? 0).
Qed.

(** the condition of the loop *)
Lemma recv_cond len d l : 0 <= len < 2 ^ 31 -> reading len d l ->
  (s32 (total d) <? s32 len) && (closings d <? 10) = negb (stopped len d) /\ 0 <= total d <= len.
Proof using Type.
  clear Hnb. intros Hlen (H1 & H2 & H3 & _). apply Forall_app in H1 as [Hd Hl].
  pose proof (total_pos _ Hd). pose proof (total_pos _ Hl). rewrite total_app in H2.
  split; [|lia]. unfold stopped. rewrite H3, !s32_small by lia. simpl. lia.
Qed.

Lemma recv_loop th len rest : 0 <= len < 2 ^ 31 -> forall l d w,
  reading len d l -> env_of w th = (concat (inputs <$> l) ++ rest)%list ->
  returns th (Iter (recv_round len) (total d, closings d) Ret)
    (fun ret w' => exists k, ended len (d ++ l) rest k ret (env_of w' th)) w.
Proof using Hnb.
  intros Hlen l. induction l as [|a l IH]; intros d w Hr Henv; destruct (recv_cond _ _ _ Hlen Hr) as [Hc Hpos];
    apply r_iter; cbn [recv_round]; rewrite Hc; (destruct (stopped len d) eqn:Hs; cbv [negb]; cbv iota;
      [apply r_ret, r_ret; exists (length d); rewrite Henv; apply reading_ended; [lia|done..]|]);
    pose proof Hr as (H1 & H2 & _ & H4 & _); apply Forall_app in H1 as [Hd Hl];
    destruct (not_stopped_short _ _ Hd Hs) as (B1 & B2 & B3).
  { rewrite app_nil_r in H4. lia. }
  apply r_bind. destruct a as [n e|e r e'|e]; simpl in Henv; (eapply r_sys_call; [exact Henv|]); cbv zeta.
  - apply Forall_cons in Hl as [Ha Hl]. simpl in Ha. rewrite total_app in H2. simpl in H2. pose proof (total_pos _ Hl).
    rewrite (proj2 (Z.leb_le 0 n)), (proj2 (Z.ltb_ge n 0)), Hnb by lia. simpl orb. cbv iota.
    rewrite (proj2 (Z.eqb_neq n 0)) by lia. apply r_ret. rewrite s64_small by lia.
    replace (total d + n) with (total (d ++ [Got n e])) by (rewrite total_app; simpl; lia).
    replace (closings d) with (closings (d ++ [Got n e])) by (rewrite closings_app; simpl; lia).
    replace (d ++ Got n e :: l)%list with ((d ++ [Got n e]) ++ l)%list by by rewrite <-(assoc_L (++)%list).
    apply IH; [by apply reading_next|]. by rewrite env_set_tls, env_set_env.
  - rewrite Hnb. change (0 <=? 0) with true. change ((0 <? 0) || negb true) with false.
    change (0 =? 0) with true. cbv iota. rewrite Z.add_0_r, s64_small by lia.
    apply r_bind. eapply r_sys_call; [by rewrite env_set_tls, env_set_env|]. apply r_ret.
    replace (total d) with (total (d ++ [Closed e r e'])) by (rewrite total_app; simpl; lia).
    replace (closings d + 1) with (closings (d ++ [Closed e r e'])) by (rewrite closings_app; simpl; lia).
    replace (d ++ Closed e r e' :: l)%list with ((d ++ [Closed e r e']) ++ l)%list by by rewrite <-(assoc_L (++)%list).
    apply IH; [by apply reading_next|]. by rewrite env_set_tls, env_set_env.
  - simpl orb. cbv iota. apply r_ret, r_ret. exists (S (length d)).
    rewrite env_set_tls, env_set_env. simpl. by apply recv_fails.
Qed.
End recv.

(** ** Claims *)
Section claims.
Context `{O : Options, U : UnorderedIter, G : GlobalAddrs}.

(** C24: with non_block_recv, a call of recv always returns.  Whatever the socket answers
    (bytes, as many as were asked for at most, a shut-down peer or an error), the loop of
    Runtime::__recv ends after at most [len] + 10 calls of recv: at the first failure,
    when [len] bytes have arrived, or when recv has returned 0 ten times.  The result is
    the number of bytes received in all, or -1 when the call failed before any arrived;
    no answer after the last one needed is read. *)
Theorem recv_returns th len error (l : list answer) rest w :
  non_block_recv = true -> 0 <= len < 2 ^ 31 -> Forall answer_ok l -> total l <= len ->
  len + 10 <= Z.of_nat (length l) -> env_of w th = (concat (inputs <$> l) ++ rest)%list ->
  exists n k err w', run n th (Runtime_recv len error) w = Done (recv_result (take k l), err) w' /\
    Z.of_nat k <= len + 10 /\ stopped len (take k l) = true /\
    (forall j, (j < k)%nat -> stopped len (take j l) = false) /\
    env_of w' th = (concat (inputs <$> drop k l) ++ rest)%list.
Proof using Type.
  intros Hnb Hlen Hok Htot Hlong Henv.
  assert (Hr : returns th (Runtime_recv len error) (fun r w' => exists k, ended len l rest k r.1 (env_of w' th)) w).
  { unfold Runtime_recv. apply r_tls_set, r_bind.
    eapply r_mono; [apply (recv_loop Hnb th len rest Hlen l [])|].
    - split_and!; [done..|]. simpl. lia.
    - by rewrite env_set_tls.
    - cbn beta. intros ret w' [k Hk]. apply r_tls_get, r_ret. exists k. by rewrite env_set_tls. }
  destruct Hr as (n & [ret err] & w' & Hrun & k & H1 & H2 & H3 & H4 & H5). simpl in *. subst ret.
  by exists n, k, err, w'.
Qed.

(** a buffer of 2^31 bytes or more is never filled.  The loop compares the sizes as
    ints, so with 2^31 <= len < 2^32 the call returns 0, which means that the peer has
    shut down, without asking the socket at all. *)
Theorem recv_large_buffer th len error w : 2 ^ 31 <= len < 2 ^ 32 ->
  exists n w', run n th (Runtime_recv len error) w = Done (0, error) w' /\ env_of w' th = env_of w th.
Proof using Type.
  intros Hlen. assert (Hs : s32 len < 0).
  { unfold s32. rewrite <-(Z_mod_plus_full _ (-1)), Z.mod_small by lia. lia. }
  assert (Hr : returns th (Runtime_recv len error) (fun r w' => r = (0, error) /\ env_of w' th = env_of w th) w).
  { unfold Runtime_recv. apply r_tls_set, r_bind, r_iter. cbn [recv_round].
    rewrite (proj2 (Z.ltb_ge (s32 0) (s32 len))) by (change (s32 0) with 0; lia). simpl andb. cbv iota.
    apply r_ret, r_ret, r_tls_get, r_ret. split; [|done]. by rewrite tls_set_tls. }
  destruct Hr as (n & r & w' & Hrun & -> & He). by exists n, w'.
Qed.
End claims.

Section witnesses.
Definition nb_options : Options := {|
  ndebug := false; scheduling_policy := 0; enforce_turn_type := 2; launch_idle_thread := 2;
  enforce_non_det_annotations := 0; enforce_no_wait_non_det_annotations := 0;
  enforce_next_n_annotations := false; enforce_ext_turn := false; enforce_dummy_sync := false;
  enforce_non_det_clock_bound := false; non_det_clock_bound := 1000; wakeamap_plus := false;
  high_priority_yield := false; nanosec_per_turn := 3000; log_sync := true;
  generate_per_sync_stats := false; record_runtime_stat := false;
  rr_ignore_rw_regular_file := true; enforce_delays := false; log_task_time := 0;
  non_det_for_single_thread := 0; exec_sleep := false; non_block_recv := true;
  set_mutex_errorcheck := false; DMT := true; enforce_annotations := true;
  disable_soba := false; dync_geteip := false; whole_stack_eip_signature := false; backtrace_level := 0 |}.
Local Existing Instance nb_options.
Local Existing Instance elements_order.
Local Existing Instance sample_addrs.

(** 5 bytes are asked for; 2 and then 1 arrive, and the peer shuts down *)
Definition some_answers : list answer :=
  [Got 2 0; Closed 0 0 0; Got 1 0] ++ repeat (Closed 0 0 0) 12.
Definition recv_world : world := world_of (c_s (cfg_of [])) [1000] {[ 1000 := concat (inputs <$> some_answers) ]}.

Lemma recv_returns_witness :
  exists n k err w', run n 1000 (Runtime_recv 5 0) recv_world = Done (recv_result (take k some_answers), err) w' /\
    Z.of_nat k <= 5 + 10 /\ stopped 5 (take k some_answers) = true /\
    (forall j, (j < k)%nat -> stopped 5 (take j some_answers) = false) /\
    env_of w' 1000 = (concat (inputs <$> drop k some_answers) ++ [])%list.
Proof.
  apply recv_returns; [reflexivity|done| |vm_compute; discriminate|vm_compute; discriminate|].
  - repeat constructor.
  - rewrite app_nil_r. vm_compute. reflexivity.
Defined.
Lemma recv_large_buffer_witness :
  exists n w', run n 1000 (Runtime_recv (2 ^ 31) 7) recv_world = Done (0, 7) w' /\ env_of w' 1000 = env_of recv_world 1000.
Proof. apply recv_large_buffer. done. Defined.
End witnesses.
