(* ===== verification/RtTime.v ===== *)
(** * Properties of the conversion of times to turns *)
From S2P Require Import Prelude Options TidMap Scheduler RtState Proc RtBase.
From S2P Require Import SchedRun.

Definition ns_of (t : timespec) : Z := tv_sec t * 1000000000 + tv_nsec t.
Definition normal (t : timespec) : Prop := 0 <= tv_nsec t < 1000000000.

(** time_diff is the difference of two times: its result is normalised when its
    arguments are, and stands for the exact number of nanoseconds between them, also when
    [fin] is before [start]. *)
Theorem time_diff_exact start fin : normal start -> normal fin ->
  normal (time_diff start fin) /\ ns_of (time_diff start fin) = ns_of fin - ns_of start.
Proof.
  unfold normal, ns_of, time_diff. intros H1 H2. destruct (_ <? 0) eqn:E; simpl; lia.
Qed.
Lemma time_diff_exact_witness :
  normal (time_diff (Timespec 5 900000000) (Timespec 7 100000000)) /\
  ns_of (time_diff (Timespec 5 900000000) (Timespec 7 100000000)) = 1200000000.
Proof. apply (time_diff_exact (Timespec 5 900000000) (Timespec 7 100000000)); unfold normal; simpl; lia. Defined.

Section turns.
Context `{O : Options}.

Lemma time2turn_value ns : launch_idle_thread <> 0 -> 0 < nanosec_per_turn < 2 ^ 64 -> 0 <= ns ->
  time2turn ns = Some (Z.min MAX_REL (ns / nanosec_per_turn)).
Proof.
  intros Hl Hn Hns. unfold time2turn. rewrite (proj2 (Z.eqb_neq _ _) Hl), u64_small by lia. cbv zeta. f_equal.
  assert (0 <= ns / nanosec_per_turn) by (apply Z.div_pos; lia).
  destruct (Z.ltb_spec MAX_REL (ns / nanosec_per_turn)); unfold MAX_REL in *; [lia|].
  rewrite s32_small; lia.
Qed.

(** C30: a relative time that is not negative becomes the number of whole turns of
    nanosec_per_turn it lasts, at most 1,000,000 and at least 5 * nthread + 1. *)
Theorem relTimeToTurn_value nthread t : launch_idle_thread <> 0 -> 0 < nanosec_per_turn < 2 ^ 64 ->
  0 <= ns_of t < 2 ^ 63 ->
  relTimeToTurn nthread (Some t) =
    Some (Z.max (5 * nthread + 1) (Z.min MAX_REL (ns_of t / nanosec_per_turn))).
Proof.
  intros Hl Hn Ht. unfold relTimeToTurn. fold (ns_of t). rewrite s64_small, u64_small by lia.
  rewrite time2turn_value by (done || lia). simpl. f_equal. destruct (_ <? _) eqn:E; lia.
Qed.

(** a time in the past does not become a short wait: its nanoseconds are converted to
    an unsigned 64-bit number, so the wait is the longest one, 1,000,000 turns. *)
Theorem past_waits_longest nthread t : launch_idle_thread <> 0 -> 0 < nanosec_per_turn <= 1000000000 ->
  - 2 ^ 63 <= ns_of t < 0 ->
  relTimeToTurn nthread (Some t) = Some (Z.max (5 * nthread + 1) MAX_REL).
Proof.
  intros Hl Hn Ht. unfold relTimeToTurn. fold (ns_of t). rewrite s64_small by lia.
  rewrite time2turn_value; [|done|lia|apply u64_range]. simpl.
  assert (Hu : u64 (ns_of t) = ns_of t + 2 ^ 64)
    by (unfold u64; rewrite <-(Z_mod_plus_full _ 1), Z.mod_small; lia).
  rewrite Hu, Z.min_l.
  - f_equal. destruct (_ <? _) eqn:E; unfold MAX_REL in *; lia.
  - unfold MAX_REL. apply Z.div_le_lower_bound; lia.
Qed.
End turns.

Lemma relTimeToTurn_value_witness :
  @relTimeToTurn sample_options 4 (Some (Timespec 0 300000)) = Some 100.
Proof.
  rewrite (@relTimeToTurn_value sample_options 4 (Timespec 0 300000)); vm_compute; try done; split; congruence.
Defined.
Lemma past_waits_longest_witness :
  @relTimeToTurn sample_options 4 (Some (Timespec (-1) 999999999)) = Some 1000000.
Proof.
  rewrite (@past_waits_longest sample_options 4 (Timespec (-1) 999999999)); vm_compute; try done; split; congruence.
Defined.
