(* ===== verification/RtThms.v ===== *)
(** * Properties of the runtime *)
From S2P Require Import Prelude Options RunQueue RunQueueSpec TidMap NonDetSet Scheduler SchedInv SchedOps.
From S2P Require Import SchedSys SchedRun SchedTurns SyncFuncs RtState Proc RtDisc RtBase RtSync RtAnnot RtThread.
From S2P Require Import RtDet RtApp RtRun.

Section determinism.
Context `{O : Options, U : UnorderedIter, G : GlobalAddrs, N : NodeAddrs}.

(** C1: determinism.  Take a process whose threads only call synchronisation methods of
    the runtime, each with its own fixed sequence of inputs from outside.  If one
    interleaving of the threads comes to an end in [c1], then every other interleaving,
    however far it has got, can be continued to the same state [c1] with the same total
    number of steps: the interleaving decides neither the order of the synchronisations,
    nor any result, nor whether the process ends. *)
Theorem runtime_deterministic c l1 c1 l2 c2 :
  0 <= enforce_turn_type <= 2 -> flag_set scheduling_policy 2 = false -> app_process c ->
  psteps c l1 c1 -> quiescent c1 -> psteps c l2 c2 ->
  exists l, psteps c2 l c1 /\ length l1 = (length l2 + length l)%nat.
Proof using Type.
  intros Htt Hpol Hc H1 Hq H2. destruct (app_good Hpol _ Hc) as [tok Hg].
  by apply (completes Htt l2 tok c l1 c1 c2).
Qed.
End determinism.

Section determinism_witness.
Local Existing Instance sample_options.
Local Existing Instance elements_order.
Local Existing Instance sample_addrs.
Local Existing Instance sample_nodes.

(** two threads that lock and unlock the same mutex and end *)
Definition two_apps (th : Z) : app unit :=
  AppDo 1 (RMutexLock 500) (fun _ => AppDo 2 (RMutexUnlock 500) (fun _ =>
    AppDo 3 RThreadEnd (fun _ => AppEnd tt))).
Definition two_threads : process :=
  Process (<[1000 := app_prog 1000 (two_apps 1000)]> {[ 1001 := app_prog 1001 (two_apps 1001) ]})
    (world_of (c_s (cfg_of [EGet 0; ECreate 0 1001 2; EInc 0; EPut 0 1000 0])) [1000; 1001] ∅).
Definition two_all : list Z * process := greedy 400 [1000; 1001] two_threads.
Definition two_part : list Z * process := greedy 20 [1001; 1000] two_threads.

Lemma two_threads_app : app_process two_threads.
Proof.
  split.
  - exists 1. eapply (cfg_of_turn _ 1); vm_compute; reflexivity.
  - intros th p. cbn [two_threads p_threads]. rewrite lookup_insert_Some, lookup_singleton_Some.
    intros [[<- <-]|(_ & <- & <-)]; by eexists (two_apps _).
  - intros th. apply det_tls0.
  - intros th1 th2. cbn [two_threads p_threads]. rewrite !lookup_insert_is_Some, !lookup_singleton_is_Some.
    intros [<-|[_ <-]] [<-|[_ <-]]; by vm_compute.
Qed.

Lemma runtime_deterministic_witness :
  exists l, psteps two_part.2 l two_all.2 /\ length two_all.1 = (length two_part.1 + length l)%nat.
Proof.
  apply (runtime_deterministic two_threads two_all.1 two_all.2 two_part.1 two_part.2).
  - by split.
  - reflexivity.
  - exact two_threads_app.
  - unfold two_all. exact (greedy_psteps 400 [1000; 1001] two_threads).
  - apply quiescentb_sound. vm_compute. reflexivity.
  - unfold two_part. exact (greedy_psteps 20 [1001; 1000] two_threads).
Defined.
End determinism_witness.
