(* ===== verification/RtMachine.v ===== *)
(** * The runtime over the queue machine

    The programs of the runtime run on [RRScheduler]; here they run on the queue machine
    of SchedMachine instead: [qcall] answers a call of the scheduler, [qexec] an operation,
    [qrun] an interleaving.  What the machine does the code does ([run_refined]), and
    by determinism a run of the machine to the end predicts every execution of the code. *)
From S2P Require Import Prelude Options RunQueue RunQueueSpec TidMap NonDetSet Scheduler SchedInv SchedOps.
From S2P Require Import SchedSys SchedRun SchedTurns SchedThms SchedMachine SchedSteady SyncFuncs RtState Proc RtDisc RtBase.
From S2P Require Import RtSync RtAnnot RtThread RtDet RtApp RtRun.

(** ** Calls of the scheduler *)

(** a call of the thread [t], whose handle is [th], that takes the turn *)
Definition qcall_posted {X} (c : scall X) (t : Z) (m : qmach) : option (X * qmach) :=
  match c with
  | SGetTurn => Some (tt, q_get m)
  | SWaitEnd => r ← q_reasons m !! t; Some (wake_code r, q_get m)
  | _ => None
  end.

(** some thread is left to run, or the program is over *)
Definition q_can_exit `{Options} (t th : Z) (m : qmach) : bool :=
  let m1 := q_signal th false m in
  negb (th =? 0) && bool_decide (q_ids m !! th = Some t) && (negb (t =? IdleThreadTid) || (launch_idle_thread =? 0)) &&
  ((1 <? Z.of_nat (length (q_rq m1))) || bool_decide (qw_tid <$> q_wq m1 = []) || (t =? MainThreadTid)).

(** a call of the thread that holds the turn *)
Definition qcall_held `{Options} {X} (c : scall X) (t th : Z) (m : qmach) : option (X * qmach) :=
  match c with
  | SPutTurn false st => if st =? 0 then Some (tt, q_put m) else None
  | SPutTurn true st => if (st =? 0) && q_can_exit t th m then Some (tt, q_exit th m) else None
  | SWaitBegin ch n =>
      if (1 <? Z.of_nat (length (q_rq (q_tick m)))) && negb ((ch =? 0) && (n =? FOREVER))
      then Some (tt, q_wait ch n m) else None
  | SSignal ch all => if ch =? 0 then None else Some (tt, q_signal ch all m)
  | SInc => Some (q_clock m, q_tick m)
  | SGetCount => Some (q_clock m -u32 1, m)
  | SCreate th' _ =>
      if bool_decide (q_ids m !! th' = None) && (q_next m <? MAX_THREAD_NUM)
      then Some (q_next m, q_create th' m) else None
  | SJoin th' => Some (tt, q_join th' m)
  | SZombie th' => Some (bool_decide (th' ∈ q_zombies m), m)
  | SNthread => Some (q_next m, m)
  | SRunqSize => Some (Z.of_nat (length (q_rq m)), m)
  | _ => None
  end.

Definition qcall `{Options} {X} (c : scall X) (t th : Z) (m : qmach) : option (X * qmach) :=
  if bool_decide (head (q_rq m) = Some t) then
    if q_held m then qcall_held c t th m else qcall_posted c t m
  else None.

(** ** Executions *)

(** the machine with the rest of the world; the scheduler of [v_world] is not used *)
Record qworld : Type := QWorld { v_mach : qmach; v_world : world }.

(** the world with scheduler [s] in place of the machine *)
Definition on_sched (s : sched) (v : qworld) : world := set_s s (v_world v).

Record qprocess : Type := QProcess { qp_threads : gmap Z (prog unit); qp_world : qworld }.

Section machine.
Context `{O : Options, U : UnorderedIter, G : GlobalAddrs}.

(** an operation of thread [th]; all but the calls of the scheduler are the code's *)
Definition qexec {X} (th : Z) (o : op X) (v : qworld) : option (X * qworld) :=
  let w := v_world v in
  match o with
  | Call c =>
      match qcall c (self_of w th) th (v_mach v) with
      | Some (x, m) => Some (x, QWorld m w)
      | None => None
      end
  | SetSelf =>
      match q_ids (v_mach v) !! th with
      | Some t => Some (tt, QWorld (v_mach v) (set_ids th (t, (ids_of w th).2) w))
      | None => None
      end
  | Forked => None
  | o =>
      match exec th o w with
      | Ok (x, w') => Some (x, QWorld (v_mach v) w')
      | Err _ => None
      end
  end.

Definition qstep (th : Z) (p : prog unit) (v : qworld) : option (prog unit * qworld) :=
  match p with
  | Ret _ => None
  | Act o k => match qexec th o v with Some (x, v') => Some (k x, v') | None => None end
  | Iter body s k => Some (r ← body s; match r with inl s' => Iter body s' k | inr x => k x end, v)
  end.

(** the interleaving [l] of the threads' steps, on the machine *)
Fixpoint qrun (l : list Z) (c : qprocess) : option qprocess :=
  match l with
  | [] => Some c
  | th :: l' =>
      match qp_threads c !! th with
      | Some p =>
          match qstep th p (qp_world c) with
          | Some (p', v') => qrun l' (QProcess (<[th := p']> (qp_threads c)) v')
          | None => None
          end
      | None => None
      end
  end.

(** ** The code does what the machine does *)

(** the process of the code that the process [c] of the machine stands for *)
Inductive stands_for (c : qprocess) : process -> Prop :=
| StandsFor s : represents s (v_mach (qp_world c)) ->
    stands_for c (Process (qp_threads c) (on_sched s (qp_world c))).

Context {P : PlainOptions}.

Lemma call_posted_refined {X} (c : scall X) t th q s m x m' : represents s m -> q_rq m = t :: q ->
  q_held m = false -> qcall_posted c t m = Some (x, m') ->
  exists s', scall_code c t th s = Ok (x, s') /\ represents s' m'.
Proof using P.
  intros Hs Hq Hh. destruct c; simpl; try done.
  - intros [= <- <-]. destruct (wp_elim _ _ _ (rep_get _ _ _ _ Hs Hq Hh)) as ([] & s' & ? & ?). eauto.
  - destruct (q_reasons m !! t) as [r|] eqn:Hr; [|done]. intros [= <- <-].
    destruct (wp_elim _ _ _ (rep_wait_end _ _ _ _ _ Hs Hq Hh Hr)) as (v & s' & ? & -> & ?). eauto.
Qed.

Lemma rep_size s m : represents s m ->
  wp (on_runq q_size) (fun x s' => x = Z.of_nat (length (q_rq m)) /\ s' = s) s.
Proof using Type. intros Hs. eapply wp_q_size; [apply (rp_inv _ _ Hs)|done]. Qed.

Lemma call_held_refined {X} (c : scall X) t th q s m x m' : represents s m -> q_rq m = t :: q ->
  q_held m = true -> qcall_held c t th m = Some (x, m') ->
  exists s', scall_code c t th s = Ok (x, s') /\ represents s' m'.
Proof using P.
  intros Hs Hq Hh.
  assert (Hend : forall Y (k : SM Y) (y : Y), wp k (fun r s' => r = y /\ represents s' m') s ->
    exists s', k s = Ok (y, s') /\ represents s' m') by (intros Y k y (r & s' & ? & -> & ?)%wp_elim; eauto).
  assert (Hunit : forall (k : SM unit), wp k (fun _ s' => represents s' m') s ->
    exists s', k s = Ok (tt, s') /\ represents s' m') by (intros k ([] & s' & ? & ?)%wp_elim; eauto).
  destruct c; cbn [qcall_held scall_code]; try done; try (intros [= <- <-]; apply Hend).
  - destruct at_thread_end; (destruct (strategy =? 0) eqn:E; [apply Z.eqb_eq in E as ->; simpl|done]).
    + destruct (q_can_exit t th m) eqn:Hx; [|done]. intros [= <- <-]. unfold q_can_exit in Hx.
      rewrite !andb_true_iff, !orb_true_iff, !bool_decide_eq_true, !negb_true_iff, !Z.eqb_neq, !Z.eqb_eq, Z.ltb_lt in Hx.
      destruct Hx as (((Hth & Hid) & Hne) & Hx). eapply Hunit, rep_exit; try done; [naive_solver|].
      destruct Hx as [[Hx|Hx%fmap_nil_inv]|Hx]; auto.
    + intros [= <- <-]. by eapply Hunit, rep_put.
  - destruct (_ && _) eqn:Hx; [|done]. intros [= <- <-].
    rewrite andb_true_iff, Z.ltb_lt, negb_true_iff, andb_false_iff, !Z.eqb_neq in Hx. destruct Hx as [Hlen Hcn].
    assert (exists q', q_rq (q_tick m) = t :: q') as [q' Hq'] by (simpl; rewrite Hq; eauto).
    rewrite Hq' in Hlen. destruct q' as [|y q']; [by cbn [length] in Hlen; lia|].
    eapply Hunit, rep_wait_begin; try done. naive_solver.
  - destruct (chan =? 0) eqn:E; [done|]. apply Z.eqb_neq in E. intros [= <- <-].
    eapply Hunit, wp_mono; [by eapply rep_signal|]. by intros [] s' [? _].
  - eapply wp_mono; [by eapply rep_tick|]. by intros r s' [-> ?].
  - unfold getTurnCount, Serializer_getTurnCount. wp_steps. by rewrite (rp_clock _ _ Hs).
  - destruct (_ && _) eqn:Hx; [|done]. apply andb_true_iff in Hx as [Hx1 Hx2].
    apply bool_decide_eq_true in Hx1. apply Z.ltb_lt in Hx2. intros [= <- <-].
    eapply Hend, wp_mono; [by eapply rep_create|]. by intros r s' [-> ?].
  - eapply wp_mono; [by apply rep_join|]. by intros [] s' ?.
  - unfold zombie. wp_steps. by rewrite (rp_zombies _ _ Hs).
  - wp_steps. split; [apply Hs|done].
  - eapply wp_mono; [by apply rep_size|]. by intros r s' [-> ->].
Qed.

Lemma call_refined {X} (c : scall X) t th s m x m' : represents s m -> qcall c t th m = Some (x, m') ->
  exists s', scall_code c t th s = Ok (x, s') /\ represents s' m'.
Proof using P.
  intros Hs. unfold qcall. case_bool_decide as Ht; [|done].
  destruct (q_rq m) as [|h q] eqn:Hq; [done|]. injection Ht as ->.
  destruct (q_held m) eqn:Hh; [by eapply call_held_refined|by eapply call_posted_refined].
Qed.

(** *** Operations, steps and interleavings *)
Lemma exec_sched {X} th (o : op X) s w x w' :
  match o with Call _ | SetSelf | Forked => False | _ => True end ->
  exec th o w = Ok (x, w') -> exec th o (set_s s w) = Ok (x, set_s s w').
Proof using Type.
  destruct w as [s0 r tl i e], o; intros []; cbn [exec set_s zoom];
    unfold zoom, set_rt, set_tls, set_env, set_s, tls_of, self_of, ids_of, env_of; cbn.
  - destruct (m r) as [[a r']|]; [|done]. by intros [= <- <-].
  - destruct (m r) as [[a r']|]; [|done]. by intros [= <- <-].
  - destruct (m _) as [[a r']|]; [|done]. by intros [= <- <-].
  - by intros [= <- <-].
  - destruct (default [] (e !! th)); [done|]. by intros [= <- <-].
Qed.

Lemma exec_refined {X} th (o : op X) s v x v' : represents s (v_mach v) -> qexec th o v = Some (x, v') ->
  exists s', exec th o (on_sched s v) = Ok (x, on_sched s' v') /\ represents s' (v_mach v').
Proof using P.
  intros Hs He. destruct v as [m w].
  assert (Hother : match o with Call _ | SetSelf | Forked => False | _ => True end ->
    match exec th o w with Ok (x, w') => Some (x, QWorld m w') | Err _ => None end = Some (x, v') ->
    exists s', exec th o (on_sched s (QWorld m w)) = Ok (x, on_sched s' v') /\ represents s' (v_mach v')).
  { intros Ho. destruct (exec th o w) as [[x' w']|] eqn:Hw; [|done]. intros [= -> <-]. exists s.
    split; [|done]. by apply exec_sched. }
  destruct o; try (by apply Hother); cbn [qexec v_world v_mach] in He.
  - destruct (qcall c _ th m) as [[x' m']|] eqn:Hc; [|done]. injection He as -> <-.
    destruct (call_refined _ _ _ _ _ _ _ Hs Hc) as (s' & Hs' & Hr). exists s'. split; [|done].
    destruct w as [s0 r tl i e].
    cbn. unfold zoom. cbn. unfold self_of, ids_of in *. cbn in *. by rewrite Hs'.
  - destruct (q_ids m !! th) as [t|] eqn:Ht; [|done]. injection He as <- <-. exists s. split; [|done].
    cbn [exec on_sched v_world set_s w_s]. unfold set_self, mbind, M_bind, get, cassert.
    rewrite (rp_ids _ _ Hs). cbn [v_mach]. rewrite Ht, plain_map, bool_decide_true by done. by destruct w.
Qed.

Lemma step_refined th p s v p' v' : represents s (v_mach v) -> qstep th p v = Some (p', v') ->
  exists s', step th p (on_sched s v) = Ok (p', on_sched s' v') /\ represents s' (v_mach v').
Proof using P.
  intros Hs. destruct p as [a|X o k|S X body b k]; cbn [qstep step]; [done| |].
  - destruct (qexec th o v) as [[x v1]|] eqn:He; [|done]. intros [= <- <-].
    destruct (exec_refined _ _ _ _ _ _ Hs He) as (s' & -> & Hr). by exists s'.
  - intros [= <- <-]. by exists s.
Qed.

Lemma run_refined l : forall c c' pc, stands_for c pc -> qrun l c = Some c' ->
  exists pc', psteps pc l pc' /\ stands_for c' pc'.
Proof using P.
  induction l as [|th l IH]; intros c c' pc Hc; cbn [qrun].
  - intros [= <-]. exists pc. split; [constructor|done].
  - destruct (qp_threads c !! th) as [p|] eqn:Hp; [|done].
    destruct (qstep th p (qp_world c)) as [[p' v']|] eqn:Hs; [|done]. intros Hr. destruct Hc as [s Hrep].
    destruct (step_refined _ _ _ _ _ _ Hrep Hs) as (s' & Hst & Hrep').
    destruct (IH (QProcess (<[th := p']> (qp_threads c)) v') c' _ (StandsFor (QProcess (<[th := p']> (qp_threads c)) v') s' Hrep') Hr) as (pc' & Hl & Hc').
    exists pc'. split; [|done]. econstructor; [|exact Hl]. by econstructor.
Qed.

Definition q_finished (c : qprocess) : Prop := map_Forall (fun _ p => p = mret tt) (qp_threads c).
#[export] Instance finished_prog_dec (p : prog unit) : Decision (p = mret tt).
Proof. destruct p as [[]| |]; [by left|by right..]. Defined.
#[export] Instance q_finished_dec c : Decision (q_finished c).
Proof. unfold q_finished. apply _. Defined.

Lemma finished_quiescent c pc : q_finished c -> stands_for c pc -> quiescent pc.
Proof using Type.
  intros Hf [s Hs] th c' [p p' w' Hp Hst _]. cbn [p_threads] in Hp. rewrite (Hf _ _ Hp) in Hst. done.
Qed.

(** C6: refinement.  The round-robin scheduler implements the queue machine under the
    runtime: whatever interleaving of the threads' programs the machine can run, the code
    runs, with the same results of every operation, and it ends in a state that the
    machine's last state stands for.  The machine knows nothing of the linked list of
    elements, the statuses, the wait_t records, the relay of the turn or the idle thread. *)
Theorem queue_machine_refined c l c' pc : stands_for c pc -> qrun l c = Some c' ->
  exists pc', psteps pc l pc' /\ stands_for c' pc'.
Proof using P. apply run_refined. Qed.

Context `{N : NodeAddrs}.

(** C7: prediction.  Run an application on the queue machine, in any order, until all its
    threads are done.  Then every execution of the code, however its threads are
    interleaved and however far it has got, can be continued to its end, with as many
    steps in all as the machine made, and there all the objects, the log and the queues are
    as the machine says. *)
Theorem queue_machine_predicts c l c' pc l2 pc2 : stands_for c pc -> app_process pc ->
  qrun l c = Some c' -> q_finished c' -> psteps pc l2 pc2 ->
  exists l3 pc', psteps pc2 l3 pc' /\ length l = (length l2 + length l3)%nat /\ stands_for c' pc'.
Proof using P.
  intros Hc Happ Hr Hf H2. destruct (run_refined _ _ _ _ Hc Hr) as (pc' & H1 & Hc').
  assert (Hpol : flag_set scheduling_policy 2 = false) by by rewrite plain_policy.
  destruct (app_good Hpol _ Happ) as [tok Hg].
  destruct (completes plain_turns l2 tok pc l pc' pc2) as (l3 & H3 & Hlen); try done.
  { by eapply finished_quiescent. }
  exists l3, pc'. done.
Qed.
End machine.

(** ** A program on the machine *)
Section sample.
Local Instance machine_options : Options := rr_sample 0.
Local Existing Instance elements_order.
Local Existing Instance sample_addrs.
Local Existing Instance sample_nodes.
Local Instance machine_plain : PlainOptions.
Proof. by split. Qed.

(** the main thread wakes a thread that waits on a condition variable, and joins it *)
Definition waker : app unit :=
  AppDo 1 (RMutexLock 500) (fun _ => AppDo 2 (RCondSignal 900) (fun _ =>
    AppDo 3 (RMutexUnlock 500) (fun _ => AppDo 4 (RJoin 1001) (fun _ =>
      AppDo 5 RThreadEnd (fun _ => AppEnd tt))))).
Definition waiter : app unit :=
  AppDo 6 (RMutexLock 500) (fun _ => AppDo 7 (RCondWait 900 500) (fun _ =>
    AppDo 8 (RMutexUnlock 500) (fun _ => AppDo 9 RThreadEnd (fun _ => AppEnd tt)))).

Definition machine_cfg : config :=
  default dummy_config (run_from_start 1000 [EGet 0; ECreate 0 1001 2; EInc 0; EPut 0 1000 0]).
Definition machine_queues : turnq := TurnQ [1; 0] [] 1.
Definition woken_threads : gmap Z (prog unit) :=
  <[1000 := app_prog 1000 waker]> {[ 1001 := app_prog 1001 waiter ]}.
Definition woken_world : world := world_of blank_sched [1000; 1001] {[ 1000 := [0; 0; 0] ]}.
Definition woken_code : process := Process woken_threads (set_s (c_s machine_cfg) woken_world).
Definition woken_machine : qprocess :=
  QProcess woken_threads (QWorld (mach_of (c_s machine_cfg) machine_queues false) woken_world).
Definition woken_all : list Z := (greedy 600 [1000; 1001] woken_code).1.
Definition woken_end : qprocess := default woken_machine (qrun woken_all woken_machine).
Definition woken_part : list Z * process := greedy 30 [1001; 1000] woken_code.

Lemma machine_steady : steady (c_s machine_cfg) machine_queues (Posted 1).
Proof.
  assert (Ho : rr_options) by by split.
  assert (Hr : bool_decide (is_Some (run_from_start 1000 [EGet 0; ECreate 0 1001 2; EInc 0; EPut 0 1000 0])) = true)
    by (vm_compute; reflexivity).
  assert (Hc : reachable machine_cfg).
  { apply bool_decide_eq_true in Hr as [c Hc]. unfold machine_cfg. rewrite Hc. by eapply run_from_start_reachable. }
  assert (Ht : c_tok machine_cfg = Posted 1) by (vm_compute; reflexivity).
  assert (Hs : steadyb (c_s machine_cfg) machine_queues = true) by (vm_compute; reflexivity).
  rewrite <-Ht. exact (steadyb_sound machine_cfg machine_queues Ho Hc Hs).
Qed.
Lemma woken_stands : stands_for woken_machine woken_code.
Proof.
  apply (StandsFor woken_machine). destruct (steady_represents _ _ false _ machine_steady) as [Hr _]. exact Hr.
Qed.
Lemma woken_app : app_process woken_code.
Proof.
  split.
  - exists 1. apply (inv_turn_at _ (a_rq machine_queues)), machine_steady.
  - intros th p. unfold woken_code, woken_threads. cbn [p_threads]. rewrite lookup_insert_Some, lookup_singleton_Some.
    intros [[<- <-]|(_ & <- & <-)]; by eexists.
  - intros th. apply det_tls0.
  - intros th1 th2. unfold woken_code, woken_threads. cbn [p_threads]. rewrite !lookup_insert_is_Some, !lookup_singleton_is_Some.
    intros [<-|[_ <-]] [<-|[_ <-]]; by vm_compute.
Qed.
Lemma woken_runs : qrun woken_all woken_machine = Some woken_end.
Proof.
  assert (Hr : bool_decide (is_Some (qrun woken_all woken_machine)) = true) by (vm_compute; reflexivity).
  apply bool_decide_eq_true in Hr as [c Hc]. unfold woken_end. by rewrite Hc.
Qed.

Lemma queue_machine_refined_witness :
  exists pc', psteps woken_code woken_all pc' /\ stands_for woken_end pc'.
Proof. exact (queue_machine_refined woken_machine woken_all woken_end woken_code woken_stands woken_runs). Defined.

Lemma queue_machine_predicts_witness : exists l3 pc', psteps woken_part.2 l3 pc' /\
  length woken_all = (length woken_part.1 + length l3)%nat /\ stands_for woken_end pc'.
Proof.
  apply (queue_machine_predicts woken_machine woken_all woken_end woken_code woken_part.1 woken_part.2).
  - exact woken_stands.
  - exact woken_app.
  - exact woken_runs.
  - refine (proj1 (bool_decide_eq_true (q_finished woken_end)) _). vm_compute. reflexivity.
  - unfold woken_part. exact (greedy_psteps 30 [1001; 1000] woken_code).
Defined.
End sample.
