(* ===== verification/RtRaces.v ===== *)
(** * Races of the runtime, as executions *)
From S2P Require Import Prelude Options RunQueue RunQueueSpec TidMap NonDetSet Scheduler SchedInv SchedOps.
From S2P Require Import SchedSys SchedRun SchedTurns SyncFuncs RtState Proc RtDisc RtBase RtSync RtAnnot RtThread.
From S2P Require Import RtDet RtApp RtRun.

(** the options of the samples with another policy and idle-thread setting *)
Definition options_with (nd : bool) (policy idle : Z) : Options := {|
  ndebug := nd; scheduling_policy := policy; enforce_turn_type := 2; launch_idle_thread := idle;
  enforce_non_det_annotations := 0; enforce_no_wait_non_det_annotations := 0;
  enforce_next_n_annotations := false; enforce_ext_turn := false; enforce_dummy_sync := false;
  enforce_non_det_clock_bound := false; non_det_clock_bound := 1000; wakeamap_plus := false;
  high_priority_yield := false; nanosec_per_turn := 3000; log_sync := true;
  generate_per_sync_stats := false; record_runtime_stat := false;
  rr_ignore_rw_regular_file := true; enforce_delays := false; log_task_time := 0;
  non_det_for_single_thread := 0; exec_sleep := false;
  non_block_recv := false; set_mutex_errorcheck := false; DMT := true; enforce_annotations := true;
  disable_soba := false; dync_geteip := false; whole_stack_eip_signature := false; backtrace_level := 0 |}.

(** ** Two threads create a thread at the same time *)
Section create_race.
Local Existing Instance elements_order.
Local Existing Instance sample_addrs.
Local Existing Instance sample_nodes.

(** main (1000) and a second thread (1001) call pthread_create; 2001 and 2002 are the
    handles of the new threads *)
Definition creators (nd : bool) : process :=
  let O := options_with nd 0 0 in
  Process
    (<[1000 := (_ ← pthreadCreate (O := O) 1000 11 8; mret tt)]>
     (<[1001 := (_ ← pthreadCreate (O := O) 1001 10 7; mret tt)]>
      (<[2001 := tern_thread_func (O := O) 2001 (mret tt)]>
       {[ 2002 := tern_thread_func (O := O) 2002 (mret tt) ]})))
    (world_of (c_s (cfg_of [EGet 0; ECreate 0 1001 2; EInc 0; EPut 0 1000 0])) [1000; 1001]
      (<[1000 := [0; 2002]]> {[ 1001 := [0; 2001] ]})).

(** 1001 creates 2001 and gives up the turn; 1000 starts 2002 under the turn; the post of
    1001 lets 2002 through before 1000 has given it an id *)
Definition race_schedule : list Z :=
  replicate 19 1001 ++ replicate 7 1000 ++ [1001] ++ replicate 5 2002.
Definition race_end (nd : bool) : process :=
  after (O := options_with nd 0 0) race_schedule (creators nd).

(** C28: the semaphores of pthread_create do not pair a thread with its creator.  The post
    of one creator, made after it has given up the turn, can let the thread of another
    creator run before that thread has an id: self() then looks for a handle that is not
    in the map and fails the assertion, or dereferences end() with NDEBUG. *)
Theorem create_race nd :
  psteps (O := options_with nd 0 0) (creators nd) race_schedule (race_end nd) /\
  p_threads (race_end nd) !! 2002 = Some (prog_of (race_end nd) 2002) /\
  step (O := options_with nd 0 0) 2002 (prog_of (race_end nd) 2002) (p_world (race_end nd)) =
    Err (if nd then NullDeref else AssertFail "pthread tid not in map!").
Proof.
  assert (H1 : can_run (O := options_with nd 0 0) race_schedule (creators nd) = true)
    by (destruct nd; vm_compute; reflexivity).
  assert (H2 : has_thread (race_end nd) 2002 = true) by (destruct nd; vm_compute; reflexivity).
  split; [|split].
  - unfold race_end. exact (after_psteps (O := options_with nd 0 0) _ _ H1).
  - exact (prog_of_lookup _ _ H2).
  - destruct nd; vm_compute; reflexivity.
Qed.
End create_race.

(** ** The policy that keeps the turn until all waiters are served (scheduling_policy & 2) *)
Section policy_race.
Local Existing Instance elements_order.
Local Existing Instance sample_addrs.
Local Existing Instance sample_nodes.
Let O2 : Options := options_with false 2 2.
Local Existing Instance O2.

Fixpoint dummies (k : nat) (a : app unit) : app unit :=
  match k with 0%nat => a | S k => AppDo 9 (RSymbolic 0 0) (fun _ => dummies k a) end.
(** two threads wait on condition variable 700 *)
Definition waiter : app unit :=
  AppDo 1 (RMutexLock 500) (fun _ => AppDo 2 (RCondWait 700 500) (fun _ =>
  AppDo 3 (RMutexUnlock 500) (fun _ => AppDo 4 RThreadEnd (fun _ => AppEnd tt)))).
(** one thread signals it, yields and synchronises twice *)
Definition yielder : app unit :=
  dummies 3 (AppDo 5 (RCondSignal 700) (fun _ => AppDo 6 RYield (fun _ =>
    AppDo 7 (RSymbolic 1 1) (fun _ => AppDo 8 (RSymbolic 2 2) (fun _ =>
    AppDo 4 RThreadEnd (fun _ => AppEnd tt)))))).
(** another one signals it too *)
Definition signaller : app unit :=
  dummies 4 (AppDo 5 (RCondSignal 700) (fun _ => AppDo 10 (RSymbolic 3 3) (fun _ =>
    AppDo 4 RThreadEnd (fun _ => AppEnd tt)))).
Definition four_app (th : Z) : app unit :=
  if th =? 1000 then yielder else if th =? 1001 then signaller else waiter.
Definition four_threads : process :=
  Process (list_to_map ((fun th => (th, app_prog th (four_app th))) <$> [1000; 1001; 1002; 1003]))
    (world_of (c_s (cfg_of start_events)) [1000; 1001; 1002; 1003] {[ 1000 := [0; 0] ]}).
(** the yielder runs whenever it can, or only when no other thread can *)
Definition yielder_first : list Z * process := greedy 1000 [1000; 1001; 1002; 1003] four_threads.
Definition yielder_last : list Z * process := greedy 1000 [1001; 1002; 1003; 1000] four_threads.

Lemma four_threads_app : app_process four_threads.
Proof.
  split.
  - exists 1. apply (cfg_of_turn start_events 1); vm_compute; reflexivity.
  - intros th p Hp. exists (four_app th). unfold four_threads in Hp. cbn [p_threads] in Hp.
    apply elem_of_list_to_map_2 in Hp. apply list_elem_of_fmap in Hp as (th' & [= -> ->] & _). done.
  - intros th. apply det_tls0.
  - intros th1 th2 [p1 H1] [p2 H2]. unfold four_threads in H1, H2. cbn [p_threads] in H1, H2.
    apply elem_of_list_to_map_2 in H1, H2.
    apply list_elem_of_fmap in H1 as (t1 & [= -> _] & H1). apply list_elem_of_fmap in H2 as (t2 & [= -> _] & H2).
    rewrite !elem_of_cons, elem_of_nil in H1, H2.
    destruct H1 as [->|[->|[->|[->|[]]]]], H2 as [->|[->|[->|[->|[]]]]]; by vm_compute.
Qed.

(** C29: with scheduling_policy & 2 the runtime is not deterministic.  After putTurn a thread
    looks without the turn whether the waiters it keeps the turn for have been served; a
    thread that has yielded races there with the signal of another thread.  Two complete
    executions of the same process leave different logs. *)
Theorem policy_not_deterministic :
  app_process four_threads /\
  (psteps four_threads yielder_first.1 yielder_first.2 /\ quiescent yielder_first.2) /\
  (psteps four_threads yielder_last.1 yielder_last.2 /\ quiescent yielder_last.2) /\
  g_log (w_rt (p_world yielder_first.2)) <> g_log (w_rt (p_world yielder_last.2)).
Proof.
  assert (Q1 : quiescentb yielder_first.2 = true) by (vm_compute; reflexivity).
  assert (Q2 : quiescentb yielder_last.2 = true) by (vm_compute; reflexivity).
  split_and!.
  - exact four_threads_app.
  - unfold yielder_first. exact (greedy_psteps 1000 [1000; 1001; 1002; 1003] four_threads).
  - exact (quiescentb_sound _ Q1).
  - unfold yielder_last. exact (greedy_psteps 1000 [1001; 1002; 1003; 1000] four_threads).
  - exact (quiescentb_sound _ Q2).
  - vm_compute. congruence.
Qed.
End policy_race.
