(* ===== verification/RtLog.v ===== *)
(** * The log entries of the runtime

    [logs P p]: program [p] only writes log entries that satisfy [P].  Every method of the
    runtime passes logSync at least the arguments that the switch of TxtLogger reads for
    the synchronisation, or one of three synchronisations that the switch does not know. *)
From S2P Require Import Prelude Options RunQueue TidMap NonDetSet Scheduler LogText SyncFuncs LogDefs.
From S2P Require Import SchedInv SchedOps SchedSys SchedRun RtState TxtLog TxtLogThms SchedTurns Proc RtDisc RtBase RtRuntime RtSync RtAnnot BusyWait RtThread RtNet RtDet RtApp RtRun.

(** ** Code on the globals that does not write the log *)
Definition quiet {X} (m : RTM X) : Prop := forall r, wpx any_error m (fun _ r' => g_log r' = g_log r) r.

Create HintDb quiet.
Section quiet_rules.
Context `{O : Options, N : NodeAddrs}.

Lemma q_ret {X} (x : X) : quiet (mret x).
Proof using Type. done. Qed.
Lemma q_fail {X} e : quiet (fail (A := X) e).
Proof using Type. done. Qed.
Lemma q_gets {X} (f : rt -> X) : quiet (gets f).
Proof using Type. done. Qed.
Lemma q_get : quiet get.
Proof using Type. done. Qed.
Lemma q_modify f : (forall r, g_log (f r) = g_log r) -> quiet (modify f).
Proof using Type. intros H r. apply H. Qed.
Lemma q_bind {X Y} (m : RTM X) (k : X -> RTM Y) : quiet m -> (forall x, quiet (k x)) -> quiet (m ≫= k).
Proof using Type.
  intros Hm Hk r. apply wp_bind. eapply wp_mono; [apply Hm|]. cbn beta. intros x r1 E.
  eapply wp_mono; [apply Hk|]. cbn beta. intros _ r2 ->. done.
Qed.
Lemma q_cassert nd b msg : quiet (cassert nd b msg).
Proof using Type. unfold cassert. by destruct (_ || _). Qed.
Lemma q_when b (m : RTM unit) : quiet m -> quiet (when b m).
Proof using Type. by destruct b. Qed.
End quiet_rules.
#[export] Hint Resolve q_ret q_fail q_gets q_get q_cassert : quiet.
Ltac quiet_auto :=
  repeat first
    [ progress intros
    | solve [auto 2 with quiet]
    | apply q_modify; intros; reflexivity
    | apply q_when
    | apply q_bind
    | match goal with |- quiet (match ?x with _ => _ end) => destruct x end ].

Section quiet_ops.
Context `{O : Options, N : NodeAddrs}.
Lemma q_mutex_init mu k : quiet (os_mutex_init mu k).
Proof using Type. unfold os_mutex_init. quiet_auto. Qed.
Lemma q_mutex_destroy mu : quiet (os_mutex_destroy mu).
Proof using Type. unfold os_mutex_destroy. quiet_auto. Qed.
Lemma q_mutex_trylock me mu : quiet (os_mutex_trylock me mu).
Proof using Type. unfold os_mutex_trylock. quiet_auto. Qed.
Hint Resolve q_mutex_trylock : quiet.
Lemma q_mutex_lock me mu : quiet (os_mutex_lock me mu).
Proof using Type. unfold os_mutex_lock. quiet_auto. Qed.
Lemma q_mutex_unlock me mu : quiet (os_mutex_unlock me mu).
Proof using Type. unfold os_mutex_unlock. quiet_auto. Qed.
Lemma q_rw_init rw : quiet (os_rwlock_init rw).
Proof using Type. unfold os_rwlock_init. quiet_auto. Qed.
Lemma q_rw_destroy rw : quiet (os_rwlock_destroy rw).
Proof using Type. unfold os_rwlock_destroy. quiet_auto. Qed.
Lemma q_tryrdlock rw : quiet (os_rwlock_tryrdlock rw).
Proof using Type. unfold os_rwlock_tryrdlock. quiet_auto. Qed.
Lemma q_trywrlock me rw : quiet (os_rwlock_trywrlock me rw).
Proof using Type. unfold os_rwlock_trywrlock. quiet_auto. Qed.
Hint Resolve q_tryrdlock q_trywrlock : quiet.
Lemma q_rdlock rw : quiet (os_rwlock_rdlock rw).
Proof using Type. unfold os_rwlock_rdlock. quiet_auto. Qed.
Lemma q_wrlock me rw : quiet (os_rwlock_wrlock me rw).
Proof using Type. unfold os_rwlock_wrlock. quiet_auto. Qed.
Lemma q_rwunlock rw : quiet (os_rwlock_unlock rw).
Proof using Type. unfold os_rwlock_unlock. quiet_auto. Qed.
Lemma q_sem_init s v : quiet (os_sem_init s v).
Proof using Type. unfold os_sem_init. quiet_auto. Qed.
Lemma q_sem_trywait s : quiet (os_sem_trywait s).
Proof using Type. unfold os_sem_trywait. quiet_auto. Qed.
Hint Resolve q_sem_trywait : quiet.
Lemma q_sem_wait s : quiet (os_sem_wait s).
Proof using Type. unfold os_sem_wait. quiet_auto. Qed.
Lemma q_sem_post s : quiet (os_sem_post s).
Proof using Type. unfold os_sem_post. quiet_auto. Qed.
Lemma q_plain m : quiet m -> quiet (plain m).
Proof using Type. intros H. unfold plain. quiet_auto. Qed.
Lemma q_cond_count cv : quiet (cond_count cv).
Proof using Type. unfold cond_count. quiet_auto. Qed.
Lemma q_cond_count_set cv n : quiet (cond_count_set cv n).
Proof using Type. unfold cond_count_set. quiet_auto. Qed.
Lemma q_sem_count cv : quiet (sem_count cv).
Proof using Type. unfold sem_count. quiet_auto. Qed.
Lemma q_sem_count_set cv n : quiet (sem_count_set cv n).
Proof using Type. unfold sem_count_set. quiet_auto. Qed.
Lemma q_load_anr p : quiet (load_anr p).
Proof using Type. unfold load_anr. quiet_auto. Qed.
Lemma q_line_count k : quiet (line_count k).
Proof using Type. unfold line_count. quiet_auto. Qed.
Lemma q_recordSync t op : quiet (recordSync t op).
Proof using Type. unfold recordSync. quiet_auto. Qed.
Lemma q_add_stat f : quiet (add_stat f).
Proof using Type. unfold add_stat. quiet_auto. Qed.
Lemma q_barrier_setup b n : quiet (barrier_setup b n).
Proof using Type. unfold barrier_setup. quiet_auto. Qed.
Lemma q_barrier_arrive b : quiet (barrier_arrive b).
Proof using Type. unfold barrier_arrive. quiet_auto. Qed.
Lemma q_anr_block cv a r : quiet (anr_block cv a r).
Proof using Type. unfold anr_block. quiet_auto. Qed.
Lemma q_anr_line cv : quiet (anr_line cv).
Proof using Type. unfold anr_line. quiet_auto. Qed.
Hint Resolve q_load_anr : quiet.
Lemma q_anr_unblock cv p : quiet (anr_unblock cv p).
Proof using Type. unfold anr_unblock. quiet_auto. Qed.
Lemma q_refcnt_get k : quiet (refcnt_get k).
Proof using Type. unfold refcnt_get. quiet_auto. Qed.
Lemma q_refcnt_put k b : quiet (refcnt_put k b).
Proof using Type. unfold refcnt_put. quiet_auto. Qed.
Lemma q_refcnt_deref k : quiet (refcnt_deref k).
Proof using Type. unfold refcnt_deref. quiet_auto. Qed.
Lemma q_begin_wait : quiet begin_wait.
Proof using Type. unfold begin_wait. quiet_auto. Qed.
Lemma q_begin_post : quiet begin_post.
Proof using Type. unfold begin_post. quiet_auto. Qed.
Lemma q_done_wait : quiet done_wait.
Proof using Type. unfold done_wait. quiet_auto. Qed.
Lemma q_done_post : quiet done_post.
Proof using Type. unfold done_post. quiet_auto. Qed.
Lemma q_started me : quiet (os_started_wait me).
Proof using Type. unfold os_started_wait. quiet_auto. Qed.
End quiet_ops.
#[export] Hint Resolve q_mutex_init q_mutex_destroy q_mutex_trylock q_mutex_lock q_mutex_unlock q_rw_init
  q_rw_destroy q_tryrdlock q_trywrlock q_rdlock q_wrlock q_rwunlock q_sem_init q_sem_trywait q_sem_wait
  q_sem_post q_plain q_cond_count q_cond_count_set q_sem_count q_sem_count_set q_load_anr q_line_count
  q_recordSync q_add_stat q_barrier_setup q_barrier_arrive q_anr_block q_anr_line q_anr_unblock
  q_refcnt_get q_refcnt_put q_refcnt_deref q_begin_wait q_begin_post q_done_wait q_done_post q_started : quiet.

(** ** Programs *)

(** the entries an operation on the globals adds satisfy [P] *)
Definition adds {X} (P : log_entry -> Prop) (m : RTM X) : Prop := forall r,
  wpx any_error m (fun _ r' => exists es, g_log r' = (es ++ g_log r)%list /\ Forall P es) r.
Definition op_logs {X} (P : log_entry -> Prop) (o : op X) : Prop :=
  match o with Rt m | Free m => adds P m | _ => True end.
Fixpoint logs {A} (P : log_entry -> Prop) (p : prog A) : Prop :=
  match p with
  | Ret _ => True
  | Act o k => op_logs P o /\ forall x, logs P (k x)
  | Iter body s k => (forall s, logs P (body s)) /\ forall x, logs P (k x)
  end.

(** an entry that the switch of TxtLogger handles, or one of the three it has forgotten *)
Definition forgotten : list syncfunc.t :=
  [syncfunc.pthread_rwlock_init; syncfunc.pthread_rwlock_destroy; syncfunc.tern_symbolic].
Definition typed (op : syncfunc.t) (args : list Z) : bool :=
  match line_arity txt_arity (index_of op) with
  | Some k => (k <=? length args)%nat
  | None => bool_decide (op ∈ forgotten)
  end.
Definition entry_typed (e : log_entry) : Prop := typed (l_op e) (l_args e) = true.

Create HintDb logs.
Section logs_rules.
Context `{O : Options, U : UnorderedIter, G : GlobalAddrs, N : NodeAddrs}.
Abbreviation L := (logs entry_typed).

Lemma quiet_adds {X} P (m : RTM X) : quiet m -> adds P m.
Proof using Type. intros H r. eapply wp_mono; [apply H|]. cbn beta. intros _ r' E. exists []. by split. Qed.
Lemma l_bind {A B} (p : prog A) (f : A -> prog B) : L p -> (forall a, L (f a)) -> L (p ≫= f).
Proof using Type.
  revert f. induction p as [A a|A X o k IH|A S X body _ s k IH]; intros f Hp Hf; simpl in *.
  - apply Hf.
  - destruct Hp as [H1 H2]. split; [done|]. intros x. by apply IH.
  - destruct Hp as [H1 H2]. split; [done|]. intros x. by apply IH.
Qed.
Lemma l_ret {A} (a : A) : L (mret a).
Proof using Type. done. Qed.
Lemma l_call {X} (c : scall X) : L (call c).
Proof using Type. done. Qed.
Lemma l_rt {X} (m : RTM X) : quiet m -> L (rt_do m).
Proof using Type. intros H. split; [by apply quiet_adds|done]. Qed.
Lemma l_free {X} (m : RTM X) : quiet m -> L (act (Free m)).
Proof using Type. intros H. split; [by apply quiet_adds|done]. Qed.
Lemma l_rt_get {X} (f : rt -> X) : L (rt_get f).
Proof using Type. by apply l_rt. Qed.
Lemma l_rt_set f : (forall r, g_log (f r) = g_log r) -> L (rt_set f).
Proof using Type. intros H. by apply l_rt, q_modify. Qed.
Lemma l_tls {X} (m : M tls X) : L (tls_do m).
Proof using Type. done. Qed.
Lemma l_tls_get {X} (f : tls -> X) : L (tls_get f).
Proof using Type. done. Qed.
Lemma l_tls_set f : L (tls_set f).
Proof using Type. done. Qed.
Lemma l_self : L (act Self).
Proof using Type. done. Qed.
Lemma l_set_self : L (act SetSelf).
Proof using Type. done. Qed.
Lemma l_forked : L (act Forked).
Proof using Type. done. Qed.
Lemma l_env q : L (act (Env q)).
Proof using Type. done. Qed.
Lemma l_pwhen c p : L p -> L (pwhen c p).
Proof using Type. by destruct c. Qed.
Lemma l_passert nd c msg : L (passert nd c msg).
Proof using Type. unfold passert. by destruct (_ || _). Qed.
Lemma l_ploop {X} (body : prog (option X)) : L body -> L (ploop body).
Proof using Type. intros H. split; [|done]. intros _. by apply l_bind. Qed.
Lemma l_pfor {A} (f : A -> prog unit) l : (forall x, L (f x)) -> L (pfor f l).
Proof using Type. intros H. induction l; [done|]. by apply l_bind. Qed.
Lemma l_log tid ins op turn after args : typed op args = true -> L (rt_do (logSync tid ins op turn after args)).
Proof using Type.
  intros H. split; [|done]. intros r. unfold logSync. wp_steps.
  eexists [_]. split; [reflexivity|]. by repeat constructor.
Qed.
Lemma l_non_det_or p q : L p -> L q -> L (non_det_or p q).
Proof using Type.
  intros Hp Hq. unfold non_det_or. apply l_bind; [done|]. intros []; [|done].
  apply l_bind; [apply l_pwhen, l_free, q_add_stat|done].
Qed.
Lemma l_unless_non_det q : L q -> L (unless_non_det q).
Proof using Type.
  intros Hq. unfold unless_non_det. apply l_bind; [done|]. intros []; [|done].
  apply l_pwhen, l_free, q_add_stat.
Qed.
End logs_rules.
#[export] Hint Resolve l_ret l_call l_rt_get l_tls l_tls_get l_tls_set l_self l_set_self l_forked l_env l_passert : logs.
#[export] Hint Extern 1 (logs entry_typed (act (Rt (logSync _ _ _ _ _ _)))) => (apply l_log; assumption || reflexivity) : logs.

Ltac logs_auto :=
  repeat first
    [ progress intros
    | solve [auto 2 with logs]
    | apply l_non_det_or
    | apply l_unless_non_det
    | apply l_pwhen
    | apply l_ploop
    | apply l_pfor
    | apply l_bind
    | match goal with |- logs _ (match ?x with _ => _ end) => destruct x end
    | apply l_rt_set; intros; reflexivity
    | apply l_rt; solve [quiet_auto]
    | apply l_free; solve [quiet_auto] ].

Section methods.
Context `{O : Options, U : UnorderedIter, G : GlobalAddrs, N : NodeAddrs}.
Abbreviation L := (logs entry_typed).

(** ** The macros *)
Lemma l_note_errno e : L (note_errno e).
Proof using Type. by destruct e. Qed.
Lemma l_wait c n : L (S_wait c n).
Proof using Type. unfold S_wait. logs_auto. Qed.
Lemma l_signal c b : L (syncSignal c b).
Proof using Type. done. Qed.
Lemma l_syncWait c n : L (syncWait c n).
Proof using Type. apply l_wait. Qed.
Hint Resolve l_note_errno l_wait l_signal l_syncWait : logs.
Lemma l_in_non_det : L in_non_det.
Proof using Type. done. Qed.
Hint Resolve l_in_non_det : logs.
Lemma l_change_role : L CHECK_AND_CHANGE_ROLE.
Proof using Type. unfold CHECK_AND_CHANGE_ROLE. logs_auto. Qed.
Hint Resolve l_change_role : logs.
Lemma l_start me : L (SCHED_TIMER_START me).
Proof using Type. unfold SCHED_TIMER_START. logs_auto. Qed.
Lemma l_common ins op args : typed op args = true -> L (SCHED_TIMER_END_COMMON ins op args).
Proof using Type. intros H. unfold SCHED_TIMER_END_COMMON. logs_auto. Qed.
Lemma l_check : L check_cv_wait_cnt.
Proof using Type. unfold check_cv_wait_cnt. logs_auto. Qed.
Hint Resolve l_start l_common l_check : logs.
Lemma l_end ins op args : typed op args = true -> L (SCHED_TIMER_END ins op args).
Proof using Type. intros H. unfold SCHED_TIMER_END. logs_auto. Qed.
Lemma l_thread_end ins op args : typed op args = true -> L (SCHED_TIMER_THREAD_END ins op args).
Proof using Type. intros H. unfold SCHED_TIMER_THREAD_END. logs_auto. Qed.
Lemma l_fake_end ins op args : typed op args = true -> L (SCHED_TIMER_FAKE_END ins op args).
Proof using Type. intros H. unfold SCHED_TIMER_FAKE_END. logs_auto. Qed.
Hint Extern 1 (logs entry_typed (SCHED_TIMER_END _ _ _)) => (apply l_end; reflexivity) : logs.
Hint Extern 1 (logs entry_typed (SCHED_TIMER_THREAD_END _ _ _)) => (apply l_thread_end; reflexivity) : logs.
Hint Extern 1 (logs entry_typed (SCHED_TIMER_FAKE_END _ _ _)) => (apply l_fake_end; reflexivity) : logs.
Lemma l_with_errno e m : quiet m -> L (with_errno e m).
Proof using Type. intros H. unfold with_errno. logs_auto. Qed.
Lemma l_native_call e m : quiet m -> L (native_call e m).
Proof using Type. intros H. unfold native_call. logs_auto. Qed.
Lemma l_native_plain e m : quiet m -> L (native_plain e m).
Proof using Type. intros H. unfold native_plain. logs_auto. Qed.
Hint Extern 1 (logs entry_typed (with_errno _ _)) => (apply l_with_errno; auto with quiet) : logs.
Hint Extern 1 (logs entry_typed (native_call _ _)) => (apply l_native_call; auto with quiet) : logs.
Hint Extern 1 (logs entry_typed (native_plain _ _)) => (apply l_native_plain; auto with quiet) : logs.
Lemma l_sys_call q : L (sys_call q).
Proof using Type. unfold sys_call. logs_auto. Qed.
Lemma l_helper_errno e p : L p -> L (helper_errno e p).
Proof using Type. intros H. unfold helper_errno. logs_auto. Qed.
Lemma l_current_time : L current_time.
Proof using Type. unfold current_time. logs_auto. Qed.
Lemma l_rel_turns t : L (rel_turns t).
Proof using Type. unfold rel_turns. logs_auto. Qed.
Hint Resolve l_sys_call l_helper_errno l_current_time l_rel_turns : logs.
Lemma l_runtime_call q e : L (Runtime_call q e).
Proof using Type. unfold Runtime_call. logs_auto. Qed.
Hint Resolve l_runtime_call : logs.
Lemma l_lock_helper m c n : quiet m -> L (lock_helper m c n).
Proof using Type. intros H. unfold lock_helper. logs_auto. Qed.
Lemma l_mutex_helper me mu n : L (pthreadMutexLockHelper me mu n).
Proof using Type. apply l_lock_helper. auto with quiet. Qed.
Lemma l_wr_helper me mu n : L (pthreadRWLockWrLockHelper me mu n).
Proof using Type. apply l_lock_helper. auto with quiet. Qed.
Lemma l_rd_helper mu n : L (pthreadRWLockRdLockHelper mu n).
Proof using Type. apply l_lock_helper. auto with quiet. Qed.
Hint Resolve l_mutex_helper l_wr_helper l_rd_helper : logs.
Lemma l_block_line cv : L (block_line cv).
Proof using Type. unfold block_line. logs_auto. Qed.
Lemma l_choose_role l n : L (choose_role l n).
Proof using Type. unfold choose_role. logs_auto. Qed.
Lemma l_try_sem s : L (try_sem s).
Proof using Type. unfold try_sem. logs_auto. Qed.
Lemma l_release k f : L (lineup_release k f).
Proof using Type. unfold lineup_release. logs_auto. Qed.
Lemma l_sleep_turns t : L (sleep_turns t).
Proof using Type. unfold sleep_turns. logs_auto. Qed.
Lemma l_really_sleep q : L (really_sleep q).
Proof using Type. unfold really_sleep. logs_auto. Qed.
Hint Resolve l_block_line l_choose_role l_try_sem l_release l_sleep_turns l_really_sleep : logs.

(** ** The methods *)
Lemma l_MutexLock me ins e mu : L (pthreadMutexLock me ins e mu).
Proof using Type. unfold pthreadMutexLock. logs_auto. Qed.
Lemma l_MutexUnlock me ins e mu : L (pthreadMutexUnlock me ins e mu).
Proof using Type. unfold pthreadMutexUnlock. logs_auto. Qed.
Lemma l_CondWait me ins e cv mu : L (pthreadCondWait me ins e cv mu).
Proof using Type. unfold pthreadCondWait. logs_auto. Qed.
Lemma l_semWait me ins e s : L (semWait me ins e s).
Proof using Type. unfold semWait. logs_auto. Qed.
Lemma l_threadEnd me ins : L (threadEnd me ins).
Proof using Type. unfold threadEnd. logs_auto. Qed.
Hint Resolve l_MutexLock l_MutexUnlock l_CondWait l_semWait l_threadEnd : logs.

Lemma handle_logs me ins r : L (handle me ins r).
Proof using Type.
  destruct r; cbn [handle]; try (apply l_bind; [|by intros]);
  unfold pthreadMutexInit, pthreadMutexDestroy, Runtime_pthread_mutex_init, Runtime_pthread_mutex_destroy,
    Runtime_sem_init, Runtime_sem_post, Runtime_pthread_join, Runtime_sched_yield, pthreadMutexTryLock, pthreadMutexTimedLock,
    pthread_rwlock_rdlock, pthread_rwlock_wrlock, pthread_rwlock_tryrdlock, pthread_rwlock_trywrlock,
    pthread_rwlock_unlock, pthread_rwlock_destroy, pthread_rwlock_init, pthreadBarrierInit,
    pthreadBarrierWait, pthreadBarrierDestroy, pthreadCondTimedWait, pthreadCondSignal,
    pthreadCondBroadcast, semInit, semTryWait, semTimedWait, semPost, lineupInit, lineupDestroy,
    lineupStart, lineupEnd, set_slock_next_n, ext_get_turn, ext_turn_enabled, ext_put_turn,
    setBaseTime, dummySync, symbolic, schedYield, rt_sleep, rt_usleep, rt_nanosleep, pthreadJoin;
  logs_auto.
Qed.

(** ** Every method *)

(** the methods of the base class that make system calls *)
Inductive base_call : (Z -> prog (Z * Z)) -> Prop :=
| b_call name : base_call (Runtime_call name)
| b_recv len : base_call (Runtime_recv len)
| b_accept : base_call Runtime_accept
| b_connect : base_call Runtime_connect.
Inductive method (me : Z) : forall {A}, prog A -> Prop :=
| m_sync ins r : method me (handle me ins r)
| m_begin : method me (threadBegin me)
| m_started : method me (act (Free (os_started_wait me)))
| m_create ins f : method me (pthreadCreate me ins f)
| m_detach e : method me (pthread_detach e)
| m_idle : method me (idle_thread me)
| m_stat : method me (printStat me)
| m_fork ins e : method me (rt_fork me ins e)
| m_execv e : method me (rt_execv me e)
| m_nd_start : method me (nonDetStart me)
| m_nd_end : method me nonDetEnd
| m_nd_bar_end b n : method me (nonDetBarrierEnd b n)
| m_nw_start : method me noWaitNonDetStart
| m_nw_end : method me noWaitNonDetEnd
| m_task_start t : method me (mark_task_start t)
| m_task_end t : method me (mark_task_end t)
| m_unmark t : method me (unmark_task t)
| m_propose th f : method me (propose_thread_role th f)
| m_blocking conv base e : base_call base -> method me (blocking_with conv (mret tt) base e)
| m_accept e a : method me (rt_accept e a)
| m_connect e a : method me (rt_connect e a)
| m_file name base e : base_call base -> method me (file_call name base e)
| m_base base e : base_call base -> method me (base e).

(** programs that are made of calls of methods *)
Inductive calls (me : Z) : forall {A}, prog A -> Prop :=
| calls_ret {A} (a : A) : calls me (Ret a)
| calls_do {X A} (m : prog X) (k : X -> prog A) : method me m -> (forall x, calls me (k x)) -> calls me (m ≫= k)
| calls_loop {A S X} (body : S -> prog (S + X)) s (k : X -> prog A) :
    (forall s, calls me (body s)) -> (forall x, calls me (k x)) -> calls me (Iter body s k).

Lemma l_create_thread me ins f : L (create_thread me ins f).
Proof using Type. unfold create_thread. logs_auto. Qed.
Lemma l_enter : L enterSys.
Proof using Type. unfold enterSys, cross. logs_auto. Qed.
Lemma l_exit : L exitSys.
Proof using Type. unfold exitSys, cross. logs_auto. Qed.
Hint Resolve l_enter l_exit : logs.
Lemma l_hook conv (m : Z -> prog (Z * Z)) : (forall e, L (m e)) -> L (hook_as conv m).
Proof using Type. intros H. unfold hook_as. logs_auto. Qed.
Hint Resolve l_hook : logs.
Lemma l_launch me : L (launch_idle me).
Proof using Type. pose proof l_create_thread. unfold launch_idle. logs_auto. Qed.
Hint Resolve l_launch : logs.
Lemma l_create_idle me : L (create_idle_thread me).
Proof using Type. unfold create_idle_thread. logs_auto. Qed.
Lemma l_threadBegin me : L (threadBegin me).
Proof using Type. unfold threadBegin. logs_auto. Qed.
Lemma l_recv_round n st : L (recv_round n st).
Proof using Type. destruct st. unfold recv_round. logs_auto. Qed.
Lemma l_base base e : base_call base -> L (base e).
Proof using Type.
  destruct 1; unfold Runtime_recv, Runtime_accept, Runtime_connect, nonblock_assert, sock_nonblock; logs_auto.
  split; [intros; apply l_recv_round|done].
Qed.
Hint Resolve l_base b_call b_recv b_accept b_connect : logs.
Lemma l_blocking conv after base e : L after -> base_call base -> L (blocking_with conv after base e).
Proof using Type. intros H Hb. unfold blocking_with, BLOCK_TIMER_START, BLOCK_TIMER_END. logs_auto. Qed.
Hint Resolve l_create_thread l_create_idle l_threadBegin l_blocking : logs.
Lemma l_idle_cond_wait me : L (idle_cond_wait me).
Proof using Type. unfold idle_cond_wait. logs_auto. Qed.
Lemma l_idle_sleep me : L (idle_sleep me).
Proof using Type. unfold idle_sleep. logs_auto. Qed.
Hint Resolve l_idle_cond_wait l_idle_sleep : logs.
Lemma l_tern_lock me ins mu : L (tern_pthread_mutex_lock me ins mu).
Proof using Type. apply l_hook. auto with logs. Qed.
Lemma l_tern_unlock me ins mu : L (tern_pthread_mutex_unlock me ins mu).
Proof using Type. apply l_hook. auto with logs. Qed.
Hint Resolve l_tern_lock l_tern_unlock : logs.

Lemma method_logs {A} me (p : prog A) : method me p -> L p.
Proof using Type.
  destruct 1; [apply handle_logs|..];
  unfold pthreadCreate, pthread_detach, blocking_call, idle_thread, idle_round, tern_idle_sleep, tern_idle_cond_wait, printStat,
    rt_fork, rt_execv, nonDetStart, nonDetBarrierEnd, nonDetEnd, noWaitNonDetStart, noWaitNonDetEnd,
    mark_task_start, mark_task_end, busy_wait, gettimeofday, read_clock, unmark_task, propose_thread_role, rt_accept, rt_connect, log_port,
    file_call, regularFile, blocking_call;
  logs_auto; try (apply l_blocking; logs_auto).
Qed.
Lemma calls_logs {A} me (p : prog A) : calls me p -> L p.
Proof using Type.
  induction 1 as [A a|X A m k Hm _ IH|A S X body s k _ IHb _ IHk]; [done| |by split].
  apply l_bind; [by eapply method_logs|done].
Qed.
End methods.

(** ** Executions *)
Section runs.
Context `{O : Options, U : UnorderedIter, G : GlobalAddrs, N : NodeAddrs}.
Abbreviation L := (logs entry_typed).

Lemma logs_step {A} th (p p' : prog A) w w' : L p -> step th p w = Ok (p', w') ->
  L p' /\ exists es, g_log (w_rt w') = (es ++ g_log (w_rt w))%list /\ Forall entry_typed es.
Proof using Type.
  assert (Hsame : exists es, g_log (w_rt w) = (es ++ g_log (w_rt w))%list /\ Forall entry_typed es)
    by by exists [].
  destruct p as [a|X o k|S X body s k]; cbn [logs step]; [done| |].
  - intros [Ho Hk]. destruct (exec th o w) as [[x w1]|] eqn:He; [|done]. intros [= <- <-]. split; [done|].
    destruct o as [X c|X m|X m|X m| | | |q]; cbn [exec op_logs] in *; unfold zoom in He.
    + by destruct (scall_code _ _ _ _) as [[??]|]; simplify_eq/=.
    + specialize (Ho (w_rt w)). unfold wpx in Ho. by destruct (m _) as [[??]|]; simplify_eq/=.
    + specialize (Ho (w_rt w)). unfold wpx in Ho. by destruct (m _) as [[??]|]; simplify_eq/=.
    + by destruct (m _) as [[??]|]; simplify_eq/=.
    + by simplify_eq/=.
    + by destruct (set_self _ _) as [[[??]?]|]; simplify_eq/=.
    + by destruct (childForkReturn _ _) as [[[??]?]|]; simplify_eq/=.
    + by destruct (env_of w th); simplify_eq/=.
  - intros [Hb Hk] [= <- <-]. split; [|done]. apply l_bind; [apply Hb|]. intros [s'|x]; [by split|apply Hk].
Qed.

Lemma logs_steps c l c' : psteps c l c' -> (forall th p, p_threads c !! th = Some p -> L p) ->
  exists es, g_log (w_rt (p_world c')) = (es ++ g_log (w_rt (p_world c)))%list /\ Forall entry_typed es.
Proof using Type.
  induction 1 as [c|c th c1 l c2 Hs _ IH]; intros Hall; [by exists []|].
  destruct Hs as [p p' w' Hp Hs ->]. destruct (logs_step _ _ _ _ _ (Hall _ _ Hp) Hs) as [Hp' (es1 & E1 & F1)].
  destruct IH as (es2 & E2 & F2).
  { intros t q. cbn [p_threads]. rewrite lookup_insert_Some. intros [[_ <-]|[_ Hq]]; [done|by eapply Hall]. }
  cbn [p_world] in *. exists (es2 ++ es1)%list. rewrite E2, E1, (assoc_L _). split; [done|]. by apply Forall_app.
Qed.

(** the call of logSync for an entry *)
Definition event_of (e : log_entry) (t1 t2 t3 : timespec) (wait : Z) : sync_event :=
  Event (l_ins e) (index_of (l_op e)) (l_turn e) t1 t2 t3 (l_after e) (l_args e) wait.

Lemma index_known op : op <> syncfunc.not_sync -> first_sync <= index_of op < num_syncs.
Proof using Type. intros H. destruct op; [done|..]; vm_compute; split; done. Qed.
Lemma typed_written e t1 t2 t3 wait l : entry_typed e -> l_op e ∉ forgotten ->
  is_ok (txt_logSync (event_of e t1 t2 t3 wait) l) = true.
Proof using Type.
  unfold entry_typed, typed, line_arity. intros Ht Hf.
  assert (Hr : first_sync <= index_of (l_op e) < num_syncs).
  { apply index_known. intros E. rewrite E in *. revert Ht. rewrite bool_decide_eq_false_2 by done. vm_compute. done. }
  enough (H : wp (txt_logSync (event_of e t1 t2 t3 wait)) (fun _ _ => True) l).
  { unfold wpx in H. by destruct (txt_logSync _ l). }
  unfold txt_logSync, event_of. cbn [ev_sync ev_args]. wp_step.
  apply wp_cassert; [apply andb_true_iff; lia|]. wp_step. unfold sync_name.
  destruct (name_known _ Hr) as (n & Hn & _). unfold wpx at 1. rewrite Hn. wp_step. wp_step.
  destruct (thread_event _); cbv iota in *.
  - wp_step. apply wp_va_args; [by apply Nat.leb_le|]. unfold emit. by wp_steps.
  - destruct (txt_arity _) as [k|]; [|by apply bool_decide_eq_true in Ht].
    unfold log_args, emit. wp_steps. apply wp_va_args; [by apply Nat.leb_le|]. by wp_steps.
Qed.

(** C16: the log calls of the runtime are well typed.  In every execution of a process whose
    threads call any methods of the runtime, each entry that is logged can be written by
    TxtLogger, whatever the times: its synchronisation is a case of the switch and it
    carries at least the arguments that the case reads from its va_list.  The only
    exceptions are the three synchronisations the switch has no case for. *)
Theorem log_calls_typed c l c' :
  (forall th p, p_threads c !! th = Some p -> calls th p) -> psteps c l c' ->
  exists es, g_log (w_rt (p_world c')) = (es ++ g_log (w_rt (p_world c)))%list /\
    forall e, e ∈ es -> l_op e ∈ forgotten \/
      forall t1 t2 t3 wait tl, is_ok (txt_logSync (event_of e t1 t2 t3 wait) tl) = true.
Proof using Type.
  intros Hc Hs. destruct (logs_steps _ _ _ Hs) as (es & E & F); [intros th p Hp; by eapply calls_logs, Hc|].
  exists es. split; [done|]. intros e He. destruct (decide (l_op e ∈ forgotten)); [by left|right].
  intros. apply typed_written; [|done]. by eapply Forall_forall in F.
Qed.
End runs.

Section witness.
Local Existing Instance sample_options.
Local Existing Instance elements_order.
Local Existing Instance sample_addrs.
Local Existing Instance sample_nodes.

Definition one_app (th : Z) : prog unit :=
  _ ← handle th 1 (RMutexLock 500); _ ← handle th 2 (RMutexUnlock 500); _ ← handle th 3 RThreadEnd; mret tt.
Definition one_thread : process :=
  Process {[ 1000 := one_app 1000 ]} (world_of (c_s (cfg_of [])) [1000] ∅).
Definition one_end : list Z * process := greedy 200 [1000] one_thread.

Lemma log_calls_typed_witness : exists es,
  g_log (w_rt (p_world one_end.2)) = (es ++ g_log (w_rt (p_world one_thread)))%list /\
  forall e, e ∈ es -> l_op e ∈ forgotten \/
      forall t1 t2 t3 wait tl, is_ok (txt_logSync (event_of e t1 t2 t3 wait) tl) = true.
Proof.
  apply (log_calls_typed one_thread one_end.1 one_end.2).
  - intros th p. cbn [one_thread p_threads]. rewrite lookup_singleton_Some. intros [<- <-].
    apply (calls_do 1000 (handle 1000 1 (RMutexLock 500))); [constructor|]. intros _.
    apply (calls_do 1000 (handle 1000 2 (RMutexUnlock 500))); [constructor|]. intros _.
    apply (calls_do 1000 (handle 1000 3 RThreadEnd)); [constructor|]. intros _. constructor.
  - unfold one_end. exact (greedy_psteps 200 [1000] one_thread).
Defined.
Example one_end_log : length (g_log (w_rt (p_world one_end.2))) = 3%nat.
Proof. vm_compute. reflexivity. Qed.
End witness.
