(* ===== verification/RtStamps.v ===== *)
(** * Turn stamps: which turn an entry of the log carries

    A method draws a number from the turn counter, writes its entry under that number and
    gives up the turn.  [pdisc] follows a program through these steps: [phase] says
    whether the thread is inside a turn, which number it has drawn and not yet used, and
    on which condition variable its last entry says that it waits.  Nothing here depends
    on the scheduler: RtOrder.v applies it to RRScheduler, RecordLog.v to
    RecordSerializer. *)
From Stdlib Require Import Sorted.
From S2P Require Import Prelude Options RunQueue TidMap NonDetSet Scheduler SyncFuncs SchedInv SchedOps SchedTurns RtState Proc.
From S2P Require Import RtDisc SchedClock RtBase RtRuntime RtSync RtAnnot RtThread RtApp RtLog.

(** outside a turn; or inside, with the number drawn and the condition variable *)
Abbreviation phase := (option (option Z * option Z)).
Definition inside (ph : phase) : bool := match ph with Some _ => true | None => false end.

Definition wait_ops : list syncfunc.t := [syncfunc.pthread_cond_wait; syncfunc.pthread_cond_timedwait].
(** the condition variable of an entry that begins a wait *)
Definition wait_cv (e : log_entry) : option Z :=
  if negb (l_after e) && bool_decide (l_op e ∈ wait_ops) then head (l_args e) else None.
Definition last_entry (tid : Z) (log : list log_entry) : option log_entry :=
  head (filter (fun e => l_tid e = tid) log).
(** the condition variable that thread [tid] waits on according to the log *)
Definition waits_in_log (tid : Z) (log : list log_entry) : option Z := last_entry tid log ≫= wait_cv.

Definition call_next {X} (c : scall X) (ph : phase) : X -> phase :=
  match c in scall X return X -> phase with
  | SInc => fun n => match ph with Some (_, w) => Some (Some n, w) | None => None end
  | SGetTurn | SWaitEnd => fun _ => Some (None, None)
  | SPutTurn _ _ | SWaitBegin _ _ => fun _ => None
  | _ => fun _ => ph
  end.
(** getTurnCount() is the number that has been drawn *)
Definition call_result {X} (c : scall X) (ph : phase) : X -> Prop :=
  match c in scall X return X -> Prop with
  | SGetCount => fun n => forall s w, ph = Some (Some s, w) -> n = s
  | _ => fun _ => True
  end.

(** code on the globals: it leaves the log alone, or it writes one entry under the number
    that has been drawn *)
Definition writes {X} (self : Z) (m : RTM X) (ph : phase) (Q : X -> phase -> Prop) : Prop :=
  forall r, wpx any_error m (fun x r' =>
    (g_log r' = g_log r /\ Q x ph) \/
    (exists e w, ph = Some (Some (l_turn e), w) /\ l_tid e = self /\ g_log r' = e :: g_log r /\
                 Q x (Some (None, wait_cv e)))) r.

Definition op_phase {X} (self : Z) (o : op X) (ph : phase) (Q : X -> phase -> Prop) : Prop :=
  match o in op X return (X -> phase -> Prop) -> Prop with
  | Call c => fun Q => is_Some (scall_turn c (inside ph)) /\ forall x, call_result c ph x -> Q x (call_next c ph x)
  | Rt m => fun Q => inside ph = true /\ writes self m ph Q
  | Free m => fun Q => quiet m /\ forall x, Q x ph
  | Tls m => fun Q => forall x, Q x ph
  | Self => fun Q => Q self ph
  | Env _ => fun Q => forall x, Q x ph
  | SetSelf | Forked => fun Q => False
  end Q.

Fixpoint pdisc {A} (self : Z) (p : prog A) (ph : phase) (Q : A -> phase -> Prop) : Prop :=
  match p with
  | Ret a => Q a ph
  | Act o k => op_phase self o ph (fun x ph' => pdisc self (k x) ph' Q)
  | Iter body s k => exists Inv, Inv s ph /\ forall s ph, Inv s ph ->
      pdisc self (body s) ph (fun r ph' => match r with inl s' => Inv s' ph' | inr x => pdisc self (k x) ph' Q end)
  end.

Lemma writes_mono {X} self (m : RTM X) ph (P Q : X -> phase -> Prop) :
  (forall x ph', P x ph' -> Q x ph') -> writes self m ph P -> writes self m ph Q.
Proof.
  intros HPQ H r. eapply wp_mono; [apply H|]. cbn beta. intros x r' [[E HP]|(e & w & E1 & E2 & E3 & HP)].
  - left. auto.
  - right. exists e, w. auto.
Qed.
Lemma op_phase_mono {X} self (o : op X) ph (P Q : X -> phase -> Prop) :
  (forall x ph', P x ph' -> Q x ph') -> op_phase self o ph P -> op_phase self o ph Q.
Proof.
  intros HPQ. destruct o; simpl; try naive_solver. intros [H1 H2]. split; [done|]. by eapply writes_mono.
Qed.
Lemma pdisc_mono {A} self (p : prog A) : forall ph (P Q : A -> phase -> Prop),
  (forall a ph', P a ph' -> Q a ph') -> pdisc self p ph P -> pdisc self p ph Q.
Proof.
  induction p as [A a|A X o k IH|A S X body IHb s k IH]; intros ph P Q HPQ; simpl; [auto| |].
  - apply op_phase_mono. intros x ph'. by apply IH.
  - intros (Inv & H1 & H2). exists Inv. split; [done|]. intros s' ph' Hs. eapply IHb; [|by apply H2].
    intros [s2|x] ph2; [done|]. by apply IH.
Qed.
Lemma pdisc_bind {A B} self (p : prog A) : forall ph (f : A -> prog B) Q,
  pdisc self p ph (fun a ph' => pdisc self (f a) ph' Q) -> pdisc self (p ≫= f) ph Q.
Proof.
  induction p as [A a|A X o k IH|A S X body IHb s k IH]; intros ph f Q; simpl; [done| |].
  - apply op_phase_mono. intros x ph'. apply IH.
  - intros (Inv & H1 & H2). exists Inv. split; [done|]. intros s' ph' Hs.
    eapply pdisc_mono; [|by apply H2]. intros [s2|x] ph2; [done|]. apply IH.
Qed.

(** ** Programs that only write entries under numbers they have drawn

    [stamped b b' p]: so does [p], started inside a turn ([b]) or not, and it ends inside
    a turn ([b']) or not. *)
Definition stamped {A} (b b' : bool) (p : prog A) : Prop :=
  forall self ph, inside ph = b -> pdisc self p ph (fun _ ph' => inside ph' = b').

Create HintDb stamped.
Section rules.
Context `{O : Options, U : UnorderedIter, G : GlobalAddrs, N : NodeAddrs}.
Abbreviation T := stamped.

Lemma st_ret {A} b (a : A) : T b b (mret a).
Proof using Type. by intros self ph H. Qed.
Lemma st_bind {A B} b b1 b2 (p : prog A) (f : A -> prog B) : T b b1 p -> (forall a, T b1 b2 (f a)) -> T b b2 (p ≫= f).
Proof using Type.
  intros Hp Hf self ph H. apply pdisc_bind. eapply pdisc_mono; [|by apply Hp]. intros a ph' H'. by apply Hf.
Qed.
Lemma st_call {X} (c : scall X) b b' : scall_turn c b = Some b' -> T b b' (call c).
Proof using Type.
  intros Hc self ph H. simpl. rewrite H. split; [by eexists|]. intros x _.
  destruct c; simpl in *; try done; destruct b; simplify_eq; try done; by destruct ph as [[? ?]|].
Qed.
Lemma st_rt {X} (m : RTM X) : quiet m -> T true true (rt_do m).
Proof using Type. intros Hm self ph H. split; [done|]. intros r. eapply wp_mono; [apply Hm|]. by left. Qed.
Lemma st_free {X} (m : RTM X) b : quiet m -> T b b (act (Free m)).
Proof using Type. intros Hm self ph H. by split. Qed.
Lemma st_rt_get {X} (f : rt -> X) : T true true (rt_get f).
Proof using Type. by apply st_rt. Qed.
Lemma st_rt_set f : (forall r, g_log (f r) = g_log r) -> T true true (rt_set f).
Proof using Type. intros H. by apply st_rt, q_modify. Qed.
Lemma st_tls {X} (m : M tls X) b : T b b (tls_do m).
Proof using Type. by intros self ph H x. Qed.
Lemma st_tls_get {X} (f : tls -> X) b : T b b (tls_get f).
Proof using Type. apply st_tls. Qed.
Lemma st_tls_set f b : T b b (tls_set f).
Proof using Type. apply st_tls. Qed.
Lemma st_self b : T b b (act Self).
Proof using Type. by intros self ph H. Qed.
Lemma st_env q b : T b b (act (Env q)).
Proof using Type. by intros self ph H x. Qed.
Lemma st_pwhen c b p : T b b p -> T b b (pwhen c p).
Proof using Type. destruct c; [done|]. intros _. apply st_ret. Qed.
Lemma st_passert nd c msg b : T b b (passert nd c msg).
Proof using Type. unfold passert. destruct (_ || _); [apply st_ret|apply st_tls]. Qed.
Lemma st_iter {S X A} (body : S -> prog (S + X)) s (k : X -> prog A) b b' :
  (forall s, T b b (body s)) -> (forall x, T b b' (k x)) -> T b b' (Iter body s k).
Proof using Type.
  intros Hb Hk self ph H. exists (fun _ ph => inside ph = b). split; [done|]. intros s' ph' H'.
  eapply pdisc_mono; [|by apply Hb]. intros [s2|x] ph2 H2; [done|]. by apply Hk.
Qed.
Lemma st_ploop {X} (body : prog (option X)) b : T b b body -> T b b (ploop body).
Proof using Type. intros H. apply st_iter; [|apply st_ret]. intros _. eapply st_bind; [done|]. intros r. apply st_ret. Qed.
Lemma st_pfor {A} (f : A -> prog unit) l b : (forall x, T b b (f x)) -> T b b (pfor f l).
Proof using Type. intros H. induction l; [apply st_ret|]. eapply st_bind; [apply H|]. done. Qed.
Lemma st_wait c n : T true true (S_wait c n).
Proof using Type. eapply st_bind; [by apply (st_call _ _ false)|]. intros _. by apply st_call. Qed.
Lemma st_non_det_or native method : T false false native -> T false false method -> T false false (non_det_or native method).
Proof using Type.
  intros Hn Hm. unfold non_det_or. eapply st_bind; [apply st_tls_get|]. intros []; [|done].
  eapply st_bind; [apply st_pwhen, st_free, q_add_stat|]. done.
Qed.
Lemma st_unless_non_det method : T false false method -> T false false (unless_non_det method).
Proof using Type.
  intros Hm. unfold unless_non_det. eapply st_bind; [apply st_tls_get|]. intros []; [|done].
  apply st_pwhen, st_free, q_add_stat.
Qed.

(** the macros that write the log *)
Lemma pd_common self ins op args ph : inside ph = true ->
  pdisc self (SCHED_TIMER_END_COMMON ins op args) ph (fun _ ph' => inside ph' = true).
Proof using Type.
  destruct ph as [[s w]|]; [intros _|done]. unfold SCHED_TIMER_END_COMMON. apply pdisc_bind. intros e. simpl.
  split; [by eexists|]. intros n _. apply pdisc_bind.
  eapply pdisc_mono; [|instantiate (1 := fun _ ph' => ph' = Some (Some n, w))].
  2:{ destruct generate_per_sync_stats; [|done]. split; [done|]. intros r. eapply wp_mono; [apply q_recordSync|].
      by left. }
  cbn beta. intros _ ph' ->. destruct log_sync; [|done]. split; [by eexists|]. intros n' Hn.
  rewrite (Hn n w) by done. split; [done|]. intros r. right.
  by exists (LogEntry self ins op n true args), w.
Qed.
Lemma st_common ins op args : T true true (SCHED_TIMER_END_COMMON ins op args).
Proof using Type. intros self ph H. by apply pd_common. Qed.
(** after the first half of a wait the log says that the thread waits *)
Lemma pd_fake_end self ins op args ph : inside ph = true ->
  pdisc self (SCHED_TIMER_FAKE_END ins op args) ph (fun _ ph' => inside ph' = true /\
    (log_sync = true -> op ∈ wait_ops -> ph' = Some (None, head args))).
Proof using Type.
  destruct ph as [[s w]|]; [intros _|done]. simpl. split; [by eexists|]. intros n _.
  destruct log_sync; [|done]. split; [done|]. intros r. right.
  exists (LogEntry self ins op n false args), w. split_and!; [done..|]. split; [done|].
  intros _ Hop. unfold wait_cv. simpl. by rewrite bool_decide_true by done.
Qed.
Lemma st_fake_end ins op args : T true true (SCHED_TIMER_FAKE_END ins op args).
Proof using Type. intros self ph H. eapply pdisc_mono; [|by apply pd_fake_end]. by intros _ ph' []. Qed.
End rules.
#[export] Hint Resolve st_ret st_rt_get st_tls st_tls_get st_tls_set st_self st_env st_passert st_wait st_common st_fake_end : stamped.
#[export] Hint Extern 1 (stamped _ _ (act (Call _))) => (apply st_call; reflexivity) : stamped.

Ltac stamped_auto :=
  repeat first
    [ progress intros
    | solve [auto 2 with stamped]
    | apply st_non_det_or
    | apply st_unless_non_det
    | apply st_pwhen
    | apply st_ploop
    | apply st_pfor
    | eapply st_bind
    | match goal with |- stamped _ _ (match ?x with _ => _ end) => destruct x end
    | apply st_rt_set; intros; reflexivity
    | apply st_rt; solve [quiet_auto]
    | apply st_free; solve [quiet_auto] ].

(** ** The methods of the runtime *)
Section methods.
Context `{O : Options, U : UnorderedIter, G : GlobalAddrs, N : NodeAddrs}.
Abbreviation T := stamped.

Lemma st_note_errno e b : T b b (note_errno e).
Proof using Type. destruct e; [apply st_tls_set|apply st_ret]. Qed.
Lemma st_in_non_det b : T b b in_non_det.
Proof using Type. apply st_tls_get. Qed.
Hint Resolve st_note_errno st_in_non_det : stamped.
Lemma st_start me : T false true (SCHED_TIMER_START me).
Proof using Type. unfold SCHED_TIMER_START, CHECK_AND_CHANGE_ROLE. stamped_auto. Qed.
Lemma st_check : T false false check_cv_wait_cnt.
Proof using Type. unfold check_cv_wait_cnt. stamped_auto. Qed.
Hint Resolve st_start st_check : stamped.
Lemma st_end ins op args : T true false (SCHED_TIMER_END ins op args).
Proof using Type. unfold SCHED_TIMER_END. stamped_auto. Qed.
Lemma st_thread_end ins op args : T true false (SCHED_TIMER_THREAD_END ins op args).
Proof using Type. unfold SCHED_TIMER_THREAD_END. stamped_auto. Qed.
Lemma st_with_errno e m : quiet m -> T true true (with_errno e m).
Proof using Type. intros H. unfold with_errno. stamped_auto. Qed.
Lemma st_native_call e m b : quiet m -> T b b (native_call e m).
Proof using Type. intros H. unfold native_call. stamped_auto. Qed.
Lemma st_native_plain e m b : quiet m -> T b b (native_plain e m).
Proof using Type. intros H. unfold native_plain. stamped_auto. Qed.
Hint Extern 1 (stamped _ _ (with_errno _ _)) => (apply st_with_errno; auto with quiet) : stamped.
Hint Extern 1 (stamped _ _ (native_call _ _)) => (apply st_native_call; auto with quiet) : stamped.
Hint Extern 1 (stamped _ _ (native_plain _ _)) => (apply st_native_plain; auto with quiet) : stamped.
Lemma st_helper_errno e p : T true true p -> T true true (helper_errno e p).
Proof using Type. intros H. unfold helper_errno. stamped_auto; exact H. Qed.
Lemma st_sys_call q b : T b b (sys_call q).
Proof using Type. unfold sys_call. stamped_auto. Qed.
Hint Resolve st_end st_thread_end st_helper_errno st_sys_call : stamped.
Lemma st_Runtime_call q e b : T b b (Runtime_call q e).
Proof using Type. unfold Runtime_call. stamped_auto. Qed.
Lemma st_current_time b : T b b current_time.
Proof using Type. unfold current_time. stamped_auto. Qed.
Lemma st_rel_turns t : T true true (rel_turns t).
Proof using Type. unfold rel_turns. stamped_auto. Qed.
Lemma st_signal c all : T true true (syncSignal c all).
Proof using Type. by apply st_call. Qed.
Lemma st_syncWait c n : T true true (syncWait c n).
Proof using Type. apply st_wait. Qed.
Hint Resolve st_Runtime_call st_current_time st_rel_turns st_signal st_syncWait : stamped.
Lemma st_lock_helper m c n : quiet m -> T true true (lock_helper m c n).
Proof using Type. intros H. unfold lock_helper. stamped_auto. Qed.
Lemma st_mutex_helper me mu n : T true true (pthreadMutexLockHelper me mu n).
Proof using Type. apply st_lock_helper. auto with quiet. Qed.
Lemma st_wr_helper me mu n : T true true (pthreadRWLockWrLockHelper me mu n).
Proof using Type. apply st_lock_helper. auto with quiet. Qed.
Lemma st_rd_helper mu n : T true true (pthreadRWLockRdLockHelper mu n).
Proof using Type. apply st_lock_helper. auto with quiet. Qed.
Hint Resolve st_mutex_helper st_wr_helper st_rd_helper : stamped.
Lemma st_block_line cv : T true true (block_line cv).
Proof using Type. unfold block_line. stamped_auto. Qed.
Lemma st_choose_role l n : T true true (choose_role l n).
Proof using Type. unfold choose_role. stamped_auto. Qed.
Lemma st_try_sem s : T true true (try_sem s).
Proof using Type. unfold try_sem. stamped_auto. Qed.
Lemma st_release k f : T true true (lineup_release k f).
Proof using Type. unfold lineup_release. stamped_auto. Qed.
Lemma st_sleep_turns t : T true true (sleep_turns t).
Proof using Type. unfold sleep_turns. stamped_auto. Qed.
Lemma st_really_sleep q b : T b b (really_sleep q).
Proof using Type. unfold really_sleep. stamped_auto. Qed.
Hint Resolve st_block_line st_choose_role st_try_sem st_release st_sleep_turns st_really_sleep : stamped.

Lemma st_MutexLock me ins e mu : T false false (pthreadMutexLock me ins e mu).
Proof using Type. unfold pthreadMutexLock. stamped_auto. Qed.
Lemma st_semWait me ins e s : T false false (semWait me ins e s).
Proof using Type. unfold semWait. stamped_auto. Qed.
Lemma st_CondWait me ins e cv mu : T false false (pthreadCondWait me ins e cv mu).
Proof using Type. unfold pthreadCondWait. stamped_auto. Qed.
Lemma st_threadEnd me ins : T false false (threadEnd me ins).
Proof using Type. unfold threadEnd. stamped_auto. Qed.
Hint Resolve st_MutexLock st_semWait st_CondWait st_threadEnd : stamped.
Lemma st_BarrierWait me ins e ba : T false false (pthreadBarrierWait me ins e ba).
Proof using Type.
  unfold pthreadBarrierWait. apply st_non_det_or; [stamped_auto|].
  do 3 (eapply st_bind; [solve [auto 2 with stamped|apply st_rt; quiet_auto]|]; intros ?).
  eapply (st_bind _ true); [destruct a1|]; stamped_auto.
Qed.
Hint Resolve st_BarrierWait : stamped.

Lemma handle_stamped me ins r : T false false (handle me ins r).
Proof using Type.
  destruct r; cbn [handle]; try (eapply st_bind; [|intros; apply st_ret]); try solve [auto 2 with stamped];
  unfold pthreadMutexInit, pthreadMutexDestroy, Runtime_pthread_mutex_init, Runtime_pthread_mutex_destroy,
    Runtime_sem_init, Runtime_sem_post, Runtime_pthread_join, Runtime_sched_yield, pthreadMutexTryLock, pthreadMutexTimedLock,
    pthread_rwlock_rdlock, pthread_rwlock_wrlock, pthread_rwlock_tryrdlock, pthread_rwlock_trywrlock,
    pthread_rwlock_unlock, pthread_rwlock_destroy, pthread_rwlock_init, pthreadBarrierInit,
    pthreadBarrierDestroy, pthreadCondTimedWait, pthreadCondSignal,
    pthreadCondBroadcast, semInit, semTryWait, semTimedWait, semPost, lineupInit, lineupDestroy,
    lineupStart, lineupEnd, set_slock_next_n, ext_get_turn, ext_turn_enabled, ext_put_turn,
    setBaseTime, dummySync, symbolic, schedYield, rt_sleep, rt_usleep, rt_nanosleep, pthreadJoin,
    pthreadMutexUnlock, Runtime_pthread_mutex_unlock;
  stamped_auto.
Qed.

Lemma app_stamped {A} me (a : app A) : T false false (app_prog me a).
Proof using Type.
  induction a as [A x|A ins r k IH|A S X body IHb s k IHk]; cbn [app_prog].
  - apply st_ret.
  - eapply st_bind; [apply handle_stamped|]. intros res. apply IH.
  - apply st_iter; [intros; apply IHb|intros; apply IHk].
Qed.
End methods.

(** ** The log under a clock *)

(** the log, newest entry first, has increasing numbers below the clock *)
Record log_ok (clock : Z) (log : list log_entry) : Prop := {
  lo_sorted : StronglySorted (fun e1 e2 => l_turn e2 < l_turn e1) log;
  lo_below : Forall (fun e => l_turn e < clock) log
}.
(** what a thread in phase [ph] knows: the number it has drawn is the last one and above
    all entries, and the log says on what it waits *)
Record stamps_ok (clock : Z) (log : list log_entry) (self : Z) (ph : phase) : Prop := {
  so_stamp n w : ph = Some (Some n, w) -> 0 <= n /\ clock = n + 1 /\ Forall (fun e => l_turn e < n) log;
  so_wait n cv : ph = Some (n, Some cv) -> waits_in_log self log = Some cv
}.

Lemma log_ok_later k k' log : log_ok k log -> k <= k' -> log_ok k' log.
Proof. intros [H1 H2] Hk. split; [done|]. eapply Forall_impl; [exact H2|]. simpl. lia. Qed.
Lemma stamps_ok_out clock log self : stamps_ok clock log self None.
Proof. done. Qed.

Lemma waits_in_log_cons self e log :
  waits_in_log self (e :: log) = if decide (l_tid e = self) then wait_cv e else waits_in_log self log.
Proof. unfold waits_in_log, last_entry. cbn [filter list_filter]. by destruct (decide (l_tid e = self)). Qed.

Section ops.
Context `{O : Options, U : UnorderedIter, G : GlobalAddrs}.
Abbreviation log_of w := (g_log (w_rt w)).

(** an operation other than a call of the scheduler *)
Lemma op_logged {X} th (o : op X) w x w' ph Q k :
  (match o with Call _ => False | _ => True end) -> op_phase (self_of w th) o ph Q -> exec th o w = Ok (x, w') ->
  log_ok k (log_of w) -> stamps_ok k (log_of w) (self_of w th) ph ->
  w_s w' = w_s w /\ w_self w' = w_self w /\
  exists ph', Q x ph' /\ inside ph' = inside ph /\ log_ok k (log_of w') /\
    stamps_ok k (log_of w') (self_of w th) ph' /\
    (log_of w' = log_of w \/ inside ph = true /\ exists e, l_tid e = self_of w th /\ log_of w' = e :: log_of w).
Proof using Type.
  intros Hc Ho He Hl Hs.
  assert (Hsame : Q x ph -> w_s w' = w_s w -> w_self w' = w_self w -> log_of w' = log_of w ->
    w_s w' = w_s w /\ w_self w' = w_self w /\
    exists ph', Q x ph' /\ inside ph' = inside ph /\ log_ok k (log_of w') /\
    stamps_ok k (log_of w') (self_of w th) ph' /\
    (log_of w' = log_of w \/ inside ph = true /\ exists e, l_tid e = self_of w th /\ log_of w' = e :: log_of w)).
  { intros HQ -> -> ->. split_and!; [done..|]. exists ph. split_and!; [done..|by left]. }
  destruct o; simpl in Ho, He; try done; unfold zoom in He.
  - destruct (m (w_rt w)) as [[y r]|] eqn:Hm; [|done]. injection He as -> <-.
    destruct Ho as [Hin Hw]. specialize (Hw (w_rt w)). unfold wpx in Hw. rewrite Hm in Hw.
    destruct Hw as [[E HQ]|(e & wt & -> & Ht & E & HQ)]; [by apply Hsame|].
    split_and!; [done..|]. cbn [set_rt w_rt]. rewrite E. destruct Hl as [L1 L2], Hs as [S1 S2].
    destruct (S1 _ _ eq_refl) as (_ & Hk & Hall).
    exists (Some (None, wait_cv e)). split_and!; [done|done| | |right; split; [done|by exists e]].
    + split; constructor; [done|done|lia|done].
    + split; [done|]. intros n cv [= _ Hcv]. by rewrite waits_in_log_cons, decide_True.
  - destruct (m (w_rt w)) as [[y r]|] eqn:Hm; [|done]. injection He as -> <-. destruct Ho as [Hq HQ].
    specialize (Hq (w_rt w)). unfold wpx in Hq. rewrite Hm in Hq. by apply Hsame.
  - destruct (m (tls_of w th)) as [[y t]|] eqn:Hm; [|done]. injection He as -> <-. by apply Hsame.
  - injection He as <- <-. by apply Hsame.
  - destruct (env_of w th) as [|v l]; [done|]. injection He as <- <-. by apply Hsame.
Qed.

(** a call: the clock of the log ticks at most once, and the phase keeps up with it *)
Lemma call_logged {X} (c : scall X) k x k' log self ph : is_Some (scall_turn c (inside ph)) -> call_clock c k x k' ->
  log_ok k log -> stamps_ok k log self ph -> 0 <= k -> k + 1 < 2 ^ 32 ->
  k <= k' <= k + 1 /\ call_result c ph x /\ log_ok k' log /\ stamps_ok k' log self (call_next c ph x).
Proof using Type.
  intros [b Hb] Hc Hl [S1 S2] H0 H1.
  assert (Hsame : k' = k -> k <= k' <= k + 1 /\ log_ok k' log) by (intros ->; split; [lia|done]).
  assert (Htick : k' = k +u32 1 -> k <= k' <= k + 1 /\ log_ok k' log).
  { rewrite u32_small by lia. intros ->. split; [lia|]. eapply log_ok_later; [done|lia]. }
  destruct c; simpl in Hb, Hc |- *; try done; try (destruct (Hsame Hc); split_and!; [lia..|done|done|by subst]).
  - destruct (Htick Hc). by split_and!; [lia..|done|done|].
  - destruct Hc as [-> Hc]. destruct (Htick Hc) as [Hk Hl']. split_and!; [lia..|done|done|].
    rewrite u32_small in Hc by lia. destruct ph as [[n w]|]; [|done]. split; [|intros m cv [= _ ->]; by apply (S2 n)].
    intros m v [= -> _]. split_and!; [done..|]. apply Hl.
  - destruct Hc as [-> Hc]. destruct (Hsame Hc) as [Hk Hl']. split_and!; [lia..| |done|by subst].
    intros n w E. destruct (S1 _ _ E) as (H & -> & _). rewrite u32_small; lia.
Qed.
End ops.
