(* ===== verification/RtOrder.v ===== *)
(** * The turns in the log of the runtime

    Under the round-robin scheduler the entries of the log carry different turn numbers,
    in increasing order, whatever the interleaving of the threads. *)
From Stdlib Require Import Sorted.
From stdpp Require Import functions.
From S2P Require Import Prelude Options RunQueue TidMap NonDetSet Scheduler SyncFuncs SchedInv SchedOps SchedRun SchedTurns RtState Proc.
From S2P Require Import RtDisc SchedClock RtBase RtSync RtAnnot RtThread RtDet RtApp RtRun RtThms RtStamps.

Section order.
Context `{O : Options, U : UnorderedIter, G : GlobalAddrs, N : NodeAddrs}.
Context (Htt : 0 <= enforce_turn_type <= 2).

Abbreviation self c th := (self_of (p_world c) th).
Abbreviation log_of w := (g_log (w_rt w)).
Abbreviation clock_of w := (s_turnCount (w_s w)).

(** each thread is in a phase of its program; the one that holds the turn is inside *)
Record ordered (tok : turn_state) (c : process) (ph : Z -> phase) : Prop := {
  od_turn : turn_at tok (w_s (p_world c));
  od_inj th1 th2 : is_Some (p_threads c !! th1) -> is_Some (p_threads c !! th2) -> self c th1 = self c th2 -> th1 = th2;
  od_log : log_ok (clock_of (p_world c)) (log_of (p_world c));
  od_prog th p : p_threads c !! th = Some p ->
    pdisc (self c th) p (ph th) (fun _ ph' => inside ph' = false) /\
    inside (ph th) = bool_decide (tok = Held (self c th)) /\
    stamps_ok (clock_of (p_world c)) (log_of (p_world c)) (self c th) (ph th)
}.

Lemma ordered_out tok c ph th p : ordered tok c ph -> p_threads c !! th = Some p -> tok <> Held (self c th) -> ph th = None.
Proof using Type.
  intros H Hp Hne. destruct (od_prog _ _ _ H _ _ Hp) as (_ & Hi & _).
  rewrite bool_decide_eq_false_2 in Hi by done. by destruct (ph th).
Qed.

(** thread [th] has made a step; the others have not moved *)
Lemma ordered_next tok tok' c th p p' w' ph phx : ordered tok c ph -> p_threads c !! th = Some p ->
  w_self w' = w_self (p_world c) -> turn_at tok' (w_s w') -> log_ok (clock_of w') (log_of w') ->
  pdisc (self c th) p' phx (fun _ ph' => inside ph' = false) -> inside phx = bool_decide (tok' = Held (self c th)) ->
  stamps_ok (clock_of w') (log_of w') (self c th) phx ->
  (tok' = tok /\ clock_of w' = clock_of (p_world c) /\ log_of w' = log_of (p_world c) \/
   (forall t, t <> self c th -> tok <> Held t /\ tok' <> Held t)) ->
  ordered tok' (Process (<[th := p']> (p_threads c)) w') (<[th := phx]> ph).
Proof using Type.
  intros H Hp Hself Ht Hl Hd Hi Hs Hoth.
  assert (Hs' : forall t, self_of w' t = self c t) by (intros t; unfold self_of, ids_of; by rewrite Hself).
  assert (Hdom : forall t, is_Some (<[th := p']> (p_threads c) !! t) -> is_Some (p_threads c !! t)).
  { intros t. destruct (decide (t = th)) as [->|]; [eauto|by rewrite lookup_insert_ne]. }
  split; cbn [p_world p_threads]; [done| |done|].
  - intros t1 t2 H1 H2. rewrite !Hs'. apply (od_inj _ _ _ H); auto.
  - intros t q. rewrite Hs'. destruct (decide (t = th)) as [->|Hne].
    + rewrite lookup_insert_eq, fn_lookup_insert. by intros [= <-].
    + rewrite lookup_insert_ne, fn_lookup_insert_ne by done. intros Hq.
      destruct (od_prog _ _ _ H _ _ Hq) as (P1 & P2 & P3).
      destruct Hoth as [(-> & -> & ->)|Hoth]; [done|].
      assert (Hne' : self c t <> self c th) by (intros E; apply Hne, (od_inj _ _ _ H); eauto).
      destruct (Hoth _ Hne') as [Ho1 Ho2]. rewrite (ordered_out _ _ _ _ _ H Hq Ho1) in *.
      split_and!; [done| |done]. by rewrite bool_decide_eq_false_2.
Qed.

Lemma ordered_call {X} tok c ph th (cl : scall X) (k : X -> prog unit) x w' : ordered tok c ph ->
  p_threads c !! th = Some (Act (Call cl) k) -> exec th (Call cl) (p_world c) = Ok (x, w') ->
  0 <= clock_of (p_world c) -> clock_of (p_world c) + 1 < 2 ^ 32 ->
  exists tok' ph', ordered tok' (Process (<[th := k x]> (p_threads c)) w') ph' /\
    clock_of (p_world c) <= clock_of w' <= clock_of (p_world c) + 1.
Proof using Htt.
  intros H Hp He H0 H1. destruct (od_prog _ _ _ H _ _ Hp) as ([Hcl Hd] & Hi & Hs).
  cbn [exec] in He. unfold zoom in He.
  destruct (scall_code cl (self c th) th (w_s (p_world c))) as [[y s']|] eqn:Hrun; [|done]. injection He as -> <-.
  pose proof (call_clock_spec _ _ _ _ _ _ _ Hcl Hrun) as Hck.
  destruct (call_logged _ _ _ _ _ _ _ Hcl Hck (od_log _ _ _ H) Hs H0 H1) as (Hk & Hres & Hl' & Hs').
  destruct Hcl as [b Hb].
  destruct (scall_turn_spec Htt _ _ _ _ _ _ _ _ _ Hb (od_turn _ _ _ H) Hi Hrun) as (tok' & T1 & T2 & T3 & T4).
  exists tok', (<[th := call_next cl (ph th) x]> ph). split; [|exact Hk].
  eapply ordered_next; try done.
  - by apply Hd.
  - rewrite <-T2. destruct cl; simpl in Hb |- *; try done; destruct (ph th) as [[? ?]|]; simpl in Hb; by simplify_eq.
  - right. intros t Hne. split; [|by apply T4]. destruct T3 as [-> | ->]; congruence.
Qed.

Lemma ordered_op {X} tok c ph th (o : op X) (k : X -> prog unit) x w' : ordered tok c ph ->
  p_threads c !! th = Some (Act o k) -> match o with Call _ => False | _ => True end ->
  exec th o (p_world c) = Ok (x, w') ->
  exists tok' ph', ordered tok' (Process (<[th := k x]> (p_threads c)) w') ph' /\
    clock_of w' = clock_of (p_world c).
Proof using Type.
  intros H Hp Hc He. destruct (od_prog _ _ _ H _ _ Hp) as (Hd & Hi & Hs).
  destruct (op_logged _ _ _ _ _ _ _ _ Hc Hd He (od_log _ _ _ H) Hs) as (E1 & E2 & phx & Q1 & Q2 & Q3 & Q4 & Q5).
  exists tok, (<[th := phx]> ph). split; [|by rewrite E1].
  eapply ordered_next; try done; rewrite ?E1; try done.
  - apply H.
  - by rewrite Q2.
  - destruct Q5 as [Q5|[Q5 _]]; [by left|]. right. rewrite Q5 in Hi. symmetry in Hi.
    apply bool_decide_eq_true in Hi. intros t Hne. rewrite Hi. split; congruence.
Qed.

Lemma ordered_step tok c ph th c' : ordered tok c ph -> pstep c th c' ->
  0 <= clock_of (p_world c) -> clock_of (p_world c) + 1 < 2 ^ 32 ->
  exists tok' ph', ordered tok' c' ph' /\ clock_of (p_world c) <= clock_of (p_world c') <= clock_of (p_world c) + 1.
Proof using Htt.
  intros H [p p' w' Hp Hst ->] H0 H1. cbn [p_world].
  destruct p as [a|X o k|S X body s k]; cbn [step] in Hst; [done| |].
  - destruct (exec th o (p_world c)) as [[x w1]|] eqn:He; [|done]. injection Hst as <- ->.
    assert (Hop : match o with Call _ => False | _ => True end -> exists tok' ph',
      ordered tok' (Process (<[th := k x]> (p_threads c)) w') ph' /\
      clock_of (p_world c) <= clock_of w' <= clock_of (p_world c) + 1).
    { intros Hc. destruct (ordered_op _ _ _ _ _ _ _ _ H Hp Hc He) as (tok' & ph' & H' & ->).
      exists tok', ph'. split; [done|lia]. }
    destruct o; try by apply Hop. by eapply ordered_call.
  - injection Hst as <- <-. destruct (od_prog _ _ _ H _ _ Hp) as ((Inv & Hinv & Hbody) & Hi & Hs).
    exists tok, (<[th := ph th]> ph). split; [|lia].
    eapply ordered_next; try done; [apply H|apply H| |by left].
    apply pdisc_bind. eapply pdisc_mono; [|by apply Hbody].
    intros [s'|x] ph' Hr; [|done]. by exists Inv.
Qed.

Lemma ordered_steps l : forall tok c ph c', ordered tok c ph -> psteps c l c' ->
  0 <= clock_of (p_world c) -> clock_of (p_world c) + Z.of_nat (length l) < 2 ^ 32 ->
  exists tok' ph', ordered tok' c' ph'.
Proof using Htt.
  induction l as [|th l IH]; intros tok c ph c' H Hl H0 H1; inversion Hl as [|? ? d ? ? Hs Hr]; subst; [eauto|].
  cbn [length] in H1. destruct (ordered_step _ _ _ _ _ H Hs) as (tok' & ph' & H' & Hk); [lia..|].
  eapply IH; [exact H'|exact Hr|lia..].
Qed.

Lemma app_ordered c : app_process c -> log_ok (clock_of (p_world c)) (log_of (p_world c)) ->
  exists tok, ordered tok c (fun _ => None).
Proof using Type.
  intros [[t Ht] Hp _ Hinj] Hl. exists (Posted t). split; [done..|]. intros th p Hq.
  destruct (Hp _ _ Hq) as [a ->]. split_and!; [by apply app_stamped|done|apply stamps_ok_out].
Qed.

(** C17: logged turns.  In every execution of threads that only synchronise, the entries of
    the log carry different turn numbers and are written in the order of these numbers, as
    long as the 32-bit turn counter has not wrapped. *)
Theorem logged_turns_increase c l c' : app_process c -> psteps c l c' -> g_log (w_rt (p_world c)) = [] ->
  0 <= s_turnCount (w_s (p_world c)) -> s_turnCount (w_s (p_world c)) + Z.of_nat (length l) < 2 ^ 32 ->
  StronglySorted (fun e1 e2 => l_turn e2 < l_turn e1) (g_log (w_rt (p_world c'))).
Proof using Htt.
  intros Happ Hl Hlog H0 H1. destruct (app_ordered c Happ) as [tok Ho].
  { rewrite Hlog. split; constructor. }
  destruct (ordered_steps _ _ _ _ _ Ho Hl H0 H1) as (tok' & ph' & H'). apply H'.
Qed.
End order.

Section order_witness.
Local Existing Instance sample_options.
Local Existing Instance elements_order.
Local Existing Instance sample_addrs.
Local Existing Instance sample_nodes.

Lemma logged_turns_increase_witness :
  length (g_log (w_rt (p_world two_all.2))) = 6%nat /\
  StronglySorted (fun e1 e2 => l_turn e2 < l_turn e1) (g_log (w_rt (p_world two_all.2))).
Proof.
  assert (Hlog : g_log (w_rt (p_world two_threads)) = []) by (vm_compute; reflexivity).
  assert (Hturn : s_turnCount (w_s (p_world two_threads)) = 1) by (vm_compute; reflexivity).
  assert (Hlen : (length two_all.1 < 1000)%nat) by (vm_compute; lia).
  assert (Htt : 0 <= enforce_turn_type <= 2) by (simpl; lia).
  split; [vm_compute; reflexivity|].
  apply (logged_turns_increase Htt two_threads two_all.1).
  - apply two_threads_app.
  - unfold two_all. exact (greedy_psteps 400 [1000; 1001] two_threads).
  - exact Hlog.
  - rewrite Hturn. lia.
  - rewrite Hturn. lia.
Defined.
End order_witness.
