(* ===== verification/RecordSer.v ===== *)
(** * The first-come-first-served serializer and the runtime over it

    [RecordSerializer] of include/tern/runtime/record-scheduler.h lets whoever comes first
    run: the turn is a mutex.  The template RecorderRT of lib/runtime/record-runtime.cpp
    over it has its own versions of pthread_barrier_wait, of the methods of condition
    variables and of the sleep family; the other methods are those of RtSync.v and
    RtAnnot.v with the calls of the scheduler answered by [rs_call]. *)
From S2P Require Import Prelude Options TidMap Scheduler SyncFuncs RtState Proc RtBase RtRuntime RtSync RtAnnot RtThread RtApp.

(** ** The serializer *)

(** [z_sleep] and [z_woken] are the threads in pthread_cond_wait(cv, &lock) and
    pthread_cond_timedwait (true): asleep, and woken with the result of the call *)
Record serializer : Type := Serial {
  z_lock : option Z;                 (* who has locked the mutex [lock] *)
  z_tids : tidmap;
  z_turnCount : Z;
  z_logger : list (Z * Z);           (* what incTurnCount writes to [logger] *)
  z_sleep : gmap Z (Z * bool);
  z_woken : gmap Z Z
}.
Definition set_z_lock (l : option Z) (z : serializer) : serializer :=
  Serial l (z_tids z) (z_turnCount z) (z_logger z) (z_sleep z) (z_woken z).
Definition set_z_tids (m : tidmap) (z : serializer) : serializer :=
  Serial (z_lock z) m (z_turnCount z) (z_logger z) (z_sleep z) (z_woken z).
Definition set_z_turn (n : Z) (l : list (Z * Z)) (z : serializer) : serializer :=
  Serial (z_lock z) (z_tids z) n l (z_sleep z) (z_woken z).
Definition set_z_cond (sl : gmap Z (Z * bool)) (wk : gmap Z Z) (z : serializer) : serializer :=
  Serial (z_lock z) (z_tids z) (z_turnCount z) (z_logger z) sl wk.

Definition SZ (A : Type) : Type := M serializer A.

Section serializer.
Context `{O : Options}.

(** [th] is the handle of the calling thread, [self] its tern id *)
Definition rs_getTurn (th : Z) : SZ unit :=
  l ← gets z_lock;
  match l with None => modify (set_z_lock (Some th)) | Some _ => fail WouldBlock end.
Definition rs_putTurn (self th : Z) (at_thread_end : bool) : SZ unit :=
  when at_thread_end (zoom z_tids set_z_tids (zombify self th)) ;;
  modify (set_z_lock None).
Definition rs_incTurnCount (self : Z) : SZ Z :=
  n ← gets z_turnCount;
  modify (fun z => set_z_turn (n +u32 1) (if log_sync then (self, s32 n) :: z_logger z else z_logger z) z) ;;
  mret n.
Definition rs_getTurnCount : SZ Z := n ← gets z_turnCount; mret (n -u32 1).
(** wait() up to its sched_yield, and from there *)
Definition rs_wait_begin (self th : Z) : SZ unit := _ ← rs_incTurnCount self; rs_putTurn self th false.
Definition rs_wait_end (th : Z) : SZ Z := rs_getTurn th ;; mret 0.
Definition rs_block (self th : Z) : SZ Z :=
  rs_getTurn th ;; ret ← rs_incTurnCount self; rs_putTurn self th false ;; mret ret.

(** None: the class has no such member, or one with other parameters *)
Definition rs_call {X} (c : scall X) (self th : Z) : option (SZ X) :=
  match c with
  | SGetTurn => Some (rs_getTurn th)
  | SPutTurn e _ => Some (rs_putTurn self th e)
  | SWaitBegin _ _ => Some (rs_wait_begin self th)
  | SWaitEnd => Some (rs_wait_end th)
  | SSignal _ _ => Some (mret tt)
  | SInc => Some (rs_incTurnCount self)
  | SGetCount => Some rs_getTurnCount
  | SJoin t => Some (zoom z_tids set_z_tids (reap t))
  | SZombie t => Some (gets (fun z => zombie t (z_tids z)))
  | SRoleid t => Some (zoom z_tids set_z_tids (getRoleid t))
  | SChangeRole t f => Some (zoom z_tids set_z_tids (changeRole t f))
  | SNthread => Some (gets (fun z => nthread (z_tids z)))
  | SInterProStart | SInterProEnd => Some (mret false)
  | SBlock => Some (rs_block self th)
  | SWakeup => Some (mret tt)
  | _ => None
  end.

(** *** POSIX condition variables with the mutex [lock] *)

Definition sleepers (cv : Z) (z : serializer) : gset Z := dom (filter (fun x => x.2.1 = cv) (z_sleep z)).
(** the threads in [X] leave the condition variable with result [r] *)
Definition wake_up (r : Z) (X : list Z) (z : serializer) : serializer :=
  set_z_cond (foldr delete (z_sleep z) X) (foldr (fun t => <[t := r]>) (z_woken z) X) z.

(** pthread_cond_wait releases the mutex and sleeps in one step *)
Definition rs_sleep (th cv : Z) (timed : bool) : SZ unit :=
  modify (fun z => set_z_lock None (set_z_cond (<[th := (cv, timed)]> (z_sleep z)) (z_woken z) z)).
(** and returns with the mutex *)
Definition rs_wake (th : Z) : SZ Z :=
  z ← get;
  match z_woken z !! th, z_lock z with
  | Some r, None => put (set_z_lock (Some th) (set_z_cond (z_sleep z) (delete th (z_woken z)) z)) ;; mret r
  | _, _ => fail WouldBlock
  end.
(** pthread_cond_signal wakes at least one of the threads that sleep: those in [X] *)
Definition rs_signal (cv : Z) (X : list Z) : SZ unit :=
  z ← get;
  if bool_decide (list_to_set X ⊆ sleepers cv z) && (bool_decide (sleepers cv z = ∅) || bool_decide (X <> []))
  then put (wake_up 0 X z) else fail WouldBlock.
Definition rs_broadcast (cv : Z) : SZ unit := modify (fun z => wake_up 0 (elements (sleepers cv z)) z).
(** a thread may wake up for no reason, or when the time of pthread_cond_timedwait is over *)
Definition rs_leave (th r : Z) (z : serializer) : option serializer :=
  match z_sleep z !! th with
  | Some (_, timed) => if (r =? 0) || (timed && (r =? ETIMEDOUT)) then Some (wake_up r [th] z) else None
  | None => None
  end.
End serializer.

(** ** Programs: those of Proc.v, and calls of pthread_cond_* with the mutex [lock] *)

Inductive rop : Type -> Type :=
| Std {X} (o : op X) : rop X
| CondSleep (cv : Z) (timed : bool) : rop unit     (* the call up to its sleep *)
| CondWake : rop Z                                 (* its return *)
| CondSignal (cv : Z) (all : bool) : rop unit.

Inductive rprog (A : Type) : Type :=
| RRet (a : A)
| RAct {X : Type} (o : rop X) (k : X -> rprog A)
| RIter {S X : Type} (body : S -> rprog (S + X)) (s : S) (k : X -> rprog A).
Arguments RRet {A} a.
Arguments RAct {A X} o k.
Arguments RIter {A S X} body s k.

Fixpoint rbind {A B} (p : rprog A) (f : A -> rprog B) : rprog B :=
  match p with
  | RRet a => f a
  | RAct o k => RAct o (fun x => rbind (k x) f)
  | RIter body s k => RIter body s (fun x => rbind (k x) f)
  end.
#[export] Instance rprog_ret : MRet rprog := @RRet.
#[export] Instance rprog_bind : MBind rprog := fun A B f p => rbind p f.
Definition ract {X} (o : rop X) : rprog X := RAct o RRet.

Fixpoint lift {A} (p : prog A) : rprog A :=
  match p with
  | Ret a => RRet a
  | Act o k => RAct (Std o) (fun x => lift (k x))
  | Iter body s k => RIter (fun s => lift (body s)) s (fun x => lift (k x))
  end.

Section methods.
Context `{O : Options, U : UnorderedIter, G : GlobalAddrs, N : NodeAddrs}.

(** ** The methods with versions for RecordSerializer *)

(** the turn is given up twice before the native call *)
Definition rs_pthreadBarrierWait (me ins error barrier : Z) : rprog (Z * Z) :=
  lift (_ ← SCHED_TIMER_START me;
        _ ← SCHED_TIMER_FAKE_END ins syncfunc.pthread_barrier_wait [barrier; 0];
        _ ← call (SPutTurn false 0);
        _ ← call SGetTurn;
        _ ← call SInc;
        _ ← call (SPutTurn false 0);
        r ← Runtime_call "pthread_barrier_wait" error;
        _ ← passert ndebug ((r.1 =? 0) || (r.1 =? PTHREAD_BARRIER_SERIAL_THREAD))
              "failed sync calls are not yet supported!";
        _ ← call SGetTurn;
        _ ← SCHED_TIMER_END ins syncfunc.pthread_barrier_wait [barrier; r.1];
        mret r).

(** [errno = error; pthread_cond_wait(cv, getLock()); error = errno] *)
Definition rs_cond_sleep (error cv : Z) (timed : bool) : rprog (Z * Z) :=
  _ ← lift (tls_set (set_t_errno error));
  _ ← ract (CondSleep cv timed);
  ret ← ract CondWake;
  e ← lift (tls_get t_errno);
  mret (ret, e).

(** the loop that takes the mutex again: it does not look at the result of syncWait *)
Definition rs_relock (me mu : Z) : prog unit :=
  ploop (ret ← rt_do (os_mutex_trylock me mu);
         if ret =? 0 then mret (Some tt)
         else
           _ ← passert ndebug (ret =? EBUSY) "failed sync calls are not yet supported!";
           _ ← syncWait mu FOREVER;
           mret None).

Definition rs_pthreadCondWait (me ins error cv mu : Z) : rprog (Z * Z) :=
  _ ← lift (_ ← SCHED_TIMER_START me;
            _ ← rt_do (os_mutex_unlock me mu);
            SCHED_TIMER_FAKE_END ins syncfunc.pthread_cond_wait [cv; mu]);
  r ← rs_cond_sleep error cv false;
  _ ← lift (_ ← rs_relock me mu;
            _ ← call SInc;
            SCHED_TIMER_END ins syncfunc.pthread_cond_wait [cv; mu]);
  mret (0, r.2).

Definition rs_pthreadCondTimedWait (me ins error cv mu : Z) : rprog (Z * Z) :=
  _ ← lift (_ ← SCHED_TIMER_START me;
            _ ← rt_do (os_mutex_unlock me mu);
            SCHED_TIMER_FAKE_END ins syncfunc.pthread_cond_timedwait [cv; mu]);
  r ← rs_cond_sleep error cv true;
  _ ← lift (_ ← passert ndebug ((r.1 =? 0) || (r.1 =? ETIMEDOUT)) "failed sync calls are not yet supported!";
            _ ← pthreadMutexLockHelper me mu FOREVER;
            SCHED_TIMER_END ins syncfunc.pthread_cond_timedwait [cv; mu; r.1]);
  mret r.

Definition rs_cond_signal (me ins error cv : Z) (op : syncfunc.t) (all : bool) : rprog (Z * Z) :=
  _ ← lift (_ ← SCHED_TIMER_START me; tls_set (set_t_errno error));
  _ ← ract (CondSignal cv all);
  e ← lift (e ← tls_get t_errno; _ ← SCHED_TIMER_END ins op [cv]; mret e);
  mret (0, e).
Definition rs_pthreadCondSignal (me ins error cv : Z) : rprog (Z * Z) :=
  rs_cond_signal me ins error cv syncfunc.pthread_cond_signal false.
Definition rs_pthreadCondBroadcast (me ins error cv : Z) : rprog (Z * Z) :=
  rs_cond_signal me ins error cv syncfunc.pthread_cond_broadcast true.

Definition rs_sleep_call (error : Z) : rprog (Z * Z) := lift (Runtime_sleep error).
Definition rs_usleep (error : Z) : rprog (Z * Z) := lift (Runtime_usleep error).
Definition rs_nanosleep (error : Z) : rprog (Z * Z) := lift (Runtime_nanosleep error).

(** the method that RecorderRT<RecordSerializer> runs for a request *)
Definition rs_handle (me ins : Z) (r : request) : rprog (Z * Z) :=
  match r with
  | RBarrierWait ba => rs_pthreadBarrierWait me ins 0 ba
  | RCondWait cv mu => rs_pthreadCondWait me ins 0 cv mu
  | RCondTimedWait cv mu _ => rs_pthreadCondTimedWait me ins 0 cv mu
  | RCondSignal cv => rs_pthreadCondSignal me ins 0 cv
  | RCondBroadcast cv => rs_pthreadCondBroadcast me ins 0 cv
  | RSleep _ => rs_sleep_call 0
  | RUSleep _ => rs_usleep 0
  | RNanoSleep _ => rs_nanosleep 0
  | r => lift (handle me ins r)
  end.
Fixpoint rs_app {A} (me : Z) (a : app A) : rprog A :=
  match a with
  | AppEnd x => RRet x
  | AppDo ins r k => res ← rs_handle me ins r; rs_app me (k res)
  | AppLoop body s k => RIter (fun s => rs_app me (body s)) s (fun x => rs_app me (k x))
  end.

(** ** Executions *)

(** the scheduler of [rw_world] is not used *)
Record rworld : Type := RWorld { rw_ser : serializer; rw_world : world }.
Definition on_ser {X} (m : SZ X) (w : rworld) : res (X * rworld) :=
  zoom rw_ser (fun z w => RWorld z (rw_world w)) m w.

Definition std_exec {A} (th : Z) (o : op A) (w : rworld) : res (A * rworld) :=
  match o with
  | Call c =>
      match rs_call c (self_of (rw_world w) th) th with
      | Some m => on_ser m w
      | None => Err WouldBlock                 (* there is no such program *)
      end
  | o => zoom rw_world (fun w' w => RWorld (rw_ser w) w') (exec th o) w
  end.
(** [X] are the threads that a pthread_cond_signal wakes *)
Definition rexec {A} (th : Z) (X : list Z) (o : rop A) (w : rworld) : res (A * rworld) :=
  match o with
  | Std o => std_exec th o w
  | CondSleep cv timed => on_ser (rs_sleep th cv timed) w
  | CondWake => on_ser (rs_wake th) w
  | CondSignal cv all => on_ser (if all then rs_broadcast cv else rs_signal cv X) w
  end.
Definition rstep {A} (th : Z) (X : list Z) (p : rprog A) (w : rworld) : res (rprog A * rworld) :=
  match p with
  | RRet _ => Err WouldBlock
  | RAct o k => match rexec th X o w with Ok (x, w') => Ok (k x, w') | Err e => Err e end
  | RIter body s k => Ok (r ← body s; match r with inl s' => RIter body s' k | inr x => k x end, w)
  end.

Record rprocess : Type := RProcess { rp_threads : gmap Z (rprog unit); rp_world : rworld }.

(** an event: a thread makes a step, or wakes up by itself with the given result *)
Inductive event : Type := Go (th : Z) (X : list Z) | Leave (th r : Z).
Definition revent (e : event) (c : rprocess) : option rprocess :=
  match e with
  | Go th X =>
      match rp_threads c !! th with
      | Some p =>
          match rstep th X p (rp_world c) with
          | Ok (p', w') => Some (RProcess (<[th := p']> (rp_threads c)) w')
          | Err _ => None
          end
      | None => None
      end
  | Leave th r =>
      z ← rs_leave th r (rw_ser (rp_world c));
      Some (RProcess (rp_threads c) (RWorld z (rw_world (rp_world c))))
  end.
Fixpoint revents (l : list event) (c : rprocess) : option rprocess :=
  match l with
  | [] => Some c
  | e :: l' => c' ← revent e c; revents l' c'
  end.
End methods.
