(* ===== verification/RecordLog.v ===== *)
(** * The log of the first-come-first-served runtime

    Over RecordSerializer the order of the synchronisations is not determined, but "the log
    faithfully records the actual order": its entries have increasing turn numbers, and a
    thread sleeps on a condition variable only when the log says that it waits there, so
    that a signal finds the threads that wait according to the log before it. *)
From Stdlib Require Import Sorted.
From stdpp Require Import functions.
From S2P Require Import Prelude Options RunQueue TidMap NonDetSet Scheduler SyncFuncs SchedInv SchedOps SchedRun SchedTurns RtState Proc.
From S2P Require Import RtDisc SchedClock RtBase RtRuntime RtSync RtAnnot RtThread RtDet RtApp RtRun RtLog RtStamps RecordSer.

(** ** Programs and phases: those of RtStamps, or asleep on a condition variable *)
Inductive rphase : Type := Awake (ph : phase) | Asleep (cv : Z).

Definition rop_phase {X} (self : Z) (o : rop X) (ph : rphase) (Q : X -> rphase -> Prop) : Prop :=
  match o in rop X return (X -> rphase -> Prop) -> Prop with
  | Std o => fun Q => exists p, ph = Awake p /\ op_phase self o p (fun x p' => Q x (Awake p'))
  | CondSleep cv _ => fun Q => exists n, ph = Awake (Some (n, Some cv)) /\ Q tt (Asleep cv)
  | CondWake => fun Q => (exists cv, ph = Asleep cv) /\ forall x, Q x (Awake (Some (None, None)))
  | CondSignal _ _ => fun Q => (exists p, ph = Awake p /\ inside p = true) /\ Q tt ph
  end Q.
Fixpoint rdisc {A} (self : Z) (p : rprog A) (ph : rphase) (Q : A -> rphase -> Prop) : Prop :=
  match p with
  | RRet a => Q a ph
  | RAct o k => rop_phase self o ph (fun x ph' => rdisc self (k x) ph' Q)
  | RIter body s k => exists Inv, Inv s ph /\ forall s ph, Inv s ph ->
      rdisc self (body s) ph (fun r ph' => match r with inl s' => Inv s' ph' | inr x => rdisc self (k x) ph' Q end)
  end.

Lemma rop_phase_mono {X} self (o : rop X) ph (P Q : X -> rphase -> Prop) :
  (forall x ph', P x ph' -> Q x ph') -> rop_phase self o ph P -> rop_phase self o ph Q.
Proof.
  intros HPQ. destruct o; simpl; try naive_solver. intros (p & -> & H). exists p. split; [done|].
  eapply op_phase_mono; [|exact H]. auto.
Qed.
Lemma rdisc_mono {A} self (p : rprog A) : forall ph (P Q : A -> rphase -> Prop),
  (forall a ph', P a ph' -> Q a ph') -> rdisc self p ph P -> rdisc self p ph Q.
Proof.
  induction p as [A a|A X o k IH|A S X body IHb s k IH]; intros ph P Q HPQ; simpl; [auto| |].
  - apply rop_phase_mono. intros x ph'. by apply IH.
  - intros (Inv & H1 & H2). exists Inv. split; [done|]. intros s' ph' Hs. eapply IHb; [|by apply H2].
    intros [s2|x] ph2; [done|]. by apply IH.
Qed.
Lemma rdisc_bind {A B} self (p : rprog A) : forall ph (f : A -> rprog B) Q,
  rdisc self p ph (fun a ph' => rdisc self (f a) ph' Q) -> rdisc self (p ≫= f) ph Q.
Proof.
  induction p as [A a|A X o k IH|A S X body IHb s k IH]; intros ph f Q; simpl; [done| |].
  - apply rop_phase_mono. intros x ph'. apply IH.
  - intros (Inv & H1 & H2). exists Inv. split; [done|]. intros s' ph' Hs.
    eapply rdisc_mono; [|by apply H2]. intros [s2|x] ph2; [done|]. apply IH.
Qed.
Lemma rdisc_lift {A} self (p : prog A) : forall ph (Q : A -> rphase -> Prop),
  pdisc self p ph (fun a ph' => Q a (Awake ph')) -> rdisc self (lift p) (Awake ph) Q.
Proof.
  induction p as [A a|A X o k IH|A S X body IHb s k IH]; intros ph Q; simpl; [done| |].
  - intros H. exists ph. split; [done|]. eapply op_phase_mono; [|exact H]. cbn beta. intros x ph'. apply IH.
  - intros (Inv & H1 & H2). exists (fun s ph => exists p, ph = Awake p /\ Inv s p). split; [by exists ph|].
    intros s' ph' (p & -> & Hs). apply IHb. eapply pdisc_mono; [|by apply H2].
    intros [s2|x] ph2; [by exists ph2|]. apply IH.
Qed.

(** ** The methods *)
Section methods.
Context `{O : Options, U : UnorderedIter, G : GlobalAddrs, N : NodeAddrs}.
Context (Hlog : log_sync = true).

(** from outside a turn to outside a turn *)
Definition whole {A} (p : rprog A) : Prop := forall self, rdisc self p (Awake None) (fun _ ph' => ph' = Awake None).

Lemma w_lift {A} (p : prog A) : stamped false false p -> whole (lift p).
Proof using Type.
  intros Hp self. apply rdisc_lift. eapply pdisc_mono; [|by apply Hp]. intros _ [[? ?]|]; done.
Qed.
Lemma w_bind {A B} (p : rprog A) (f : A -> rprog B) : whole p -> (forall a, whole (f a)) -> whole (p ≫= f).
Proof using Type.
  intros Hp Hf self. apply rdisc_bind. eapply rdisc_mono; [|by apply Hp]. intros a ph' ->. apply Hf.
Qed.

Lemma st_relock me mu : stamped true true (rs_relock me mu).
Proof using Type. unfold rs_relock. pose proof st_syncWait. stamped_auto. Qed.

Lemma w_barrier_wait me ins e ba : whole (rs_pthreadBarrierWait me ins e ba).
Proof using Type.
  apply w_lift. pose proof st_start. pose proof st_end. pose proof st_Runtime_call. stamped_auto.
Qed.

(** the two halves of a wait: [q] runs after the sleep *)
Lemma w_cond {A} me ins e cv mu op timed (q : Z * Z -> prog unit) (res : Z * Z -> A) :
  op ∈ wait_ops -> (forall r, stamped true false (q r)) ->
  whole (_ ← lift (_ ← SCHED_TIMER_START me; _ ← rt_do (os_mutex_unlock me mu); SCHED_TIMER_FAKE_END ins op [cv; mu]);
         r ← rs_cond_sleep e cv timed; _ ← lift (q r); mret (res r)).
Proof using Hlog.
  intros Hop Hq self. apply rdisc_bind, rdisc_lift.
  apply pdisc_bind. eapply pdisc_mono; [|by apply st_start]. cbn beta. intros _ ph1 H1.
  apply pdisc_bind. eapply pdisc_mono; [|by apply st_rt; [apply q_mutex_unlock|]]. cbn beta. intros _ ph2 H2.
  eapply pdisc_mono; [|by apply pd_fake_end]. cbn beta. intros _ ph3 [_ E]. rewrite E by done.
  apply rdisc_bind. simpl. eexists. split; [done|]. intros _. eexists. split; [done|].
  split; [by eexists|]. intros ret. eexists. split; [done|]. intros err.
  apply rdisc_bind, rdisc_lift. eapply pdisc_mono; [|by apply Hq]. by intros _ [[? ?]|].
Qed.

Lemma w_cond_wait me ins e cv mu : whole (rs_pthreadCondWait me ins e cv mu).
Proof using Hlog.
  apply (w_cond _ _ _ _ _ _ _ (fun _ => _ ← rs_relock me mu; _ ← call SInc; SCHED_TIMER_END ins syncfunc.pthread_cond_wait [cv; mu])
    (fun r => (0, r.2))); [by repeat constructor|]. intros r. pose proof st_relock. pose proof st_end. stamped_auto.
Qed.
Lemma w_cond_timedwait me ins e cv mu : whole (rs_pthreadCondTimedWait me ins e cv mu).
Proof using Hlog.
  apply (w_cond _ _ _ _ _ _ _ (fun r =>
    _ ← passert ndebug ((r.1 =? 0) || (r.1 =? ETIMEDOUT)) "failed sync calls are not yet supported!";
    _ ← pthreadMutexLockHelper me mu FOREVER;
    SCHED_TIMER_END ins syncfunc.pthread_cond_timedwait [cv; mu; r.1]) id); [by repeat constructor|].
  intros r. pose proof st_mutex_helper. pose proof st_end. stamped_auto.
Qed.
Lemma w_cond_signal me ins e cv op all : whole (rs_cond_signal me ins e cv op all).
Proof using Type.
  intros self. apply rdisc_bind, rdisc_lift. apply pdisc_bind. eapply pdisc_mono; [|by apply st_start].
  cbn beta. intros _ ph1 H1. intros []. apply rdisc_bind. split; [by eexists|].
  apply rdisc_bind, rdisc_lift. apply pdisc_bind. intros err. apply pdisc_bind.
  eapply pdisc_mono; [|by apply st_end].
  by intros _ [[? ?]|].
Qed.

Lemma rs_handle_whole me ins r : whole (rs_handle me ins r).
Proof using Hlog.
  destruct r; cbn [rs_handle]; try (apply w_lift, handle_stamped).
  - apply w_barrier_wait.
  - apply w_cond_wait.
  - apply w_cond_timedwait.
  - apply w_cond_signal.
  - apply w_cond_signal.
  - apply w_lift, st_Runtime_call.
  - apply w_lift, st_Runtime_call.
  - apply w_lift, st_Runtime_call.
Qed.
Lemma rs_app_whole {A} me (a : app A) : whole (rs_app me a).
Proof using Hlog.
  induction a as [A x|A ins r k IH|A S X body IHb s k IHk]; cbn [rs_app].
  - by intros self.
  - apply w_bind; [apply rs_handle_whole|done].
  - intros self. exists (fun _ ph => ph = Awake None). split; [done|]. intros s' ph ->.
    eapply rdisc_mono; [|apply IHb]. intros [s2|x] ph' ->; [done|apply IHk].
Qed.
End methods.

(** ** The serializer *)
Section serializer.
Context `{O : Options}.

(** what a call of the turn discipline does to the lock and the turn counter *)
Definition call_effect {X} (c : scall X) (th : Z) (b' : bool) (z : serializer) (x : X) (z' : serializer) : Prop :=
  call_clock c (z_turnCount z) x (z_turnCount z') /\ z_sleep z' = z_sleep z /\ z_woken z' = z_woken z /\
  b' = bool_decide (z_lock z' = Some th) /\
  (z_lock z = None \/ z_lock z = Some th) /\ (z_lock z' = None \/ z_lock z' = Some th).

Lemma wp_zoom_tids {A} (m : M tidmap A) (Q : A -> serializer -> Prop) z :
  (forall x t, Q x (set_z_tids t z)) -> wpx any_error (zoom z_tids set_z_tids m) Q z.
Proof using Type. intros H. unfold zoom, wpx. destruct (m (z_tids z)) as [[x t]|]; [apply H|done]. Qed.

Lemma rs_call_spec {X} (c : scall X) self th m z x z' b b' : rs_call c self th = Some m -> m z = Ok (x, z') ->
  scall_turn c b = Some b' -> b = bool_decide (z_lock z = Some th) -> call_effect c th b' z x z'.
Proof using Type.
  intros Hc Hm Hb Hl.
  assert (Hw : wpx any_error m (call_effect c th b' z) z -> call_effect c th b' z x z') by by (unfold wpx; rewrite Hm).
  apply Hw. clear Hw Hm. unfold call_effect.
  destruct c; simpl in Hb, Hc; try done; injection Hc as <-; destruct b; simplify_eq;
    symmetry in Hl; (apply bool_decide_eq_true in Hl || apply bool_decide_eq_false in Hl).
  - unfold rs_getTurn. wp_steps. destruct (z_lock z); [done|]. wp_steps. simpl. rewrite bool_decide_true by done. split_and!; auto.
  - unfold rs_putTurn. destruct at_thread_end; wp_steps; try done; [intros _; apply wp_zoom_tids; intros [] t|intros _];
      wp_steps; simpl; split_and!; auto.
  - unfold rs_wait_begin, rs_incTurnCount, rs_putTurn. wp_steps; [done|]. intros _. wp_steps. simpl. split_and!; auto.
  - unfold rs_wait_end, rs_getTurn. wp_steps. destruct (z_lock z); [done|]. wp_steps. simpl.
    rewrite bool_decide_true by done. split_and!; auto.
  - wp_steps. simpl. rewrite Hl, bool_decide_true by done. split_and!; auto.
  - unfold rs_incTurnCount. wp_steps. simpl. rewrite Hl, bool_decide_true by done. split_and!; auto.
  - unfold rs_getTurnCount. wp_steps. simpl. rewrite Hl, bool_decide_true by done. split_and!; auto.
  - apply wp_zoom_tids. intros y t. simpl. rewrite Hl, bool_decide_true by done. split_and!; auto.
  - wp_steps. simpl. rewrite Hl, bool_decide_true by done. split_and!; auto.
  - apply wp_zoom_tids. intros y t. simpl. rewrite Hl, bool_decide_true by done. split_and!; auto.
  - apply wp_zoom_tids. intros y t. simpl. rewrite Hl, bool_decide_true by done. split_and!; auto.
  - wp_steps. simpl. rewrite Hl, bool_decide_true by done. split_and!; auto.
Qed.

(** thread [t] stays where it is, or it is asleep and wakes up *)
Definition cond_step (t : Z) (z z' : serializer) : Prop :=
  (z_sleep z' !! t = z_sleep z !! t /\ z_woken z' !! t = z_woken z !! t) \/
  (is_Some (z_sleep z !! t) /\ z_sleep z' !! t = None).
Lemma wake_up_step r X z t : (forall t, t ∈ X -> is_Some (z_sleep z !! t)) -> cond_step t z (wake_up r X z).
Proof using Type.
  intros HX. unfold cond_step, wake_up, set_z_cond. cbn [z_sleep z_woken].
  destruct (decide (t ∈ X)) as [Ht|Ht]; [right; split; [by apply HX|by apply lookup_foldr_delete]|]. left. split.
  - by apply lookup_foldr_delete_not_elem_of.
  - clear HX. induction X as [|t' X IH]; [done|]. simpl. apply not_elem_of_cons in Ht as [Hne Ht].
    rewrite lookup_insert_ne by done. by apply IH.
Qed.
Lemma sleepers_asleep cv z t : t ∈ sleepers cv z -> is_Some (z_sleep z !! t).
Proof using Type. unfold sleepers. rewrite elem_of_dom. intros [v Hv]. apply map_lookup_filter_Some in Hv as [Hv _]. eauto. Qed.
End serializer.

(** ** The invariant *)
Abbreviation log_of w := (g_log (w_rt (rw_world w))).

Definition phase_ok (z : serializer) (log : list log_entry) (self th : Z) (ph : rphase) : Prop :=
  match ph with
  | Awake p => inside p = bool_decide (z_lock z = Some th) /\ stamps_ok (z_turnCount z) log self p /\
      z_sleep z !! th = None /\ z_woken z !! th = None
  | Asleep cv => z_lock z <> Some th /\ waits_in_log self log = Some cv /\
      forall v, z_sleep z !! th = Some v -> v.1 = cv /\ z_woken z !! th = None
  end.

(** thread [th] acts: its own calls and entries, and perhaps it wakes others *)
Lemma phase_ok_other z z' log log' self th self2 th2 ph : th2 <> th -> self2 <> self -> cond_step th2 z z' ->
  z_turnCount z' = z_turnCount z /\ z_lock z' = z_lock z /\ log' = log \/
  (z_lock z = None \/ z_lock z = Some th) /\ (z_lock z' = None \/ z_lock z' = Some th) /\
  (log' = log \/ exists e, l_tid e = self /\ log' = e :: log) ->
  phase_ok z log self2 th2 ph -> phase_ok z' log' self2 th2 ph.
Proof.
  intros Hth Hself Hc Hact.
  assert (Hnone : z_sleep z !! th2 = None /\ z_woken z !! th2 = None -> z_sleep z' !! th2 = None /\ z_woken z' !! th2 = None).
  { intros [E1 E2]. destruct Hc as [[-> ->]|[[v Hv] _]]; [done|congruence]. }
  assert (Hsome : forall cv, (forall v, z_sleep z !! th2 = Some v -> v.1 = cv /\ z_woken z !! th2 = None) ->
    forall v, z_sleep z' !! th2 = Some v -> v.1 = cv /\ z_woken z' !! th2 = None).
  { intros cv Hcv v Hv. destruct Hc as [[E ->]|[_ E]]; [apply Hcv; congruence|congruence]. }
  destruct Hact as [(Ek & El & ->)|(Hl & Hl' & Hlog)].
  - destruct ph as [p|cv]; simpl; rewrite ?Ek, El; naive_solver.
  - assert (E : forall l, l = None \/ l = Some th -> l <> Some th2) by (intros l [-> | ->]; congruence).
    destruct ph as [p|cv]; simpl.
    + rewrite !bool_decide_false by by apply E. intros (Hp & _ & Hs). destruct p; [done|]. auto using stamps_ok_out.
    + intros (_ & Hw & Hs). split_and!; [by apply E| |by auto]. destruct Hlog as [->|(e & He & ->)]; [done|].
      rewrite waits_in_log_cons, decide_False by congruence. done.
Qed.

Section recorded.
Context `{O : Options, U : UnorderedIter, G : GlobalAddrs, N : NodeAddrs}.

Abbreviation self c th := (self_of (rw_world (rp_world c)) th).
Abbreviation ser c := (rw_ser (rp_world c)).

Record recorded (c : rprocess) (ph : Z -> rphase) : Prop := {
  rc_inj th1 th2 : is_Some (rp_threads c !! th1) -> is_Some (rp_threads c !! th2) -> self c th1 = self c th2 -> th1 = th2;
  rc_log : log_ok (z_turnCount (ser c)) (log_of (rp_world c));
  rc_sleep th : is_Some (z_sleep (ser c) !! th) -> is_Some (rp_threads c !! th);
  rc_prog th p : rp_threads c !! th = Some p ->
    rdisc (self c th) p (ph th) (fun _ _ => True) /\ phase_ok (ser c) (log_of (rp_world c)) (self c th) th (ph th)
}.

(** thread [th] has made a step *)
Lemma recorded_next c ph th p p' w' phx : recorded c ph -> rp_threads c !! th = Some p ->
  w_self (rw_world w') = w_self (rw_world (rp_world c)) ->
  log_ok (z_turnCount (rw_ser w')) (log_of w') -> rdisc (self c th) p' phx (fun _ _ => True) ->
  phase_ok (rw_ser w') (log_of w') (self c th) th phx ->
  (forall t, t <> th -> cond_step t (ser c) (rw_ser w')) ->
  z_turnCount (rw_ser w') = z_turnCount (ser c) /\ z_lock (rw_ser w') = z_lock (ser c) /\ log_of w' = log_of (rp_world c) \/
  (z_lock (ser c) = None \/ z_lock (ser c) = Some th) /\ (z_lock (rw_ser w') = None \/ z_lock (rw_ser w') = Some th) /\
  (log_of w' = log_of (rp_world c) \/ exists e, l_tid e = self c th /\ log_of w' = e :: log_of (rp_world c)) ->
  recorded (RProcess (<[th := p']> (rp_threads c)) w') (<[th := phx]> ph).
Proof using Type.
  intros H Hp Hself Hl Hd Hok Hsub Hact.
  assert (Hs' : forall t, self_of (rw_world w') t = self c t) by (intros t; unfold self_of, ids_of; by rewrite Hself).
  assert (Hdom : forall t, is_Some (<[th := p']> (rp_threads c) !! t) <-> is_Some (rp_threads c !! t)).
  { intros t. destruct (decide (t = th)) as [->|]; [|by rewrite lookup_insert_ne]. rewrite lookup_insert_eq. split; eauto. }
  split; cbn [rp_world rp_threads]; [|done| |].
  - intros t1 t2 H1%Hdom H2%Hdom. rewrite !Hs'. by apply (rc_inj _ _ H).
  - intros t [v Hv]. apply Hdom. destruct (decide (t = th)) as [->|Hne]; [eauto|].
    apply (rc_sleep _ _ H). destruct (Hsub t Hne) as [[E _]|[E _]]; [rewrite <-E; eauto|done].
  - intros t q. rewrite Hs'. destruct (decide (t = th)) as [->|Hne].
    + rewrite lookup_insert_eq, fn_lookup_insert. by intros [= <-].
    + rewrite lookup_insert_ne, fn_lookup_insert_ne by done. intros Hq.
      destruct (rc_prog _ _ H _ _ Hq) as [H1 H2]. split; [done|].
      eapply phase_ok_other; [exact Hne| |by apply Hsub|exact Hact|exact H2].
      intros E. apply Hne, (rc_inj _ _ H); eauto.
Qed.

Abbreviation clock c := (z_turnCount (ser c)).

Lemma recorded_std {X} c ph th (o : op X) (k : X -> rprog unit) x w' : recorded c ph ->
  rp_threads c !! th = Some (RAct (Std o) k) -> std_exec th o (rp_world c) = Ok (x, w') ->
  0 <= clock c -> clock c + 1 < 2 ^ 32 ->
  exists ph', recorded (RProcess (<[th := k x]> (rp_threads c)) w') ph' /\ clock c <= z_turnCount (rw_ser w') <= clock c + 1.
Proof using Type.
  intros H Hp He H0 H1. destruct (rc_prog _ _ H _ _ Hp) as [(p0 & Eph & Hd) Hok]. rewrite Eph in Hok.
  destruct Hok as (Hin & Hs & Hsl & Hwk). pose proof (rc_log _ _ H) as Hl.
  assert (Hother : match o with Call _ => False | _ => True end ->
    zoom rw_world (fun w' w => RWorld (rw_ser w) w') (exec th o) (rp_world c) = Ok (x, w') ->
    exists ph', recorded (RProcess (<[th := k x]> (rp_threads c)) w') ph' /\ clock c <= z_turnCount (rw_ser w') <= clock c + 1).
  { intros Hc. unfold zoom. destruct (exec th o (rw_world (rp_world c))) as [[y w1]|] eqn:He1; [|done].
    intros [= -> <-]. destruct (op_logged _ _ _ _ _ _ _ _ Hc Hd He1 Hl Hs) as (_ & E2 & phx & Q1 & Q2 & Q3 & Q4 & Q5).
    exists (<[th := Awake phx]> ph). split; [|simpl; lia].
    eapply recorded_next; try done; cbn [rw_ser rw_world].
    - split_and!; [by rewrite Q2|done..].
    - intros t _. by left.
    - destruct Q5 as [Q5|[Q5 Q6]]; [by left|]. right. rewrite Q5 in Hin. symmetry in Hin.
      apply bool_decide_eq_true in Hin. auto. }
  destruct o as [Y cl| | | | | | |]; try (by apply Hother). clear Hother.
  cbn [std_exec] in He. destruct (rs_call cl (self c th) th) as [m|] eqn:Hm; [|done].
  unfold on_ser, zoom in He. destruct (m (ser c)) as [[y z']|] eqn:Hrun; [|done]. injection He as -> <-.
  cbn [op_phase] in Hd. destruct Hd as [[b Hb] Hd].
  destruct (rs_call_spec _ _ _ _ _ _ _ _ _ Hm Hrun Hb Hin) as (Hck & Esl & Ewk & Hb' & Hl1 & Hl2).
  destruct (call_logged _ _ _ _ _ _ _ (mk_is_Some _ _ Hb) Hck Hl Hs H0 H1) as (Hk & Hres & Hl' & Hs').
  exists (<[th := Awake (call_next cl p0 x)]> ph). split; [|exact Hk].
  eapply recorded_next; try done; cbn [rw_ser rw_world].
  - by apply Hd.
  - split_and!; [|done|by rewrite Esl|by rewrite Ewk]. rewrite <-Hb'.
    destruct cl; simpl in Hb |- *; try done; destruct p0 as [[? ?]|]; simpl in Hb; by simplify_eq.
  - intros t _. left. by rewrite Esl, Ewk.
  - right. auto.
Qed.

(** the lock and the sleepers change, the log and the clock do not *)
Lemma recorded_ser {X} c ph th (o : rop X) (k : X -> rprog unit) x z' phx : recorded c ph ->
  rp_threads c !! th = Some (RAct o k) -> z_turnCount z' = clock c ->
  rdisc (self c th) (k x) phx (fun _ _ => True) -> phase_ok z' (log_of (rp_world c)) (self c th) th phx ->
  (forall t, t <> th -> cond_step t (ser c) z') ->
  (z_lock (ser c) = None \/ z_lock (ser c) = Some th) /\ (z_lock z' = None \/ z_lock z' = Some th) ->
  exists ph', recorded (RProcess (<[th := k x]> (rp_threads c)) (RWorld z' (rw_world (rp_world c)))) ph' /\
    clock c <= z_turnCount z' <= clock c + 1.
Proof using Type.
  intros H Hp Hk Hd Hok Hsub [Hl1 Hl2]. exists (<[th := phx]> ph). split; [|lia].
  eapply recorded_next; try done; cbn [rw_ser rw_world].
  - rewrite Hk. apply H.
  - right. auto.
Qed.

Lemma recorded_cond {X} c ph th ch (o : rop X) (k : X -> rprog unit) x w' : recorded c ph ->
  rp_threads c !! th = Some (RAct o k) -> match o with Std _ => False | _ => True end ->
  rexec th ch o (rp_world c) = Ok (x, w') ->
  exists ph', recorded (RProcess (<[th := k x]> (rp_threads c)) w') ph' /\ clock c <= z_turnCount (rw_ser w') <= clock c + 1.
Proof using Type.
  intros H Hp Ho He. destruct (rc_prog _ _ H _ _ Hp) as [Hd Hok].
  assert (Hser : forall (m : SZ X) Q, on_ser m (rp_world c) = Ok (x, w') -> wpx any_error m Q (ser c) ->
    exists z', w' = RWorld z' (rw_world (rp_world c)) /\ Q x z').
  { intros m Q Hm HQ. unfold on_ser, zoom in Hm. unfold wpx in HQ.
    destruct (m (ser c)) as [[y z]|]; [|done]. injection Hm as -> <-. eauto. }
  destruct o as [Y o|cv timed| |cv all]; [done|..]; cbn [rexec] in He.
  - destruct Hd as (n & Eph & Hd). rewrite Eph in Hok. destruct Hok as (Hin & Hs & Hsl & Hwk).
    symmetry in Hin. apply bool_decide_eq_true in Hin.
    destruct (Hser (rs_sleep th cv timed) (fun _ z' => z' = set_z_lock None
      (set_z_cond (<[th := (cv, timed)]> (z_sleep (ser c))) (z_woken (ser c)) (ser c)))
      He ltac:(unfold rs_sleep; by wp_steps)) as (z' & -> & ->).
    destruct x. apply (recorded_ser _ _ _ _ _ _ _ (Asleep cv) H Hp); simpl; try done.
    + split_and!; [done|by eapply (so_wait _ _ _ _ Hs)|]. intros v. rewrite lookup_insert_eq. by intros [= <-].
    + intros t Hne. left. simpl. by rewrite lookup_insert_ne.
    + auto.
  - destruct Hd as [[cv Eph] Hd]. rewrite Eph in Hok. destruct Hok as (Hin & Hw & Hsl).
    destruct (Hser (rs_wake th) (fun r z' => z_lock (ser c) = None /\ is_Some (z_woken (ser c) !! th) /\ z' = set_z_lock (Some th)
      (set_z_cond (z_sleep (ser c)) (delete th (z_woken (ser c))) (ser c))) He) as (z' & -> & Hfree & [r Hwk] & ->).
    { unfold rs_wake. wp_steps. destruct (z_woken (ser c) !! th); [|done]. destruct (z_lock (ser c)); [done|].
      wp_steps. eauto. }
    apply (recorded_ser _ _ _ _ _ _ _ (Awake (Some (None, None))) H Hp); simpl; try done.
    + split_and!; [by rewrite bool_decide_true|by split|..|by rewrite lookup_delete_eq].
      destruct (z_sleep (ser c) !! th) as [v|] eqn:E; [|done]. destruct (Hsl v eq_refl). congruence.
    + intros t Hne. left. simpl. by rewrite lookup_delete_ne.
    + auto.
  - destruct Hd as [(p & Eph & Hp0) Hd]. rewrite Eph in Hok, Hd. destruct Hok as (Hin & Hs & Hsl & Hwk).
    rewrite Hp0 in Hin. symmetry in Hin. apply bool_decide_eq_true in Hin.
    destruct (Hser (if all then rs_broadcast cv else rs_signal cv ch)
      (fun _ z' => exists Y, (forall t, t ∈ Y -> is_Some (z_sleep (ser c) !! t)) /\ z' = wake_up 0 Y (ser c)) He)
      as (z' & -> & Y & HY & ->).
    { destruct all; unfold rs_broadcast, rs_signal; wp_steps.
      - eexists. split; [|done]. intros t Ht. by apply elem_of_elements, sleepers_asleep in Ht.
      - destruct (_ && _) eqn:E; [|done]. wp_steps. eexists. split; [|done]. intros t Ht.
        apply andb_true_iff in E as [E _]. apply bool_decide_eq_true in E. apply (sleepers_asleep cv), E.
        by apply elem_of_list_to_set. }
    destruct x. apply (recorded_ser _ _ _ _ _ _ _ (Awake p) H Hp); try done.
    + destruct (wake_up_step 0 Y (ser c) th HY) as [[E1 E2]|[[v E1] _]]; [|congruence].
      simpl in E1, E2 |- *. rewrite E1, E2. by rewrite Hp0, bool_decide_true.
    + intros t _. by apply wake_up_step.
    + simpl. auto.
Qed.

Lemma recorded_event c ph e c' : recorded c ph -> revent e c = Some c' -> 0 <= clock c -> clock c + 1 < 2 ^ 32 ->
  exists ph', recorded c' ph' /\ clock c <= clock c' <= clock c + 1.
Proof using Type.
  intros H He H0 H1. destruct e as [th ch|th r]; cbn [revent] in He.
  - destruct (rp_threads c !! th) as [p|] eqn:Hp; [|done].
    destruct (rstep th ch p (rp_world c)) as [[p' w']|] eqn:Hst; [|done]. injection He as <-.
    destruct p as [a|X o k|S X body s k]; cbn [rstep] in Hst; [done| |].
    + destruct (rexec th ch o (rp_world c)) as [[x w1]|] eqn:Hex; [|done]. injection Hst as <- ->.
      destruct o; [by eapply recorded_std|by eapply recorded_cond..].
    + injection Hst as <- <-. destruct (rc_prog _ _ H _ _ Hp) as [(Inv & Hinv & Hbody) Hok].
      exists (<[th := ph th]> ph). split; [|cbn [rp_world]; lia].
      eapply recorded_next; try done; [apply H| |intros; by left|by left].
      apply rdisc_bind. eapply rdisc_mono; [|by apply Hbody]. intros [s'|x] ph' Hr; [|done]. by exists Inv.
  - destruct (rs_leave th r (ser c)) as [z'|] eqn:Hl; [|done]. injection He as <-. unfold rs_leave in Hl.
    destruct (z_sleep (ser c) !! th) as [[cv timed]|] eqn:Hsl; [|done]. destruct (_ || _); [|done]. injection Hl as <-.
    assert (Hc : forall t, cond_step t (ser c) (wake_up r [th] (ser c))).
    { intros t. apply wake_up_step. intros t' ->%list_elem_of_singleton. eauto. }
    exists ph. split; [|cbn; lia]. split; cbn [rp_threads rp_world rw_ser rw_world]; [apply H|apply H| |].
    + intros t [v Hv]. apply (rc_sleep _ _ H). destruct (Hc t) as [[E _]|[E _]]; [rewrite <-E; eauto|done].
    + intros t p Hp. destruct (rc_prog _ _ H _ _ Hp) as [Hd Hok]. split; [done|].
      eapply (phase_ok_other _ _ _ _ (self c t + 1) (t + 1)); [lia|lia|apply Hc|by left|exact Hok].
Qed.

Lemma recorded_events l : forall c ph c', recorded c ph -> revents l c = Some c' -> 0 <= clock c ->
  clock c + Z.of_nat (length l) < 2 ^ 32 -> exists ph', recorded c' ph'.
Proof using Type.
  induction l as [|e l IH]; intros c ph c' H Hl H0 H1; cbn [revents] in Hl; [injection Hl as <-; eauto|].
  destruct (revent e c) as [c1|] eqn:He; [|done]. cbn [length] in H1.
  destruct (recorded_event _ _ _ _ H He) as (ph' & H' & Hk); [lia..|]. eapply IH; [exact H'|exact Hl|lia..].
Qed.

(** a process of application threads before its first step *)
Record rs_process (c : rprocess) : Prop := {
  rp_apps th p : rp_threads c !! th = Some p -> exists a, p = rs_app th a;
  rp_inj th1 th2 : is_Some (rp_threads c !! th1) -> is_Some (rp_threads c !! th2) -> self c th1 = self c th2 -> th1 = th2;
  rp_free : z_lock (ser c) = None;
  rp_awake : z_sleep (ser c) = ∅;
  rp_not_woken : z_woken (ser c) = ∅;
  rp_log : g_log (w_rt (rw_world (rp_world c))) = [];
  rp_clock : 0 <= z_turnCount (ser c)
}.

Lemma rs_recorded c l c' : log_sync = true -> rs_process c -> revents l c = Some c' ->
  z_turnCount (ser c) + Z.of_nat (length l) < 2 ^ 32 -> exists ph, recorded c' ph.
Proof using Type.
  intros Hlog [P1 P2 P3 P4 P5 P6 P7] Hl Hk. apply (recorded_events l c (fun _ => Awake None) c'); try done.
  split; [done|rewrite P6; split; constructor| |].
  - rewrite P4. intros th. rewrite lookup_empty. by intros [].
  - intros th p Hp. destruct (P1 _ _ Hp) as [a ->]. split; [|unfold phase_ok; by rewrite P3, P4, P5].
    eapply rdisc_mono; [|by apply rs_app_whole]. done.
Qed.

(** C18: the recorded order.  Whoever comes first runs: in every execution over
    RecordSerializer, with any wake-ups of condition variables, the entries of the log carry
    different turn numbers and are written in the order of these numbers, as long as the
    32-bit counter has not wrapped. *)
Theorem recorded_order c l c' : log_sync = true -> rs_process c -> revents l c = Some c' ->
  z_turnCount (ser c) + Z.of_nat (length l) < 2 ^ 32 ->
  StronglySorted (fun e1 e2 => l_turn e2 < l_turn e1) (g_log (w_rt (rw_world (rp_world c')))).
Proof using Type. intros Hlog Hc Hl Hk. destruct (rs_recorded _ _ _ Hlog Hc Hl Hk) as [ph H]. apply H. Qed.

(** C19: the log knows who waits.  Whenever a thread sleeps on a condition variable, and so
    whenever a signal can wake it, its last entry in the log is the first half of a wait on
    that condition variable: no entry of a signal comes between the wait in the log and the
    wait in fact, which is why the runtime waits with the lock of the serializer. *)
Theorem sleepers_recorded c l c' th cv timed : log_sync = true -> rs_process c -> revents l c = Some c' ->
  z_turnCount (ser c) + Z.of_nat (length l) < 2 ^ 32 -> z_sleep (ser c') !! th = Some (cv, timed) ->
  waits_in_log (self c' th) (g_log (w_rt (rw_world (rp_world c')))) = Some cv.
Proof using Type.
  intros Hlog Hc Hl Hk Hsl. destruct (rs_recorded _ _ _ Hlog Hc Hl Hk) as [ph H].
  destruct (rc_sleep _ _ H th ltac:(eauto)) as [p Hp]. destruct (rc_prog _ _ H _ _ Hp) as [_ Hok].
  destruct (ph th) as [p0|cv0]; [by destruct Hok as (_ & _ & Hn & _); rewrite Hn in Hsl|].
  destruct Hok as (_ & Hw & Hcv). destruct (Hcv _ Hsl) as [E _]. simpl in E. by subst.
Qed.
End recorded.

(** ** A run *)
Section record_witness.
Local Existing Instance sample_options.
Local Existing Instance elements_order.
Local Existing Instance sample_addrs.
Local Existing Instance sample_nodes.

(** let the threads run, each as far as it gets, and note the events *)
Fixpoint rs_greedy (n : nat) (ths : list Z) (c : rprocess) : list event * rprocess :=
  match n with
  | 0%nat => ([], c)
  | S n' =>
      let try th := revent (Go th (take 1 (elements (dom (z_sleep (rw_ser (rp_world c))))))) c in
      match filter (fun th => is_Some (try th)) ths with
      | th :: _ =>
          let e := Go th (take 1 (elements (dom (z_sleep (rw_ser (rp_world c)))))) in
          let r := rs_greedy n' ths (default c (try th)) in (e :: r.1, r.2)
      | [] => ([], c)
      end
  end.

(** a thread waits for another one, and is woken *)
Definition rs_waiter : app unit :=
  AppDo 1 (RMutexLock 500) (fun _ => AppDo 2 (RCondWait 900 500) (fun _ =>
    AppDo 3 (RMutexUnlock 500) (fun _ => AppEnd tt))).
Definition rs_waker : app unit :=
  AppDo 4 (RMutexLock 500) (fun _ => AppDo 5 (RCondSignal 900) (fun _ =>
    AppDo 6 (RMutexUnlock 500) (fun _ => AppEnd tt))).
Definition rs_start : rprocess :=
  RProcess (<[1000 := rs_app 1000 rs_waiter]> {[ 1001 := rs_app 1001 rs_waker ]})
    (RWorld (Serial None empty_tidmap 0 [] ∅ ∅)
       (World blank_sched rt0 ∅ (<[1000 := (0, -1)]> {[ 1001 := (1, -1) ]}) ∅)).
(** until the waiter sleeps; then the waker runs to its end, and the waiter goes on *)
Definition rs_asleep : list event * rprocess := rs_greedy 60 [1000] rs_start.
Definition rs_woken : list event * rprocess := rs_greedy 60 [1001] rs_asleep.2.
Definition rs_ended : list event * rprocess := rs_greedy 60 [1000] rs_woken.2.

Lemma rs_greedy_events n ths : forall c, revents (rs_greedy n ths c).1 c = Some (rs_greedy n ths c).2.
Proof.
  induction n as [|n IH]; intros c; cbn [rs_greedy]; [done|].
  destruct (filter _ ths) as [|th l] eqn:Hf; [done|].
  assert (Hin : th ∈ th :: l) by by left. rewrite <-Hf in Hin. apply list_elem_of_filter in Hin as [[c1 Hc1] _].
  cbn [revents fst snd]. rewrite Hc1. simpl. apply IH.
Qed.
Lemma revents_app l1 l2 c : revents (l1 ++ l2) c = revents l1 c ≫= revents l2.
Proof. revert c. induction l1 as [|e l1 IH]; intros c; [done|]. cbn. destruct (revent e c); [apply IH|done]. Qed.

Lemma rs_asleep_run : revents rs_asleep.1 rs_start = Some rs_asleep.2.
Proof. unfold rs_asleep. exact (rs_greedy_events 60 [1000] rs_start). Qed.
Lemma rs_woken_run : revents rs_woken.1 rs_asleep.2 = Some rs_woken.2.
Proof. unfold rs_woken. exact (rs_greedy_events 60 [1001] rs_asleep.2). Qed.
Lemma rs_ended_run : revents rs_ended.1 rs_woken.2 = Some rs_ended.2.
Proof. unfold rs_ended. exact (rs_greedy_events 60 [1000] rs_woken.2). Qed.

Lemma rs_start_process : rs_process rs_start.
Proof.
  split; try done.
  - intros th p. unfold rs_start. cbn [rp_threads]. rewrite lookup_insert_Some, lookup_singleton_Some.
    intros [[<- <-]|(_ & <- & <-)]; by eexists.
  - intros th1 th2. unfold rs_start. cbn [rp_threads]. rewrite !lookup_insert_is_Some, !lookup_singleton_is_Some.
    intros [<-|[_ <-]] [<-|[_ <-]]; by vm_compute.
Qed.

Lemma recorded_order_witness :
  l_turn <$> g_log (w_rt (rw_world (rp_world rs_ended.2))) = [7; 6; 4; 3; 2; 1; 0] /\
  StronglySorted (fun e1 e2 => l_turn e2 < l_turn e1) (g_log (w_rt (rw_world (rp_world rs_ended.2)))).
Proof.
  assert (Hlog : log_sync = true) by reflexivity.
  assert (Hlen : (length (rs_asleep.1 ++ rs_woken.1 ++ rs_ended.1) < 1000)%nat) by (vm_compute; lia).
  split; [vm_compute; reflexivity|].
  apply (recorded_order rs_start (rs_asleep.1 ++ rs_woken.1 ++ rs_ended.1) rs_ended.2 Hlog rs_start_process).
  - rewrite revents_app, rs_asleep_run. cbn [mbind option_bind]. rewrite revents_app, rs_woken_run.
    cbn [mbind option_bind]. exact rs_ended_run.
  - change (z_turnCount (rw_ser (rp_world rs_start))) with 0. lia.
Defined.

Lemma sleepers_recorded_witness : waits_in_log 0 (g_log (w_rt (rw_world (rp_world rs_asleep.2)))) = Some 900.
Proof.
  assert (Hlog : log_sync = true) by reflexivity.
  assert (Hlen : (length rs_asleep.1 < 1000)%nat) by (vm_compute; lia).
  assert (Hself : self_of (rw_world (rp_world rs_asleep.2)) 1000 = 0) by (vm_compute; reflexivity).
  assert (Hsl : z_sleep (rw_ser (rp_world rs_asleep.2)) !! 1000 = Some (900, false)) by (vm_compute; reflexivity).
  rewrite <-Hself.
  apply (sleepers_recorded rs_start rs_asleep.1 rs_asleep.2 1000 900 false Hlog rs_start_process).
  - exact rs_asleep_run.
  - change (z_turnCount (rw_ser (rp_world rs_start))) with 0. lia.
  - exact Hsl.
Defined.
End record_witness.
