(* ===== verification/LogDet.v ===== *)
(** * The log files are deterministic

    The entries that the runtime logs (RtLog.v), the logger that writes them into the file
    of their thread (TxtLog.v) and the determinism of executions (RtApp.v) together: the
    files of the test logger depend neither on the interleaving nor on any time. *)
From S2P Require Import Prelude Options RunQueue RunQueueSpec TidMap NonDetSet Scheduler SchedInv SchedOps.
From S2P Require Import SchedSys SchedRun SchedTurns SyncFuncs LogText LogDefs RtState TxtLog Proc RtDisc RtBase RtSync RtAnnot RtThread.
From S2P Require Import RtDet RtApp RtRun RtThms RtLog.

(** what logSync gets besides the entry: the three times and getTurnWaitType *)
Record timing : Type := Timing { tm_app : timespec; tm_syscall : timespec; tm_sched : timespec; tm_wait : Z }.
Definition timed_event (tm : timing) (e : log_entry) : sync_event := event_of e (tm_app tm) (tm_syscall tm) (tm_sched tm) (tm_wait tm).
(** the entries of the thread, the oldest one first, of a log that has the newest one first *)
Definition thread_log (tid : Z) (log : list log_entry) : list log_entry :=
  reverse (base.filter (fun e => l_tid e = tid) log).

Section files.
Context `{O : Options}.
(** the file of the thread, [tm i] being the times of its entry i *)
Definition test_file (tm : nat -> timing) (tid : Z) (log : list log_entry) : res string :=
  match for_each test_logSync (imap (fun i e => timed_event (tm i) e) (thread_log tid log)) (new_testlog tid) with
  | Ok (_, l) => Ok (tx_ouf l)
  | Err e => Err e
  end.

Definition no_time : timing := Timing zero_time zero_time zero_time 0.
Lemma for_each_times (tm : nat -> timing) es l :
  for_each test_logSync (imap (fun i e => timed_event (tm i) e) es) l = for_each (fun e => test_logSync (timed_event no_time e)) es l.
Proof using Type.
  revert tm l. induction es as [|e es IH]; intros tm l; [done|]. cbn [imap for_each]. unfold mbind, M_bind.
  change (test_logSync (timed_event (tm 0%nat) e) l) with (test_logSync (timed_event no_time e) l).
  destruct (test_logSync _ l) as [[[] l']|]; [|done]. apply (IH (fun i => tm (S i))).
Qed.
Lemma test_file_times tm1 tm2 tid log : test_file tm1 tid log = test_file tm2 tid log.
Proof using Type. unfold test_file. by rewrite !for_each_times. Qed.
(** the logger only appends *)
Definition grows {A} (m : TM A) : Prop := forall l, wpx any_error m (fun _ l' => exists rest, tx_ouf l' = tx_ouf l +:+ rest) l.
Lemma grow_bind {A B} (m : TM A) (k : A -> TM B) : grows m -> (forall a, grows (k a)) -> grows (m ≫= k).
Proof using Type.
  intros Hm Hk l. apply wp_bind. eapply wp_mono; [apply Hm|]. intros a l1 [r1 E1]. eapply wp_mono; [apply Hk|].
  intros b l2 [r2 E2]. exists (r1 +:+ r2). by rewrite E2, E1, str_app_assoc.
Qed.
Lemma grow_same {A} (m : TM A) : (forall l, wpx any_error m (fun _ l' => l' = l) l) -> grows m.
Proof using Type. intros H l. eapply wp_mono; [apply H|]. intros a l' ->. exists "". by rewrite str_app_nil. Qed.
Lemma grow_emit s : grows (emit s).
Proof using Type. intros l. apply wp_modify. by exists s. Qed.
Lemma grow_cassert b msg : grows (cassert ndebug b msg).
Proof using Type. apply grow_same. intros l. unfold cassert. by destruct (b || ndebug). Qed.
Lemma grow_va_args k vl : grows (va_args k vl).
Proof using Type. apply grow_same. intros l. unfold va_args. by destruct (k <=? length vl)%nat. Qed.
Lemma grow_logSync e : grows (test_logSync e).
Proof using Type.
  unfold test_logSync, log_args. apply grow_bind; [apply grow_cassert|]. intros _.
  apply grow_bind; [apply grow_same; intros l; unfold sync_name, wpx; by destruct (getName _)|]. intros name.
  apply grow_bind; [by apply grow_same|]. intros l. destruct (thread_event _).
  - apply grow_bind; [apply grow_va_args|]. intros a. apply grow_bind; intros; apply grow_emit.
  - apply grow_bind; [apply grow_emit|]. intros _. apply grow_bind; [|intros; apply grow_emit].
    destruct (test_arity _); [apply grow_bind; [apply grow_va_args|intros; apply grow_emit]|apply grow_cassert].
Qed.
Lemma grow_for_each es : grows (for_each (fun e => test_logSync (timed_event no_time e)) es).
Proof using Type. induction es; simpl; [by apply grow_same|]. apply grow_bind; [apply grow_logSync|done]. Qed.

(** the file of a part of the log *)
Lemma test_file_prefix tm1 tm2 tid es log file1 : test_file tm1 tid (es ++ log) = Ok file1 ->
  exists file2 rest, test_file tm2 tid log = Ok file2 /\ file1 = file2 +:+ rest.
Proof using Type.
  unfold test_file, thread_log. rewrite !for_each_times, filter_app, reverse_app. set (old := reverse _). set (new := reverse _).
  assert (forall l, for_each (fun e => test_logSync (timed_event no_time e)) (old ++ new) l =
    match for_each (fun e => test_logSync (timed_event no_time e)) old l with
    | Ok (_, l') => for_each (fun e => test_logSync (timed_event no_time e)) new l'
    | Err e => Err e
    end) as ->.
  { clear. induction old as [|e old IH]; intros l; [done|]. simpl. unfold mbind, M_bind.
    destruct (test_logSync _ l) as [[[] l']|]; [apply IH|done]. }
  destruct (for_each _ old _) as [[[] l]|]; [|done]. pose proof (grow_for_each new l) as Hg. unfold wpx in Hg.
  destruct (for_each _ new l) as [[[] l']|]; [|done]. intros [= <-]. destruct Hg as [rest ->]. by exists (tx_ouf l), rest.
Qed.
End files.

(** ** Executions of applications *)
Section executions.
Context `{O : Options, U : UnorderedIter, G : GlobalAddrs, N : NodeAddrs}.
Lemma app_logs {A} me (a : app A) : logs entry_typed (app_prog me a).
Proof using Type.
  induction a as [A x|A ins r k IH|A S X body IHb s k IHk]; cbn [app_prog]; [done| |by split].
  apply l_bind; [apply handle_logs|done].
Qed.
Lemma logs_kept c l c' : psteps c l c' -> (forall th p, p_threads c !! th = Some p -> logs entry_typed p) ->
  forall th p, p_threads c' !! th = Some p -> logs entry_typed p.
Proof using Type.
  induction 1 as [c|c th c1 l c2 Hs _ IH]; intros Hall; [done|]. apply IH. destruct Hs as [p p' w' Hp Hs ->].
  intros t q. cbn [p_threads]. rewrite lookup_insert_Some. intros [[_ <-]|[_ Hq]]; [|by eapply Hall].
  by eapply logs_step; [apply (Hall _ _ Hp)|].
Qed.

(** C2: The logs show one schedule.  Take a process whose threads only call synchronisation
    methods of the runtime, and a complete execution of it that leaves the file [file1] of
    a thread.  At any moment of any other execution, whatever its interleaving and
    whatever times are measured in it, the file of the thread is a prefix of [file1], and
    when that execution is complete it is [file1], byte for byte. *)
Theorem test_logs_deterministic c l1 c1 l2 c2 tid tm1 tm2 file1 :
  0 <= enforce_turn_type <= 2 -> flag_set scheduling_policy 2 = false -> app_process c ->
  psteps c l1 c1 -> quiescent c1 -> test_file tm1 tid (g_log (w_rt (p_world c1))) = Ok file1 ->
  psteps c l2 c2 ->
  exists file2 rest, test_file tm2 tid (g_log (w_rt (p_world c2))) = Ok file2 /\ file1 = file2 +:+ rest /\
    (quiescent c2 -> file1 = file2).
Proof using Type.
  intros Htt Hpol Hc H1 Hq Hf H2. destruct (app_good Hpol _ Hc) as [tok Hg].
  destruct (completes Htt l2 tok c l1 c1 c2 Hg H1 Hq H2) as (l & H3 & _).
  assert (forall th p, p_threads c !! th = Some p -> logs entry_typed p) as Hall.
  { intros th p [a ->]%(ap_prog _ Hc). apply app_logs. }
  destruct (logs_steps _ _ _ H3 (logs_kept _ _ _ H2 Hall)) as (es & Hes & _). rewrite Hes in Hf.
  destruct (test_file_prefix tm1 tm2 tid es _ file1 Hf) as (file2 & rest & Hf2 & Hrest). exists file2, rest.
  split_and!; [done|done|]. intros Hq2. inversion H3 as [|? ? d ? ? Hs _]; subst.
  - assert (es = []) as ->. { apply (f_equal length) in Hes. rewrite length_app in Hes. destruct es; [done|simpl in Hes; lia]. }
    simpl in Hf. rewrite (test_file_times tm1 tm2), Hf2 in Hf. by injection Hf.
  - by destruct (Hq2 _ _ Hs).
Qed.
End executions.

Section witness.
Local Existing Instance sample_options.
Local Existing Instance elements_order.
Local Existing Instance sample_addrs.
Local Existing Instance sample_nodes.
Definition tm_fast (i : nat) : timing := Timing (Timespec 1 (Z.of_nat i)) zero_time zero_time 0.
Definition tm_slow (i : nat) : timing := Timing (Timespec 90 500) (Timespec 7 (Z.of_nat i)) zero_time 2.
Definition two_file : string := match test_file tm_fast 1 (g_log (w_rt (p_world two_all.2))) with Ok f => f | Err _ => "" end.
Example two_file_lines : length (lines two_file) = 3%nat.
Proof. by vm_compute. Qed.
Lemma test_logs_deterministic_witness :
  exists file2 rest, test_file tm_slow 1 (g_log (w_rt (p_world two_part.2))) = Ok file2 /\ two_file = file2 +:+ rest.
Proof.
  destruct (test_logs_deterministic two_threads two_all.1 two_all.2 two_part.1 two_part.2 1 tm_fast tm_slow two_file)
    as (file2 & rest & Hf & Hr & _).
  - by split.
  - reflexivity.
  - exact two_threads_app.
  - unfold two_all. exact (greedy_psteps 400 [1000; 1001] two_threads).
  - apply quiescentb_sound. vm_compute. reflexivity.
  - by vm_compute.
  - unfold two_part. exact (greedy_psteps 20 [1001; 1000] two_threads).
  - exists file2, rest. split; [exact Hf|exact Hr].
Defined.
End witness.
