(* ===== verification/RtTurn.v ===== *)
(** * What a method of the runtime does at its turn

    [at_turn w me h A tok]: thread [me], with thread id [h], is in no special mode and the
    scheduler is in the steady state [A].  The rules run the common parts of the methods
    at this level; [blocks] is the outcome of a method that waits. *)
From S2P Require Import Prelude Options RunQueue TidMap NonDetSet Scheduler SyncFuncs SchedInv SchedOps SchedSys.
From S2P Require Import SchedThms SchedMachine SchedSteady RtState Proc RtBase RtReturns RtSync.

(** ** Programs that block *)
Section blocks.
Context `{O : Options, U : UnorderedIter, G : GlobalAddrs}.

(** run by [th] from [w], [p] comes to a point where it cannot go on alone; the rest of
    the program, up to [peq], and the world satisfy [B] *)
Definition blocks {A} (th : Z) (p : prog A) (B : prog A -> world -> Prop) (w : world) : Prop :=
  exists n p' q w', run n th p w = Blocked p' w' /\ peq q p' /\ B q w'.

Lemma run_blocked_peq {A} n : forall th (p q : prog A) w p' w', peq p q -> run n th p w = Blocked p' w' ->
  exists q', run n th q w = Blocked q' w' /\ peq p' q'.
Proof using Type.
  induction n as [|n IH]; intros th p q w p' w' Hpq Hrun; [by destruct Hpq|].
  destruct (step th p w) as [[p1 w1]|e] eqn:Hs.
  - destruct (step_peq _ _ _ _ _ _ Hpq Hs) as (q1 & Hq & Hpq1).
    destruct p; [done|..]; inversion Hpq; subst; cbn [run] in *; rewrite Hs in Hrun; rewrite Hq; by eapply IH.
  - assert (Hq : step th q w = Err e).
    { destruct Hpq as [a|X o k k' Hk|S X body s k k' Hk]; cbn [step] in *; [done| |done].
      by destruct (exec th o w) as [[??]|]. }
    destruct p; [done|..]; inversion Hpq; subst; cbn [run] in *; rewrite Hs in Hrun; rewrite Hq;
      destruct e; try done; injection Hrun as <- <-; eauto.
Qed.
Lemma b_peq {A} th (p q : prog A) B w : peq p q -> blocks th p B w -> blocks th q B w.
Proof using Type.
  intros Hpq (n & p' & q0 & w' & Hr & Hq0 & HB). destruct (run_blocked_peq _ _ _ _ _ _ _ Hpq Hr) as (q' & Hr' & Hq').
  exists n, q', q0, w'. split_and!; [done|by rewrite Hq0|done].
Qed.
Lemma b_mono {A} th (p : prog A) (B B' : prog A -> world -> Prop) w : blocks th p B w ->
  (forall p' w', B p' w' -> B' p' w') -> blocks th p B' w.
Proof using Type. intros (n & p' & q & w' & Hr & Hq & HB) H. exists n, p', q, w'. auto. Qed.
Lemma b_now {A} th (p : prog A) (B : prog A -> world -> Prop) w :
  match p with Ret _ => False | _ => True end -> step th p w = Err WouldBlock -> B p w -> blocks th p B w.
Proof using Type.
  intros Hp Hs HB. exists 1%nat, p, p, w. split_and!; [|done|done]. destruct p; [done|..]; cbn [run]; by rewrite Hs.
Qed.
Lemma b_step {A} th (p p' : prog A) B w w' : step th p w = Ok (p', w') -> blocks th p' B w' -> blocks th p B w.
Proof using Type.
  intros Hs (n & p2 & q & w2 & Hr & Hq). exists (S n), p2, q, w2. split; [|done].
  destruct p; [done|..]; cbn [run]; by rewrite Hs.
Qed.
(** the first part of a sequence returns, or blocks *)
Lemma b_bind_returns {A B} th (p : prog A) (f : A -> prog B) Q w :
  returns th p (fun a w' => blocks th (f a) Q w') w -> blocks th (p ≫= f) Q w.
Proof using Type.
  intros (n & a & w' & Hr & HQ). revert p w Hr. induction n as [|n IH]; intros p w Hr.
  - destruct p; simpl in Hr; simplify_eq. exact HQ.
  - destruct p as [a0|X o k|S X body s k]; [by simpl in Hr; simplify_eq|..]; cbn [run] in Hr.
    + destruct (step th (Act o k) w) as [[p1 w1]|e] eqn:Hs; [|by destruct e].
      cbn [step] in Hs. destruct (exec th o w) as [[x w2]|] eqn:He; [|done]. injection Hs as <- <-.
      eapply b_step; [simpl; by rewrite He|]. by apply IH.
    + cbn [step] in Hr. eapply b_step; [reflexivity|].
      eapply b_peq; [|apply IH; exact Hr]. apply pbind_assoc. by intros [s'|x].
Qed.
Lemma b_bind_blocks {A B} th (p : prog A) (f : A -> prog B) Q w :
  blocks th p (fun p' w' => Q (p' ≫= f) w') w -> blocks th (p ≫= f) Q w.
Proof using Type.
  intros (n & p' & q & w' & Hr & Hq & HQ). revert p w Hr. induction n as [|n IH]; intros p w Hr; [by destruct p|].
  destruct (step th p w) as [[p1 w1]|e] eqn:Hs.
  - assert (Hr1 : run n th p1 w1 = Blocked p' w') by (destruct p; [done|..]; cbn [run] in Hr; by rewrite Hs in Hr).
    destruct p as [a0|X o k|S X body s k]; cbn [step] in Hs; [done|..].
    + destruct (exec th o w) as [[x w2]|] eqn:He; [|done]. injection Hs as <- <-.
      eapply b_step; [simpl; by rewrite He|]. by apply IH.
    + injection Hs as <- <-. eapply b_step; [reflexivity|].
      eapply b_peq; [|apply IH; exact Hr1]. apply pbind_assoc. by intros [s'|x].
  - assert (Hb : e = WouldBlock /\ p' = p /\ w' = w).
    { destruct p; [done|..]; cbn [run] in Hr; rewrite Hs in Hr; destruct e; try done; by injection Hr as <- <-. }
    destruct Hb as (-> & -> & ->). eapply b_peq; [apply pbind_proper; [intros x; reflexivity|exact Hq]|].
    destruct q as [a0|X o k|S X body s k].
    + by apply peq_inv in Hq as ->.
    + apply b_now; [done| |done]. apply peq_inv in Hq as (k' & -> & _). clear Hr IH. simpl in *.
      by destruct (exec th o w) as [[??]|]; simplify_eq.
    + by apply peq_inv in Hq as (k' & -> & _).
Qed.
Lemma b_act {X A} th (o : op X) (k : X -> prog A) Q w x w' :
  exec th o w = Ok (x, w') -> blocks th (k x) Q w' -> blocks th (act o ≫= k) Q w.
Proof using Type. intros He Hk. eapply b_step; [|exact Hk]. simpl. by rewrite He. Qed.

(** the program returns or blocks *)
Definition ends {A} (th : Z) (p : prog A) (Q : A -> world -> Prop) (B : prog A -> world -> Prop) (w : world) : Prop :=
  returns th p Q w \/ blocks th p B w.
Lemma e_bind {A B} th (p : prog A) (f : A -> prog B) Q R w :
  returns th p (fun a w' => ends th (f a) Q R w') w -> ends th (p ≫= f) Q R w.
Proof using Type.
  intros (n & a & w' & Hr & [HQ|HR]); [left; apply r_bind|right; apply b_bind_returns]; by exists n, a, w'.
Qed.
Lemma e_peq {A} th (p q : prog A) Q R w : peq p q -> ends th p Q R w -> ends th q Q R w.
Proof using Type. intros Hpq [H|H]; [left; by eapply r_peq|right; by eapply b_peq]. Qed.
Lemma e_assoc {A B C} th (p : prog A) (f : A -> prog B) (g : B -> prog C) Q R w :
  ends th (p ≫= fun a => f a ≫= g) Q R w -> ends th ((p ≫= f) ≫= g) Q R w.
Proof using Type. apply e_peq. symmetry. by apply pbind_assoc. Qed.
Lemma e_returns {A} th (p : prog A) Q w : ends th p Q (fun _ _ => False) w -> returns th p Q w.
Proof using Type. intros [H|(? & ? & ? & ? & _ & _ & [])]. exact H. Qed.
Lemma e_blocks {A} th (p : prog A) B w : ends th p (fun _ _ => False) B w -> blocks th p B w.
Proof using Type. intros [(? & ? & ? & _ & [])|H]. exact H. Qed.
End blocks.

(** ** The turn of a thread *)

(** outside every special region and policy *)
Record plain_tls (t : tls) : Prop := {
  pt_non_det : inNonDet t = false;
  pt_no_wait : inNoWaitNonDet t = false;
  pt_cs : inCSLevel t = 0;
  pt_slock : slock_n_turns t = 0;
  pt_cv : satisfyingCV t = 0;
  pt_sem : satisfyingSem t = 0;
  pt_role : satisfyingRole t = 0;
  pt_yield : yield_this t = false;
  pt_proposed : process_proposed_role t = false
}.

(** the objects of the application *)
Definition objs (r : rt) : gmap Z mutex_t * gmap Z rwlock_t * gmap Z Z * gmap Z barrier_t * gmap Z Z * gmap Z Z :=
  (os_mutexes r, os_rwlocks r, os_sems r, g_barriers r, g_cond_map r, g_sem_map r).
(** what a synchronisation adds to the log *)
Definition entry `{Options} (tid ins : Z) (op : syncfunc.t) (turn : Z) (after : bool) (args : list Z) : list log_entry :=
  if log_sync then [LogEntry tid ins op turn after args] else [].

Section turn.
Context `{O : Options, U : UnorderedIter, G : GlobalAddrs} {P : PlainOptions}.

Record at_turn (w : world) (me h : Z) (A : turnq) (tok : turn_state) : Prop := {
  at_self : self_of w me = h;
  at_steady : steady (w_s w) A tok;
  at_tls : plain_tls (tls_of w me)
}.

(** *** Single operations *)
Lemma r_call {X} th (c : scall X) Q w :
  wp (scall_code c (self_of w th) th) (fun x s' => Q x (set_s s' w)) (w_s w) -> returns th (call c) Q w.
Proof using Type.
  intros (x & s' & Hc & HQ)%wp_elim. eapply r_act_last; [|exact HQ]. simpl. unfold zoom. by rewrite Hc.
Qed.
Lemma r_rt {X} th (m : RTM X) Q w : wp m (fun x r' => Q x (set_rt r' w)) (w_rt w) -> returns th (rt_do m) Q w.
Proof using Type.
  intros (x & r' & Hm & HQ)%wp_elim. eapply r_act_last; [|exact HQ]. simpl. unfold zoom. by rewrite Hm.
Qed.
Lemma r_tls {X} th (m : M tls X) Q w : wp m (fun x t' => Q x (set_tls th t' w)) (tls_of w th) -> returns th (tls_do m) Q w.
Proof using Type.
  intros (x & t' & Hm & HQ)%wp_elim. eapply r_act_last; [|exact HQ]. simpl. unfold zoom. by rewrite Hm.
Qed.
Lemma r_self th Q w : Q (self_of w th) w -> returns th (act Self) Q w.
Proof using Type. intros HQ. by eapply r_act_last. Qed.
Lemma r_pwhen th b p (Q : unit -> world -> Prop) w :
  (b = true -> returns th p Q w) -> (b = false -> Q tt w) -> returns th (pwhen b p) Q w.
Proof using Type. destruct b; intros H1 H2; [by apply H1|by apply r_ret, H2]. Qed.

(** a call of the scheduler that keeps the turn state described by [steady] *)
Lemma r_sched {X} th (c : scall X) h A tok (Q : X -> turnq -> turn_state -> Prop) w : at_turn w th h A tok ->
  wp (scall_code c h th) (fun x s' => exists A' tok', steady s' A' tok' /\ Q x A' tok') (w_s w) ->
  returns th (call c) (fun x w' => exists A' tok', at_turn w' th h A' tok' /\ w_rt w' = w_rt w /\
    tls_of w' th = tls_of w th /\ Q x A' tok') w.
Proof using Type.
  intros [Hs _ Ht] Hc. apply r_call. rewrite Hs. eapply wp_mono; [exact Hc|]. cbn beta.
  intros x s' (A' & tok' & H1 & H2). exists A', tok'. by split_and!.
Qed.

Lemma strategy_plain op t : plain_tls t -> getPutTurnStrategy op t = Ok (0, t).
Proof using P.
  intros [H1 H2 H3 H4 H5 H6 H7 H8 H9]. unfold getPutTurnStrategy, mbind, M_bind, get, mret, M_ret.
  rewrite H8, H4, H3, H5, H6, plain_map. done.
Qed.

Lemma t_get me h A w : at_turn w me h A (Posted h) -> returns me (call SGetTurn) (fun _ w' => at_turn w' me h A (Held h) /\
  w_rt w' = w_rt w /\ tls_of w' me = tls_of w me) w.
Proof using P.
  intros Hat. eapply r_mono; [eapply (r_sched me SGetTurn h A (Posted h) (fun _ A' tok' => A' = A /\ tok' = Held h)); [exact Hat|]|].
  - eapply wp_mono; [apply steady_get, Hat|]. cbn beta. intros [] s' [Hs _]. by exists A, (Held h).
  - cbn beta. intros [] w1 (? & ? & Hat1 & Hr1 & Ht1 & -> & ->). done.
Qed.

(** *** The common parts of the methods *)
Lemma t_start me h A w : at_turn w me h A (Posted h) ->
  returns me (SCHED_TIMER_START me) (fun _ w' => at_turn w' me h A (Held h) /\
    objs (w_rt w') = objs (w_rt w) /\ g_log (w_rt w') = g_log (w_rt w) /\ tls_of w' me = tls_of w me) w.
Proof using P.
  intros Hat. unfold SCHED_TIMER_START. rewrite plain_non_det. apply r_bind, r_ret, r_bind.
  eapply r_mono; [by apply t_get|]. cbn beta. intros [] w1 (Hat1 & Hr1 & Ht1). apply r_bind.
  assert (Hend : forall r', objs r' = objs (w_rt w) -> g_log r' = g_log (w_rt w) ->
    returns me CHECK_AND_CHANGE_ROLE (fun _ w' => at_turn w' me h A (Held h) /\
      objs (w_rt w') = objs (w_rt w) /\ g_log (w_rt w') = g_log (w_rt w) /\ tls_of w' me = tls_of w me) (set_rt r' w1)).
  { intros r' Ho Hl. unfold CHECK_AND_CHANGE_ROLE. apply r_tls_get.
    change (tls_of (set_rt r' w1) me) with (tls_of w1 me). rewrite (pt_proposed _ (at_tls _ _ _ _ _ Hat1)).
    apply r_ret. rewrite tls_set_tls. split_and!; [|done|done|done].
    destruct Hat1 as [A1 A2 A3]. split; [done|done|]. by rewrite tls_set_tls. }
  apply r_pwhen; intros _.
  - apply r_rt. wp_steps; intros _; unfold add_stat; wp_steps; apply Hend; by rewrite Hr1.
  - replace w1 with (set_rt (w_rt w1) w1) at 1 by (by destruct w1). apply Hend; by rewrite Hr1.
Qed.
Lemma t_inc me q wq k h w : at_turn w me h (TurnQ (h :: q) wq k) (Held h) ->
  returns me (call SInc) (fun r w' => r = k /\ at_turn w' me h (TurnQ (h :: q) wq (k +u32 1)) (Held h) /\
    w_rt w' = w_rt w /\ tls_of w' me = tls_of w me) w.
Proof using P.
  intros Hat. eapply r_mono; [eapply (r_sched me SInc h _ (Held h)
    (fun r A' tok' => r = k /\ A' = TurnQ (h :: q) wq (k +u32 1) /\ tok' = Held h)); [exact Hat|]|].
  - eapply wp_mono; [apply steady_tick, Hat|]. cbn beta. intros r s' (-> & Hs). eauto 10.
  - cbn beta. intros r w' (A' & tok' & Hat' & Hr & Ht & -> & -> & ->). done.
Qed.

(** logging, with the thread's id and a turn number *)
Lemma t_log me w h A tok ins op turn after args : at_turn w me h A tok ->
  returns me (pwhen log_sync (rt_do (logSync h ins op turn after args))) (fun _ w' => at_turn w' me h A tok /\
    objs (w_rt w') = objs (w_rt w) /\ g_log (w_rt w') = entry h ins op turn after args ++ g_log (w_rt w) /\
    tls_of w' me = tls_of w me) w.
Proof using P.
  intros Hat. unfold entry. apply r_pwhen; intros ->; [|done]. apply r_rt. unfold logSync. wp_steps.
  destruct Hat as [A1 A2 A3]. by split_and!.
Qed.

Lemma t_fake_end me q wq k h ins op args w : at_turn w me h (TurnQ (h :: q) wq k) (Held h) ->
  returns me (SCHED_TIMER_FAKE_END ins op args) (fun _ w' =>
    at_turn w' me h (TurnQ (h :: q) wq (k +u32 1)) (Held h) /\ objs (w_rt w') = objs (w_rt w) /\
    g_log (w_rt w') = entry h ins op k false args ++ g_log (w_rt w) /\ tls_of w' me = tls_of w me) w.
Proof using P.
  intros Hat. unfold SCHED_TIMER_FAKE_END. apply r_bind. eapply r_mono; [by apply t_inc|]. cbn beta.
  intros r w1 (-> & Hat1 & Hr1 & Ht1). apply r_bind, r_self. rewrite (at_self _ _ _ _ _ Hat1).
  eapply r_mono; [by apply t_log|]. cbn beta. by rewrite Hr1, Ht1.
Qed.

Lemma t_common me q wq k h ins op args w : at_turn w me h (TurnQ (h :: q) wq k) (Held h) ->
  returns me (SCHED_TIMER_END_COMMON ins op args) (fun e w' => e = t_errno (tls_of w me) /\
    at_turn w' me h (TurnQ (h :: q) wq (k +u32 1)) (Held h) /\ objs (w_rt w') = objs (w_rt w) /\
    g_log (w_rt w') = entry h ins op k true args ++ g_log (w_rt w) /\ tls_of w' me = tls_of w me) w.
Proof using P.
  intros Hat. assert (Hk : (k +u32 1) -u32 1 = k).
  { pose proof (ax_turnCount _ _ _ _ (co_aux _ _ _ _ (si_core _ _ _ (st_inv _ _ _ (at_steady _ _ _ _ _ Hat))))) as Hk.
    rewrite (st_clock _ _ _ (at_steady _ _ _ _ _ Hat)) in Hk. cbn [a_clock] in Hk. unfold u32. dlia. }
  unfold SCHED_TIMER_END_COMMON. apply r_tls_get. set (w0 := set_tls _ _ _).
  assert (Ht0 : tls_of w0 me = tls_of w me) by apply tls_set_tls.
  assert (Hat0 : at_turn w0 me h (TurnQ (h :: q) wq k) (Held h)).
  { destruct Hat as [A1 A2 A3]. split; [done|done|]. by rewrite Ht0. }
  apply r_bind. eapply r_mono; [by apply t_inc|]. cbn beta. intros r w1 (-> & Hat1 & Hr1 & Ht1).
  apply r_bind, r_self. rewrite (at_self _ _ _ _ _ Hat1). apply r_bind.
  assert (Hend : forall w2, at_turn w2 me h (TurnQ (h :: q) wq (k +u32 1)) (Held h) ->
    objs (w_rt w2) = objs (w_rt w) -> g_log (w_rt w2) = g_log (w_rt w) -> tls_of w2 me = tls_of w me ->
    returns me (_ ← (if log_sync then nturn ← call SGetCount; rt_do (logSync h ins op nturn true args) else mret tt);
                mret (t_errno (tls_of w me)))
      (fun e w' => e = t_errno (tls_of w me) /\
        at_turn w' me h (TurnQ (h :: q) wq (k +u32 1)) (Held h) /\ objs (w_rt w') = objs (w_rt w) /\
        g_log (w_rt w') = entry h ins op k true args ++ g_log (w_rt w) /\ tls_of w' me = tls_of w me) w2).
  { intros w2 Hat2 Ho2 Hl2 Ht2. pose proof (t_log me w2 h _ _ ins op k true args Hat2) as Hlog.
    apply r_bind. unfold pwhen in Hlog. destruct log_sync.
    - apply r_bind, r_call. simpl. unfold getTurnCount, Serializer_getTurnCount. wp_steps.
      rewrite (st_clock _ _ _ (at_steady _ _ _ _ _ Hat2)). cbn [a_clock]. rewrite Hk. replace (set_s (w_s w2) w2) with w2 by by destruct w2.
      eapply r_mono; [exact Hlog|]. cbn beta. intros _ w3 (? & E1 & E2 & E3). apply r_ret.
      rewrite E1, E2, E3, Ho2, Hl2, Ht2. done.
    - eapply r_mono; [exact Hlog|]. cbn beta. intros _ w3 (? & E1 & E2 & E3). apply r_ret.
      rewrite E1, E2, E3, Ho2, Hl2, Ht2. done. }
  apply r_pwhen; intros _.
  - apply r_rt. unfold recordSync. wp_steps; intros _; (apply Hend; [by destruct Hat1| | |by rewrite <-Ht0]); cbn; by rewrite Hr1.
  - apply Hend; [done|by rewrite Hr1|by rewrite Hr1|by rewrite Ht1].
Qed.

Lemma t_check me h A tok w : at_turn w me h A tok ->
  returns me check_cv_wait_cnt (fun _ w' => at_turn w' me h A tok /\ w_rt w' = w_rt w /\ tls_of w' me = tls_of w me) w.
Proof using P.
  intros [A1 A2 A3]. unfold check_cv_wait_cnt. rewrite plain_map. cbn [negb].
  apply r_bind, r_tls_get. rewrite (pt_cv _ A3). apply r_ret, r_tls_get.
  rewrite tls_set_tls, (pt_sem _ A3). apply r_ret. rewrite !tls_set_tls. split_and!; [|done|done].
  split; [done|done|]. by rewrite tls_set_tls.
Qed.

Lemma t_end me q wq k h x rest ins op args w : at_turn w me h (TurnQ (h :: q) wq k) (Held h) -> q ++ [h] = x :: rest ->
  returns me (SCHED_TIMER_END ins op args) (fun _ w' =>
    at_turn w' me h (TurnQ (x :: rest) wq (k +u32 1)) (Posted x) /\ objs (w_rt w') = objs (w_rt w) /\
    g_log (w_rt w') = entry h ins op k true args ++ g_log (w_rt w) /\ tls_of w' me = tls_of w me) w.
Proof using P.
  intros Hat Hq. unfold SCHED_TIMER_END. apply r_bind. eapply r_mono; [by apply t_common|]. cbn beta.
  intros e w1 (-> & Hat1 & Ho1 & Hl1 & Ht1). apply r_bind, r_tls.
  eapply wp_intro; [apply strategy_plain, Hat1|]. set (w2 := set_tls _ _ _).
  assert (Ht2 : tls_of w2 me = tls_of w1 me) by apply tls_set_tls.
  assert (Hat2 : at_turn w2 me h (TurnQ (h :: q) wq (k +u32 1)) (Held h)).
  { destruct Hat1 as [A1 A2 A3]. split; [done|done|]. by rewrite Ht2. }
  apply r_bind. eapply r_mono; [eapply (r_sched me (SPutTurn false 0) h _ (Held h)
    (fun _ A' tok' => A' = TurnQ (x :: rest) wq (k +u32 1) /\ tok' = Posted x)); [exact Hat2|]|].
  { eapply wp_mono; [eapply steady_put; [apply Hat2|exact Hq]|]. cbn beta. intros [] s' [Hs _]. eauto. }
  cbn beta. intros [] w3 (A' & tok' & Hat3 & Hr3 & Ht3 & -> & ->). apply r_tls_set.
  rewrite (pt_slock _ (at_tls _ _ _ _ _ Hat3)). cbn [Z.ltb Z.compare]. set (w4 := set_tls _ _ _).
  assert (Ht4 : tls_of w4 me = tls_of w3 me) by apply tls_set_tls.
  assert (Hat4 : at_turn w4 me h (TurnQ (x :: rest) wq (k +u32 1)) (Posted x)).
  { destruct Hat3 as [A1 A2 A3]. split; [done|done|]. by rewrite Ht4. }
  apply r_bind. eapply r_mono; [by apply t_check|]. cbn beta. intros _ w5 (Hat5 & Hr5 & Ht5).
  apply r_tls. wp_steps.
  assert (Hset : set_t_errno (t_errno (tls_of w me)) (tls_of w5 me) = tls_of w me)
    by (rewrite Ht5, Ht4, Ht3, Ht2, Ht1; by destruct (tls_of w me)).
  rewrite Hset. assert (Hw : w_rt w5 = w_rt w1) by (rewrite Hr5; change (w_rt w4) with (w_rt w3); by rewrite Hr3).
  split_and!; [|cbn; by rewrite Hw|cbn; by rewrite Hw|apply tls_set_tls].
  destruct Hat5 as [A1 A2 A3]. split; [done|done|]. rewrite tls_set_tls, <-Ht1. apply Hat1.
Qed.
Lemma t_signal me q wq k h c all w : at_turn w me h (TurnQ (h :: q) wq k) (Held h) -> c <> 0 ->
  returns me (syncSignal c all) (fun _ w' =>
    at_turn w' me h (TurnQ (h :: q ++ (wake c all wq).1) (wake c all wq).2 k) (Held h) /\
    w_rt w' = w_rt w /\ tls_of w' me = tls_of w me) w.
Proof using P.
  intros Hat Hc. eapply r_mono; [eapply (r_sched me (SSignal c all) h _ (Held h) (fun _ A' tok' =>
    A' = TurnQ (h :: q ++ (wake c all wq).1) (wake c all wq).2 k /\ tok' = Held h)); [exact Hat|]|].
  - eapply wp_mono; [apply steady_signal; [apply Hat|done]|]. cbn beta. eauto.
  - cbn beta. intros _ w' (A' & tok' & H1 & H2 & H3 & -> & ->). done.
Qed.

(** a thread whose turn it is not is stopped by getTurn *)
Lemma not_my_turn w me h A x : at_turn w me h A (Posted x) -> x <> h -> h ∈ a_rq A \/ h ∈ (a_wq A).*1 ->
  getTurn h (w_s w) = Err WouldBlock.
Proof using P.
  intros Hat Hx Hh. pose proof (st_inv _ _ _ (at_steady _ _ _ _ _ Hat)) as Hi.
  eapply getTurn_blocks; [apply plain_hp|apply plain_turns|apply plain_clock|exact Hi| |simpl; congruence].
  destruct Hh as [Hh|Hh]; [by eapply core_mem; [apply Hi|]|].
  rewrite <-(st_wq _ _ _ (at_steady _ _ _ _ _ Hat)) in Hh. by eapply ax_wq_reg; [apply Hi|].
Qed.
Lemma t_blocked_get w me h A x : at_turn w me h A (Posted x) -> x <> h -> h ∈ a_rq A \/ h ∈ (a_wq A).*1 ->
  blocks me (call SGetTurn) (fun p' w' => p' = call SGetTurn /\ w' = w) w.
Proof using P.
  intros Hat Hx Hh. apply b_now; [done| |done]. cbn [step act exec scall_code]. unfold zoom.
  by rewrite (at_self _ _ _ _ _ Hat), (not_my_turn _ _ _ _ _ Hat Hx Hh).
Qed.
Lemma t_blocked_end w me h A x : at_turn w me h A (Posted x) -> x <> h -> h ∈ a_rq A \/ h ∈ (a_wq A).*1 ->
  blocks me (call SWaitEnd) (fun p' w' => p' = call SWaitEnd /\ w' = w) w.
Proof using P.
  intros Hat Hx Hh. apply b_now; [done| |done]. cbn [step act exec scall_code]. unfold zoom, wait_end, mbind, M_bind.
  by rewrite (at_self _ _ _ _ _ Hat), (not_my_turn _ _ _ _ _ Hat Hx Hh).
Qed.

Lemma at_turn_distinct w me h x rest wq k tok : at_turn w me h (TurnQ (h :: x :: rest) wq k) tok -> x <> h.
Proof using P.
  intros Hat. pose proof (core_nodup _ _ _ _ (si_core _ _ _ (st_inv _ _ _ (at_steady _ _ _ _ _ Hat)))) as Hnd.
  cbn [a_rq] in Hnd. apply NoDup_cons in Hnd as [Hn _]. set_solver.
Qed.

(** wait: the thread joins the waiting threads, the next one gets the turn *)
Lemma t_wait me h x rest wq k c w : at_turn w me h (TurnQ (h :: x :: rest) wq k) (Held h) -> c <> 0 ->
  blocks me (syncWait c FOREVER) (fun p' w' => p' = call SWaitEnd /\
    at_turn w' me h (TurnQ (x :: rest) (wq ++ [(h, c)]) (k +u32 1)) (Posted x) /\
    w_rt w' = w_rt w /\ tls_of w' me = tls_of w me) w.
Proof using P.
  intros Hat Hc. unfold syncWait, S_wait. apply b_bind_returns.
  eapply r_mono; [eapply (r_sched me (SWaitBegin c FOREVER) h _ (Held h) (fun _ A' tok' =>
    A' = TurnQ (x :: rest) (wq ++ [(h, c)]) (k +u32 1) /\ tok' = Posted x)); [exact Hat|]|].
  - eapply wp_mono; [apply steady_wait; [apply Hat|done]|]. cbn beta. eauto.
  - cbn beta. intros _ w' (A' & tok' & H1 & H2 & H3 & -> & ->).
    eapply b_mono; [eapply t_blocked_end; [exact H1|by eapply at_turn_distinct|]|].
    + right. cbn [a_wq]. rewrite fmap_app. set_solver.
    + cbn beta. by intros p' w2 [-> ->].
Qed.
Lemma t_wait_end me h A r w : at_turn w me h A (Posted h) -> w_wake_reason (wait_of (w_s w) h) = Some r ->
  returns me (call SWaitEnd) (fun v w' => v = wake_code r /\ at_turn w' me h A (Held h) /\
    w_rt w' = w_rt w /\ tls_of w' me = tls_of w me) w.
Proof using P.
  intros Hat Hr. eapply r_mono; [eapply (r_sched me SWaitEnd h _ (Posted h) (fun v A' tok' =>
    v = wake_code r /\ A' = A /\ tok' = Held h)); [exact Hat|]|].
  - eapply wp_mono; [eapply steady_wait_end; [apply Hat|done]|]. cbn beta. intros v s' [-> Hs]. eauto 10.
  - cbn beta. intros v w' (A' & tok' & H1 & H2 & H3 & -> & -> & ->). done.
Qed.

(** an operation on the objects *)
Lemma t_obj {X} (m : RTM X) x r' me h A tok w : at_turn w me h A tok -> m (w_rt w) = Ok (x, r') ->
  returns me (rt_do m) (fun y w' => y = x /\ at_turn w' me h A tok /\ w_rt w' = r' /\ tls_of w' me = tls_of w me) w.
Proof using P.
  intros [A1 A2 A3] Hm. apply r_rt. eapply wp_intro; [exact Hm|]. by split_and!.
Qed.
(** a change of thread-local variables *)
Lemma t_tls f me h A tok w : at_turn w me h A tok -> plain_tls (f (tls_of w me)) ->
  returns me (tls_set f) (fun _ w' => at_turn w' me h A tok /\ w_rt w' = w_rt w /\ tls_of w' me = f (tls_of w me)) w.
Proof using P.
  intros [A1 A2 A3] Hf. apply r_tls. wp_steps. rewrite tls_set_tls. split_and!; [|done|done].
  split; [done|done|]. by rewrite tls_set_tls.
Qed.
Lemma t_tls_get {X} (f : tls -> X) me h A tok w : at_turn w me h A tok ->
  returns me (tls_get f) (fun x w' => x = f (tls_of w me) /\ at_turn w' me h A tok /\ w_rt w' = w_rt w /\
    tls_of w' me = tls_of w me) w.
Proof using P.
  intros [A1 A2 A3]. apply r_tls. wp_steps. rewrite tls_set_tls. split_and!; [done| |done|done].
  split; [done|done|]. by rewrite tls_set_tls.
Qed.
Lemma plain_errno e t : plain_tls t -> plain_tls (set_t_errno e t).
Proof using P. by intros []; split. Qed.
(** *** Methods: outside a non-det region they take the turn first *)
Lemma e_method (native : prog (Z * Z)) (body : unit -> prog (Z * Z)) me h Aq Q B w : at_turn w me h Aq (Posted h) ->
  (forall w1, at_turn w1 me h Aq (Held h) -> objs (w_rt w1) = objs (w_rt w) -> g_log (w_rt w1) = g_log (w_rt w) ->
    tls_of w1 me = tls_of w me -> ends me (body tt) Q B w1) ->
  ends me (non_det_or native (SCHED_TIMER_START me ≫= body)) Q B w.
Proof using P.
  intros Hat Hgo. unfold non_det_or. apply e_bind. eapply r_mono; [by eapply t_tls_get|]. cbn beta.
  intros nd w1 (-> & Hat1 & Hr1 & Ht1).
  pose proof (at_tls _ _ _ _ _ Hat) as Hplain. rewrite (pt_non_det _ Hplain), (pt_no_wait _ Hplain). cbn [orb].
  apply e_bind. eapply r_mono; [by apply t_start|]. cbn beta. intros [] w2 (Hat2 & Ho2 & Hl2 & Ht2).
  apply Hgo; [done|by rewrite Ho2, Hr1|by rewrite Hl2, Hr1|by rewrite Ht2, Ht1].
Qed.

(** an operation on the objects that reports no errno *)
Lemma t_with_errno e (m : RTM Z) x r' me h A tok w : at_turn w me h A tok -> m (w_rt w) = Ok (x, r') ->
  returns me (with_errno e (plain m)) (fun r w' => r = (x, e) /\ at_turn w' me h A tok /\ w_rt w' = r' /\
    t_errno (tls_of w' me) = e) w.
Proof using P.
  intros Hat Hm. unfold with_errno. apply r_bind. eapply r_mono; [eapply t_tls; [exact Hat|apply plain_errno, Hat]|].
  cbn beta. intros _ w1 (Hat1 & Hr1 & Ht1). apply r_bind.
  eapply r_mono; [eapply (t_obj _ (x, None) r'); [exact Hat1|]|].
  { unfold plain, mbind, M_bind, mret, M_ret. by rewrite Hr1, Hm. }
  cbn beta. intros v w2 (-> & Hat2 & Hr2 & Ht2). cbn [snd fst note_errno]. apply r_bind, r_ret, r_bind.
  eapply r_mono; [by eapply t_tls_get|]. cbn beta. intros e' w3 (-> & Hat3 & Hr3 & Ht3). apply r_ret.
  rewrite Hr3, Ht3, Ht2, Ht1. done.
Qed.
End turn.
