(* ===== verification/RtLogic.v ===== *)
(** * What the synchronisation methods do

    Each theorem says what a method does at one turn of its thread, in a steady state: on
    which threads it acts, what it does to the objects of the application and to the log,
    and who has the turn afterwards.  A method that waits stops in the middle; the rest of
    it is a program of its own ([lock_waits] and the like), for which the theorem is
    stated as well. *)
From S2P Require Import Prelude Options RunQueue TidMap NonDetSet Scheduler SyncFuncs SchedInv SchedOps SchedSys SchedRun.
From S2P Require Import SchedThms SchedMachine SchedSteady RtState Proc RtBase RtReturns RtRuntime RtSync RtRun RtTurn.

Section logic.
Context `{O : Options, U : UnorderedIter, G : GlobalAddrs} {P : PlainOptions}.

(** ** Locks in general *)

(** after a wake-up the lock is tried again *)
Definition lock_resume (trylock : RTM Z) (c : Z) : prog Z :=
  v ← call SWaitEnd; if v =? ETIMEDOUT then mret ETIMEDOUT else lock_helper trylock c FOREVER.

Lemma t_lock_free trylock c n r' me h A tok w : at_turn w me h A tok -> trylock (w_rt w) = Ok (0, r') ->
  returns me (lock_helper trylock c n) (fun v w' => v = 0 /\ at_turn w' me h A tok /\ w_rt w' = r' /\
    tls_of w' me = tls_of w me) w.
Proof using P.
  intros Hat Hm. apply r_iter. apply r_bind, r_bind. eapply r_mono; [by eapply t_obj|]. cbn beta.
  intros v w' (-> & H). apply r_ret, r_ret, r_ret. done.
Qed.

Lemma t_lock_busy trylock me h x rest wq k c w : at_turn w me h (TurnQ (h :: x :: rest) wq k) (Held h) -> c <> 0 ->
  trylock (w_rt w) = Ok (EBUSY, w_rt w) ->
  blocks me (lock_helper trylock c FOREVER) (fun p' w' => peq (lock_resume trylock c) p' /\
    at_turn w' me h (TurnQ (x :: rest) (wq ++ [(h, c)]) (k +u32 1)) (Posted x) /\
    w_rt w' = w_rt w /\ tls_of w' me = tls_of w me) w.
Proof using P.
  intros Hat Hc Hm. eapply b_step; [reflexivity|].
  apply b_bind_blocks, b_bind_blocks, b_bind_returns. eapply r_mono; [by eapply t_obj|]. cbn beta.
  intros v w1 (-> & Hat1 & Hr1 & Ht1). cbn [Z.eqb EBUSY Pos.eqb]. apply b_bind_returns, r_ret.
  apply b_bind_blocks. eapply b_mono; [by apply t_wait|]. cbn beta. intros p' w' (-> & Hat' & Hr' & Ht').
  split_and!; [|done|by rewrite Hr', Hr1|by rewrite Ht', Ht1].
  unfold lock_resume. constructor. intros v. by destruct (v =? ETIMEDOUT).
Qed.

(** a woken thread goes back to the loop *)
Lemma t_resume_loop me h A r w : at_turn w me h A (Posted h) -> w_wake_reason (wait_of (w_s w) h) = Some r ->
  returns me (call SWaitEnd) (fun v w' => (v =? ETIMEDOUT) = false /\ at_turn w' me h A (Held h) /\
    w_rt w' = w_rt w /\ tls_of w' me = tls_of w me) w.
Proof using P.
  intros Hat Hr. eapply r_mono; [by eapply t_wait_end|]. cbn beta. intros v w' (-> & H). split; [by destruct r|done].
Qed.

(** the method, once the lock has been taken *)
Definition lock_end (ins : Z) (op : syncfunc.t) (args : list Z) : prog (Z * Z) :=
  e ← tls_get t_errno; _ ← SCHED_TIMER_END ins op args; mret (0, e).
Lemma t_lock_end me h ins op args q wq k x rest w : at_turn w me h (TurnQ (h :: q) wq k) (Held h) -> q ++ [h] = x :: rest ->
  returns me (lock_end ins op args)
    (fun r w' => r = (0, t_errno (tls_of w me)) /\ t_errno (tls_of w' me) = t_errno (tls_of w me) /\
      at_turn w' me h (TurnQ (x :: rest) wq (k +u32 1)) (Posted x) /\ objs (w_rt w') = objs (w_rt w) /\
      g_log (w_rt w') = entry h ins op k true args ++ g_log (w_rt w)) w.
Proof using P.
  intros Hat Hq. apply r_bind. eapply r_mono; [by eapply t_tls_get|]. cbn beta. intros e w1 (-> & Hat1 & Hr1 & Ht1).
  apply r_bind. eapply r_mono; [by eapply t_end|]. cbn beta. intros _ w2 (Hat2 & Ho2 & Hl2 & Ht2).
  apply r_ret. by rewrite Ho2, Hl2, Ht2, Hr1, Ht1.
Qed.

(** the turn of a thread that locks: it takes the lock, or waits for it *)
Lemma t_lock_turn trylock c r' me h ins op args q wq k x rest w :
  at_turn w me h (TurnQ (h :: q) wq k) (Held h) -> q ++ [h] = x :: rest -> trylock (w_rt w) = Ok (0, r') ->
  returns me (_ ← lock_helper trylock c FOREVER; lock_end ins op args)
    (fun r w' => r = (0, t_errno (tls_of w me)) /\ t_errno (tls_of w' me) = t_errno (tls_of w me) /\
      at_turn w' me h (TurnQ (x :: rest) wq (k +u32 1)) (Posted x) /\ objs (w_rt w') = objs r' /\
      g_log (w_rt w') = entry h ins op k true args ++ g_log r') w.
Proof using P.
  intros Hat Hq Hm. apply r_bind. eapply r_mono; [by eapply t_lock_free|]. cbn beta. intros v w1 (-> & Hat1 & <- & <-).
  eapply t_lock_end; [exact Hat1|exact Hq].
Qed.
Lemma t_wait_turn trylock c me h ins op args q wq k x rest w :
  at_turn w me h (TurnQ (h :: q) wq k) (Held h) -> q = x :: rest -> c <> 0 -> trylock (w_rt w) = Ok (EBUSY, w_rt w) ->
  blocks me (_ ← lock_helper trylock c FOREVER; lock_end ins op args)
    (fun p' w' => peq (_ ← lock_resume trylock c; lock_end ins op args) p' /\
      at_turn w' me h (TurnQ q (wq ++ [(h, c)]) (k +u32 1)) (Posted x) /\
      w_rt w' = w_rt w /\ tls_of w' me = tls_of w me) w.
Proof using P.
  intros Hat -> Hc Hm. apply b_bind_blocks. eapply b_mono; [by eapply t_lock_busy|]. cbn beta.
  intros p' w' (Hp & H). split; [by apply pbind_proper|done].
Qed.

(** the thread has waited for the lock and will try again: the rest of the method, which
    ends by logging [op] *)
Definition lock_waits (trylock : RTM Z) (c me ins : Z) (op : syncfunc.t) (args : list Z) (e : Z)
  (p : prog (Z * Z)) (w : world) : Prop :=
  peq (_ ← lock_resume trylock c; lock_end ins op args) p /\ t_errno (tls_of w me) = e.

(** once the turn has been taken and the lock is about to be tried *)
Definition tries_lock (trylock : RTM Z) (c me h ins : Z) (op : syncfunc.t) (args : list Z) (e : Z) (A : turnq)
  (p : prog (Z * Z)) (w : world) : Prop :=
  forall Q B, (forall w1, at_turn w1 me h A (Held h) -> objs (w_rt w1) = objs (w_rt w) ->
      g_log (w_rt w1) = g_log (w_rt w) -> t_errno (tls_of w1 me) = e ->
      ends me (_ ← lock_helper trylock c FOREVER; lock_end ins op args) Q B w1) ->
    ends me p Q B w.

(** the lock is free, and taking it makes the objects those of [r'] *)
Lemma tries_takes trylock c me h ins op args e q wq k x rest p r' w :
  tries_lock trylock c me h ins op args e (TurnQ (h :: q) wq k) p w -> q ++ [h] = x :: rest ->
  (forall r, objs r = objs (w_rt w) -> exists r1, trylock r = Ok (0, r1) /\ objs r1 = objs r' /\ g_log r1 = g_log r) ->
  returns me p (fun r w' => r = (0, e) /\ t_errno (tls_of w' me) = e /\
    at_turn w' me h (TurnQ (x :: rest) wq (k +u32 1)) (Posted x) /\ objs (w_rt w') = objs r' /\
    g_log (w_rt w') = entry h ins op k true args ++ g_log (w_rt w)) w.
Proof using P.
  intros Hp Hq Htry. apply e_returns, Hp. intros w1 Hat1 Ho1 Hl1 He1. left.
  destruct (Htry _ Ho1) as (r1 & Hm & Hr & Hl). eapply r_mono; [eapply t_lock_turn; [exact Hat1|exact Hq|exact Hm]|].
  cbn beta. intros r w2 (-> & E1 & E2 & E3 & E4). rewrite E1, He1. split_and!; [done|done|done|by rewrite E3|].
  by rewrite E4, Hl, Hl1.
Qed.
(** the lock is taken *)
Lemma tries_waits trylock c me h ins op args e q wq k x rest p w :
  tries_lock trylock c me h ins op args e (TurnQ (h :: q) wq k) p w -> q ++ [h] = x :: rest -> q <> [] -> c <> 0 ->
  (forall r, objs r = objs (w_rt w) -> trylock r = Ok (EBUSY, r)) ->
  blocks me p (fun p' w' => lock_waits trylock c me ins op args e p' w' /\
    at_turn w' me h (TurnQ q (wq ++ [(h, c)]) (k +u32 1)) (Posted x) /\
    objs (w_rt w') = objs (w_rt w) /\ g_log (w_rt w') = g_log (w_rt w)) w.
Proof using P.
  intros Hp Hq Hne Hc Htry. destruct q as [|x' rest']; [done|]. injection Hq as -> Hq.
  apply e_blocks, Hp. intros w1 Hat1 Ho1 Hl1 He1. right.
  eapply b_mono; [eapply t_wait_turn; [exact Hat1|done|done|by apply Htry]|].
  cbn beta. intros p' w2 (Hp' & Hat2 & Hr2 & Ht2). rewrite Hr2. split_and!; [|done|done|done].
  split; [exact Hp'|by rewrite Ht2].
Qed.

(** a method that sets errno before it tries the lock; a woken thread *)
Lemma helper_errno_peq {A} e (helper : prog Z) (f : Z * Z -> prog A) :
  peq (_ ← tls_set (set_t_errno e); r ← helper; e ← tls_get t_errno; f (r, e)) (helper_errno e helper ≫= f).
Proof using Type. constructor. intros []. symmetry. by apply pbind_assoc. Qed.
Lemma tries_helper trylock c me h ins op args e A w (Q : Z * Z -> world -> Prop) B : at_turn w me h A (Held h) ->
  (forall w1, at_turn w1 me h A (Held h) -> w_rt w1 = w_rt w -> t_errno (tls_of w1 me) = e ->
    ends me (_ ← lock_helper trylock c FOREVER; lock_end ins op args) Q B w1) ->
  ends me (r ← helper_errno e (lock_helper trylock c FOREVER); _ ← SCHED_TIMER_END ins op args; mret (0, r.2)) Q B w.
Proof using P.
  intros Hat Hgo. eapply e_peq; [apply helper_errno_peq|]. apply e_bind.
  eapply r_mono; [eapply t_tls; [exact Hat|apply plain_errno, Hat]|]. cbn beta. intros _ w1 (Hat1 & Hr1 & Ht1).
  apply Hgo; [done|done|by rewrite Ht1].
Qed.
Lemma tries_again trylock c me h ins op args e A p w : lock_waits trylock c me ins op args e p w ->
  is_Some (w_wake_reason (wait_of (w_s w) h)) -> at_turn w me h A (Posted h) ->
  tries_lock trylock c me h ins op args e A p w.
Proof using P.
  intros [Hp He] [r Hr] Hat Q B Hgo. eapply e_peq; [exact Hp|]. apply e_assoc, e_bind.
  eapply r_mono; [by eapply t_resume_loop|]. cbn beta. intros v w1 (-> & Hat1 & Hr1 & Ht1).
  apply Hgo; [done|by rewrite Hr1..|by rewrite Ht1].
Qed.

(** ** Mutexes *)

(** the turn of a thread that wants the mutex.  A free mutex is taken: the method returns
    0, the thread owns the mutex, the call is logged and the turn goes to the next thread
    of the run queue.  For a mutex that is taken the thread joins the threads that wait
    on it, changes no object and logs nothing. *)
Definition takes_or_waits (me h ins : Z) (op : syncfunc.t) (args : list Z) (e mu : Z) (q : list Z) (wq : list (Z * Z))
    (k x : Z) (rest : list Z) (p : prog (Z * Z)) (w : world) : Prop :=
  let m := mutex_of (w_rt w) mu in
  match mu_owner m with
  | None =>
      returns me p (fun r w' => r = (0, e) /\ t_errno (tls_of w' me) = e /\
        at_turn w' me h (TurnQ (x :: rest) wq (k +u32 1)) (Posted x) /\
        objs (w_rt w') = objs (put_mutex mu (Mutex (mu_kind m) (Some me) 1) (w_rt w)) /\
        g_log (w_rt w') = entry h ins op k true args ++ g_log (w_rt w)) w
  | Some o => q <> [] -> mu_kind m <> RECURSIVE \/ o <> me ->
      blocks me p (fun p' w' => lock_waits (os_mutex_trylock me mu) mu me ins op args e p' w' /\
        at_turn w' me h (TurnQ q (wq ++ [(h, mu)]) (k +u32 1)) (Posted x) /\
        objs (w_rt w') = objs (w_rt w) /\ g_log (w_rt w') = g_log (w_rt w)) w
  end.

(** the thread calls pthread_mutex_lock, or has been woken in it *)
Definition locking (me h ins e mu : Z) (p : prog (Z * Z)) (w : world) : Prop :=
  p = pthreadMutexLock me ins e mu \/
  (lock_waits (os_mutex_trylock me mu) mu me ins syncfunc.pthread_mutex_lock [mu] e p w /\ is_Some (w_wake_reason (wait_of (w_s w) h))).

Lemma trylock_free me mu r : mu_owner (mutex_of r mu) = None ->
  os_mutex_trylock me mu r = Ok (0, put_mutex mu (Mutex (mu_kind (mutex_of r mu)) (Some me) 1) r).
Proof using Type. intros H. unfold os_mutex_trylock, mbind, M_bind, gets. by rewrite H. Qed.
Lemma trylock_busy me mu r o : mu_owner (mutex_of r mu) = Some o -> mu_kind (mutex_of r mu) <> RECURSIVE \/ o <> me ->
  os_mutex_trylock me mu r = Ok (EBUSY, r).
Proof using Type.
  intros H Hk. unfold os_mutex_trylock, mbind, M_bind, gets. rewrite H.
  destruct (mu_kind (mutex_of r mu)); [done| |done]. destruct Hk as [|Hk]; [done|].
  by rewrite (proj2 (Z.eqb_neq o me) Hk).
Qed.

Lemma objs_put_mutex r r' mu m : objs r = objs r' -> objs (put_mutex mu m r) = objs (put_mutex mu m r').
Proof using Type. unfold objs. cbn. by intros [= -> -> -> -> -> ->]. Qed.
Lemma objs_mutex r r' mu : objs r = objs r' -> mutex_of r mu = mutex_of r' mu.
Proof using Type. unfold objs, mutex_of. by intros [= -> _]. Qed.

Lemma tries_turn me h ins op args e mu q wq k x rest p w :
  tries_lock (os_mutex_trylock me mu) mu me h ins op args e (TurnQ (h :: q) wq k) p w ->
  q ++ [h] = x :: rest -> mu <> 0 -> takes_or_waits me h ins op args e mu q wq k x rest p w.
Proof using P.
  intros Hp Hq Hmu. unfold takes_or_waits. set (m := mutex_of _ _). cbv zeta. destruct (mu_owner m) as [o|] eqn:Hown.
  - intros Hne Hk. eapply tries_waits; [done..|]. intros r Hr.
    eapply trylock_busy; rewrite (objs_mutex _ _ mu Hr); [exact Hown|exact Hk].
  - eapply tries_takes; [done..|]. intros r Hr. eexists. split_and!; [apply trylock_free| |done].
    + by rewrite (objs_mutex _ _ mu Hr).
    + rewrite (objs_mutex _ _ mu Hr). by apply objs_put_mutex.
Qed.

(** C9: pthread_mutex_lock.  At its turn a thread that calls it, or that has been woken in
    it, takes a free mutex: the method returns 0 and leaves errno alone, the thread owns
    the mutex, the call is logged with the turn and the turn goes to the next thread of
    the run queue.  If the mutex is taken the thread joins the threads that wait on it,
    changes no object, and will try again when it has been woken and its turn comes. *)
Theorem mutex_lock_turn me h ins e mu q wq k x rest p w :
  locking me h ins e mu p w -> at_turn w me h (TurnQ (h :: q) wq k) (Posted h) -> q ++ [h] = x :: rest -> mu <> 0 ->
  takes_or_waits me h ins syncfunc.pthread_mutex_lock [mu] e mu q wq k x rest p w.
Proof using P.
  intros Hp Hat Hq Hmu. apply tries_turn; [|done|done]. destruct Hp as [->|[Hp Hr]]; [|by apply tries_again].
  intros Q B Hgo. apply (e_method _ _ _ _ _ _ _ _ Hat). intros w2 Hat2 Ho2 Hl2 _.
  rewrite plain_policy. apply (tries_helper _ _ me h ins _ _ e _ _ _ _ Hat2). intros w3 Hat3 Hr3 Ht3.
  apply Hgo; [done|by rewrite Hr3..|done].
Qed.

(** the mutex after its owner has unlocked it *)
Definition unlocked (me : Z) (m : mutex_t) : mutex_t :=
  match mu_kind m with
  | NORMAL => Mutex NORMAL None 0
  | k => Mutex k (if mu_count m - 1 =? 0 then None else Some me) (mu_count m - 1)
  end.
Lemma unlock_ok me mu r : mu_kind (mutex_of r mu) = NORMAL \/ mu_owner (mutex_of r mu) = Some me ->
  os_mutex_unlock me mu r = Ok (0, put_mutex mu (unlocked me (mutex_of r mu)) r).
Proof using Type.
  intros H. unfold os_mutex_unlock, mbind, M_bind, gets, unlocked.
  destruct (mu_kind (mutex_of r mu)); [done|..]; destruct H as [|H]; try done; by rewrite bool_decide_true.
Qed.

(** C10: pthread_mutex_unlock.  At its turn the thread gives the mutex up and wakes the thread
    that has waited longest for it: that thread joins the tail of the run queue, before
    the caller, who gives the turn to the next thread; 0 is returned and errno kept. *)
Theorem mutex_unlock_turn me h ins e mu q wq k x rest w :
  at_turn w me h (TurnQ (h :: q) wq k) (Posted h) -> mu <> 0 ->
  let m := mutex_of (w_rt w) mu in
  mu_kind m = NORMAL \/ mu_owner m = Some me ->
  (q ++ (wake mu false wq).1) ++ [h] = x :: rest ->
  returns me (pthreadMutexUnlock me ins e mu) (fun r w' => r = (0, e) /\ t_errno (tls_of w' me) = e /\
    at_turn w' me h (TurnQ (x :: rest) (wake mu false wq).2 (k +u32 1)) (Posted x) /\
    objs (w_rt w') = objs (put_mutex mu (unlocked me m) (w_rt w)) /\
    g_log (w_rt w') = entry h ins syncfunc.pthread_mutex_unlock k true [mu; 0] ++ g_log (w_rt w)) w.
Proof using P.
  intros Hat Hmu m Hm Hq. apply e_returns. apply (e_method _ _ _ _ _ _ _ _ Hat). intros w1 Hat1 Ho1 Hl1 _.
  apply e_bind. eapply r_mono; [eapply t_with_errno; [exact Hat1|apply unlock_ok]|].
  { by rewrite (objs_mutex _ _ mu Ho1). }
  cbn beta. intros r w2 (-> & Hat2 & Hr2 & He2). cbn [fst Z.eqb passert orb].
  apply e_bind, r_ret. rewrite plain_policy. apply e_bind, r_pwhen; [done|intros _].
  apply e_bind. eapply r_mono; [eapply t_signal; [exact Hat2|done]|]. cbn beta. intros _ w3 (Hat3 & Hr3 & Ht3).
  apply e_bind. eapply r_mono; [eapply t_end; [exact Hat3|exact Hq]|]. cbn beta. intros _ w4 (Hat4 & Ho4 & Hl4 & Ht4).
  left. apply r_ret. rewrite Ht4, Ht3, He2, Ho4, Hl4, Hr3, Hr2. split_and!; [done|done|done| |].
  - rewrite (objs_mutex _ _ mu Ho1). by apply objs_put_mutex.
  - by rewrite <-Hl1.
Qed.
(** ** Condition variables *)
Definition count_waiter (cv : Z) (r : rt) : rt :=
  set_g_cond_map (<[cv := default 0 (g_cond_map r !! cv) + 1]> (g_cond_map r)) r.
Lemma count_waiter_code cv r :
  (n ← cond_count cv; cond_count_set cv (n + 1)) r = Ok (tt, count_waiter cv r).
Proof using Type.
  unfold cond_count, cond_count_set, mbind, M_bind, gets, modify, mret, M_ret, count_waiter. cbn.
  by rewrite insert_insert_eq.
Qed.
Lemma objs_count_waiter cv r r' : objs r = objs r' -> objs (count_waiter cv r) = objs (count_waiter cv r').
Proof using Type. unfold objs. cbn. by intros [= -> -> -> -> -> ->]. Qed.

(** the thread waits in pthread_cond_wait for the signal *)
Definition cond_waits (me ins e cv mu : Z) (p : prog (Z * Z)) : Prop :=
  peq (_ ← call SWaitEnd; r ← helper_errno e (pthreadMutexLockHelper me mu FOREVER);
       _ ← SCHED_TIMER_END ins syncfunc.pthread_cond_wait [cv; mu]; mret (0, r.2)) p.
(** C11: pthread_cond_wait.  At its turn, before any other thread can run, the caller gives
    up the mutex, wakes the thread that has waited longest for the mutex, is counted and
    joins the threads that wait on the condition variable: no signal can be missed in
    between.  The turn goes to the next thread. *)
Theorem cond_wait_turn me h ins e cv mu q wq k x rest w :
  at_turn w me h (TurnQ (h :: q) wq k) (Posted h) -> cv <> 0 -> mu <> 0 ->
  let m := mutex_of (w_rt w) mu in
  mu_kind m = NORMAL \/ mu_owner m = Some me ->
  q ++ (wake mu false wq).1 = x :: rest ->
  blocks me (pthreadCondWait me ins e cv mu) (fun p' w' => cond_waits me ins e cv mu p' /\
    at_turn w' me h (TurnQ (x :: rest) ((wake mu false wq).2 ++ [(h, cv)]) (k +u32 2)) (Posted x) /\
    objs (w_rt w') = objs (put_mutex mu (unlocked me m) (count_waiter cv (w_rt w))) /\
    g_log (w_rt w') = entry h ins syncfunc.pthread_cond_wait k false [cv; mu] ++ g_log (w_rt w)) w.
Proof using P.
  intros Hat Hcv Hmu m Hm Hq. apply e_blocks. apply (e_method _ _ _ _ _ _ _ _ Hat). intros w1 Hat1 Ho1 Hl1 _.
  apply e_bind. eapply r_mono; [eapply t_obj; [exact Hat1|apply count_waiter_code]|]. cbn beta.
  intros _ w2 (-> & Hat2 & Hr2 & _).
  unfold block_line. rewrite plain_map. apply e_bind, r_ret.
  assert (Hm2 : mutex_of (w_rt w2) mu = m).
  { rewrite Hr2. change (mutex_of (count_waiter cv (w_rt w1)) mu) with (mutex_of (w_rt w1) mu). by apply objs_mutex. }
  apply e_bind. eapply r_mono; [eapply t_obj; [exact Hat2|apply unlock_ok]|]; [by rewrite Hm2|]. cbn beta.
  intros _ w3 (-> & Hat3 & Hr3 & _). rewrite Hm2 in Hr3.
  apply e_bind. eapply r_mono; [eapply t_signal; [exact Hat3|done]|]. cbn beta. intros _ w4 (Hat4 & Hr4 & _).
  apply e_bind. eapply r_mono; [eapply t_fake_end; exact Hat4|]. cbn beta. intros _ w5 (Hat5 & Ho5 & Hl5 & _).
  right. rewrite Hq in Hat5. apply b_bind_blocks. eapply b_mono; [eapply t_wait; [exact Hat5|done]|]. cbn beta.
  intros p' w6 (-> & Hat6 & Hr6 & _). rewrite Hr6, Ho5, Hl5, Hr4, Hr3, Hr2. split_and!.
  - by unfold cond_waits.
  - replace (k +u32 2) with ((k +u32 1) +u32 1); [done|]. unfold u32. dlia.
  - by apply objs_put_mutex, objs_count_waiter.
  - by rewrite <-Hl1.
Qed.

(** C12: the end of pthread_cond_wait.  A thread that has been woken in it, by a signal or
    by an unlock of the mutex, returns with the mutex when it is free at its turn, and
    waits for the mutex otherwise: it never returns without the mutex. *)
Theorem cond_wake_turn me h ins e cv mu q wq k x rest p w :
  cond_waits me ins e cv mu p \/ lock_waits (os_mutex_trylock me mu) mu me ins syncfunc.pthread_cond_wait [cv; mu] e p w ->
  is_Some (w_wake_reason (wait_of (w_s w) h)) ->
  at_turn w me h (TurnQ (h :: q) wq k) (Posted h) -> q ++ [h] = x :: rest -> mu <> 0 ->
  takes_or_waits me h ins syncfunc.pthread_cond_wait [cv; mu] e mu q wq k x rest p w.
Proof using P.
  intros Hp Hr Hat Hq Hmu. apply tries_turn; [|done|done]. destruct Hp as [Hp|Hp]; [|by apply tries_again].
  destruct Hr as [r Hr]. intros Q B Hgo. eapply e_peq; [exact Hp|]. apply e_bind.
  eapply r_mono; [by eapply t_resume_loop|]. cbn beta. intros v w1 (_ & Hat1 & Hr1 & _).
  apply (tries_helper _ _ me h ins _ _ e _ _ _ _ Hat1). intros w3 Hat3 Hr3 Ht3.
  apply Hgo; [done|by rewrite Hr3, Hr1..|done].
Qed.
(** ** Semaphores *)
Definition count_sem_waiter (sem : Z) (r : rt) : rt :=
  set_g_sem_map (<[sem := default 0 (g_sem_map r !! sem) + 1]> (g_sem_map r)) r.
Lemma count_sem_code sem r : (n ← sem_count sem; sem_count_set sem (n + 1)) r = Ok (tt, count_sem_waiter sem r).
Proof using Type.
  unfold sem_count, sem_count_set, mbind, M_bind, gets, modify, mret, M_ret, count_sem_waiter. cbn.
  by rewrite insert_insert_eq.
Qed.
(** a waiter less, as sem_post counts *)
Definition uncount_sem_waiter (sem : Z) (r : rt) : rt :=
  let n := default 0 (g_sem_map r !! sem) in
  set_g_sem_map (<[sem := if 0 <? n then n - 1 else n]> (g_sem_map r)) r.
Lemma uncount_sem_code sem r :
  (n ← sem_count sem; when (0 <? n) (sem_count_set sem (n - 1)) ;; sem_count sem) r =
  Ok (let n := default 0 (g_sem_map r !! sem) in if 0 <? n then n - 1 else n, uncount_sem_waiter sem r).
Proof using Type.
  unfold sem_count, sem_count_set, mbind, M_bind, gets, modify, mret, M_ret, uncount_sem_waiter. cbn.
  destruct (0 <? default 0 (g_sem_map r !! sem)); cbn; by rewrite ?insert_insert_eq, ?lookup_insert_eq; cbn; rewrite ?insert_insert_eq.
Qed.
Lemma objs_sems r r' : objs r = objs r' -> os_sems r = os_sems r' /\ g_sem_map r = g_sem_map r' /\ g_barriers r = g_barriers r'.
Proof using Type. unfold objs. by intros [= _ _ -> -> _ ->]. Qed.
Ltac objs_eq H := unfold objs in *; cbn; injection H as -> -> -> -> -> ->; reflexivity.

(** the loop of sem_wait, and the rest of the method after a wait *)
Definition sem_loop (sem : Z) : prog unit :=
  ploop (ret ← try_sem sem;
         if ret =? 0 then mret (Some tt)
         else
           _ ← rt_do (n ← sem_count sem; sem_count_set sem (n + 1));
           _ ← syncWait sem FOREVER;
           mret None).
Definition sem_waits (ins e sem : Z) (p : prog (Z * Z)) : Prop :=
  peq (_ ← call SWaitEnd; _ ← sem_loop sem; _ ← SCHED_TIMER_END ins syncfunc.sem_wait [sem]; mret (0, e)) p.

(** sem_wait.  At its turn a thread that calls it, or that has been woken in it, takes
    one from a semaphore above 0 and returns 0; otherwise it is counted as a waiter, waits
    on the semaphore and leaves its value alone. *)
Theorem sem_wait_turn me h ins e sem q wq k x rest p w :
  p = semWait me ins e sem \/ (sem_waits ins e sem p /\ is_Some (w_wake_reason (wait_of (w_s w) h))) ->
  at_turn w me h (TurnQ (h :: q) wq k) (Posted h) -> q ++ [h] = x :: rest -> sem <> 0 ->
  let n := sem_of (w_rt w) sem in
  if 0 <? n then
    returns me p (fun r w' => r = (0, e) /\
      at_turn w' me h (TurnQ (x :: rest) wq (k +u32 1)) (Posted x) /\
      objs (w_rt w') = objs (put_sem sem (n - 1) (w_rt w)) /\
      g_log (w_rt w') = entry h ins syncfunc.sem_wait k true [sem] ++ g_log (w_rt w)) w
  else q <> [] ->
    blocks me p (fun p' w' => sem_waits ins e sem p' /\
      at_turn w' me h (TurnQ q (wq ++ [(h, sem)]) (k +u32 1)) (Posted x) /\
      objs (w_rt w') = objs (count_sem_waiter sem (w_rt w)) /\ g_log (w_rt w') = g_log (w_rt w)) w.
Proof using P.
  intros Hp Hat Hq Hsem n.
  assert (Hstart : forall Q B, (forall w1, at_turn w1 me h (TurnQ (h :: q) wq k) (Held h) ->
      objs (w_rt w1) = objs (w_rt w) -> g_log (w_rt w1) = g_log (w_rt w) ->
      ends me (_ ← sem_loop sem; _ ← SCHED_TIMER_END ins syncfunc.sem_wait [sem]; mret (0, e)) Q B w1) ->
    ends me p Q B w).
  { intros Q B Hgo. destruct Hp as [->|[Hp [r Hr]]].
    - apply (e_method _ _ _ _ _ _ _ _ Hat). intros w1 Hat1 Ho1 Hl1 _. by apply Hgo.
    - eapply e_peq; [exact Hp|]. apply e_bind. eapply r_mono; [by eapply t_resume_loop|]. cbn beta.
      intros v w1 (_ & Hat1 & Hr1 & _). apply Hgo; [done|by rewrite Hr1..]. }
  assert (Hn : forall w1, objs (w_rt w1) = objs (w_rt w) -> sem_of (w_rt w1) sem = n).
  { intros w1 Ho. unfold sem_of. by rewrite (proj1 (objs_sems _ _ Ho)). }
  destruct (0 <? n) eqn:Hpos.
  - apply e_returns, Hstart. intros w1 Hat1 Ho1 Hl1. apply e_bind, r_iter, r_bind, r_bind, r_bind.
    eapply r_mono; [eapply (t_obj _ (0, None) (put_sem sem (n - 1) (w_rt w1))); [exact Hat1|]|].
    { unfold os_sem_trywait, mbind, M_bind, gets, modify, mret, M_ret. by rewrite (Hn w1 Ho1), Hpos. }
    cbn beta. intros v w2 (-> & Hat2 & Hr2 & _). cbn [snd fst note_errno Z.eqb].
    apply r_bind, r_ret, r_bind, r_ret, r_ret, r_ret, r_ret, r_ret.
    apply e_bind. eapply r_mono; [eapply t_end; [exact Hat2|exact Hq]|]. cbn beta. intros _ w3 (Hat3 & Ho3 & Hl3 & _).
    left. apply r_ret. rewrite Ho3, Hl3, Hr2. split_and!; [done|done| |by rewrite <-Hl1].
    objs_eq Ho1.
  - intros Hne. destruct q as [|x' rest']; [done|]. injection Hq as -> Hq.
    apply e_blocks, Hstart. intros w1 Hat1 Ho1 Hl1. right. apply b_bind_blocks.
    eapply b_step; [reflexivity|]. apply b_bind_blocks, b_bind_blocks, b_bind_returns, r_bind.
    eapply r_mono; [eapply (t_obj _ (-1, Some EAGAIN) (w_rt w1)); [exact Hat1|]|].
    { unfold os_sem_trywait, mbind, M_bind, gets, modify, mret, M_ret. by rewrite (Hn w1 Ho1), Hpos. }
    cbn beta. intros v w2 (-> & Hat2 & Hr2 & _). cbn [snd fst note_errno Z.eqb].
    apply r_bind. eapply r_mono; [eapply t_tls; [exact Hat2|apply plain_errno, Hat2]|]. cbn beta.
    intros _ w3 (Hat3 & Hr3 & Ht3). apply r_bind, r_bind.
    eapply r_mono; [by eapply t_tls_get|]. cbn beta. intros e' w4 (-> & Hat4 & Hr4 & _).
    rewrite Ht3. cbn [t_errno set_t_errno]. apply r_ret, r_ret. cbn [Z.eqb].
    apply b_bind_returns. eapply r_mono; [eapply t_obj; [exact Hat4|apply count_sem_code]|]. cbn beta.
    intros _ w5 (-> & Hat5 & Hr5 & _). apply b_bind_blocks. eapply b_mono; [eapply t_wait; [exact Hat5|done]|]. cbn beta.
    intros p' w6 (-> & Hat6 & Hr6 & _). rewrite Hr6, Hr5, Hr4, Hr3, Hr2. split_and!; [|done| |done].
    + unfold sem_waits. constructor. intros v. reflexivity.
    + objs_eq Ho1.
Qed.
(** sem_post. At its turn the thread adds one to the semaphore, wakes the thread that
    has waited longest on it, which joins the tail of the run queue, and returns 0. *)
Theorem sem_post_turn me h ins e sem q wq k x rest w :
  at_turn w me h (TurnQ (h :: q) wq k) (Posted h) -> sem <> 0 ->
  let n := sem_of (w_rt w) sem in
  n < SEM_VALUE_MAX -> (q ++ (wake sem false wq).1) ++ [h] = x :: rest ->
  returns me (semPost me ins e sem) (fun r w' => r = (0, e) /\
    at_turn w' me h (TurnQ (x :: rest) (wake sem false wq).2 (k +u32 1)) (Posted x) /\
    objs (w_rt w') = objs (uncount_sem_waiter sem (put_sem sem (n + 1) (w_rt w))) /\
    g_log (w_rt w') = entry h ins syncfunc.sem_post k true [sem; 0] ++ g_log (w_rt w)) w.
Proof using P.
  intros Hat Hsem n Hmax Hq. apply e_returns. apply (e_method _ _ _ _ _ _ _ _ Hat). intros w1 Hat1 Ho1 Hl1 _.
  apply e_bind. eapply r_mono; [eapply (t_obj _ (0, None) (put_sem sem (n + 1) (w_rt w1))); [exact Hat1|]|].
  { assert (Hn : sem_of (w_rt w1) sem = n) by (unfold sem_of; by rewrite (proj1 (objs_sems _ _ Ho1))).
    unfold os_sem_post, mbind, M_bind, gets, modify, mret, M_ret. by rewrite Hn, (proj2 (Z.ltb_lt _ _) Hmax). }
  cbn beta. intros v w2 (-> & Hat2 & Hr2 & _). cbn [snd fst note_errno Z.eqb passert orb].
  apply e_bind, r_ret. apply e_bind, r_ret.
  apply e_bind. eapply r_mono; [eapply t_signal; [exact Hat2|done]|]. cbn beta. intros _ w3 (Hat3 & Hr3 & _).
  apply e_bind. eapply r_mono; [eapply t_obj; [exact Hat3|apply uncount_sem_code]|]. cbn beta.
  intros m w4 (_ & Hat4 & Hr4 & _). rewrite plain_policy. apply e_bind, r_pwhen; [done|intros _].
  apply e_bind. eapply r_mono; [eapply t_end; [exact Hat4|exact Hq]|]. cbn beta. intros _ w5 (Hat5 & Ho5 & Hl5 & _).
  left. apply r_ret. rewrite Ho5, Hl5, Hr4, Hr3, Hr2. split_and!; [done|done| |by rewrite <-Hl1].
  objs_eq Ho1.
Qed.

(** ** Barriers *)
Definition put_barrier (barrier : Z) (b : barrier_t) (r : rt) : rt :=
  set_g_barriers (<[barrier := b]> (g_barriers r)) r.
Lemma arrive_code barrier b r : g_barriers r !! barrier = Some b -> b_narrived b + 1 <= b_count b ->
  barrier_arrive barrier r = Ok (b_count b =? b_narrived b + 1,
    put_barrier barrier (Barrier (b_count b) (if b_count b =? b_narrived b + 1 then 0 else b_narrived b + 1)) r).
Proof using Type.
  intros Hb Hn. unfold barrier_arrive, mbind, M_bind, gets, modify, mret, M_ret, cassert. rewrite Hb.
  rewrite bool_decide_true by done. cbn. by rewrite (proj2 (Z.leb_le _ _) Hn).
Qed.

(** the rest of pthread_barrier_wait of a thread that waits for the others, and of the last one *)
Definition barrier_waits (ins e barrier : Z) (p : prog (Z * Z)) : Prop :=
  peq (_ ← call SWaitEnd; _ ← SCHED_TIMER_END ins syncfunc.pthread_barrier_wait [barrier]; mret (0, e)) p.
Definition barrier_last (ins e barrier : Z) (p : prog (Z * Z)) : Prop :=
  peq (_ ← call SGetTurn; _ ← SCHED_TIMER_END ins syncfunc.pthread_barrier_wait [barrier];
       mret (PTHREAD_BARRIER_SERIAL_THREAD, e)) p.

(** C15: pthread_barrier_wait.  At its turn a thread that is not the last to arrive is counted
    and waits on the barrier.  The last one resets the count and moves every thread that
    waits on the barrier, in the order of their arrival, to the tail of the run queue, and
    itself behind them; it returns PTHREAD_BARRIER_SERIAL_THREAD at its next turn. *)
Theorem barrier_wait_turn me h ins e barrier b q wq k x rest w :
  at_turn w me h (TurnQ (h :: q) wq k) (Posted h) -> barrier <> 0 ->
  g_barriers (w_rt w) !! barrier = Some b -> b_narrived b + 1 <= b_count b ->
  let last := b_count b =? b_narrived b + 1 in
  q ++ (if last then (wake barrier true wq).1 else []) = x :: rest ->
  blocks me (pthreadBarrierWait me ins e barrier) (fun p' w' =>
    (if last then barrier_last ins e barrier p' else barrier_waits ins e barrier p') /\
    at_turn w' me h
      (if last then TurnQ (x :: rest ++ [h]) (wake barrier true wq).2 (k +u32 1)
       else TurnQ (x :: rest) (wq ++ [(h, barrier)]) (k +u32 2)) (Posted x) /\
    objs (w_rt w') = objs (put_barrier barrier (Barrier (b_count b) (if last then 0 else b_narrived b + 1)) (w_rt w)) /\
    g_log (w_rt w') = entry h ins syncfunc.pthread_barrier_wait k false [barrier] ++ g_log (w_rt w)) w.
Proof using P.
  intros Hat Hb0 Hb Hn last Hq. apply e_blocks. apply (e_method _ _ _ _ _ _ _ _ Hat). intros w1 Hat1 Ho1 Hl1 _.
  apply e_bind. eapply r_mono; [eapply t_fake_end; exact Hat1|]. cbn beta. intros _ w2 (Hat2 & Ho2 & Hl2 & _).
  rewrite Ho1 in Ho2. rewrite Hl1 in Hl2. apply e_bind. eapply r_mono; [eapply t_obj; [exact Hat2|apply arrive_code; [|exact Hn]]|].
  { by rewrite (proj2 (proj2 (objs_sems _ _ Ho2))). }
  cbn beta. fold last. intros v w3 (-> & Hat3 & Hr3 & _).
  assert (Ho3 : objs (w_rt w3) = objs (put_barrier barrier (Barrier (b_count b) (if last then 0 else b_narrived b + 1)) (w_rt w)))
    by (rewrite Hr3; objs_eq Ho2).
  assert (Hl3 : g_log (w_rt w3) = entry h ins syncfunc.pthread_barrier_wait k false [barrier] ++ g_log (w_rt w)) by by rewrite Hr3.
  clear Hr3. right. apply b_bind_blocks. destruct last.
  - apply b_bind_returns. eapply r_mono; [eapply t_signal; [exact Hat3|done]|]. cbn beta. intros _ w4 (Hat4 & Hr4 & _).
    rewrite Hq in Hat4. assert (Hxh : x <> h) by (by eapply at_turn_distinct).
    apply b_bind_returns. eapply r_mono; [eapply (r_sched me (SPutTurn false 0) h _ (Held h)
      (fun _ A' tok' => A' = TurnQ (x :: rest ++ [h]) (wake barrier true wq).2 (k +u32 1) /\ tok' = Posted x)); [exact Hat4|]|].
    { eapply wp_mono; [eapply (steady_put _ _ _ (x :: rest)); [apply Hat4|done]|]. cbn beta. intros [] s' [Hs _]. eauto. }
    cbn beta. intros [] w5 (A' & tok' & Hat5 & Hr5 & _ & -> & ->). apply b_bind_blocks.
    eapply b_mono; [eapply t_blocked_get; [exact Hat5|done|left; cbn; set_solver]|]. cbn beta. intros p' w6 [-> ->].
    rewrite Hr5, Hr4. split_and!; [|done|done|done]. unfold barrier_last. constructor. intros v. reflexivity.
  - rewrite app_nil_r in Hq. subst q. apply b_bind_blocks. eapply b_mono; [eapply t_wait; [exact Hat3|done]|]. cbn beta.
    intros p' w4 (-> & Hat4 & Hr4 & _). rewrite Hr4. split_and!; [| |done|done].
    + unfold barrier_waits. constructor. intros v. reflexivity.
    + replace (k +u32 2) with ((k +u32 1) +u32 1); [done|]. unfold u32. dlia.
Qed.

(** a thread that comes out of the barrier *)
Lemma barrier_leave_turn me h ins e barrier v q wq k x rest p w :
  v = PTHREAD_BARRIER_SERIAL_THREAD /\ barrier_last ins e barrier p \/
  v = 0 /\ barrier_waits ins e barrier p /\ is_Some (w_wake_reason (wait_of (w_s w) h)) ->
  at_turn w me h (TurnQ (h :: q) wq k) (Posted h) -> q ++ [h] = x :: rest ->
  returns me p (fun r w' => r = (v, e) /\
    at_turn w' me h (TurnQ (x :: rest) wq (k +u32 1)) (Posted x) /\ objs (w_rt w') = objs (w_rt w) /\
    g_log (w_rt w') = entry h ins syncfunc.pthread_barrier_wait k true [barrier] ++ g_log (w_rt w)) w.
Proof using P.
  intros Hp Hat Hq.
  assert (Hend : forall w1, at_turn w1 me h (TurnQ (h :: q) wq k) (Held h) -> w_rt w1 = w_rt w ->
    returns me (_ ← SCHED_TIMER_END ins syncfunc.pthread_barrier_wait [barrier]; mret (v, e)) (fun r w' => r = (v, e) /\
      at_turn w' me h (TurnQ (x :: rest) wq (k +u32 1)) (Posted x) /\ objs (w_rt w') = objs (w_rt w) /\
      g_log (w_rt w') = entry h ins syncfunc.pthread_barrier_wait k true [barrier] ++ g_log (w_rt w)) w1).
  { intros w1 Hat1 Hr1. apply r_bind. eapply r_mono; [eapply t_end; [exact Hat1|exact Hq]|]. cbn beta.
    intros _ w2 (Hat2 & Ho2 & Hl2 & _). apply r_ret. by rewrite Ho2, Hl2, Hr1. }
  destruct Hp as [[-> Hp]|[-> [Hp [r Hr]]]]; (eapply r_peq; [exact Hp|]); apply r_bind.
  - eapply r_mono; [by eapply t_get|]. cbn beta. intros _ w1 (Hat1 & Hr1 & _). by apply Hend.
  - eapply r_mono; [by eapply t_resume_loop|]. cbn beta. intros _ w1 (_ & Hat1 & Hr1 & _). by apply Hend.
Qed.
End logic.

(** ** Witnesses *)
Section witnesses.
Local Existing Instance sample_options.
Local Existing Instance elements_order.
Local Existing Instance sample_addrs.

#[local] Instance sample_plain : PlainOptions.
Proof. by split. Qed.

(** the scheduler after a sequence of calls, with objects [r] *)
Definition world_after (es : list event) (r : rt) : world :=
  set_rt r (world_of (c_s (cfg_of es)) [1000; 1001; 1002; 1003] ∅).
Lemma sample_turn es r me h A :
  bool_decide (is_Some (run_from_start 1000 es)) = true -> steadyb (c_s (cfg_of es)) A = true ->
  c_tok (cfg_of es) = Posted h -> self_of (world_after es r) me = h ->
  at_turn (world_after es r) me h A (Posted h).
Proof.
  intros Hr Hs Ht Hself. split; [exact Hself| |by split]. rewrite <-Ht.
  apply steadyb_sound; [by split|by apply cfg_of_reachable|done].
Qed.

(** thread 1 has the turn; thread 0 has it while thread 2 waits on 77; thread 2 has it back *)
Definition queue_start : turnq := TurnQ [1; 2; 3; 0] [] 1.
Definition waiter_events : list event := wait_events FOREVER ++ [EInc 3; EPut 3 1003 0].
Definition queue_waiter : turnq := TurnQ [0; 1; 3] [(2, 77)] 4.
Definition queue_woken : turnq := TurnQ [2; 3; 0; 1] [] 4.
Example queues_steady : steadyb (c_s (cfg_of start_events)) queue_start = true /\
  steadyb (c_s (cfg_of waiter_events)) queue_waiter = true /\
  steadyb (c_s (cfg_of signal_events)) queue_woken = true.
Proof. vm_compute. done. Qed.

Lemma turn_start r : at_turn (world_after start_events r) 1001 1 queue_start (Posted 1).
Proof. apply sample_turn; vm_compute; reflexivity. Qed.
Lemma turn_waiter r : at_turn (world_after waiter_events r) 1000 0 queue_waiter (Posted 0).
Proof. apply sample_turn; vm_compute; reflexivity. Qed.
Lemma turn_woken r : at_turn (world_after signal_events r) 1002 2 queue_woken (Posted 2).
Proof. apply sample_turn; vm_compute; reflexivity. Qed.

(** mutex [mu] is owned by [th] *)
Definition owned (mu th : Z) : rt := put_mutex mu (Mutex NORMAL (Some th) 1) rt0.

Lemma mutex_lock_turn_witness :
  takes_or_waits 1001 1 7 syncfunc.pthread_mutex_lock [500] 0 500 [2; 3; 0] [] 1 2 [3; 0; 1]
    (pthreadMutexLock 1001 7 0 500) (world_after start_events rt0) /\
  takes_or_waits 1001 1 7 syncfunc.pthread_mutex_lock [500] 0 500 [2; 3; 0] [] 1 2 [3; 0; 1]
    (pthreadMutexLock 1001 7 0 500) (world_after start_events (owned 500 1002)).
Proof. split; (apply mutex_lock_turn; [by left|apply turn_start|reflexivity|lia]). Defined.

Lemma mutex_unlock_turn_witness :
  returns 1000 (pthreadMutexUnlock 1000 7 0 77) (fun r w' => r = (0, 0) /\ t_errno (tls_of w' 1000) = 0 /\
    at_turn w' 1000 0 (TurnQ [1; 3; 2; 0] [] 5) (Posted 1) /\
    objs (w_rt w') = objs (put_mutex 77 (Mutex NORMAL None 0) (owned 77 1000)) /\
    g_log (w_rt w') = [LogEntry 0 7 syncfunc.pthread_mutex_unlock 4 true [77; 0]])
    (world_after waiter_events (owned 77 1000)).
Proof.
  eapply r_mono; [apply (mutex_unlock_turn 1000 0 7 0 77 [1; 3] [(2, 77)] 4 1 [3; 2; 0]
    (world_after waiter_events (owned 77 1000))); [apply turn_waiter|lia|by left|reflexivity]|].
  intros r w' H. exact H.
Defined.

Lemma cond_wait_turn_witness :
  blocks 1000 (pthreadCondWait 1000 7 0 900 77) (fun p' w' => cond_waits 1000 7 0 900 77 p' /\
    at_turn w' 1000 0 (TurnQ [1; 3; 2] [(0, 900)] 6) (Posted 1) /\
    objs (w_rt w') = objs (put_mutex 77 (Mutex NORMAL None 0) (count_waiter 900 (owned 77 1000))) /\
    g_log (w_rt w') = [LogEntry 0 7 syncfunc.pthread_cond_wait 4 false [900; 77]])
    (world_after waiter_events (owned 77 1000)).
Proof.
  eapply b_mono; [apply (cond_wait_turn 1000 0 7 0 900 77 [1; 3] [(2, 77)] 4 1 [3; 2]
    (world_after waiter_events (owned 77 1000))); [apply turn_waiter|lia|lia|by left|reflexivity]|].
  intros p' w' H. exact H.
Defined.

(** thread 2 has waited on condition variable 77 *)
Definition woken_in_cond : prog (Z * Z) :=
  _ ← call SWaitEnd; r ← helper_errno 0 (pthreadMutexLockHelper 1002 500 FOREVER);
  _ ← SCHED_TIMER_END 7 syncfunc.pthread_cond_wait [77; 500]; mret (0, r.2).
Lemma cond_wake_turn_witness :
  takes_or_waits 1002 2 7 syncfunc.pthread_cond_wait [77; 500] 0 500 [3; 0; 1] [] 4 3 [0; 1; 2]
    woken_in_cond (world_after signal_events rt0).
Proof.
  apply cond_wake_turn; [left; unfold cond_waits, woken_in_cond; reflexivity| |apply turn_woken|reflexivity|lia].
  exists SIGNAL. vm_compute. reflexivity.
Defined.

Lemma sem_wait_turn_witness :
  returns 1001 (semWait 1001 7 0 600) (fun r w' => r = (0, 0) /\
    at_turn w' 1001 1 (TurnQ [2; 3; 0; 1] [] 2) (Posted 2) /\
    objs (w_rt w') = objs (put_sem 600 0 (put_sem 600 1 rt0)) /\
    g_log (w_rt w') = [LogEntry 1 7 syncfunc.sem_wait 1 true [600]])
    (world_after start_events (put_sem 600 1 rt0)).
Proof.
  eapply r_mono; [apply (sem_wait_turn 1001 1 7 0 600 [2; 3; 0] [] 1 2 [3; 0; 1] (semWait 1001 7 0 600)
    (world_after start_events (put_sem 600 1 rt0))); [by left|apply turn_start|reflexivity|lia]|].
  intros r w' H. exact H.
Defined.

(** thread 2 has arrived at a barrier for two, thread 0 is the last *)
Definition barrier_rt : rt := put_barrier 77 (Barrier 2 1) rt0.
Lemma barrier_wait_turn_witness :
  blocks 1000 (pthreadBarrierWait 1000 7 0 77) (fun p' w' => barrier_last 7 0 77 p' /\
    at_turn w' 1000 0 (TurnQ [1; 3; 2; 0] [] 5) (Posted 1) /\
    objs (w_rt w') = objs (put_barrier 77 (Barrier 2 0) barrier_rt) /\
    g_log (w_rt w') = [LogEntry 0 7 syncfunc.pthread_barrier_wait 4 false [77]])
    (world_after waiter_events barrier_rt).
Proof.
  eapply b_mono; [apply (barrier_wait_turn 1000 0 7 0 77 (Barrier 2 1) [1; 3] [(2, 77)] 4 1 [3; 2]
    (world_after waiter_events barrier_rt)); [apply turn_waiter|lia|reflexivity|simpl; lia|reflexivity]|].
  intros p' w' H. exact H.
Defined.
End witnesses.
