(* ===== verification/RtRwLock.v ===== *)
(** * What the methods of reader-writer locks do at a turn

    In the style of RtLogic: a lock that admits the caller is taken, otherwise the thread
    waits; an unlock wakes one thread, reader or writer. *)
From S2P Require Import Prelude Options RunQueue TidMap NonDetSet Scheduler SyncFuncs SchedInv SchedOps SchedSys SchedRun.
From S2P Require Import SchedThms SchedMachine SchedSteady RtState Proc RtBase RtReturns RtRuntime RtSync RtRun RtTurn RtLogic.

Section rwlock.
Context `{O : Options, U : UnorderedIter, G : GlobalAddrs} {P : PlainOptions}.

(** whether lock [l] admits a writer, or a reader; the lock after that; one holder less *)
Definition rw_admits (write : bool) (l : rwlock_t) : bool :=
  bool_decide (rw_writer l = None) && (negb write || (rw_readers l =? 0)).
Definition rw_taken (write : bool) (me : Z) (l : rwlock_t) : rwlock_t :=
  if write then RWLock 0 (Some me) else RWLock (rw_readers l + 1) None.
Definition rw_released (l : rwlock_t) : rwlock_t :=
  match rw_writer l with Some _ => rwlock0 | None => RWLock (rw_readers l - 1) None end.

Definition rw_try (write : bool) (me rw : Z) : RTM Z :=
  if write then os_rwlock_trywrlock me rw else os_rwlock_tryrdlock rw.
Definition rw_op (write : bool) : syncfunc.t :=
  if write then syncfunc.pthread_rwlock_wrlock else syncfunc.pthread_rwlock_rdlock.
Definition rw_lock (write : bool) (me ins e rw : Z) : prog (Z * Z) :=
  if write then pthread_rwlock_wrlock me ins e rw else pthread_rwlock_rdlock me ins e rw.

Lemma objs_put_rwlock r r' rw l : objs r = objs r' -> objs (put_rwlock rw l r) = objs (put_rwlock rw l r').
Proof using Type. unfold objs. cbn. by intros [= -> -> -> -> -> ->]. Qed.
Lemma objs_rwlock r r' rw : objs r = objs r' -> rwlock_of r rw = rwlock_of r' rw.
Proof using Type. unfold objs, rwlock_of. by intros [= _ -> _]. Qed.

Lemma rw_try_code write me rw r : let l := rwlock_of r rw in
  rw_try write me rw r = if rw_admits write l then Ok (0, put_rwlock rw (rw_taken write me l) r) else Ok (EBUSY, r).
Proof using Type.
  unfold rw_try, rw_admits, rw_taken, os_rwlock_trywrlock, os_rwlock_tryrdlock, mbind, M_bind, gets, modify, mret, M_ret.
  destruct write; cbv beta zeta; destruct (rwlock_of r rw) as [n [o|]]; cbn [rw_writer rw_readers]; try done.
  rewrite bool_decide_true by done. cbn. by destruct (n =? 0).
Qed.

(** the thread calls pthread_rwlock_rdlock or pthread_rwlock_wrlock, or has been woken in it *)
Definition rw_locking (write : bool) (me h ins e rw : Z) (p : prog (Z * Z)) (w : world) : Prop :=
  p = rw_lock write me ins e rw \/
  (lock_waits (rw_try write me rw) rw me ins (rw_op write) [rw] e p w /\ is_Some (w_wake_reason (wait_of (w_s w) h))).

Lemma rw_tries write me h ins e rw A p w : rw_locking write me h ins e rw p w -> at_turn w me h A (Posted h) ->
  tries_lock (rw_try write me rw) rw me h ins (rw_op write) [rw] e A p w.
Proof using P.
  intros [->|[Hp Hr]] Hat; [|by apply tries_again]. intros Q B Hgo.
  destruct write; apply (e_method _ _ _ _ _ _ _ _ Hat); intros w2 Hat2 Ho2 Hl2 _;
    (apply (tries_helper _ _ me h ins _ _ e _ _ _ _ Hat2); intros w3 Hat3 Hr3 Ht3;
     apply Hgo; [done|by rewrite Hr3..|done]).
Qed.

(** C13: pthread_rwlock_rdlock and pthread_rwlock_wrlock.  At its turn a thread that calls
    one of them, or that has been woken in it, takes the lock if the lock admits it - a
    reader when nobody writes, a writer when nobody holds it - and returns 0; errno is
    kept, the call is logged and the turn goes on.  Otherwise the thread waits on the
    lock and changes nothing. *)
Theorem rwlock_lock_turn write me h ins e rw q wq k x rest p w :
  rw_locking write me h ins e rw p w -> at_turn w me h (TurnQ (h :: q) wq k) (Posted h) ->
  q ++ [h] = x :: rest -> rw <> 0 ->
  let l := rwlock_of (w_rt w) rw in
  if rw_admits write l then
    returns me p (fun r w' => r = (0, e) /\ t_errno (tls_of w' me) = e /\
      at_turn w' me h (TurnQ (x :: rest) wq (k +u32 1)) (Posted x) /\
      objs (w_rt w') = objs (put_rwlock rw (rw_taken write me l) (w_rt w)) /\
      g_log (w_rt w') = entry h ins (rw_op write) k true [rw] ++ g_log (w_rt w)) w
  else q <> [] ->
    blocks me p (fun p' w' => lock_waits (rw_try write me rw) rw me ins (rw_op write) [rw] e p' w' /\
      at_turn w' me h (TurnQ q (wq ++ [(h, rw)]) (k +u32 1)) (Posted x) /\
      objs (w_rt w') = objs (w_rt w) /\ g_log (w_rt w') = g_log (w_rt w)) w.
Proof using P.
  intros Hp Hat Hq Hrw l. pose proof (rw_tries _ _ _ _ _ _ _ _ _ Hp Hat) as Htry.
  assert (Hcode : forall r, objs r = objs (w_rt w) -> rw_try write me rw r =
    if rw_admits write l then Ok (0, put_rwlock rw (rw_taken write me l) r) else Ok (EBUSY, r)).
  { intros r Hr. rewrite rw_try_code, (objs_rwlock _ _ rw Hr). done. }
  destruct (rw_admits write l).
  - eapply tries_takes; [done..|]. intros r Hr. eexists. split_and!; [by apply Hcode|by apply objs_put_rwlock|done].
  - intros Hne. by eapply tries_waits.
Qed.

(** C14: pthread_rwlock_unlock.  At its turn the thread gives up the lock, as its writer or as
    one of its readers, and wakes exactly one thread, the one that has waited longest,
    whether it reads or writes; 0 is returned. *)
Theorem rwlock_unlock_turn me h ins e rw q wq k x rest w :
  at_turn w me h (TurnQ (h :: q) wq k) (Posted h) -> rw <> 0 ->
  (q ++ (wake rw false wq).1) ++ [h] = x :: rest ->
  returns me (pthread_rwlock_unlock me ins e rw) (fun r w' => r = (0, e) /\ t_errno (tls_of w' me) = e /\
    at_turn w' me h (TurnQ (x :: rest) (wake rw false wq).2 (k +u32 1)) (Posted x) /\
    objs (w_rt w') = objs (put_rwlock rw (rw_released (rwlock_of (w_rt w) rw)) (w_rt w)) /\
    g_log (w_rt w') = entry h ins syncfunc.pthread_rwlock_unlock k true [rw; 0] ++ g_log (w_rt w)) w.
Proof using P.
  intros Hat Hrw Hq. apply e_returns. apply (e_method _ _ _ _ _ _ _ _ Hat). intros w1 Hat1 Ho1 Hl1 _.
  apply e_bind. eapply r_mono; [eapply (t_with_errno _ _ 0 (put_rwlock rw (rw_released (rwlock_of (w_rt w1) rw)) (w_rt w1))); [exact Hat1|]|].
  { unfold os_rwlock_unlock, rw_released, mbind, M_bind, gets, modify, mret, M_ret.
    by destruct (rw_writer (rwlock_of (w_rt w1) rw)). }
  cbn beta. intros r w2 (-> & Hat2 & Hr2 & He2).
  apply e_bind. eapply r_mono; [eapply t_signal; [exact Hat2|done]|]. cbn beta. intros _ w3 (Hat3 & Hr3 & Ht3).
  apply e_bind. eapply r_mono; [eapply t_end; [exact Hat3|exact Hq]|]. cbn beta. intros _ w4 (Hat4 & Ho4 & Hl4 & Ht4).
  left. apply r_ret. rewrite Ht4, Ht3, He2, Ho4, Hl4, Hr3, Hr2. split_and!; [done|done|done| |by rewrite <-Hl1].
  rewrite (objs_rwlock _ _ rw Ho1). by apply objs_put_rwlock.
Qed.
End rwlock.

(** ** Witnesses *)
Section witnesses.
Local Existing Instance sample_options.
Local Existing Instance elements_order.
Local Existing Instance sample_addrs.
Local Existing Instance sample_plain.

(** two readers hold lock 77 *)
Definition two_readers : rt := put_rwlock 77 (RWLock 2 None) rt0.

(** a reader joins them, a writer waits *)
Lemma rwlock_lock_turn_witness :
  (returns 1001 (pthread_rwlock_rdlock 1001 7 0 77) (fun r w' => r = (0, 0) /\ t_errno (tls_of w' 1001) = 0 /\
    at_turn w' 1001 1 (TurnQ [2; 3; 0; 1] [] 2) (Posted 2) /\
    objs (w_rt w') = objs (put_rwlock 77 (RWLock 3 None) two_readers) /\
    g_log (w_rt w') = [LogEntry 1 7 syncfunc.pthread_rwlock_rdlock 1 true [77]])
    (world_after start_events two_readers)) /\
  blocks 1001 (pthread_rwlock_wrlock 1001 7 0 77) (fun p' w' =>
    lock_waits (rw_try true 1001 77) 77 1001 7 (rw_op true) [77] 0 p' w' /\
    at_turn w' 1001 1 (TurnQ [2; 3; 0] [(1, 77)] 2) (Posted 2) /\
    objs (w_rt w') = objs two_readers /\ g_log (w_rt w') = []) (world_after start_events two_readers).
Proof.
  split.
  - eapply r_mono; [apply (rwlock_lock_turn false 1001 1 7 0 77 [2; 3; 0] [] 1 2 [3; 0; 1] _
      (world_after start_events two_readers)); [by left|apply turn_start|reflexivity|lia]|].
    intros r w' H. exact H.
  - refine (b_mono _ _ _ _ _ (rwlock_lock_turn true 1001 1 7 0 77 [2; 3; 0] [] 1 2 [3; 0; 1] _
      (world_after start_events two_readers) (or_introl eq_refl) (turn_start _) eq_refl ltac:(lia) ltac:(done)) _).
    intros p' w' H. exact H.
Defined.

Lemma rwlock_unlock_turn_witness :
  returns 1000 (pthread_rwlock_unlock 1000 7 0 77) (fun r w' => r = (0, 0) /\ t_errno (tls_of w' 1000) = 0 /\
    at_turn w' 1000 0 (TurnQ [1; 3; 2; 0] [] 5) (Posted 1) /\
    objs (w_rt w') = objs (put_rwlock 77 (RWLock 1 None) two_readers) /\
    g_log (w_rt w') = [LogEntry 0 7 syncfunc.pthread_rwlock_unlock 4 true [77; 0]])
    (world_after waiter_events two_readers).
Proof.
  eapply r_mono; [apply (rwlock_unlock_turn 1000 0 7 0 77 [1; 3] [(2, 77)] 4 1 [3; 2; 0]
    (world_after waiter_events two_readers)); [apply turn_waiter|lia|reflexivity]|].
  intros r w' H. exact H.
Defined.
End witnesses.
