(* ===== verification/DelayFile.v ===== *)
(** * The file of delays and the installation of the runtime: read_delay_file and
    InstallRuntime of lib/runtime/record-runtime.cpp

    app.time gives, for each task, how long it must take at least.  Its contents are an
    argument, None when it cannot be opened. *)
From Stdlib Require Import Ascii.
From S2P Require Import Prelude LogText CText.

(** the local variables task_id and max_time, None while they are not initialised *)
Record entry : Type := Entry { e_task : option Z; e_max : option Z }.

(** ** fscanf(fptr, "%d %u\n", &task_id, &max_time, &count)

    The result is None for EOF. *)
Definition scan_uint (fin : text) (old : option Z) : option Z * text :=
  let fin := skip_space fin in
  match scan_number fin with
  | Some (v, rest) => (Some (as_uint v), skip_space rest)
  | None => (old, skip_sign fin)
  end.
Definition scan_entry (fin : text) (e : entry) : option (entry * text) :=
  match skip_space fin with
  | [] => None
  | fin =>
      match scan_number fin with
      | None => Some (e, skip_sign fin)
      | Some (v, rest) =>
          let '(m, rest) := scan_uint rest (e_max e) in Some (Entry (Some (as_int v)) m, rest)
      end
  end.

(** [GUINT_TO_POINTER((int)max_time)] and back with GPOINTER_TO_UINT *)
Definition stored (max_time : Z) : Z := u32 (u64 (s32 max_time)).

(** the loop [while (fscanf(...) != EOF) g_hash_table_insert(...)] *)
Fixpoint read_entries (fuel : nat) (fin : text) (e : entry) (table : gmap Z Z) : res (gmap Z Z) :=
  match fuel with
  | 0%nat => Err OutOfFuel
  | S fuel' =>
      match scan_entry fin e with
      | None => Ok table
      | Some (e', rest) =>
          match e_task e', e_max e' with
          | Some t, Some m => read_entries fuel' rest e' (<[t := stored m]> table)
          | _, _ => Err UninitRead
          end
      end
  end.
(** read_delay_file: its result and app_time_table *)
Definition read_delay_file (fuel : nat) (app_time : option text) : res (Z * gmap Z Z) :=
  match app_time with
  | Some fin =>
      match read_entries fuel fin (Entry None None) ∅ with
      | Ok table => Ok (Z.of_nat (size table), table)
      | Err e => Err e
      end
  | None => Ok (0, ∅)
  end.
(** InstallRuntime: options::enforce_delays as it is left, and app_time_table *)
Definition InstallRuntime (fuel : nat) (enforce_delays : bool) (app_time : option text) : res (bool * gmap Z Z) :=
  if enforce_delays then
    match read_delay_file fuel app_time with
    | Ok (n, table) => Ok (negb (n =? 0), table)
    | Err e => Err e
    end
  else Ok (false, ∅).

(** ** Reading a well-formed file *)
Abbreviation delay := (Z * Z)%type.
Definition delay_ok (d : delay) : Prop := - 2 ^ 31 <= d.1 < 2 ^ 31 /\ 0 <= d.2 < 2 ^ 32.
Definition delay_line (d : delay) : text :=
  txt (print_dec d.1) ++ " "%char :: txt (print_dec d.2) ++ [newline].
Definition delay_file (l : list delay) : text := mjoin (delay_line <$> l).
Definition delay_table (l : list delay) (table : gmap Z Z) : gmap Z Z :=
  fold_left (fun t d => <[d.1 := d.2]> t) l table.

Lemma stored_small m : 0 <= m < 2 ^ 32 -> stored m = m.
Proof.
  intros H. unfold stored, u64, u32, s32. dlia.
Qed.
Lemma scan_entry_line d rest e : delay_ok d ->
  scan_entry (delay_line d ++ rest) e = Some (Entry (Some d.1) (Some d.2), skip_space rest).
Proof.
  intros [H1 H2]. unfold scan_entry, delay_line. rewrite <-(assoc_L (++)).
  pose proof (skip_space_number d.1 ((" "%char :: txt (print_dec d.2) ++ [newline]) ++ rest)) as Hs.
  rewrite Hs. destruct (txt (print_dec d.1) ++ _) as [|c s] eqn:Hc;
    [by apply app_eq_nil in Hc as [_ Hc]|]. rewrite <-Hc, scan_print_dec by done.
  unfold scan_uint. change (skip_space ((" "%char :: txt (print_dec d.2) ++ [newline]) ++ rest))
    with (skip_space ((txt (print_dec d.2) ++ [newline]) ++ rest)).
  rewrite <-(assoc_L (++)), skip_space_number, scan_print_dec by done.
  change (skip_space ([newline] ++ rest)) with (skip_space rest). unfold as_int, as_uint. rewrite Z.min_l, Z.max_r, s32_small by lia.
  destruct (Z.ltb_spec (Z.abs d.2) (2 ^ 64)); [|lia]. by rewrite u32_small.
Qed.

Lemma scan_entry_skip fin e : scan_entry (skip_space fin) e = scan_entry fin e.
Proof. unfold scan_entry. by rewrite skip_space_idemp. Qed.
(** the variables after the lines [l] *)
Definition last_entry (l : list delay) (e : entry) : entry :=
  fold_left (fun _ d => Entry (Some d.1) (Some d.2)) l e.
Lemma read_entries_skip fuel fin e table : read_entries fuel (skip_space fin) e table = read_entries fuel fin e table.
Proof. destruct fuel as [|fuel]; [done|]. cbn [read_entries]. by rewrite scan_entry_skip. Qed.
Lemma read_lines l rest fuel : Forall delay_ok l -> forall e table,
  read_entries (length l + fuel) (delay_file l ++ rest) e table =
  read_entries fuel rest (last_entry l e) (delay_table l table).
Proof.
  induction 1 as [|d l Hd _ IH]; intros e table; [done|].
  change (delay_file (d :: l)) with (delay_line d ++ delay_file l). rewrite <-(assoc_L (++)).
  cbn [length Nat.add read_entries]. rewrite scan_entry_line by done. cbn [e_task e_max].
  rewrite read_entries_skip, stored_small by apply Hd. apply IH.
Qed.
Lemma delay_table_map l table : delay_table l table = list_to_map (reverse l) ∪ table.
Proof.
  revert table. induction l as [|[t m] l IH]; intros table; simpl; [by rewrite left_id_L by apply _|].
  unfold delay_table in *. rewrite IH, reverse_cons, list_to_map_app, <-(assoc_L (∪)). f_equal.
  simpl. by rewrite insert_empty, <-insert_union_singleton_l.
Qed.

(** C33: A well-formed app.time is read completely: app_time_table maps every task of the
    file to the delay of its last line and nothing else, and the result is the number of
    tasks, so delays stay enforced exactly when the file has an entry. *)
Theorem delay_file_roundtrip (l : list delay) (fuel : nat) : Forall delay_ok l -> (length l < fuel)%nat ->
  let table : gmap Z Z := list_to_map (reverse l) in
  read_delay_file fuel (Some (delay_file l)) = Ok (Z.of_nat (size table), table) /\
  InstallRuntime fuel true (Some (delay_file l)) = Ok (bool_decide (l <> []), table).
Proof.
  intros Hl Hf table. assert (Hr : read_delay_file fuel (Some (delay_file l)) = Ok (Z.of_nat (size table), table)).
  { unfold read_delay_file. replace fuel with (length l + S (fuel - length l - 1))%nat by lia.
    rewrite <-(app_nil_r (delay_file l)), read_lines by done. simpl. by rewrite delay_table_map, right_id_L by apply _. }
  split; [done|]. unfold InstallRuntime. rewrite Hr. do 2 f_equal.
  destruct l as [|d l]; [done|]. rewrite (bool_decide_true (d :: l <> [])) by done. apply negb_true_iff, Z.eqb_neq.
  enough (size table <> 0%nat) by lia. intros Hz%map_size_empty_inv.
  assert (table !! d.1 = None) as Hn by by rewrite Hz.
  apply not_elem_of_list_to_map_2 in Hn. apply Hn. apply list_elem_of_fmap. exists d. split; [done|].
  apply elem_of_reverse. left.
Qed.
Lemma delay_file_roundtrip_witness :
  let l := [(7, 1200); (-3, 80); (7, 900)] in
  delay_file l = txt "7 1200" ++ newline :: txt "-3 80" ++ newline :: txt "7 900" ++ [newline] /\
  let table : gmap Z Z := list_to_map (reverse l) in
  read_delay_file 4 (Some (delay_file l)) = Ok (Z.of_nat (size table), table) /\
  InstallRuntime 4 true (Some (delay_file l)) = Ok (bool_decide (l <> []), table).
Proof.
  intros l. split; [vm_compute; reflexivity|]. apply (delay_file_roundtrip l 4); [|simpl; lia].
  repeat constructor; simpl; lia.
Defined.

(** A malformed app.time hangs the start of the program.  fscanf returns 0, not EOF, at a
    character that cannot start a number, without reading it, so the loop never ends, and
    it inserts the last entry again and again; when the file starts with such a character,
    the variables are not initialised. *)
Theorem delay_file_hangs (l : list delay) (c : Ascii.ascii) (rest : text) (fuel : nat) : Forall delay_ok l ->
  is_space c = false -> is_dec c = false -> is_sign c = false ->
  read_delay_file (S fuel) (Some (delay_file l ++ c :: rest)) =
  Err (match l with [] => UninitRead | _ => OutOfFuel end).
Proof.
  intros Hl H1 H2 H3.
  assert (Hscan : forall e, scan_entry (c :: rest) e = Some (e, c :: rest)).
  { intros e. unfold scan_entry, skip_space. simpl. rewrite H1. unfold scan_number. simpl. rewrite H3.
    unfold scan_unsigned. simpl. by rewrite H2. }
  assert (Hloop : forall t m n table, read_entries n (c :: rest) (Entry (Some t) (Some m)) table = Err OutOfFuel).
  { intros t m n. induction n as [|n IH]; intros table; cbn [read_entries]; [done|]. rewrite Hscan. apply IH. }
  assert (Hall : forall n e table, Forall delay_ok l -> l <> [] ->
    read_entries n (delay_file l ++ c :: rest) e table = Err OutOfFuel).
  { clear fuel Hl. induction l as [|d l IH]; intros n e table Hl Hne; [done|].
    change (delay_file (d :: l)) with (delay_line d ++ delay_file l). rewrite <-(assoc_L (++)).
    apply Forall_cons in Hl as [Hd Hl]. destruct n as [|n]; cbn [read_entries]; [done|].
    rewrite scan_entry_line by done. cbn [e_task e_max]. rewrite read_entries_skip.
    destruct l as [|d' l]; [apply Hloop|]. by apply IH. }
  unfold read_delay_file. destruct l as [|d l].
  - cbn [app delay_file fmap list_fmap mjoin list_join]. cbn [read_entries]. by rewrite Hscan.
  - by rewrite Hall.
Qed.
Lemma delay_file_hangs_witness :
  read_delay_file 50 (Some (delay_file [(7, 1200)] ++ txt "task,max_time")) = Err OutOfFuel.
Proof. apply (delay_file_hangs [(7, 1200)] "t"%char (txt "ask,max_time") 49); [|done..]. repeat constructor; simpl; lia. Defined.
