(* ===== verification/RtTasks.v ===== *)
(** * The delay at the end of a task: mark_task_end of lib/runtime/record-runtime.cpp with
    the busy wait *)
From S2P Require Import Prelude Options RunQueue TidMap NonDetSet Scheduler SyncFuncs SchedSys SchedRun.
From S2P Require Import RtState Proc RtBase RtReturns BusyWait RtAnnot RtRun.

Definition reading_inputs (tv : timeval) : list Z := [tval_sec tv; tval_usec tv].

Section tasks.
Context `{O : Options, U : UnorderedIter, G : GlobalAddrs}.

Lemma r_gettimeofday {A} th (tv : timeval) l (k : timeval -> prog A) Q w :
  env_of w th = (reading_inputs tv ++ l)%list ->
  (forall w', env_of w' th = l -> tls_of w' th = tls_of w th -> returns th (k tv) Q w') ->
  returns th (gettimeofday ≫= k) Q w.
Proof using Type.
  intros He Hk. unfold gettimeofday. apply r_bind. eapply r_env; [exact He|].
  eapply r_env; [apply env_set_env|]. apply r_ret. destruct tv. apply Hk; [apply env_set_env|done].
Qed.

(** busy_wait reads the clock until the time has come *)
Lemma busy_wait_returns th wait start readings last rest (Q : unit -> world -> Prop) w :
  0 <= wait < 2 ^ 32 -> tval_sec start < 2 ^ 60 -> clock_reading start ->
  Forall (fun tv => clock_reading tv /\ usec_of tv < usec_of start + wait) readings ->
  clock_reading last -> usec_of start + wait <= usec_of last ->
  env_of w th = (concat (reading_inputs <$> start :: readings ++ [last]) ++ rest)%list ->
  (forall w', env_of w' th = rest -> tls_of w' th = tls_of w th -> Q tt w') ->
  returns th (busy_wait wait) Q w.
Proof using Type.
  intros Hw Hs60 [Hs Hu] Hr Hl Hend Henv HQ. unfold busy_wait.
  destruct (stop_time_spec start wait) as [Hstop Husec]; [lia..|].
  eapply r_gettimeofday; [simpl in Henv; exact Henv|].
  intros w1 He1 Ht1. clear Henv. revert w1 He1 Ht1. induction Hr as [|tv l [Htv Hlt] _ IH]; intros w1 He1 Ht1.
  - apply r_iter, r_bind. eapply r_gettimeofday; [simpl in He1; exact He1|].
    intros w2 He2 Ht2. rewrite timeval_lt_usec, Husec, (proj2 (Z.ltb_ge _ _)) by done.
    apply r_ret, r_ret, r_ret. apply HQ; [done|congruence].
  - apply r_iter, r_bind. eapply r_gettimeofday; [simpl in He1; exact He1|].
    intros w2 He2 Ht2. rewrite timeval_lt_usec, Husec, (proj2 (Z.ltb_lt _ _)) by done.
    apply r_ret, r_ret. apply IH; [|congruence]. exact He2.
Qed.

Lemma r_read_clock {A} th (t : timespec) l (k : timespec -> prog A) Q w :
  env_of w th = tv_sec t :: tv_nsec t :: l ->
  (forall w', env_of w' th = l -> tls_of w' th = tls_of w th -> w_rt w' = w_rt w -> returns th (k t) Q w') ->
  returns th (read_clock ≫= k) Q w.
Proof using Type.
  intros He Hk. unfold read_clock. apply r_bind. eapply r_env; [exact He|].
  eapply r_env; [apply env_set_env|]. apply r_ret. destruct t. apply Hk; [apply env_set_env|done..].
Qed.

(** is a task that took [elapsed] microseconds delayed to [max_time]?  Entries of up to
    MAX_TIME_K = 50 microseconds are not enforced *)
Definition is_delayed (max_time elapsed : Z) : Prop :=
  log_task_time <> 1 /\ enforce_delays = true /\ 50 < max_time /\ elapsed < max_time.

Lemma task_delay_positive max_time elapsed : is_delayed max_time elapsed ->
  task_delay max_time elapsed = Some (max_time - elapsed).
Proof using Type.
  intros (Hlog & Hen & Hm & He). unfold task_delay. rewrite Hen, orb_true_r.
  rewrite (proj2 (Z.eqb_neq _ _) Hlog), (proj2 (Z.eqb_neq max_time 0)), andb_false_r by lia.
  by rewrite (proj2 (Z.ltb_lt 50 max_time)), (proj2 (Z.ltb_lt elapsed max_time)) by lia.
Qed.
Lemma task_delay_zero max_time elapsed : max_time <> 0 -> ~ is_delayed max_time elapsed ->
  task_delay max_time elapsed = Some 0.
Proof using Type.
  intros Hm Hd. unfold task_delay. rewrite (proj2 (Z.eqb_neq max_time 0)), andb_false_r by done.
  destruct (Z.eqb_spec log_task_time 1) as [|Hlog]; [done|]. destruct (_ || _); [|done].
  destruct enforce_delays eqn:Hen; [|done]. destruct (Z.ltb_spec 50 max_time), (Z.ltb_spec elapsed max_time); try done.
  by destruct Hd.
Qed.

(** C31: mark_task_end and the table of delays.  Let the task that the thread has started
    have a non-zero entry [max_time] and take [elapsed] microseconds.  If delays are enforced
    (and task times are not just logged, log_task_time = 1), the entry is above 50
    microseconds and longer than the task took, the thread leaves mark_task_end at the first
    reading of the clock that is [max_time] - [elapsed] microseconds or more after the
    busy wait's own first reading [start], whatever the readings are.  In all other cases,
    a short entry or a task that has taken longer among them, the thread goes on without
    reading the clock again.  Either way no task is active any more. *)
Theorem mark_task_end_delays th task_id max_time fin start readings last rest w :
  this_task (tls_of w th) = u32 task_id -> g_delays (w_rt w) !! task_id = Some max_time -> 0 < max_time < 2 ^ 32 ->
  let elapsed := timespec_to_usec (time_diff (task_start_time (tls_of w th)) fin) in
  let leaves later := exists n w', run n th (mark_task_end task_id) w = Done tt w' /\ env_of w' th = later /\
                        this_task (tls_of w' th) = 0 in
  (~ is_delayed max_time elapsed -> env_of w th = tv_sec fin :: tv_nsec fin :: rest -> leaves rest) /\
  (is_delayed max_time elapsed ->
   0 <= elapsed -> tval_sec start < 2 ^ 60 -> clock_reading start ->
   Forall (fun tv => clock_reading tv /\ usec_of tv < usec_of start + (max_time - elapsed)) readings ->
   clock_reading last -> usec_of start + (max_time - elapsed) <= usec_of last ->
   env_of w th = tv_sec fin :: tv_nsec fin :: (concat (reading_inputs <$> start :: readings ++ [last]) ++ rest)%list ->
   leaves rest).
Proof using Type.
  intros Htask Hmax Hrange elapsed leaves.
  assert (Hstart : forall d later, task_delay max_time elapsed = Some d -> env_of w th = tv_sec fin :: tv_nsec fin :: later ->
    (forall w1, env_of w1 th = later -> returns th (_ ← pwhen (0 <? d) (busy_wait d); tls_set (set_this_task 0))
       (fun _ w' => env_of w' th = rest /\ this_task (tls_of w' th) = 0) w1) -> leaves rest).
  { intros d later Hd Henv Hk.
    assert (returns th (mark_task_end task_id) (fun _ w' => env_of w' th = rest /\ this_task (tls_of w' th) = 0) w)
      as (n & [] & w' & Hrun & Hw'); [|by exists n, w'].
    unfold mark_task_end. eapply r_read_clock; [exact Henv|]. intros w1 He1 Ht1 Hw1. apply r_tls_get.
    rewrite Ht1. cbn [fst snd]. rewrite Htask, Z.eqb_refl. cbn [passert orb]. fold elapsed.
    eapply r_act; [reflexivity|]. cbn [w_rt set_tls]. rewrite Hw1, Hmax. unfold default, id. rewrite Hd. by apply Hk. }
  split.
  - intros Hd Henv. eapply (Hstart 0); [by apply task_delay_zero; [lia|]|exact Henv|]. intros w1 He1.
    apply r_bind, r_ret. eapply r_act_last; [reflexivity|]. split; [done|]. by rewrite tls_set_tls.
  - intros Hd Hel Hs60 Hclock Hr Hlast Hend Henv.
    eapply Hstart; [by apply task_delay_positive|exact Henv|]. intros w1 He1. destruct Hd as (_ & _ & Hm & Hlt).
    unfold pwhen. rewrite (proj2 (Z.ltb_lt 0 (max_time - elapsed))) by lia. apply r_bind.
    eapply (busy_wait_returns _ (max_time - elapsed) start readings last rest); try done; [lia|].
    intros w2 He2 Ht2. eapply r_act_last; [reflexivity|]. split; [done|]. by rewrite tls_set_tls.
Qed.
End tasks.

Section witness.
Definition delay_options : Options := {|
  ndebug := false; scheduling_policy := 0; enforce_turn_type := 2; launch_idle_thread := 2;
  enforce_non_det_annotations := 0; enforce_no_wait_non_det_annotations := 0;
  enforce_next_n_annotations := false; enforce_ext_turn := false; enforce_dummy_sync := false;
  enforce_non_det_clock_bound := false; non_det_clock_bound := 1000; wakeamap_plus := false;
  high_priority_yield := false; nanosec_per_turn := 3000; log_sync := true;
  generate_per_sync_stats := false; record_runtime_stat := false;
  rr_ignore_rw_regular_file := true; enforce_delays := true; log_task_time := 0;
  non_det_for_single_thread := 0; exec_sleep := false; non_block_recv := false;
  set_mutex_errorcheck := false; DMT := true; enforce_annotations := true;
  disable_soba := false; dync_geteip := false; whole_stack_eip_signature := false; backtrace_level := 0 |}.
Local Existing Instance delay_options.
Local Existing Instance elements_order.
Local Existing Instance sample_addrs.

(** task 3 has run from 10.0 s to 10.0004 s and must last 1000 microseconds *)
Definition task_world : world :=
  let w := world_of (c_s (cfg_of [])) [1000]
    {[ 1000 := [10; 400000; 10; 999900; 11; 499; 11; 500; 42] ]} in
  set_rt (set_g_delays {[ 3 := 1000 ]} (w_rt w))
    (set_tls 1000 (set_this_task 3 (set_task_start_time (Timespec 10 0) (tls_of w 1000))) w).
(** the same task with an entry of 40 microseconds, which is not enforced, whatever it took *)
Definition short_world : world := set_rt (set_g_delays {[ 3 := 40 ]} (w_rt task_world)) task_world.
Lemma mark_task_end_delays_witness :
  (exists n w', run n 1000 (mark_task_end 3) task_world = Done tt w' /\ env_of w' 1000 = [42] /\
    this_task (tls_of w' 1000) = 0) /\
  (exists n w', run n 1000 (mark_task_end 3) short_world = Done tt w' /\
    env_of w' 1000 = drop 2 (env_of task_world 1000) /\ this_task (tls_of w' 1000) = 0).
Proof.
  split.
  - pose proof (mark_task_end_delays 1000 3 1000 (Timespec 10 400000) (Timeval 10 999900) [Timeval 11 499]
      (Timeval 11 500) [42] task_world) as H. cbv zeta in H.
    replace (timespec_to_usec (time_diff (task_start_time (tls_of task_world 1000)) (Timespec 10 400000))) with 400 in H
      by (vm_compute; reflexivity).
    destruct H as [_ H]; [vm_compute; reflexivity|vm_compute; reflexivity|lia|]. apply H; [..|vm_compute; reflexivity];
      repeat constructor; unfold clock_reading, usec_of, USEC_PER_SEC; simpl; lia.
  - pose proof (mark_task_end_delays 1000 3 40 (Timespec 10 400000) (Timeval 0 0) [] (Timeval 0 0)
      (drop 2 (env_of task_world 1000)) short_world) as H. cbv zeta in H.
    destruct H as [H _]; [vm_compute; reflexivity|vm_compute; reflexivity|lia|]. apply H; [|vm_compute; reflexivity].
    intros (_ & _ & Hlong & _). lia.
Defined.
End witness.
