(* ===== verification/SyncStats.v ===== *)
(** * Statistics of synchronisations: printPerSyncStats and progEnd of
    lib/runtime/record-runtime.cpp

    The counters are those that recordSync (RtBase.v) keeps, a map from thread and function
    to the number of calls.  The order in which the loops go through the unordered maps is
    not specified ([set_order]). *)
From S2P Require Import Prelude Options SyncFuncs RtState RtBase.

(** the lines that are printed, in order *)
Inductive stat_line : Type :=
| ThreadSync (tid : Z) (name : string) (count : Z)     (* >> Thread %d %s: %ld *)
| ThreadTotal (tid count : Z)                          (* >> Thread %d total syncs: %ld *)
| TotalSync (name : string) (count : Z)                (* >> Total %s: %ld *)
| ProgramTotal (count : Z)                             (* >> Program total syncs: %ld *)
| NullPolicyWaits (count : Z).                         (* Total null policy waits: %d *)

Abbreviation stat_map := (gmap (Z * Z) Z).

Section stats.
Context `{O : Options, U : UnorderedIter}.

Definition threads_of (stats : stat_map) : gset Z := set_map fst (dom stats).
(** per_sync_stats[tid] *)
Definition ops_of (stats : stat_map) (tid : Z) : gset Z := set_map snd (filter (fun k => k.1 = tid) (dom stats)).
Definition counter (stats : stat_map) (tid op : Z) : Z := default 0 (stats !! (tid, op)).

(** the inner loop: the lines, thread_sync_count and total_sync_map *)
Fixpoint print_ops (stats : stat_map) (tid : Z) (ops : list Z) (count : Z) (totals : gmap Z Z) :
    res (list stat_line * Z * gmap Z Z) :=
  match ops with
  | [] => Ok ([], count, totals)
  | op :: ops' =>
      match getName op with
      | Err e => Err e
      | Ok name =>
          let n := counter stats tid op in
          match print_ops stats tid ops' (count + n) (<[op := default 0 (totals !! op) + n]> totals) with
          | Ok (out, c, t) => Ok (ThreadSync tid name n :: out, c, t)
          | Err e => Err e
          end
      end
  end.
(** the outer loop: the lines, total_sync_count and total_sync_map *)
Fixpoint print_threads (stats : stat_map) (tids : list Z) (total : Z) (totals : gmap Z Z) :
    res (list stat_line * Z * gmap Z Z) :=
  match tids with
  | [] => Ok ([], total, totals)
  | tid :: tids' =>
      match print_ops stats tid (set_order (ops_of stats tid)) 0 totals with
      | Err e => Err e
      | Ok (out, count, totals) =>
          match print_threads stats tids' (total + count) totals with
          | Ok (out', total, totals) => Ok (out ++ ThreadTotal tid count :: out', total, totals)%list
          | Err e => Err e
          end
      end
  end.
Fixpoint print_totals (totals : gmap Z Z) (ops : list Z) : res (list stat_line) :=
  match ops with
  | [] => Ok []
  | op :: ops' =>
      match getName op, print_totals totals ops' with
      | Ok name, Ok out => Ok (TotalSync name (default 0 (totals !! op)) :: out)
      | Err e, _ => Err e
      | _, Err e => Err e
      end
  end.
Definition printPerSyncStats (stats : stat_map) : res (list stat_line) :=
  match print_threads stats (set_order (threads_of stats)) 0 ∅ with
  | Err e => Err e
  | Ok (out, total, totals) =>
      match print_totals totals (set_order (dom totals)) with
      | Ok out' => Ok (out ++ out' ++ [ProgramTotal total])%list
      | Err e => Err e
      end
  end.
(** progEnd; nullPolicyWaitCount is never changed *)
Definition nullPolicyWaitCount : Z := 0.
Definition progEnd (stats : stat_map) : res (list stat_line) :=
  if generate_per_sync_stats then
    match printPerSyncStats stats with
    | Ok out => Ok (NullPolicyWaits nullPolicyWaitCount :: out)
    | Err e => Err e
    end
  else Ok [NullPolicyWaits nullPolicyWaitCount].
End stats.

(** ** Sums of counters *)
Definition zsum {A} (f : A -> Z) (l : list A) : Z := foldr (fun x s => f x + s) 0 l.
Definition count_if {A} (P : A -> Prop) `{!forall x, Decision (P x)} (l : list A) : Z :=
  Z.of_nat (length (base.filter P l)).

Section sums.
Context {A : Type} `{!EqDecision A}.
Implicit Types (l ks : list A) (x k : A).

Lemma count_if_cons (P : A -> Prop) `{!forall x, Decision (P x)} x l :
  count_if P (x :: l) = (if decide (P x) then 1 else 0) + count_if P l.
Proof. unfold count_if. rewrite filter_cons. destruct (decide (P x)); simpl length; lia. Qed.
Lemma count_if_app (P : A -> Prop) `{!forall x, Decision (P x)} l ks : count_if P (l ++ ks) = count_if P l + count_if P ks.
Proof. unfold count_if. rewrite filter_app, length_app. lia. Qed.
Lemma count_if_none k l : k ∉ l -> count_if (fun x => x = k) l = 0.
Proof.
  induction l as [|x l IH]; [done|]. rewrite not_elem_of_cons, count_if_cons. intros [Hx Hl].
  rewrite decide_False by congruence. by rewrite IH.
Qed.
Lemma zsum_ext (f g : A -> Z) l : (forall x, x ∈ l -> f x = g x) -> zsum f l = zsum g l.
Proof.
  induction l as [|x l IH]; intros H; simpl; [done|]. rewrite H by left. f_equal. apply IH. intros. apply H. by right.
Qed.
Lemma zsum_app (f : A -> Z) l ks : zsum f (l ++ ks) = zsum f l + zsum f ks.
Proof. induction l; simpl; lia. Qed.
Lemma zsum_plus (f g : A -> Z) l : zsum (fun x => f x + g x) l = zsum f l + zsum g l.
Proof. induction l; simpl; lia. Qed.
(** a list without duplicates has one element equal to [x], if it has it *)
Lemma zsum_single (v : Z) x ks : NoDup ks -> (v <> 0 -> x ∈ ks) ->
  zsum (fun k => if decide (x = k) then v else 0) ks = v.
Proof.
  intros Hnd Hx. destruct (decide (v = 0)) as [->|Hv].
  { clear. induction ks; simpl; [done|]. destruct (decide _); lia. }
  specialize (Hx Hv). clear Hv. induction Hnd as [|k ks Hk Hnd IH]; simpl; [by apply not_elem_of_nil in Hx|].
  apply elem_of_cons in Hx as [->|Hx].
  - rewrite decide_True by done. rewrite (zsum_ext _ (fun _ => 0)).
    + clear. induction ks; simpl; lia.
    + intros y Hy. by rewrite decide_False by (intros ->; done).
  - rewrite decide_False by (intros ->; done). by rewrite IH.
Qed.
(** the counters of all keys add up to the number of calls *)
Lemma zsum_counts (P : A -> Prop) `{!forall x, Decision (P x)} ks l :
  NoDup ks -> (forall x, x ∈ l -> P x -> x ∈ ks) ->
  zsum (fun k => if decide (P k) then count_if (fun x => x = k) l else 0) ks = count_if P l.
Proof.
  intros Hnd. induction l as [|x l IH]; intros Hl.
  - clear. induction ks as [|k ks IH]; simpl; [done|]. rewrite IH. by destruct (decide (P k)).
  - rewrite count_if_cons, <-IH by (intros y Hy; apply Hl; by right).
    rewrite <-(zsum_single (if decide (P x) then 1 else 0) x ks Hnd), <-zsum_plus.
    + apply zsum_ext. intros k _. rewrite count_if_cons. destruct (decide (x = k)) as [->|]; destruct (decide (P k)); lia.
    + intros Hv. destruct (decide (P x)); [|done]. apply Hl; [left|done].
Qed.
End sums.

(** ** The report of a run *)
Section report.
Context `{O : Options, U : UnorderedIter}.

(** the calls [l] of recordSync, in order *)
Definition record_all (l : list (Z * syncfunc.t)) : RTM unit := for_each (fun c => recordSync c.1 c.2) l.
(** the calls that count: all but those of thread 1, by the number of the function.  Thread 1
    is the idle thread when there is one, otherwise the first thread the program creates *)
Definition counted (l : list (Z * syncfunc.t)) : list (Z * Z) :=
  base.filter (fun k => k.1 <> 1) ((fun c => (c.1, index_of c.2)) <$> l).
Definition name_of (op : Z) : string := match getName op with Ok s => s | Err _ => ""%string end.

(** the report that the calls [ps] should give *)
Definition thread_report (ps : list (Z * Z)) (tid : Z) : list stat_line :=
  ((fun op => ThreadSync tid (name_of op) (count_if (fun k => k = (tid, op)) ps)) <$>
     set_order (list_to_set (base.filter (fun k => k.1 = tid) ps).*2)) ++
  [ThreadTotal tid (count_if (fun k => k.1 = tid) ps)].
Definition report (ps : list (Z * Z)) : list stat_line :=
  mjoin (thread_report ps <$> set_order (list_to_set ps.*1)) ++
  ((fun op => TotalSync (name_of op) (count_if (fun k => k.2 = op) ps)) <$> set_order (list_to_set ps.*2)) ++
  [ProgramTotal (Z.of_nat (length ps))].

(** the counters after the calls [ps] *)
Definition counts_of (stats : stat_map) (ps : list (Z * Z)) : Prop :=
  forall k, stats !! k = if decide (k ∈ ps) then Some (count_if (fun x => x = k) ps) else None.

Lemma recordSync_counts tid f r ps : counts_of (g_stats r) ps ->
  exists r', recordSync tid f r = Ok (tt, r') /\ counts_of (g_stats r') (ps ++ counted [(tid, f)]).
Proof using Type.
  intros Hc. unfold recordSync, counted, when. simpl. rewrite filter_cons, filter_nil. simpl.
  destruct (Z.eqb_spec tid 1) as [->|Ht]; simpl.
  - exists r. split; [done|]. by rewrite app_nil_r.
  - rewrite decide_True by done. eexists. split; [reflexivity|]. intros k. cbn [g_stats set_g_stats].
    rewrite count_if_app, count_if_cons. change (count_if _ []) with 0. set (c := (tid, index_of f)).
    destruct (decide (k = c)) as [->|Hk].
    + rewrite lookup_insert_eq, !decide_True by (done || set_solver). rewrite Hc. f_equal.
      destruct (decide (c ∈ ps)); simpl; [lia|]. rewrite count_if_none by done. lia.
    + rewrite lookup_insert_ne, Hc by done. rewrite (decide_False (P := c = k)) by congruence.
      destruct (decide (k ∈ ps)); [rewrite decide_True by set_solver; f_equal; lia|].
      by rewrite decide_False by set_solver.
Qed.
Lemma counted_app l k : counted (l ++ k) = counted l ++ counted k.
Proof using Type. unfold counted. by rewrite fmap_app, filter_app. Qed.
Lemma record_all_counts l : forall r ps, counts_of (g_stats r) ps ->
  exists r', record_all l r = Ok (tt, r') /\ counts_of (g_stats r') (ps ++ counted l).
Proof using Type.
  induction l as [|[tid f] l IH]; intros r ps Hc; [exists r; by rewrite app_nil_r|].
  destruct (recordSync_counts tid f r ps Hc) as (r1 & H1 & Hc1). destruct (IH r1 _ Hc1) as (r2 & H2 & Hc2).
  exists r2. split.
  - unfold record_all. cbn [for_each]. unfold mbind, M_bind. cbn [fst snd]. by rewrite H1.
  - by rewrite <-(assoc_L (++)), <-counted_app in Hc2.
Qed.

(** *** The loops *)
Definition named (op : Z) : Prop := getName op = Ok (name_of op).
Definition add_total (cnt : Z * Z -> Z) (totals : gmap Z Z) (k : Z * Z) : gmap Z Z :=
  <[k.2 := default 0 (totals !! k.2) + cnt k]> totals.

Lemma print_ops_ok stats tid ops : Forall named ops -> forall count totals,
  print_ops stats tid ops count totals =
  Ok ((fun op => ThreadSync tid (name_of op) (counter stats tid op)) <$> ops,
      count + zsum (counter stats tid) ops,
      fold_left (add_total (fun k => counter stats k.1 k.2)) ((fun op => (tid, op)) <$> ops) totals).
Proof using Type.
  induction 1 as [|op ops Hop _ IH]; intros count totals; simpl; [by rewrite Z.add_0_r|].
  rewrite Hop, IH. by rewrite Z.add_assoc.
Qed.
(** the keys in the order in which the loops go through them *)
Definition visited (stats : stat_map) (tids : list Z) : list (Z * Z) :=
  mjoin ((fun tid => (fun op => (tid, op)) <$> set_order (ops_of stats tid)) <$> tids).
Lemma print_threads_ok stats tids : (forall tid, Forall named (set_order (ops_of stats tid))) -> forall total totals,
  print_threads stats tids total totals =
  Ok (mjoin ((fun tid => ((fun op => ThreadSync tid (name_of op) (counter stats tid op)) <$> set_order (ops_of stats tid)) ++
               [ThreadTotal tid (zsum (counter stats tid) (set_order (ops_of stats tid)))]) <$> tids),
      total + zsum (fun tid => zsum (counter stats tid) (set_order (ops_of stats tid))) tids,
      fold_left (add_total (fun k => counter stats k.1 k.2)) (visited stats tids) totals).
Proof using Type.
  intros Hn. induction tids as [|tid tids IH]; intros total totals; simpl; [by rewrite Z.add_0_r|].
  rewrite print_ops_ok by done. rewrite IH, !Z.add_0_l. unfold visited. simpl. rewrite fold_left_app.
  by rewrite Z.add_assoc, <-(assoc_L (++)).
Qed.
Lemma print_totals_ok totals ops : Forall named ops ->
  print_totals totals ops = Ok ((fun op => TotalSync (name_of op) (default 0 (totals !! op))) <$> ops).
Proof using Type. induction 1 as [|op ops Hop _ IH]; simpl; [done|]. by rewrite Hop, IH. Qed.

Lemma totals_lookup cnt l op : forall totals,
  default 0 (fold_left (add_total cnt) l totals !! op) =
  default 0 (totals !! op) + zsum (fun k => if decide (k.2 = op) then cnt k else 0) l.
Proof using Type.
  induction l as [|k l IH]; intros totals; simpl; [lia|]. rewrite IH. unfold add_total.
  destruct (decide (k.2 = op)) as [<-|Hk].
  - rewrite lookup_insert_eq. simpl. lia.
  - by rewrite lookup_insert_ne by done.
Qed.
Lemma totals_dom cnt l : forall totals, dom (fold_left (add_total cnt) l totals) = dom totals ∪ list_to_set l.*2.
Proof using Type.
  induction l as [|k l IH]; intros totals; simpl; [set_solver|]. rewrite IH. unfold add_total. rewrite dom_insert_L. set_solver.
Qed.

(** *** After the calls [ps] *)
Context (stats : stat_map) (ps : list (Z * Z)) (Hc : counts_of stats ps).

Lemma stats_dom k : k ∈ dom stats <-> k ∈ ps.
Proof using Hc. rewrite elem_of_dom, Hc. destruct (decide (k ∈ ps)); [by split|]. split; [by intros [? ?]|done]. Qed.
Lemma stats_counter t o : counter stats t o = count_if (fun k => k = (t, o)) ps.
Proof using Hc.
  unfold counter. rewrite Hc. destruct (decide ((t, o) ∈ ps)); simpl; [done|]. by rewrite count_if_none.
Qed.
Lemma stats_threads : threads_of stats = list_to_set ps.*1.
Proof using Hc.
  apply set_eq. intros t. unfold threads_of. rewrite elem_of_map, elem_of_list_to_set, list_elem_of_fmap.
  split; intros (k & -> & Hk); exists k; (split; [done|]); by apply stats_dom.
Qed.
Lemma stats_ops t : ops_of stats t = list_to_set (base.filter (fun k => k.1 = t) ps).*2.
Proof using Hc.
  apply set_eq. intros o. unfold ops_of. rewrite elem_of_map, elem_of_list_to_set, list_elem_of_fmap.
  split; intros (k & -> & Hk); exists k; (split; [done|]); rewrite ?elem_of_filter, ?list_elem_of_filter in *;
    (split; [apply Hk|]); by apply stats_dom, Hk.
Qed.
Lemma order_elem (X : gset Z) x : x ∈ set_order X <-> x ∈ X.
Proof using Type. rewrite (set_order_perm X). apply elem_of_elements. Qed.
Lemma order_nodup (X : gset Z) : NoDup (set_order X).
Proof using Type. rewrite (set_order_perm X). apply NoDup_elements. Qed.

Lemma ops_elem t o : o ∈ set_order (ops_of stats t) <-> (t, o) ∈ ps.
Proof using Hc.
  rewrite order_elem, stats_ops, elem_of_list_to_set, list_elem_of_fmap. split.
  - intros ([t' o'] & -> & [Ht Hk]%list_elem_of_filter). simpl in *. by subst.
  - intros H. exists (t, o). split; [done|]. by apply list_elem_of_filter.
Qed.
Lemma thread_count t : zsum (counter stats t) (set_order (ops_of stats t)) = count_if (fun k => k.1 = t) ps.
Proof using Hc.
  rewrite (zsum_ext _ (fun o => count_if (fun k => k = (t, o)) ps)) by (intros; apply stats_counter).
  transitivity (count_if (fun k : Z * Z => k.1 = t) ps); [|done].
  rewrite <-(zsum_counts (fun k => k.1 = t) ((fun o => (t, o)) <$> set_order (ops_of stats t)) ps).
  - induction (set_order (ops_of stats t)) as [|o l IH]; simpl; [done|]. by rewrite decide_True, IH by done.
  - apply NoDup_fmap_2; [|apply order_nodup]. by intros ? ? [= ->].
  - intros [t' o] Hk Ht. simpl in Ht. subst t'. apply list_elem_of_fmap. exists o. split; [done|]. by apply ops_elem.
Qed.
Lemma count_fst t : count_if (fun k => k.1 = t) ps = count_if (fun x => x = t) ps.*1.
Proof using Type. clear. induction ps as [|k l IH]; [done|]. simpl. by rewrite !count_if_cons, IH. Qed.
Lemma count_all {A} (l : list A) : count_if (fun _ => True) l = Z.of_nat (length l).
Proof using Type. induction l as [|x l IH]; [done|]. rewrite count_if_cons, IH, decide_True by done. simpl length. lia. Qed.
Lemma program_count :
  zsum (fun t => zsum (counter stats t) (set_order (ops_of stats t))) (set_order (threads_of stats)) = Z.of_nat (length ps).
Proof using Hc.
  rewrite (zsum_ext _ (fun t => count_if (fun x => x = t) ps.*1)) by (intros t _; by rewrite thread_count, count_fst).
  rewrite <-(length_fmap fst ps), <-count_all, <-(zsum_counts (fun _ => True) (set_order (threads_of stats))).
  - apply zsum_ext. intros t _. by rewrite decide_True.
  - apply order_nodup.
  - intros t Ht _. by rewrite order_elem, stats_threads, elem_of_list_to_set.
Qed.

Lemma visited_elem k : k ∈ visited stats (set_order (threads_of stats)) <-> k ∈ ps.
Proof using Hc.
  unfold visited. rewrite list_elem_of_join. split.
  - intros (l & Hk & (t & -> & _)%list_elem_of_fmap). apply list_elem_of_fmap in Hk as (o & -> & Ho). by apply ops_elem.
  - intros Hk. destruct k as [t o]. exists ((fun op => (t, op)) <$> set_order (ops_of stats t)). split.
    + apply list_elem_of_fmap. exists o. split; [done|]. by apply ops_elem.
    + apply list_elem_of_fmap. exists t. split; [done|]. rewrite order_elem, stats_threads, elem_of_list_to_set.
      by apply (list_elem_of_fmap_2 fst _ (t, o)).
Qed.
Lemma visited_nodup tids : NoDup tids -> NoDup (visited stats tids).
Proof using Type.
  unfold visited. induction 1 as [|t tids Ht _ IH]; simpl; [constructor|]. apply NoDup_app. split_and!; [|intros k Hk Hin|done].
  - apply NoDup_fmap_2; [|apply order_nodup]. by intros ? ? [= ->].
  - apply list_elem_of_fmap in Hk as (o & -> & _). apply list_elem_of_join in Hin as (l & Hl & (t' & -> & Ht')%list_elem_of_fmap).
    apply list_elem_of_fmap in Hl as (o' & [= -> ->] & _). done.
Qed.
Definition all_totals : gmap Z Z :=
  fold_left (add_total (fun k => counter stats k.1 k.2)) (visited stats (set_order (threads_of stats))) ∅.
Lemma all_totals_lookup o : default 0 (all_totals !! o) = count_if (fun k => k.2 = o) ps.
Proof using Hc.
  unfold all_totals. rewrite totals_lookup, lookup_empty. simpl.
  rewrite <-(zsum_counts (fun k => k.2 = o) (visited stats (set_order (threads_of stats))) ps).
  - rewrite Z.add_0_l || idtac. apply zsum_ext. intros [t o'] _. simpl. by rewrite stats_counter.
  - apply visited_nodup, order_nodup.
  - intros k Hk _. by apply visited_elem.
Qed.
Lemma all_totals_dom : dom all_totals = list_to_set ps.*2.
Proof using Hc.
  unfold all_totals. rewrite totals_dom, dom_empty_L, (left_id_L ∅ (∪)). apply set_eq. intros o.
  rewrite !elem_of_list_to_set, !list_elem_of_fmap. split; intros (k & -> & Hk); exists k; (split; [done|]); by apply visited_elem.
Qed.

Lemma printPerSyncStats_report : Forall named ps.*2 -> printPerSyncStats stats = Ok (report ps).
Proof using Hc.
  intros Hn. rewrite Forall_forall in Hn.
  assert (Hops : forall t, Forall named (set_order (ops_of stats t))).
  { intros t. apply Forall_forall. intros o Ho%ops_elem. apply Hn. by apply (list_elem_of_fmap_2 snd _ (t, o)). }
  unfold printPerSyncStats. rewrite print_threads_ok by done. fold all_totals. rewrite print_totals_ok.
  - unfold report. rewrite program_count, Z.add_0_l, all_totals_dom, stats_threads. do 2 f_equal.
    + f_equal. apply list_fmap_ext. intros _ t _. unfold thread_report. rewrite stats_ops, <-thread_count, stats_ops. f_equal.
      apply list_fmap_ext. intros _ o _. by rewrite stats_counter.
    + f_equal. apply list_fmap_ext. intros _ o _. by rewrite all_totals_lookup.
  - apply Forall_forall. intros o Ho. apply Hn. by rewrite order_elem, all_totals_dom, elem_of_list_to_set in Ho.
Qed.
End report.

(** every function has a name *)
Definition is_function (c : Z * syncfunc.t) : Prop := c.2 <> syncfunc.not_sync.
Lemma index_named f : f <> syncfunc.not_sync -> named (index_of f).
Proof. destruct f; (done || reflexivity). Qed.
Lemma counted_named l : Forall is_function l -> Forall named (counted l).*2.
Proof.
  rewrite !Forall_forall. intros Hl o Ho. apply list_elem_of_fmap in Ho as (k & -> & [_ Hk]%list_elem_of_filter).
  apply list_elem_of_fmap in Hk as (c & -> & Hc). by apply index_named, (Hl c).
Qed.

Section claims.
Context `{O : Options, U : UnorderedIter}.

(** C32: the statistics at the end of a program.  After any calls of recordSync that starts with
    no counters, progEnd prints, if generate_per_sync_stats is set, a report of the calls of
    all threads but thread 1: for each of these threads each function it called with the
    number of its calls and their total, then each function with the number of its calls in
    these threads, and last the number of all these calls; no name look-up fails.  A call of
    thread 1 changes nothing in the report, although it is an ordinary thread of the program
    when options::launch_idle_thread is 0. *)
Theorem sync_report (l : list (Z * syncfunc.t)) (r : rt) : g_stats r = ∅ -> Forall is_function l ->
  exists r', record_all l r = Ok (tt, r') /\
    progEnd (g_stats r') =
      Ok (NullPolicyWaits 0 :: if generate_per_sync_stats then report (counted l) else []) /\
    counted l = counted (base.filter (fun c => c.1 <> 1) l).
Proof using Type.
  intros Hr Hf. destruct (record_all_counts l r []) as (r' & Hl & Hc); [intros k; by rewrite Hr, lookup_empty|].
  exists r'. split_and!; [done| |].
  - unfold progEnd. destruct generate_per_sync_stats; [|done].
    by rewrite (printPerSyncStats_report _ (counted l) Hc (counted_named l Hf)).
  - clear. induction l as [|c l IH]; [done|]. rewrite filter_cons. unfold counted in *. simpl. rewrite filter_cons.
    simpl. destruct (decide _) as [Hc|]; [|done]. simpl. rewrite filter_cons. simpl. rewrite (decide_True (P := c.1 <> 1)) by done.
    f_equal. exact IH.
Qed.
End claims.

Section witness.
Definition stat_options : Options := {|
  ndebug := true; scheduling_policy := 0; enforce_turn_type := 2; launch_idle_thread := 2;
  enforce_non_det_annotations := 0; enforce_no_wait_non_det_annotations := 0;
  enforce_next_n_annotations := false; enforce_ext_turn := false; enforce_dummy_sync := false;
  enforce_non_det_clock_bound := false; non_det_clock_bound := 1000; wakeamap_plus := false;
  high_priority_yield := false; nanosec_per_turn := 3000; log_sync := false;
  generate_per_sync_stats := true; record_runtime_stat := false;
  rr_ignore_rw_regular_file := true; enforce_delays := false; log_task_time := 0;
  non_det_for_single_thread := 0; exec_sleep := false; non_block_recv := false;
  set_mutex_errorcheck := false; DMT := true; enforce_annotations := true;
  disable_soba := false; dync_geteip := false; whole_stack_eip_signature := false; backtrace_level := 0 |}.
Definition sample_calls : list (Z * syncfunc.t) :=
  [(0, syncfunc.pthread_mutex_lock); (2, syncfunc.pthread_mutex_lock); (1, syncfunc.pthread_mutex_lock);
   (0, syncfunc.pthread_mutex_unlock); (0, syncfunc.pthread_mutex_lock)].
Lemma sync_report_witness :
  report (U := elements_order) (counted sample_calls) =
    [ThreadSync 2 "pthread_mutex_lock" 1; ThreadTotal 2 1;
     ThreadSync 0 "pthread_mutex_lock" 2; ThreadSync 0 "pthread_mutex_unlock" 1; ThreadTotal 0 3;
     TotalSync "pthread_mutex_lock" 3; TotalSync "pthread_mutex_unlock" 1; ProgramTotal 4]%string /\
  exists r', record_all sample_calls rt0 = Ok (tt, r') /\
    progEnd (O := stat_options) (U := elements_order) (g_stats r') =
    Ok (NullPolicyWaits 0 :: report (U := elements_order) (counted sample_calls)).
Proof.
  split; [vm_compute; reflexivity|].
  destruct (sync_report (O := stat_options) (U := elements_order) sample_calls rt0) as (r' & Hrun & Hend & _);
    [reflexivity|by repeat constructor|by exists r'].
Defined.
(** the calls of thread 1 are missing from the totals, too *)
Lemma thread_one_missing :
  match record_all [(1, syncfunc.pthread_mutex_lock); (1, syncfunc.pthread_mutex_unlock)] rt0 with
  | Ok (_, r) => progEnd (O := stat_options) (U := elements_order) (g_stats r) = Ok [NullPolicyWaits 0; ProgramTotal 0]
  | Err _ => False
  end.
Proof. vm_compute. reflexivity. Qed.
End witness.
