(* ===== verification/Console.v ===== *)
(** * What the runtime measures and prints, and the logger of a thread

    The times in the logs (update_time), the warnings of check_options, RuntimeStat::print,
    RRScheduler::dump, and the exported functions tern_log_* of record-log.cpp, which pass
    their arguments to the logger of the calling thread. *)
From Stdlib Require Import Ascii.
From S2P Require Import Prelude LogText Options RunQueue RunQueueSpec TidMap NonDetSet Scheduler SchedInv SchedOps SchedThms SchedMachine.
From S2P Require Import RtState BinLog TxtLog RtBase SyncStats.
Open Scope string_scope.
Open Scope Z_scope.

(** ** Times: update_time of lib/runtime/record-runtime.cpp *)
Section times.
Context `{O : Options}.

(** [now] is what clock_gettime gives; the result, None when it is indeterminate, and the
    new my_time *)
Definition rt_update_time (my_time now : timespec) : option timespec * timespec :=
  if log_sync || enforce_delays then (Some (time_diff my_time now), now) else (None, my_time).

(** a thread that calls update_time at each of the readings [l] of the clock *)
Fixpoint rt_update_times (my_time : timespec) (l : list timespec) : list (option timespec) * timespec :=
  match l with
  | [] => ([], my_time)
  | now :: l' =>
      let r := rt_update_time my_time now in
      let rs := rt_update_times r.2 l' in (r.1 :: rs.1, rs.2)
  end.

Definition nsecs (t : timespec) : Z := tv_sec t * 1000000000 + tv_nsec t.
Definition normal (t : timespec) : Prop := 0 <= tv_nsec t < 1000000000.

Lemma sec_diff_exact t1 t2 : normal t1 -> normal t2 ->
  nsecs (time_diff t1 t2) = nsecs t2 - nsecs t1 /\ normal (time_diff t1 t2).
Proof using Type.
  unfold normal, nsecs, time_diff. intros H1 H2.
  destruct (tv_nsec t2 - tv_nsec t1 <? 0) eqn:E; simpl; lia.
Qed.

(** The times that are measured are the time that has passed: whatever the readings of the
    clock, the intervals between them are normalised and add up to the time from the first
    reading to the last one, to the nanosecond. *)
Lemma times_add_up l : log_sync || enforce_delays = true -> forall my_time, Forall normal (my_time :: l) ->
  exists ts, (rt_update_times my_time l).1 = Some <$> ts /\ Forall normal ts /\
    (rt_update_times my_time l).2 = default my_time (last l) /\
    zsum nsecs ts = nsecs (default my_time (last l)) - nsecs my_time.
Proof using Type.
  intros Hon. induction l as [|now l IH]; intros my_time Hn; cbn [rt_update_times].
  { exists []. cbn. split_and!; [done|constructor|done|lia]. }
  apply Forall_cons in Hn as [H1 Hn]. assert (H2 : normal now) by by apply Forall_cons in Hn as [? _].
  unfold rt_update_time. rewrite Hon. cbn [fst snd]. destruct (IH now Hn) as (ts & E1 & E2 & E3 & E4).
  destruct (sec_diff_exact _ _ H1 H2) as [Hd Hnd].
  assert (Hlast : default my_time (last (now :: l)) = default now (last l)).
  { destruct l as [|x l]; [done|]. rewrite last_cons_cons. destruct (last (x :: l)) eqn:E; [done|].
    by apply last_None in E. }
  exists (time_diff my_time now :: ts). rewrite E1, E3, Hlast. split_and!; [done|by constructor|done|].
  cbn [zsum foldr]. fold (zsum nsecs ts). rewrite E4, Hd. lia.
Qed.
End times.

(** ** Messages *)
Section messages.
Context `{O : Options, U : UnorderedIter, G : GlobalAddrs}.

Definition check_options : list string :=
  ((if DMT then [] else
     ["WARNING: DMT mode is off. The system won't enter scheduler in LD_PRELOAD mode!!" +:+ endl]) ++
  (if rr_ignore_rw_regular_file then [] else
     ["WARNING: RR_ignore_rw_regular_file is off, and so we can have non-determinism on regular file I/O!!" +:+ endl]))%list.

Definition tab : string := String "009"%char "".

(** each piece followed by [sep] *)
Fixpoint each (sep : string) (l : list string) : string :=
  match l with [] => "" | w :: l' => w +:+ sep +:+ each sep l' end.

(** runtime-stat.h *)
Definition stat_names : list string :=
  ["nDetPthreadSyncOp"; "nInterProcSyncOp"; "nLineupSucc"; "nLineupTimeout"; "nNonDetRegions"; "nNonDetPthreadSync"].
Definition stat_fields (s : run_stat) : list Z :=
  [nDetPthreadSyncOp s; nInterProcSyncOp s; nLineupSucc s; nLineupTimeout s; nNonDetRegions s; nNonDetPthreadSync s].
Definition RuntimeStat_print (s : run_stat) : string :=
  endl +:+ endl +:+ "RuntimeStat:" +:+ endl +:+ each tab stat_names +:+ endl +:+ "RUNTIME_STAT: " +:+
  print_dec (nDetPthreadSyncOp s) +:+ tab +:+ print_dec (nInterProcSyncOp s) +:+ tab +:+ print_dec (nLineupSucc s) +:+ tab +:+
  print_dec (nLineupTimeout s) +:+ tab +:+ print_dec (nNonDetRegions s) +:+ tab +:+ print_dec (nNonDetPthreadSync s) +:+
  endl +:+ endl.

(** a void* on an ostream *)
Definition print_ptr (p : Z) : string := if p =? 0 then "0" else "0x" +:+ print_hex p.
Definition ids_text (l : list Z) : string := each " " (print_dec <$> l).
(** a thread of the wait queue with its channel and its timeout *)
Definition waiting_text (t chan timeout : Z) : string :=
  print_dec t +:+ "(" +:+ print_ptr chan +:+ "," +:+ print_dec timeout +:+ ")".

Definition hp_runq_list : SM (list Z) :=
  p ← on_hp_runq q_front_elem;
  n ← gets (fun s => size (cells (s_heap s)));
  iter_loop (S n) p.
Definition dump : SM string :=
  rq ← runq_list;
  hp ← hp_runq_list;
  s ← get;
  mret ("nthread " +:+ print_dec (nthread (s_tids s)) +:+ ": " +:+ print_dec (s_turnCount s) +:+
        " [runq " +:+ ids_text rq +:+ "]" +:+ " [hp_runq " +:+ ids_text hp +:+ "]" +:+
        " [waitq " +:+ each " " ((fun t => waiting_text t (w_chan (wait_of s t)) (w_timeout (wait_of s t))) <$> s_waitq s) +:+
        "]" +:+ endl).

(** the queue machine printed in the same format *)
Definition machine_text (m : qmach) : string :=
  "nthread " +:+ print_dec (q_next m) +:+ ": " +:+ print_dec (q_clock m) +:+
  " [runq " +:+ ids_text (q_rq m) +:+ "]" +:+ " [hp_runq " +:+ "]" +:+
  " [waitq " +:+ each " " ((fun w => waiting_text (qw_tid w) (qw_chan w) (qw_deadline w)) <$> q_wq m) +:+ "]" +:+ endl.

(** dump changes nothing and shows the state of the queue machine *)
Lemma dump_shows s m : represents s m -> q_head (s_hp_runq s) = None -> dump s = Ok (machine_text m, s).
Proof using Type.
  intros Hs Hhp. unfold dump, mbind, M_bind. rewrite (runq_list_spec _ _ _ _ (si_core _ _ _ (rp_inv _ _ Hs))).
  assert (E : hp_runq_list s = Ok ([], s)).
  { unfold hp_runq_list, on_hp_runq, q_front_elem, zoom, mbind, M_bind, gets. simpl. rewrite Hhp.
    by destruct s. }
  rewrite E. unfold get, mret, M_ret. do 2 f_equal. unfold machine_text.
  assert (Ew : each " " ((fun t => waiting_text t (w_chan (wait_of s t)) (w_timeout (wait_of s t))) <$> (qw_tid <$> q_wq m)) =
    each " " ((fun w => waiting_text (qw_tid w) (qw_chan w) (qw_deadline w)) <$> q_wq m)).
  { f_equal. rewrite <-list_fmap_compose. apply list_fmap_ext. intros i w Hw%list_elem_of_lookup_2. simpl.
    by destruct (rp_wait _ _ Hs _ Hw) as [-> ->]. }
  by rewrite (rp_next _ _ Hs), (rp_clock _ _ Hs), (rp_wq _ _ Hs), Ew.
Qed.

(** what print prints is read back: its fifth line, after the label, split at the tabs *)
Fixpoint str_drop (n : nat) (s : string) : string :=
  match n, s with S n', String _ s' => str_drop n' s' | _, _ => s end.
Definition read_stat (out : string) : list Z :=
  read_dec <$> split "009"%char (str_drop 14 (nth 4 (split newline out) "")).
Lemma stat_read_back s : read_stat (RuntimeStat_print s) = stat_fields s.
Proof using Type.
  set (fields := print_dec (nDetPthreadSyncOp s) +:+ tab +:+ print_dec (nInterProcSyncOp s) +:+
    tab +:+ print_dec (nLineupSucc s) +:+ tab +:+ print_dec (nLineupTimeout s) +:+ tab +:+
    print_dec (nNonDetRegions s) +:+ tab +:+ print_dec (nNonDetPthreadSync s)).
  assert (Htext : RuntimeStat_print s = "" +:+ String newline ("" +:+ String newline ("RuntimeStat:" +:+ String newline
    (each tab stat_names +:+ String newline (("RUNTIME_STAT: " +:+ fields) +:+ String newline endl))))).
  { unfold RuntimeStat_print, fields. by rewrite !str_app_assoc. }
  assert (Hn : forall n, lacks newline (print_dec n) = true) by (intros n; apply print_dec_lacks; auto).
  assert (Hline : lacks newline ("RUNTIME_STAT: " +:+ fields) = true).
  { unfold fields. by rewrite !lacks_app, !Hn. }
  unfold read_stat. rewrite Htext, !split_app by (done || exact Hline). cbn [nth].
  change (str_drop 14 ("RUNTIME_STAT: " +:+ fields)) with fields.
  unfold fields, tab. repeat progress change (String "009" "" +:+ ?x) with (String "009" x).
  rewrite !split_app, split_last by apply print_dec_no_tab. cbn [fmap list_fmap]. by rewrite !read_print_dec.
Qed.
End messages.

(** ** The logger of a thread *)

(** the object behind Logger::the, of one of the classes derived from Logger *)
Inductive any_logger : Type := TheBin (b : binlog) | TheTxt (l : txtlog) | TheTest (l : txtlog).
(** Logger::the of the calling thread: None is NULL *)
Abbreviation the := (option any_logger).

Section dispatch.
Context `{O : Options, E : ExitAddrs}.

(** a virtual call: what each class does; None: the empty method of the base class *)
Definition virtual (bin : option (M binlog unit)) (text test : option (M txtlog unit)) : M the unit := fun st =>
  match st with
  | None => Err NullDeref
  | Some (TheBin b) =>
      match bin with
      | Some m => match m b with Ok (_, b') => Ok (tt, Some (TheBin b')) | Err e => Err e end
      | None => Ok (tt, st)
      end
  | Some (TheTxt l) =>
      match text with
      | Some m => match m l with Ok (_, l') => Ok (tt, Some (TheTxt l')) | Err e => Err e end
      | None => Ok (tt, st)
      end
  | Some (TheTest l) =>
      match test with
      | Some m => match m l with Ok (_, l') => Ok (tt, Some (TheTest l')) | Err e => Err e end
      | None => Ok (tt, st)
      end
  end.

Definition the_logSync (e : sync_event) : M the unit :=
  virtual (Some (bin_logSync (ev_insid e) (ev_sync e) (ev_turn e) (ev_after e) (ev_args e)))
    (Some (txt_logSync e)) (Some (test_logSync e)).
Definition the_set_iter_num (iter : Z) : M the unit := virtual None (Some (set_iter_num iter)) None.

(** the exported functions that instrumented code calls *)
Definition tern_log_insid (insid : Z) : M the unit := virtual (Some (logInsid insid)) None None.
Definition tern_log_load (insid addr data : Z) : M the unit := virtual (Some (logLoad insid addr data)) None None.
Definition tern_log_store (insid addr data : Z) : M the unit := virtual (Some (logStore insid addr data)) None None.
Definition tern_log_call (flags insid narg func : Z) (args : list Z) : M the unit :=
  virtual (Some (logCall flags insid narg func args)) None None.
Definition tern_log_ret (flags insid narg func ret : Z) : M the unit :=
  virtual (Some (logRet flags insid narg func ret)) None None.

(** the directories that Logger::progBegin makes *)
Definition Logger_progBegin (output_dir : string) : list string := if log_sync then [output_dir] else [].

(** instrumented code needs a logger: without log_sync, and before the thread has begun,
    Logger::the is NULL *)
Lemma log_without_logger insid : tern_log_insid insid None = Err NullDeref.
Proof using Type. done. Qed.
(** a text log does not show loads, stores and calls *)
Lemma text_ignores insid addr data l : tern_log_load insid addr data (Some (TheTxt l)) = Ok (tt, Some (TheTxt l)).
Proof using Type. done. Qed.
End dispatch.
