(* ===== verification/Profiler.v ===== *)
(** * The balance profiler: balanceprofiler/balance-profiler.c

    A library for LD_PRELOAD that measures the time between the synchronisations of each
    thread, or, when there is a file syncs.time, delays each of them so that every step of a
    thread takes a fixed time.  It is built without NDEBUG.

    The state has the globals and the thread-local variables of all threads, by thread.
    What comes from outside is a list of inputs: the readings of the clock (one clock for
    clock_gettime and gettimeofday), the results of the functions of the C library with the
    errno they leave, the errno that the output of a log line leaves, and, for each
    backtrace, the return addresses and the functions that backtrace itself calls, which
    are intercepted as well.  The mutex [lock] is held inside one operation of the model. *)
From Stdlib Require Import Ascii.
From S2P Require Import Prelude Options LogText CText RtState RtBase BusyWait.

Record log_line : Type := LogLine {
  l_op : string; l_eip : text; l_tid : Z; l_turn : Z; l_app_time : Z; l_syscall_time : Z
}.
(** thread-local variables *)
Record plocal : Type := PLocal {
  self_turn : Z;
  self_tid : Z;
  my_time : timespec;
  entered_sys : bool;
  plog : option (list log_line);   (* the lines of the file, the last one first; None: NULL *)
  last_eip : option text;   (* None: NULL *)
  p_errno : Z
}.
Definition set_self_turn (x : Z) (r : plocal) : plocal :=
  PLocal x (self_tid r) (my_time r) (entered_sys r) (plog r) (last_eip r) (p_errno r).
Definition set_self_tid (x : Z) (r : plocal) : plocal :=
  PLocal (self_turn r) x (my_time r) (entered_sys r) (plog r) (last_eip r) (p_errno r).
Definition set_my_time (x : timespec) (r : plocal) : plocal :=
  PLocal (self_turn r) (self_tid r) x (entered_sys r) (plog r) (last_eip r) (p_errno r).
Definition set_entered_sys (x : bool) (r : plocal) : plocal :=
  PLocal (self_turn r) (self_tid r) (my_time r) x (plog r) (last_eip r) (p_errno r).
Definition set_plog (x : option (list log_line)) (r : plocal) : plocal :=
  PLocal (self_turn r) (self_tid r) (my_time r) (entered_sys r) x (last_eip r) (p_errno r).
Definition set_last_eip (x : option text) (r : plocal) : plocal :=
  PLocal (self_turn r) (self_tid r) (my_time r) (entered_sys r) (plog r) x (p_errno r).
Definition set_p_errno (x : Z) (r : plocal) : plocal :=
  PLocal (self_turn r) (self_tid r) (my_time r) (entered_sys r) (plog r) (last_eip r) x.
Definition plocal0 : plocal := PLocal (-1) (-1) (Timespec 0 0) false None None 0.
(** one backtrace: the return addresses, innermost first, and the functions it calls *)
Record trace : Type := Trace { t_addrs : list Z; t_calls : list string }.
Record pstate : Type := PState {
  num_threads : Z;
  running_mode : Z;
  app_time_table : gmap text Z;
  resolved : gset string;   (* the symbols x with fp_x != NULL *)
  locals : gmap Z plocal;   (* by thread *)
  p_now : timespec;   (* the last reading of the clock *)
  p_clock : list timespec;
  p_results : list (Z * Z);
  p_noise : list Z;
  p_traces : list trace
}.
Definition set_num_threads (x : Z) (r : pstate) : pstate :=
  PState x (running_mode r) (app_time_table r) (resolved r) (locals r) (p_now r) (p_clock r)
    (p_results r) (p_noise r) (p_traces r).
Definition set_running_mode (x : Z) (r : pstate) : pstate :=
  PState (num_threads r) x (app_time_table r) (resolved r) (locals r) (p_now r) (p_clock r)
    (p_results r) (p_noise r) (p_traces r).
Definition set_app_time_table (x : gmap text Z) (r : pstate) : pstate :=
  PState (num_threads r) (running_mode r) x (resolved r) (locals r) (p_now r) (p_clock r)
    (p_results r) (p_noise r) (p_traces r).
Definition set_resolved (x : gset string) (r : pstate) : pstate :=
  PState (num_threads r) (running_mode r) (app_time_table r) x (locals r) (p_now r) (p_clock r)
    (p_results r) (p_noise r) (p_traces r).
Definition set_locals (x : gmap Z plocal) (r : pstate) : pstate :=
  PState (num_threads r) (running_mode r) (app_time_table r) (resolved r) x (p_now r)
    (p_clock r) (p_results r) (p_noise r) (p_traces r).
Definition set_p_now (x : timespec) (r : pstate) : pstate :=
  PState (num_threads r) (running_mode r) (app_time_table r) (resolved r) (locals r) x
    (p_clock r) (p_results r) (p_noise r) (p_traces r).
Definition set_p_clock (x : list timespec) (r : pstate) : pstate :=
  PState (num_threads r) (running_mode r) (app_time_table r) (resolved r) (locals r) (p_now r) x
    (p_results r) (p_noise r) (p_traces r).
Definition set_p_results (x : list (Z * Z)) (r : pstate) : pstate :=
  PState (num_threads r) (running_mode r) (app_time_table r) (resolved r) (locals r) (p_now r)
    (p_clock r) x (p_noise r) (p_traces r).
Definition set_p_noise (x : list Z) (r : pstate) : pstate :=
  PState (num_threads r) (running_mode r) (app_time_table r) (resolved r) (locals r) (p_now r)
    (p_clock r) (p_results r) x (p_traces r).
Definition set_p_traces (x : list trace) (r : pstate) : pstate :=
  PState (num_threads r) (running_mode r) (app_time_table r) (resolved r) (locals r) (p_now r)
    (p_clock r) (p_results r) (p_noise r) x.
Abbreviation PM := (M pstate).
Definition local_of (s : pstate) (th : Z) : plocal := default plocal0 (locals s !! th).
Definition get_local {A} (th : Z) (f : plocal -> A) : PM A := gets (fun s => f (local_of s th)).
Definition set_local (th : Z) (f : plocal -> plocal) : PM unit :=
  modify (fun s => set_locals (<[th := f (local_of s th)]> (locals s)) s).

(** ** Inputs *)
Definition read_clock : PM timespec :=
  l ← gets p_clock;
  match l with
  | [] => fail WouldBlock
  | t :: l => modify (fun s => set_p_now t (set_p_clock l s)) ;; mret t
  end.
Definition next_result : PM (Z * Z) :=
  l ← gets p_results; match l with [] => fail WouldBlock | r :: l => modify (set_p_results l) ;; mret r end.
Definition next_noise : PM Z :=
  l ← gets p_noise; match l with [] => fail WouldBlock | e :: l => modify (set_p_noise l) ;; mret e end.
Definition next_trace : PM trace :=
  l ← gets p_traces; match l with [] => fail WouldBlock | t :: l => modify (set_p_traces l) ;; mret t end.
(** gettimeofday, from the same clock *)
Definition read_timeval : PM timeval :=
  t ← read_clock; mret (Timeval (tv_sec t) (Z.quot (tv_nsec t) 1000)).

(** ** Times *)
Definition update_time (th : Z) : PM timespec :=
  start_time ← read_clock;
  mine ← get_local th my_time;
  set_local th (set_my_time start_time) ;;
  mret (time_diff mine start_time).

(** *** The limits: [(int)max_time*MAX_TIME_P + MAX_TIME_K], computed in binary64

    A number is a pair (n, e) for n * 2^e; [to_double] rounds to 53 bits, to nearest and to
    even. *)
Definition MAX_TIME_K : Z := 200.
Definition MIN_MAX_TIME : Z := 100.
Definition max_time_p : Z * Z := (5404319552844595, -52).     (* 1.2 *)
Definition round_even (n k : Z) : Z :=
  let q := n / 2 ^ k in
  let r := n mod 2 ^ k in
  if (2 * r <? 2 ^ k) || ((2 * r =? 2 ^ k) && Z.even q) then q else q + 1.
Definition to_double (x : Z * Z) : Z * Z :=
  let k := Z.log2 (Z.abs x.1) - 52 in
  if 0 <? k then (Z.sgn x.1 * round_even (Z.abs x.1) k, x.2 + k) else x.
Definition fmul (x y : Z * Z) : Z * Z := to_double (x.1 * y.1, x.2 + y.2).
(** the sum with an integer *)
Definition fadd_int (x : Z * Z) (n : Z) : Z * Z :=
  if x.2 <? 0 then to_double (x.1 + n * 2 ^ (- x.2), x.2) else to_double (x.1 * 2 ^ x.2 + n, 0).
(** conversion to unsigned long, not defined for numbers that are -1 or less *)
Definition to_ulong (x : Z * Z) : option Z :=
  let v := if x.2 <? 0 then Z.quot x.1 (2 ^ (- x.2)) else x.1 * 2 ^ x.2 in
  if 0 <=? v then Some (u64 v) else None.
(** the unsigned int that GPOINTER_TO_UINT gives back *)
Definition limit (max_time : Z) : option Z :=
  v ← to_ulong (fadd_int (fmul (s32 max_time, 0) max_time_p) MAX_TIME_K); Some (u32 v).

Section profiler.
(** does dlsym find the symbol?  The contents of syncs.time, None if it does not exist *)
Context (dlsym : string -> bool) (syncs_time : option text).

(** RESOLVE(x) *)
Definition RESOLVE (x : string) : PM unit :=
  fps ← gets resolved;
  if decide (x ∈ fps) then mret tt
  else if dlsym x then modify (fun s => set_resolved ({[ x ]} ∪ resolved s) s)
  else fail (ProcessExit (-1)).
(** a call of fp_x, which gives its result and sets errno *)
Definition call_fp (th : Z) (x : string) : PM Z :=
  fps ← gets resolved;
  if decide (x ∈ fps) then
    r ← next_result; set_local th (set_p_errno r.2) ;; mret r.1
  else fail NullDeref.

(** ** The file of limits: [fscanf(fptr, "%s %u %d\n", eip_pair, &max_time, &count)] *)
Definition EIP_PAIR_SIZE : nat := 64.
(** what is left after the conversions %u and %d, and max_time *)
Definition scan_limit (fin : text) (old : option Z) : option Z * text :=
  let fin := skip_space fin in
  match scan_number fin with
  | None => (old, skip_sign fin)
  | Some (v, rest) =>
      let rest := skip_space rest in
      (Some (as_uint v),
       match scan_number rest with Some (_, rest) => skip_space rest | None => skip_sign rest end)
  end.
Fixpoint read_limits (fuel : nat) (fin : text) (max_time : option Z) (table : gmap text Z) : res (gmap text Z) :=
  match fuel with
  | 0%nat => Err OutOfFuel
  | S fuel' =>
      match scan_word (skip_space fin) with
      | None => Ok table                                        (* EOF *)
      | Some (eip_pair, rest) =>
          if bool_decide (EIP_PAIR_SIZE <= length eip_pair)%nat then Err OutOfBounds
          else
            let '(m, rest) := scan_limit rest max_time in
            match m with
            | None => Err UninitRead
            | Some max_time =>
                match limit max_time with
                | None => Err OutOfBounds
                | Some l => read_limits fuel' rest m (<[eip_pair := l]> table)
                end
            end
      end
  end.
Definition PROFILE : Z := 1.
Definition ENFORCE : Z := 2.
Definition load_limits : PM unit :=
  match syncs_time with
  | None => modify (set_running_mode PROFILE)
  | Some fin =>
      match read_limits (S (length fin)) fin None ∅ with
      | Ok table => modify (fun s => set_running_mode ENFORCE (set_app_time_table table s))
      | Err e => fail e
      end
  end.

(** ** Thread ids *)
Definition initTid (th : Z) : PM unit :=
  tid ← get_local th self_tid;
  if tid =? -1 then
    RESOLVE "pthread_mutex_lock" ;;
    n ← gets num_threads;
    set_local th (set_self_tid n) ;;
    modify (set_num_threads (n + 1)) ;;
    when (n + 1 =? 1) (modify (set_num_threads (n + 2))) ;;
    when (n =? 0) load_limits ;;
    RESOLVE "pthread_mutex_unlock" ;;
    _ ← update_time th; mret tt
  else mret tt.
Definition updateTurn (th : Z) : PM unit := set_local th (fun t => set_self_turn (self_turn t + 1) t).

(** ** The functions that are intercepted *)
Record wrapped : Type := Wrapped {
  w_name : string;       (* __FUNCTION__ *)
  w_resolve : string;    (* the argument of RESOLVE *)
  w_call : string;       (* the pointer fp_... that is called *)
  w_conv : Z -> Z        (* the conversions of its result *)
}.
Definition plain (name : string) : wrapped := Wrapped name name name id.

(** the calls that backtrace makes: START and END do little while entered_sys is set *)
Definition nested_call (th : Z) (w : wrapped) : PM unit :=
  initTid th ;; updateTurn th ;; _ ← update_time th;
  RESOLVE (w_resolve w) ;;
  _ ← call_fp th (w_call w);
  cur_errno ← get_local th p_errno;
  set_local th (set_p_errno cur_errno).

Context (wrappers : list wrapped).
Definition nested (th : Z) (name : string) : PM unit :=
  match List.find (fun w => String.eqb (w_name w) name) wrappers with
  | Some w => nested_call th w
  | None => mret tt
  end.

(** ** The position of the caller *)
Definition print_ptr (p : Z) : text := if p =? 0 then txt "(nil)" else txt "0x" ++ txt (print_hex p).
Definition TWO_EIPS_SIZE : nat := 32.
Definition get_eip (th : Z) : PM text :=
  t ← next_trace;
  for_each (nested th) (t_calls t) ;;
  let tracePtrs := take 4 (t_addrs t) in
  match tracePtrs !! 2%nat, tracePtrs !! 3%nat with
  | Some p2, Some p3 =>
      let two_eips := print_ptr p2 ++ print_ptr p3 in
      if bool_decide (TWO_EIPS_SIZE <= length two_eips)%nat then fail OutOfBounds else mret two_eips
  | _, _ => fail UninitRead
  end.

(** ** OPERATION_START *)
Fixpoint wait_until (stop : timeval) (n : nat) : PM unit :=
  match n with
  | 0%nat => fail OutOfFuel
  | S n' => now ← read_timeval; if timeval_lt now stop then wait_until stop n' else mret tt
  end.
(** busy_wait; the loop reads the clock at most as often as there are readings left *)
Definition prof_busy_wait (wait_usec : Z) : PM unit :=
  start ← read_timeval;
  l ← gets p_clock;
  wait_until (stop_time start wait_usec) (S (length l)).
Definition eip_pair_of (last : option text) (eip : text) : text :=
  match last with Some l => l | None => txt "(null)" end ++ "|"%char :: eip.
Definition enforce (th : Z) (eip : text) (app_time : timespec) : PM unit :=
  last ← get_local th last_eip;
  let eip_pair := eip_pair_of last eip in
  if bool_decide (EIP_PAIR_SIZE <= length eip_pair)%nat then fail OutOfBounds
  else
    table ← gets app_time_table;
    let max_time := default 0 (table !! eip_pair) in
    cassert false (negb (max_time =? 0)) "max_time_ptr != NULL" ;;
    let elapsed_time := timespec_to_usec app_time in
    cassert false (0 <=? s32 (max_time - elapsed_time)) "diff >= 0" ;;
    when (MIN_MAX_TIME <? max_time) (prof_busy_wait (u32 (max_time - elapsed_time))).
(** gives app_time and eip, None where it is not set *)
Definition OPERATION_START (th : Z) : PM (timespec * option text) :=
  initTid th ;; updateTurn th ;;
  app_time ← update_time th;
  entered ← get_local th entered_sys;
  if entered : bool then mret (app_time, None)
  else
    set_local th (set_entered_sys true) ;;
    eip ← get_eip th;
    mode ← gets running_mode;
    when (mode =? ENFORCE) (enforce th eip app_time) ;;
    set_local th (set_entered_sys false) ;;
    mret (app_time, Some eip).

(** ** OPERATION_END *)
Definition logOp (th : Z) (op : string) (eip : text) (app_time syscall_time : timespec) : PM unit :=
  t ← get_local th id;
  let line := LogLine op eip (self_tid t) (self_turn t) (timespec_to_usec app_time) (timespec_to_usec syscall_time) in
  set_local th (set_plog (Some (line :: default [] (plog t)))) ;;
  e ← next_noise; set_local th (set_p_errno e).
Definition OPERATION_END (th : Z) (op : string) (app_time : timespec) (eip : option text) : PM unit :=
  entered ← get_local th entered_sys;
  if entered : bool then mret tt
  else
    set_local th (set_entered_sys true) ;;
    syscall_time ← update_time th;
    match eip with
    | None => fail UninitRead
    | Some e =>
        logOp th op e app_time syscall_time ;;
        set_local th (set_last_eip (Some e)) ;;
        set_local th (set_entered_sys false)
    end.

(** ** The wrappers *)
Definition wrapper (th : Z) (w : wrapped) : PM Z :=
  start ← OPERATION_START th;
  RESOLVE (w_resolve w) ;;
  ret ← call_fp th (w_call w);
  cur_errno ← get_local th p_errno;
  OPERATION_END th (w_name w) start.1 start.2 ;;
  set_local th (set_p_errno cur_errno) ;;
  mret (w_conv w ret).
(** pthread_exit: it ends with the call of fp_pthread_exit, which ends the thread *)
Definition prof_pthread_exit (th : Z) : PM unit :=
  entered ← get_local th entered_sys;
  (if entered : bool then mret tt
   else
     start ← OPERATION_START th;
     RESOLVE "pthread_exit" ;;
     OPERATION_END th "pthread_exit" start.1 start.2 ;;
     set_local th (set_entered_sys true)) ;;
  fps ← gets resolved;
  if decide ("pthread_exit" ∈ fps) then mret tt else fail NullDeref.
End profiler.

(** ** The table of the wrappers, in the order of the file *)
Definition mutex_wrappers : list wrapped := plain <$>
  [ "pthread_mutex_lock"; "pthread_mutex_unlock"; "pthread_mutex_trylock"; "pthread_mutex_init" ]%string.
Definition thread_wrappers : list wrapped := plain <$> [ "pthread_create"; "pthread_join" ]%string.
Definition cond_wrappers : list wrapped := plain <$>
  [ "pthread_cond_wait"; "pthread_cond_destroy"; "pthread_cond_timedwait"; "pthread_cond_signal";
    "pthread_cond_broadcast" ]%string.
Definition barrier_wrappers : list wrapped :=
  [ plain "pthread_barrier_init"; plain "pthread_barrier_wait";
    Wrapped "pthread_barrier_destroy" "pthread_barrier_wait" "pthread_barrier_destroy" id;
    plain "usleep" ].
Definition rwlock_wrappers : list wrapped := plain <$>
  [ "pthread_rwlock_trywrlock"; "pthread_rwlock_wrlock"; "pthread_rwlock_rdlock"; "pthread_rwlock_tryrdlock";
    "pthread_rwlock_unlock"; "pthread_rwlock_destroy"; "pthread_rwlock_init"; "pthread_rwlock_timedwrlock";
    "pthread_rwlock_timedrdlock" ]%string.
(** fp_recv is declared to return an int *)
Definition recv_wrapper : wrapped := Wrapped "recv" "recv" "recv" s32.
Definition wrappers : list wrapped :=
  mutex_wrappers ++ thread_wrappers ++ cond_wrappers ++ barrier_wrappers ++ rwlock_wrappers ++ [recv_wrapper].
