(* ===== verification/ProfilerThms.v ===== *)
(** * Properties of the balance profiler: transparency, thread ids, delays and the broken
    wrapper of pthread_barrier_destroy *)
From Stdlib Require Import Ascii.
From S2P Require Import Prelude Options LogText CText RtState RtBase RtTime BusyWait Profiler.

(** ** Executions: the calls of the threads, one after the other *)
Inductive pcall : Type := CWrap (w : wrapped) | CExit.
Section runs.
Context (dlsym : string -> bool) (syncs_time : option text).
Definition do_call (th : Z) (c : pcall) : PM unit :=
  match c with
  | CWrap w => _ ← wrapper dlsym syncs_time wrappers th w; mret tt
  | CExit => prof_pthread_exit dlsym syncs_time wrappers th
  end.
Definition call_ok (c : pcall) : Prop := match c with CWrap w => w ∈ wrappers | CExit => True end.
(** the state at the start of the program *)
Definition started (s : pstate) : Prop :=
  num_threads s = 0 /\ running_mode s = 0 /\ app_time_table s = ∅ /\ resolved s = ∅ /\ locals s = ∅.
Inductive reach : pstate -> Prop :=
| reach_start s : started s -> reach s
| reach_call s th c s' : reach s -> call_ok c -> do_call th c s = Ok (tt, s') -> reach s'.

(** ** Invariants *)
Definition any_error (_ : error) : Prop := True.
Definition keeps {St A} (P : St -> Prop) (m : M St A) : Prop :=
  forall s, P s -> wpx any_error m (fun _ s' => P s') s.

Section keeps.
Context {St : Type} (P : St -> Prop).
Lemma keep_bind {A B} (m : M St A) (k : A -> M St B) : keeps P m -> (forall a, keeps P (k a)) -> keeps P (m ≫= k).
Proof using Type. intros Hm Hk s Hs. apply wp_bind. eapply wp_mono; [by apply Hm|]. intros a s'. apply Hk. Qed.
Lemma keep_ret {A} (a : A) : keeps P (mret a).
Proof using Type. intros s Hs. exact Hs. Qed.
Lemma keep_fail {A} e : keeps P (fail e : M St A).
Proof using Type. intros s Hs. exact I. Qed.
Lemma keep_gets {A} (f : St -> A) : keeps P (gets f).
Proof using Type. intros s Hs. exact Hs. Qed.
Lemma keep_modify f : (forall s, P s -> P (f s)) -> keeps P (modify f).
Proof using Type. intros H s Hs. by apply H. Qed.
Lemma keep_when b (m : M St unit) : keeps P m -> keeps P (when b m).
Proof using Type. intros H. destruct b; [exact H|apply keep_ret]. Qed.
Lemma keep_for_each {A} (f : A -> M St unit) l : (forall x, keeps P (f x)) -> keeps P (for_each f l).
Proof using Type. intros H. induction l as [|x l IH]; simpl; [apply keep_ret|]. by apply keep_bind. Qed.
End keeps.

End runs.
(** one step of a [keeps] goal; what changes the state is left *)
Ltac keep_step :=
  match goal with
  | |- keeps _ (mbind _ _) => apply keep_bind; [|intro]
  | |- keeps _ (mret _) => apply keep_ret
  | |- keeps _ (fail _) => apply keep_fail
  | |- keeps _ (gets _) => apply keep_gets
  | |- keeps _ (get_local _ _) => apply keep_gets
  | |- keeps _ (when _ _) => apply keep_when
  | |- keeps _ (for_each _ _) => apply keep_for_each; intro
  | |- keeps _ (match ?x with _ => _ end) => destruct x
  | |- keeps _ _ => solve [eauto with profiler]
  end.
Ltac keep_steps := repeat keep_step.
Create HintDb profiler.

(** *** Properties that the inputs, the mode and most thread-local variables do not matter for *)
Section operations.
Context (dlsym : string -> bool) (syncs_time : option text).
Context (P : pstate -> Prop) (may_resolve : string -> Prop).
Context (H_clock : forall s t l, P s -> P (set_p_now t (set_p_clock l s)))
        (H_results : forall s l, P s -> P (set_p_results l s))
        (H_noise : forall s l, P s -> P (set_p_noise l s))
        (H_traces : forall s l, P s -> P (set_p_traces l s))
        (H_local : forall s th f, (forall t, self_tid (f t) = self_tid t) -> P s ->
           P (set_locals (<[th := f (local_of s th)]> (locals s)) s))
        (H_resolve : forall x, may_resolve x -> keeps P (RESOLVE dlsym x))
        (H_init : forall th, keeps P (initTid dlsym syncs_time th))
        (H_wrappers : forall w, w ∈ wrappers -> may_resolve (w_resolve w))
        (H_exit : may_resolve "pthread_exit").

Lemma k_read_clock : keeps P read_clock.
Proof using H_clock.
  intros s Hs. unfold read_clock. wp_steps. destruct (p_clock s); [exact I|]. wp_steps. by apply H_clock.
Qed.
Lemma k_next_result : keeps P next_result.
Proof using H_results. intros s Hs. unfold next_result. wp_steps. destruct (p_results s); [exact I|]. wp_steps. by apply H_results. Qed.
Lemma k_next_noise : keeps P next_noise.
Proof using H_noise. intros s Hs. unfold next_noise. wp_steps. destruct (p_noise s); [exact I|]. wp_steps. by apply H_noise. Qed.
Lemma k_next_trace : keeps P next_trace.
Proof using H_traces. intros s Hs. unfold next_trace. wp_steps. destruct (p_traces s); [exact I|]. wp_steps. by apply H_traces. Qed.
Lemma k_set_local th f : (forall t, self_tid (f t) = self_tid t) -> keeps P (set_local th f).
Proof using H_local. intros Hf. apply keep_modify. intros s Hs. by apply H_local. Qed.
Hint Resolve k_read_clock k_next_result k_next_noise k_next_trace H_resolve H_init : profiler.
Hint Extern 2 (keeps P (set_local _ _)) => (apply k_set_local; reflexivity) : profiler.

Lemma k_update_time th : keeps P (update_time th).
Proof using H_clock H_local. unfold update_time. keep_steps. Qed.
Lemma k_call_fp th x : keeps P (call_fp th x).
Proof using H_results H_local. unfold call_fp. keep_steps. Qed.
Hint Resolve k_update_time k_call_fp : profiler.
Lemma k_updateTurn th : keeps P (updateTurn th).
Proof using H_local. unfold updateTurn. keep_steps. Qed.
Hint Resolve k_updateTurn : profiler.
Lemma k_nested_call th w : w ∈ wrappers -> keeps P (nested_call dlsym syncs_time th w).
Proof using All. intros Hw. pose proof (H_wrappers w Hw). unfold nested_call. keep_steps. Qed.
Lemma k_nested th x : keeps P (nested dlsym syncs_time wrappers th x).
Proof using All.
  unfold nested. destruct (List.find _ wrappers) as [w|] eqn:Hf; [|apply keep_ret].
  apply List.find_some in Hf as [Hf _]. by apply k_nested_call, list_elem_of_In.
Qed.
Hint Resolve k_nested : profiler.
Lemma k_get_eip th : keeps P (get_eip dlsym syncs_time wrappers th).
Proof using All. unfold get_eip. keep_steps. Qed.
Lemma k_wait_until stop n : keeps P (wait_until stop n).
Proof using H_clock. induction n; simpl; unfold read_timeval; keep_steps. Qed.
Hint Resolve k_get_eip k_wait_until : profiler.
Lemma k_enforce th eip app : keeps P (enforce th eip app).
Proof using H_clock. unfold enforce, prof_busy_wait, read_timeval, cassert. keep_steps. Qed.
Hint Resolve k_enforce : profiler.
Lemma k_start th : keeps P (OPERATION_START dlsym syncs_time wrappers th).
Proof using All. unfold OPERATION_START. keep_steps. Qed.
Lemma k_end th op app eip : keeps P (OPERATION_END th op app eip).
Proof using H_clock H_local H_noise. unfold OPERATION_END, logOp. keep_steps. Qed.
Hint Resolve k_start k_end : profiler.
Lemma k_wrapper th w : w ∈ wrappers -> keeps P (wrapper dlsym syncs_time wrappers th w).
Proof using All. intros Hw. pose proof (H_wrappers w Hw). unfold wrapper. keep_steps. Qed.
Lemma k_exit th : keeps P (prof_pthread_exit dlsym syncs_time wrappers th).
Proof using All. unfold prof_pthread_exit. keep_steps. Qed.
Lemma k_do_call th c : call_ok c -> keeps P (do_call dlsym syncs_time th c).
Proof using All.
  destruct c as [w|]; simpl; intros Hc; [|apply k_exit]. apply keep_bind; [by apply k_wrapper|]. intros ?. apply keep_ret.
Qed.
(** such a property that holds at the start holds always *)
Lemma reach_keeps : (forall s, started s -> P s) -> forall s, reach dlsym syncs_time s -> P s.
Proof using All.
  intros H0 s Hr. induction Hr as [s Hs|s th c s' _ IH Hc Hd]; [by apply H0|].
  pose proof (k_do_call th c Hc s IH) as Hk. unfold wpx in Hk. by rewrite Hd in Hk.
Qed.
End operations.

(** ** Thread ids *)
Definition tids_ok (s : pstate) : Prop :=
  (num_threads s = 0 \/ 2 <= num_threads s) /\
  (forall th, self_tid (local_of s th) = -1 \/ 0 <= self_tid (local_of s th) < num_threads s /\ self_tid (local_of s th) <> 1) /\
  (forall th1 th2, self_tid (local_of s th1) = self_tid (local_of s th2) -> self_tid (local_of s th1) <> -1 -> th1 = th2).
(** it depends on the ids and their number only *)
Lemma tids_ok_same s s' : num_threads s' = num_threads s ->
  (forall th, self_tid (local_of s' th) = self_tid (local_of s th)) -> tids_ok s -> tids_ok s'.
Proof.
  intros Hn Ht (H1 & H2 & H3). unfold tids_ok. rewrite Hn. split_and!; [done| |].
  - intros th. rewrite Ht. apply H2.
  - intros th1 th2. rewrite !Ht. apply H3.
Qed.
Lemma local_insert s th t th' : local_of (set_locals (<[th := t]> (locals s)) s) th' = if decide (th' = th) then t else local_of s th'.
Proof.
  unfold local_of. simpl. destruct (decide (th' = th)) as [->|Hne]; [by rewrite lookup_insert_eq|]. by rewrite lookup_insert_ne.
Qed.
Lemma tids_local s th f : (forall t, self_tid (f t) = self_tid t) -> tids_ok s ->
  tids_ok (set_locals (<[th := f (local_of s th)]> (locals s)) s).
Proof.
  intros Hf. apply tids_ok_same; [done|]. intros th'. rewrite local_insert. destruct (decide _) as [->|]; [apply Hf|done].
Qed.
Lemma tids_resolve dlsym x : keeps tids_ok (RESOLVE dlsym x).
Proof.
  unfold RESOLVE. keep_steps. apply keep_modify. intros s. by apply tids_ok_same.
Qed.
Lemma tids_load syncs : keeps tids_ok (load_limits syncs).
Proof.
  unfold load_limits. keep_steps; apply keep_modify; intros s; by apply tids_ok_same.
Qed.
Lemma resolve_cases dlsym x s : RESOLVE dlsym x s = Err (ProcessExit (-1)) \/
  exists r, RESOLVE dlsym x s = Ok (tt, set_resolved r s).
Proof.
  unfold RESOLVE, mbind, M_bind, gets. destruct (decide _); [right; exists (resolved s); by destruct s|].
  destruct (dlsym x); [right; by eexists|by left].
Qed.
(** a thread gets the next id *)
Lemma tids_new s th : self_tid (local_of s th) = -1 -> tids_ok s ->
  tids_ok (set_num_threads (if num_threads s =? 0 then 2 else num_threads s + 1)
    (set_locals (<[th := set_self_tid (num_threads s) (local_of s th)]> (locals s)) s)).
Proof.
  intros Hth (H1 & H2 & H3). set (n := num_threads s) in *.
  assert (forall th', self_tid (local_of (set_num_threads (if n =? 0 then 2 else n + 1)
    (set_locals (<[th := set_self_tid n (local_of s th)]> (locals s)) s)) th') =
    if decide (th' = th) then n else self_tid (local_of s th')) as Hl.
  { intros th'. change (local_of (set_num_threads ?x ?s) th') with (local_of s th'). rewrite local_insert.
    by destruct (decide _). }
  unfold tids_ok. cbn [num_threads set_num_threads]. split_and!.
  - destruct (Z.eqb_spec n 0); lia.
  - intros th'. rewrite Hl. destruct (decide _); [right|specialize (H2 th')]; destruct (Z.eqb_spec n 0); lia.
  - intros th1 th2. rewrite !Hl. pose proof (H2 th1). pose proof (H2 th2).
    destruct (decide (th1 = th)) as [->|], (decide (th2 = th)) as [->|]; try done; try lia. apply H3.
Qed.
Lemma tids_init dlsym syncs th : keeps tids_ok (initTid dlsym syncs th).
Proof.
  intros s Hs. unfold initTid. wp_steps. apply wp_if; intros Htid; [|by apply wp_ret].
  apply Z.eqb_eq in Htid. apply wp_bind. unfold wpx at 1.
  destruct (resolve_cases dlsym "pthread_mutex_lock" s) as [->|[r ->]]; [exact I|].
  assert (tids_ok (set_resolved r s)) as Hr by (revert Hs; by apply tids_ok_same).
  assert (keeps tids_ok (when (num_threads s =? 0) (load_limits syncs) ;; RESOLVE dlsym "pthread_mutex_unlock" ;;
            (_ ← update_time th; mret tt) : PM unit)) as Hrest.
  { keep_steps; [apply tids_load|apply tids_resolve|].
    apply k_update_time; [|intros; by apply tids_local]. intros ? ? ?. by apply tids_ok_same. }
  pose proof (tids_new _ th Htid Hr) as Hnew. change (num_threads (set_resolved r s)) with (num_threads s) in Hnew.
  wp_steps. apply wp_modify. wp_steps; intros Hb; change (num_threads (set_resolved r s)) with (num_threads s) in *.
  - apply Z.eqb_eq in Hb. apply wp_modify, Hrest. rewrite (proj2 (Z.eqb_eq (num_threads s) 0)) in Hnew by lia.
    revert Hnew. apply tids_ok_same; [simpl; lia|done].
  - apply Z.eqb_neq in Hb. apply Hrest. by rewrite (proj2 (Z.eqb_neq (num_threads s) 0)) in Hnew by lia.
Qed.

(** *** Executions that are computed *)
Fixpoint run_calls (dlsym : string -> bool) (syncs : option text) (calls : list (Z * pcall)) : PM unit :=
  match calls with
  | [] => mret tt
  | (th, c) :: calls => do_call dlsym syncs th c ;; run_calls dlsym syncs calls
  end.
Lemma run_reach dlsym syncs calls : forall s s', Forall (fun c => call_ok c.2) calls -> reach dlsym syncs s ->
  run_calls dlsym syncs calls s = Ok (tt, s') -> reach dlsym syncs s'.
Proof.
  induction calls as [|[th c] calls IH]; intros s s' Hok Hr Hrun; simpl in Hrun; [by injection Hrun as <-|].
  inversion Hok as [|? ? Hc Hok']; subst. unfold mbind, M_bind in Hrun.
  destruct (do_call dlsym syncs th c s) as [[[] s1]|e] eqn:Hd; [|done]. eapply IH; [done| |exact Hrun].
  by eapply reach_call.
Qed.
(** three threads lock a mutex and the third one exits: the inputs, and the state afterwards *)
Definition demo_trace : trace := Trace [4198400; 4198500; 4198600; 140737488355000] [].
Definition demo_start : pstate :=
  PState 0 0 ∅ ∅ ∅ (Timespec 0 0) ((fun n => Timespec (100 + Z.of_nat n) 0) <$> seq 0 20)
    [(0, 0); (0, 11); (16, 0); (0, 0); (0, 0)] (repeat 25 10) (repeat demo_trace 10).
Definition demo_calls : list (Z * pcall) :=
  [(7, CWrap (plain "pthread_mutex_lock")); (8, CWrap (plain "pthread_barrier_wait"));
   (9, CWrap (plain "pthread_mutex_trylock")); (9, CExit)].
Definition demo_state : pstate :=
  match run_calls (fun _ => true) None demo_calls demo_start with Ok (_, s) => s | Err _ => demo_start end.
Lemma demo_reach : reach (fun _ => true) None demo_state.
Proof.
  apply (run_reach _ _ demo_calls demo_start).
  - repeat constructor; (exact I || (apply list_elem_of_In; simpl; tauto)).
  - apply reach_start. by split_and!.
  - by vm_compute.
Qed.
Example demo_ids : (fun th => self_tid (local_of demo_state th)) <$> [7; 8; 9; 10] = [0; 2; 3; -1].
Proof. by vm_compute. Qed.

(** ** The wrapper of pthread_barrier_destroy *)
Definition unresolved (s : pstate) : Prop := "pthread_barrier_destroy"%string ∉ resolved s.
Definition may_resolve (x : string) : Prop := x <> "pthread_barrier_destroy"%string.
Lemma unresolved_resolve dlsym x : may_resolve x -> keeps unresolved (RESOLVE dlsym x).
Proof.
  intros Hx s Hs. unfold RESOLVE. wp_steps. destruct (decide _); [by apply wp_ret|].
  destruct (dlsym x); [|exact I]. apply wp_modify. unfold unresolved, may_resolve in *. simpl. set_solver.
Qed.
Lemma wrappers_resolve w : w ∈ wrappers -> may_resolve (w_resolve w).
Proof.
  intros Hw. assert (Forall (fun w => bool_decide (w_resolve w <> "pthread_barrier_destroy"%string) = true) wrappers) as Hall
    by (repeat constructor).
  rewrite Forall_forall in Hall. specialize (Hall w Hw). by apply bool_decide_eq_true in Hall.
Qed.
Lemma unresolved_init dlsym syncs th : keeps unresolved (initTid dlsym syncs th).
Proof.
  assert (forall s s', resolved s' = resolved s -> unresolved s -> unresolved s') as Hsame.
  { unfold unresolved. by intros s s' ->. }
  unfold initTid, load_limits. keep_steps; try (apply unresolved_resolve; done); try (apply keep_modify; intros s; by apply Hsame).
  apply k_update_time; intros; revert H; [|intros Hs; revert H0]; by apply Hsame.
Qed.
Lemma reach_unresolved dlsym syncs s : reach dlsym syncs s -> unresolved s.
Proof.
  assert (forall s s', resolved s' = resolved s -> unresolved s -> unresolved s') as Hsame.
  { unfold unresolved. by intros s1 s2 ->. }
  apply (reach_keeps dlsym syncs unresolved may_resolve); try (intros; by eapply Hsame).
  - intros. by apply unresolved_resolve.
  - intros. apply unresolved_init.
  - apply wrappers_resolve.
  - done.
  - intros s0 (_ & _ & _ & H & _). unfold unresolved. by rewrite H.
Qed.
Lemma reach_tids dlsym syncs s : reach dlsym syncs s -> tids_ok s.
Proof.
  apply (reach_keeps dlsym syncs tids_ok (fun _ => True)); try (intros; by eapply tids_ok_same).
  - intros. by apply tids_local.
  - intros. apply tids_resolve.
  - intros. apply tids_init.
  - done.
  - done.
  - intros s0 (H1 & _ & _ & _ & H). unfold tids_ok, local_of. rewrite H1, H. split_and!; [by left|by left|done].
Qed.

Definition destroy_wrapper : wrapped :=
  Wrapped "pthread_barrier_destroy" "pthread_barrier_wait" "pthread_barrier_destroy" id.

(** Pthread_barrier_destroy never works under the profiler: its wrapper resolves the symbol
    pthread_barrier_wait, so the pointer it calls is NULL in every execution, whatever the
    threads have called before; where pthread_barrier_wait could be called, it crashes. *)
Theorem barrier_destroy_crashes (dlsym : string -> bool) (syncs_time : option text) (s : pstate) (th : Z) :
  reach dlsym syncs_time s ->
  (forall r, wrapper dlsym syncs_time wrappers th destroy_wrapper s <> Ok r) /\
  (is_ok (wrapper dlsym syncs_time wrappers th (plain "pthread_barrier_wait") s) = true ->
   wrapper dlsym syncs_time wrappers th destroy_wrapper s = Err NullDeref).
Proof.
  intros Hr%reach_unresolved. assert (Hsame : forall s s', resolved s' = resolved s -> unresolved s -> unresolved s').
  { unfold unresolved. by intros s1 s2 ->. }
  assert (keeps unresolved (OPERATION_START dlsym syncs_time wrappers th)) as Hstart.
  { apply (k_start dlsym syncs_time unresolved may_resolve); try (intros; by eapply Hsame); try done.
    - intros. by apply unresolved_resolve.
    - intros. apply unresolved_init.
    - apply wrappers_resolve. }
  specialize (Hstart s Hr). unfold wrapper, mbind, M_bind, wpx in *. cbn [w_resolve w_call plain destroy_wrapper].
  destruct (OPERATION_START _ _ _ _ _) as [[start s1]|e]; [|done].
  pose proof (unresolved_resolve dlsym "pthread_barrier_wait" ltac:(done) s1 Hstart) as Hres. unfold wpx in Hres.
  destruct (RESOLVE _ _ _) as [[[] s2]|e]; [|done].
  assert (call_fp th "pthread_barrier_destroy" s2 = Err NullDeref) as ->; [|done].
  unfold call_fp, mbind, M_bind, gets. destruct (decide _) as [Hin|]; [by destruct Hres|done].
Qed.

Lemma barrier_destroy_crashes_witness :
  reach (fun _ => true) None demo_state /\
  wrapper (fun _ => true) None wrappers 8 destroy_wrapper demo_state = Err NullDeref.
Proof.
  split; [exact demo_reach|].
  apply (barrier_destroy_crashes (fun _ => true) None demo_state 8 demo_reach). by vm_compute.
Defined.

(** The profiler numbers the threads like xtern does: whatever calls the threads make, in
    whatever order, two threads that have made a call have different ids, and no thread
    gets id 1, which xtern gives to its idle thread. *)
Theorem thread_ids_unique (dlsym : string -> bool) (syncs_time : option text) (s : pstate) (th1 th2 : Z) :
  reach dlsym syncs_time s -> th1 <> th2 -> 0 <= self_tid (local_of s th1) ->
  self_tid (local_of s th1) <> self_tid (local_of s th2) /\ self_tid (local_of s th1) <> 1 /\
  self_tid (local_of s th1) < num_threads s.
Proof.
  intros Hr Hne Ht. destruct (reach_tids _ _ _ Hr) as (_ & H2 & H3). specialize (H2 th1). split_and!; try lia.
  intros Heq. apply Hne, H3; [done|lia].
Qed.

Lemma thread_ids_unique_witness :
  reach (fun _ => true) None demo_state /\ self_tid (local_of demo_state 8) <> self_tid (local_of demo_state 9).
Proof.
  split; [exact demo_reach|].
  apply (thread_ids_unique (fun _ => true) None demo_state 8 9 demo_reach); [done|by vm_compute].
Defined.

(** the functions that can be called through their wrapper: all but pthread_barrier_destroy,
    where dlsym finds them *)
Definition usable (dlsym : string -> bool) (name : string) : Prop :=
  name ∈ w_name <$> wrappers /\ name <> "pthread_barrier_destroy"%string /\ dlsym name = true.
Lemma wrapper_names w : w ∈ wrappers -> w_name w <> "pthread_barrier_destroy"%string ->
  w_resolve w = w_name w /\ w_call w = w_name w.
Proof.
  intros Hw Hne. assert (Forall (fun w => bool_decide (w_name w <> "pthread_barrier_destroy"%string ->
    w_resolve w = w_name w /\ w_call w = w_name w) = true) wrappers) as Hall by (by repeat constructor).
  rewrite Forall_forall in Hall. specialize (Hall w Hw). apply bool_decide_eq_true in Hall. by apply Hall.
Qed.
Lemma usable_find dlsym name : usable dlsym name ->
  exists w, List.find (fun w => String.eqb (w_name w) name) wrappers = Some w /\ w_resolve w = name /\ w_call w = name.
Proof.
  intros ((w0 & -> & Hw0)%list_elem_of_fmap & Hne & _).
  destruct (List.find _ wrappers) as [w|] eqn:Hf.
  - apply find_some in Hf as [Hin Hname%String.eqb_eq]. exists w. split; [done|]. rewrite <-Hname.
    apply wrapper_names; [by apply list_elem_of_In|by rewrite Hname].
  - apply list_elem_of_In in Hw0. pose proof (find_none _ _ Hf _ Hw0) as H. simpl in H. by rewrite String.eqb_refl in H.
Qed.

(** ** One call of an initialised thread *)
Section call.
Context (dlsym : string -> bool) (syncs_time : option text) (th : Z).

(** what the thread sees of a state: its variables, the last reading and the inputs that are
    left; the rest is that of the state s0 *)
Definition shape (s0 : pstate) (l : plocal) (now : timespec) (cl : list timespec) (rs : list (Z * Z)) (ns : list Z)
    (ts : list trace) (s : pstate) : Prop :=
  local_of s th = l /\ (forall th', th' <> th -> local_of s th' = local_of s0 th') /\
  num_threads s = num_threads s0 /\ running_mode s = running_mode s0 /\ app_time_table s = app_time_table s0 /\
  p_now s = now /\ p_clock s = cl /\ p_results s = rs /\ p_noise s = ns /\ p_traces s = ts.
Lemma shape_start s : shape s (local_of s th) (p_now s) (p_clock s) (p_results s) (p_noise s) (p_traces s) s.
Proof using Type. by split_and!. Qed.
Context {s0 : pstate} {X : error -> Prop} {l : plocal} {now : timespec} {cl : list timespec} {rs : list (Z * Z)}
        {ns : list Z} {ts : list trace}.
Implicit Types (Q : unit -> pstate -> Prop) (s : pstate).

Lemma wp_set_local f Q s : shape s0 l now cl rs ns ts s ->
  (forall s', shape s0 (f l) now cl rs ns ts s' -> resolved s' = resolved s -> Q tt s') -> wpx X (set_local th f) Q s.
Proof using Type.
  intros (Hl & Ho & H) HQ. apply wp_modify, HQ; [|done]. split_and!; try apply H.
  - rewrite local_insert, decide_True by done. by rewrite Hl.
  - intros th' Hne. rewrite local_insert, decide_False by done. by apply Ho.
Qed.
Lemma wp_get_local {A} (f : plocal -> A) (Q : A -> pstate -> Prop) s : shape s0 l now cl rs ns ts s ->
  Q (f l) s -> wpx X (get_local th f) Q s.
Proof using Type. intros (Hl & _) HQ. apply wp_gets. by rewrite Hl. Qed.
Lemma wp_read_clock c (Q : timespec -> pstate -> Prop) s : shape s0 l now (c :: cl) rs ns ts s ->
  (forall s', shape s0 l c cl rs ns ts s' -> resolved s' = resolved s -> Q c s') -> wpx X read_clock Q s.
Proof using Type.
  intros (H1 & H2 & H3 & H4 & H5 & H6 & Hc & H) HQ. unfold read_clock. apply wp_bind, wp_gets. rewrite Hc.
  apply wp_bind, wp_modify, wp_ret, HQ; [|done]. split_and!; try done; apply H.
Qed.
(** the ids do not change any more *)
Lemma wp_initTid Q s : shape s0 l now cl rs ns ts s -> self_tid l <> -1 -> Q tt s ->
  wpx X (initTid dlsym syncs_time th) Q s.
Proof using Type.
  intros Hs Ht HQ. unfold initTid. apply wp_bind. eapply wp_get_local; [exact Hs|].
  rewrite (proj2 (Z.eqb_neq _ _) Ht). by apply wp_ret.
Qed.
Lemma wp_RESOLVE x Q s : shape s0 l now cl rs ns ts s -> dlsym x = true ->
  (forall s', shape s0 l now cl rs ns ts s' -> x ∈ resolved s' -> Q tt s') -> wpx X (RESOLVE dlsym x) Q s.
Proof using Type.
  intros Hs Hx HQ. unfold RESOLVE. apply wp_bind, wp_gets. destruct (decide _) as [Hin|].
  - by apply wp_ret, HQ.
  - rewrite Hx. apply wp_modify, HQ; [exact Hs|]. simpl. set_solver.
Qed.
Lemma wp_call_fp x r e (Q : Z -> pstate -> Prop) s : shape s0 l now cl ((r, e) :: rs) ns ts s -> x ∈ resolved s ->
  (forall s', shape s0 (set_p_errno e l) now cl rs ns ts s' -> Q r s') -> wpx X (call_fp th x) Q s.
Proof using Type.
  intros (Hl & Ho & H3 & H4 & H5 & H6 & H7 & Hr & H) Hx HQ. unfold call_fp. apply wp_bind, wp_gets.
  rewrite decide_True by done. apply wp_bind. unfold next_result. apply wp_bind, wp_gets. rewrite Hr.
  apply wp_bind, wp_modify, wp_ret. apply wp_bind, wp_modify, wp_ret, HQ. split_and!; try done; try apply H.
  - rewrite local_insert, decide_True by done. cbn [snd]. by rewrite <-Hl.
  - intros th' Hne. rewrite local_insert, decide_False by done. by apply Ho.
Qed.
Lemma wp_next_noise e (Q : Z -> pstate -> Prop) s : shape s0 l now cl rs (e :: ns) ts s ->
  (forall s', shape s0 l now cl rs ns ts s' -> Q e s') -> wpx X next_noise Q s.
Proof using Type.
  intros (Hl & Ho & H3 & H4 & H5 & H6 & H7 & H8 & Hn & H) HQ. unfold next_noise. apply wp_bind, wp_gets. rewrite Hn.
  apply wp_bind, wp_modify, wp_ret, HQ. split_and!; try done; apply H.
Qed.
Lemma wp_running_mode (Q : Z -> pstate -> Prop) s : shape s0 l now cl rs ns ts s -> Q (running_mode s0) s ->
  wpx X (gets running_mode) Q s.
Proof using Type. intros (_ & _ & _ & Hm & _) HQ. apply wp_gets. by rewrite Hm. Qed.

(** the text of an address of user space fits *)
Lemma digits_length fuel : forall n k acc, 0 <= n < 16 ^ Z.of_nat (S k) ->
  (length (txt (digits fuel 16 n acc)) <= S k + length (txt acc))%nat.
Proof using Type.
  induction fuel as [|fuel IH]; intros n k acc Hn; cbn [digits]; [lia|]. cbv zeta.
  destruct (Z.eqb_spec (n / 16) 0) as [H0|H0]; [simpl; lia|]. destruct k as [|k].
  - rewrite Z.div_small in H0 by (simpl in Hn; lia). done.
  - assert (0 <= n / 16 < 16 ^ Z.of_nat (S k)) as Hd.
    { split; [apply Z.div_pos; lia|]. apply Z.div_lt_upper_bound; [lia|].
      rewrite <-Z.pow_succ_r by lia. replace (Z.succ (Z.of_nat (S k))) with (Z.of_nat (S (S k))) by lia. lia. }
    specialize (IH (n / 16) k (String (digit (n mod 16)) acc) Hd). simpl in *. lia.
Qed.
Lemma print_ptr_length p : 0 <= p < 2 ^ 48 -> (length (print_ptr p) <= 14)%nat.
Proof using Type.
  intros Hp. unfold print_ptr. destruct (p =? 0); [simpl; lia|]. rewrite length_app.
  pose proof (digits_length (S (Z.to_nat (Z.log2 p))) p 11 "" ltac:(change (16 ^ Z.of_nat 12) with (2 ^ 48); lia)) as H.
  change (print_hex p) with (digits (S (Z.to_nat (Z.log2 p))) 16 p ""). simpl in *. lia.
Qed.
Definition eip_of (p2 p3 : Z) : text := print_ptr p2 ++ print_ptr p3.
Definition user_address (p : Z) : Prop := 0 <= p < 2 ^ 48.

End call.
Lemma wp_update_time {X} th s0 l now c cl rs ns ts (Q : timespec -> pstate -> Prop) s :
  shape th s0 l now (c :: cl) rs ns ts s ->
  (forall s', shape th s0 (set_my_time c l) c cl rs ns ts s' -> Q (time_diff (my_time l) c) s') ->
  wpx X (update_time th) Q s.
Proof.
  intros Hs HQ. unfold update_time. apply wp_bind. eapply wp_read_clock; [exact Hs|]. intros s1 Hs1 _.
  apply wp_bind. eapply wp_get_local; [exact Hs1|]. apply wp_bind. eapply wp_set_local; [exact Hs1|]. intros s2 Hs2 _.
  by apply wp_ret, HQ.
Qed.
(** the next step with a lemma on the shape of the state *)
Tactic Notation "next" uconstr(H) := apply wp_bind; eapply H; [eassumption|..].

(** *** The calls that backtrace makes: [cs] are their readings of the clock, [rs] the
    results of the functions *)
Definition after_nested (cs : list timespec) (rs : list (Z * Z)) (l : plocal) : plocal :=
  PLocal (self_turn l + Z.of_nat (length cs)) (self_tid l) (List.last cs (my_time l)) (entered_sys l) (plog l)
    (last_eip l) (List.last rs.*2 (p_errno l)).
Lemma last_cons_default {A} (x d : A) l : List.last (x :: l) d = List.last l x.
Proof. revert x d. induction l as [|y l IH]; intros x d; [done|]. change (List.last (y :: l) d = List.last (y :: l) x). by rewrite !IH. Qed.
Lemma after_nested_nil l : after_nested [] [] l = l.
Proof. unfold after_nested. simpl. rewrite Z.add_0_r. by destruct l. Qed.
Lemma after_nested_cons c cs r rs l :
  after_nested (c :: cs) (r :: rs) l = after_nested cs rs (set_p_errno r.2 (set_my_time c (set_self_turn (self_turn l + 1) l))).
Proof.
  unfold after_nested. rewrite fmap_cons, !last_cons_default. cbn [self_turn self_tid my_time entered_sys plog last_eip
    p_errno set_p_errno set_my_time set_self_turn length]. f_equal. lia.
Qed.
Lemma shape_errno {th s0 l now cl rs ns ts s} : shape th s0 l now cl rs ns ts s ->
  shape th s0 (set_p_errno (p_errno l) l) now cl rs ns ts s.
Proof. by destruct l. Qed.

Section nested.
Context (dlsym : string -> bool) (syncs_time : option text) (th : Z) {X : error -> Prop} {s0 : pstate} {ns : list Z}.
Implicit Types (l : plocal) (cs cl : list timespec) (nrs rs : list (Z * Z)) (s : pstate).
Lemma wp_nested name l now c r cl rs ts (Q : unit -> pstate -> Prop) s : usable dlsym name -> self_tid l <> -1 ->
  shape th s0 l now (c :: cl) (r :: rs) ns ts s ->
  (forall s', shape th s0 (set_p_errno r.2 (set_my_time c (set_self_turn (self_turn l + 1) l))) c cl rs ns ts s' -> Q tt s') ->
  wpx X (nested dlsym syncs_time wrappers th name) Q s.
Proof using Type.
  intros Hu Htid Hs HQ. unfold nested. destruct (usable_find _ _ Hu) as (w & -> & Hr & Hc). unfold nested_call.
  rewrite Hr, Hc. destruct r as [v e]. next wp_initTid; [done|]. unfold updateTurn. next wp_set_local. intros s1 Hs1 _.
  next wp_update_time. intros s2 Hs2. next wp_RESOLVE; [apply Hu|]. intros s3 Hs3 Hin.
  next wp_call_fp; [done|]. intros s4 Hs4. next wp_get_local. eapply wp_set_local; [exact Hs4|]. intros s5 Hs5 _.
  by apply HQ.
Qed.
Lemma wp_nested_all calls : forall l now cs nrs cl rs ts (Q : unit -> pstate -> Prop) s,
  Forall (usable dlsym) calls -> self_tid l <> -1 -> length cs = length calls -> length nrs = length calls ->
  shape th s0 l now (cs ++ cl) (nrs ++ rs) ns ts s ->
  (forall s', shape th s0 (after_nested cs nrs l) (List.last cs now) cl rs ns ts s' -> Q tt s') ->
  wpx X (for_each (nested dlsym syncs_time wrappers th) calls) Q s.
Proof using Type.
  induction calls as [|name calls IH]; intros l now [|c cs] [|r nrs] cl rs ts Q s Hu Htid Hc Hr Hs HQ; try done.
  - apply wp_ret, HQ. by rewrite after_nested_nil.
  - inversion Hu as [|? ? Hn Hu']; subst. cbn [for_each]. apply wp_bind. eapply wp_nested; [done|exact Htid|exact Hs|].
    intros s1 Hs1. eapply IH; [done| |by injection Hc|by injection Hr|exact Hs1|]; [done|].
    intros s' Hs'. apply HQ. by rewrite after_nested_cons, last_cons_default.
Qed.
Lemma wp_get_eip l now cs nrs cl rs p0 p1 p2 p3 ps calls ts (Q : text -> pstate -> Prop) s :
  shape th s0 l now (cs ++ cl) (nrs ++ rs) ns (Trace (p0 :: p1 :: p2 :: p3 :: ps) calls :: ts) s ->
  Forall (usable dlsym) calls -> self_tid l <> -1 -> length cs = length calls -> length nrs = length calls ->
  user_address p2 -> user_address p3 ->
  (forall s', shape th s0 (after_nested cs nrs l) (List.last cs now) cl rs ns ts s' -> Q (eip_of p2 p3) s') ->
  wpx X (get_eip dlsym syncs_time wrappers th) Q s.
Proof using Type.
  intros (Hl & Ho & H1 & H4 & H5 & H6 & H7 & H8 & Hn & Ht) Hu Htid Hlc Hlr H2 H3 HQ. unfold get_eip. apply wp_bind. unfold next_trace.
  apply wp_bind, wp_gets. rewrite Ht. apply wp_bind, wp_modify, wp_ret. apply wp_bind.
  eapply (wp_nested_all calls l now cs nrs cl rs ts); [done..|by split_and!|].
  intros s' Hs'. simpl take. simpl lookup. cbv iota zeta.
  rewrite bool_decide_false; [by apply wp_ret, HQ|].
  rewrite length_app. apply print_ptr_length in H2, H3. unfold TWO_EIPS_SIZE. lia.
Qed.
End nested.

(** what comes from outside for one call: the backtrace, with the functions it calls, their
    readings of the clock [cs] and their results [nrs] *)
Definition backtrace_inputs (dlsym : string -> bool) (t : trace) (cs : list timespec) (nrs : list (Z * Z)) (p2 p3 : Z) : Prop :=
  (exists p0 p1 ps, t_addrs t = p0 :: p1 :: p2 :: p3 :: ps) /\ user_address p2 /\ user_address p3 /\
  Forall (usable dlsym) (t_calls t) /\ length cs = length (t_calls t) /\ length nrs = length (t_calls t).
(** the call up to the choice between measuring and enforcing *)
Lemma start_prefix X dlsym syncs_time th s c cs cl nrs rs tr p2 p3 ts (Q : timespec * option text -> pstate -> Prop) :
  let t := local_of s th in
  self_tid t <> -1 -> entered_sys t = false -> p_clock s = c :: cs ++ cl -> p_results s = nrs ++ rs ->
  p_traces s = tr :: ts -> backtrace_inputs dlsym tr cs nrs p2 p3 ->
  (forall s', shape th s (after_nested cs nrs (set_entered_sys true (set_my_time c (set_self_turn (self_turn t + 1) t))))
      (List.last cs c) cl rs (p_noise s) ts s' ->
    wpx X (when (running_mode s =? ENFORCE) (enforce th (eip_of p2 p3) (time_diff (my_time t) c)))
      (fun _ => wpx X (set_local th (set_entered_sys false)) (fun _ => Q (time_diff (my_time t) c, Some (eip_of p2 p3)))) s') ->
  wpx X (OPERATION_START dlsym syncs_time wrappers th) Q s.
Proof.
  intros t Htid Hent Hclock Hresults Htraces ((p0 & p1 & ps & Ha) & H2 & H3 & Hu & Hlc & Hlr) HQ.
  pose proof (shape_start th s) as Hs. destruct tr as [addrs calls]. cbn [t_addrs t_calls] in *. subst addrs.
  rewrite Hclock, Hresults, Htraces in Hs. fold t in Hs.
  unfold OPERATION_START. next wp_initTid; [done|]. unfold updateTurn. next wp_set_local. intros s1 Hs1 _.
  next wp_update_time. intros s2 Hs2. next wp_get_local. cbn [set_my_time set_self_turn entered_sys]. rewrite Hent.
  next wp_set_local. intros s3 Hs3 _. next wp_get_eip; [done..|]. intros s4 Hs4.
  next wp_running_mode. apply wp_bind.
  eapply wp_mono; [by apply HQ|]. intros [] s5 Hs5. apply wp_bind. eapply wp_mono; [exact Hs5|].
  intros [] s6 Hs6. by apply wp_ret.
Qed.

(** C35: the profiler is transparent while it only measures (there is no file syncs.time).  Take
    any of the wrappers but that of pthread_barrier_destroy (which crashes:
    [barrier_destroy_crashes]), called by a thread that has an id from an earlier call and is
    not inside the profiler, where dlsym finds the function.  The call returns what the
    function of the C library returns and leaves the errno that this function left, though
    the functions that backtrace calls and the writing of the log change errno; it logs one
    line with the function, its position, the thread, the number of the operation (counting
    the calls of backtrace) and the times since the previous operation and in the call; and
    no other thread's variables change. *)
Theorem profiler_transparent (dlsym : string -> bool) (syncs_time : option text) (th : Z) (w : wrapped) (s : pstate)
    (c1 c2 : timespec) cs cl nrs ret err rs noise ns tr p2 p3 ts :
  let t := local_of s th in
  w ∈ wrappers -> usable dlsym (w_name w) ->
  self_tid t <> -1 -> entered_sys t = false -> running_mode s = PROFILE ->
  p_clock s = c1 :: cs ++ c2 :: cl -> p_results s = nrs ++ (ret, err) :: rs -> p_noise s = noise :: ns ->
  p_traces s = tr :: ts -> backtrace_inputs dlsym tr cs nrs p2 p3 ->
  let turn := self_turn t + 1 + Z.of_nat (length cs) in
  exists s', wrapper dlsym syncs_time wrappers th w s = Ok (w_conv w ret, s') /\
    local_of s' th = PLocal turn (self_tid t) c2 false
      (Some (LogLine (w_name w) (eip_of p2 p3) (self_tid t) turn (timespec_to_usec (time_diff (my_time t) c1))
               (timespec_to_usec (time_diff (List.last cs c1) c2)) :: default [] (plog t)))
      (Some (eip_of p2 p3)) err /\
    (forall th', th' <> th -> local_of s' th' = local_of s th') /\
    num_threads s' = num_threads s /\ p_clock s' = cl /\ p_results s' = rs.
Proof.
  intros t Hw Hu Htid Hent Hmode Hclock Hresults Hnoise Htraces Hbt turn.
  destruct (wrapper_names w Hw (proj1 (proj2 Hu))) as [Hres Hcall]. destruct Hu as (_ & _ & Hsym).
  assert (wp (wrapper dlsym syncs_time wrappers th w) (fun a s' => a = w_conv w ret /\
    local_of s' th = PLocal turn (self_tid t) c2 false
      (Some (LogLine (w_name w) (eip_of p2 p3) (self_tid t) turn (timespec_to_usec (time_diff (my_time t) c1))
               (timespec_to_usec (time_diff (List.last cs c1) c2)) :: default [] (plog t)))
      (Some (eip_of p2 p3)) err /\
    (forall th', th' <> th -> local_of s' th' = local_of s th') /\
    num_threads s' = num_threads s /\ p_clock s' = cl /\ p_results s' = rs) s) as Hwp;
    [|apply wp_elim in Hwp as (a & s' & Hrun & -> & Hrest); by exists s'].
  unfold wrapper. rewrite Hres, Hcall. apply wp_bind. eapply start_prefix; try eassumption. fold t. rewrite Hmode, Hnoise.
  intros s4 Hs4. apply wp_ret. eapply wp_set_local; [exact Hs4|]. intros s5 Hs5 _. cbn [fst snd].
  next wp_RESOLVE; [done|]. intros s6 Hs6 Hin. next wp_call_fp; [done|]. intros s7 Hs7.
  next wp_get_local. unfold OPERATION_END. apply wp_bind. next wp_get_local.
  cbn [after_nested set_p_errno set_entered_sys set_my_time set_self_turn entered_sys].
  next wp_set_local. intros s8 Hs8 _. next wp_update_time. intros s9 Hs9.
  apply wp_bind. unfold logOp. next wp_get_local. next wp_set_local. intros s10 Hs10 _.
  next wp_next_noise. intros s11 Hs11. eapply wp_set_local; [eassumption|]. intros s12 Hs12 _.
  next wp_set_local. intros s13 Hs13 _. eapply wp_set_local; [eassumption|]. intros s14 Hs14 _.
  next wp_set_local. intros s15 (Hl & Ho & Hn & _ & _ & _ & Hc & Hr & _) _. apply wp_ret. split_and!; try done.
Qed.
(** a call in which backtrace itself locks a mutex, which sets errno 4; the function sets errno 11 *)
Definition nested_state : pstate :=
  set_p_traces [Trace (t_addrs demo_trace) ["pthread_mutex_lock"%string]]
    (set_p_results [(0, 4); (16, 11)] (set_p_clock [Timespec 111 0; Timespec 112 0; Timespec 114 0] demo_state)).
Lemma profiler_transparent_witness :
  exists s', wrapper (fun _ => true) None wrappers 8 (plain "pthread_mutex_trylock") nested_state = Ok (16, s') /\
    p_errno (local_of s' 8) = 11.
Proof.
  destruct (profiler_transparent (fun _ => true) None 8 (plain "pthread_mutex_trylock") nested_state
    (Timespec 111 0) (Timespec 114 0) [Timespec 112 0] [] [(0, 4)] 16 11 [] 25 (tail (p_noise nested_state))
    (Trace (t_addrs demo_trace) ["pthread_mutex_lock"%string]) 4198600 140737488355000 []) as (s' & Hrun & Hl & _).
  - apply list_elem_of_In. simpl. tauto.
  - split_and!; [by apply (bool_decide_unpack _); vm_compute|done|done].
  - by vm_compute.
  - by vm_compute.
  - by vm_compute.
  - by vm_compute.
  - by vm_compute.
  - by vm_compute.
  - by vm_compute.
  - split_and!; [by do 3 eexists|unfold user_address; lia|unfold user_address; lia| |done|done].
    apply Forall_singleton. split_and!; [by apply (bool_decide_unpack _); vm_compute|done|done].
  - exists s'. split; [exact Hrun|]. by rewrite Hl.
Defined.

Section delays.
Context {X : error -> Prop} {th : Z} {s0 : pstate} {l : plocal} {rs : list (Z * Z)} {ns : list Z} {ts : list trace}.
End delays.



