(* ===== verification/RandIntercept.v ===== *)
(** * The interceptor of the evaluation: eval/rand-intercept/rand-intercept.c

    A library for LD_PRELOAD that runs a program without determinism.  It is the balance
    profiler without delays: the turn is a global counter, and a line of the log has the
    return address of the caller and the times in seconds.  Logging is compiled in only if
    DO_LOGGING is 1, and it is 0 in the source; [do_logging] stands for it here.

    The thread-local variables and the inputs are those of the profiler's state; [plog]
    and [last_eip] of that state are not used.  A call of a thread is two operations,
    before and after the function of the C library, which may block. *)
From S2P Require Import Prelude Options LogText CText RtState RtBase BusyWait Profiler.

Definition DO_LOGGING : bool := false.
Record rand_line : Type := RandLine {
  rl_op : string; rl_eip : Z; rl_turn : Z; rl_app_time : timespec; rl_syscall_time : timespec; rl_tid : Z
}.
Record rstate : Type := RState {
  r_base : pstate;
  r_turn : Z;
  r_logs : gmap Z (list rand_line)   (* by thread, the last line first; no entry: log is NULL *)
}.
Definition set_r_base (x : pstate) (r : rstate) : rstate := RState x (r_turn r) (r_logs r).
Definition set_r_turn (x : Z) (r : rstate) : rstate := RState (r_base r) x (r_logs r).
Definition set_r_logs (x : gmap Z (list rand_line)) (r : rstate) : rstate := RState (r_base r) (r_turn r) x.
Abbreviation RM := (M rstate).
Definition base {A} (m : PM A) : RM A := zoom r_base set_r_base m.

Section interceptor.
Context (dlsym : string -> bool) (do_logging : bool).

Definition rand_update_time (th : Z) : RM timespec := base (update_time th).
Definition rand_RESOLVE (x : string) : RM unit := base (RESOLVE dlsym x).
Definition rand_initTid (th : Z) : RM unit :=
  tid ← base (get_local th self_tid);
  if tid =? -1 then
    rand_RESOLVE "pthread_mutex_lock" ;;
    n ← base (gets num_threads);
    base (set_local th (set_self_tid n)) ;;
    base (modify (set_num_threads (n + 1))) ;;
    when (n + 1 =? 1) (base (modify (set_num_threads (n + 2)))) ;;
    rand_RESOLVE "pthread_mutex_unlock" ;;
    _ ← rand_update_time th; mret tt
  else mret tt.
Definition rand_updateTurn (th : Z) : RM unit :=
  rand_RESOLVE "pthread_mutex_lock" ;;
  turn ← gets r_turn;
  base (set_local th (set_self_turn turn)) ;;
  modify (set_r_turn (turn + 1)) ;;
  rand_RESOLVE "pthread_mutex_unlock".

(** gives app_time, None where it is not set *)
Definition rand_OPERATION_START (th : Z) : RM (option timespec) :=
  rand_initTid th ;;
  if do_logging then rand_updateTurn th ;; t ← rand_update_time th; mret (Some t) else mret None.

(** a call that backtrace makes while entered_sys is set *)
Definition rand_nested_call (th : Z) (w : wrapped) : RM unit :=
  _ ← rand_OPERATION_START th;
  rand_RESOLVE (w_resolve w) ;;
  _ ← base (call_fp th (w_call w));
  cur_errno ← base (get_local th p_errno);
  base (set_local th (set_p_errno cur_errno)).

Context (wrappers : list wrapped).
Definition rand_nested (th : Z) (name : string) : RM unit :=
  match List.find (fun w => String.eqb (w_name w) name) wrappers with
  | Some w => rand_nested_call th w
  | None => mret tt
  end.
Definition rand_get_eip (th : Z) : RM Z :=
  t ← base next_trace;
  for_each (rand_nested th) (t_calls t) ;;
  match take 5 (t_addrs t) !! 2%nat with Some p => mret p | None => fail UninitRead end.
Definition rand_logOp (th : Z) (op : string) (eip : Z) (app_time syscall_time : timespec) : RM unit :=
  t ← base (get_local th id);
  logs ← gets r_logs;
  let line := RandLine op eip (self_turn t) app_time syscall_time (self_tid t) in
  modify (set_r_logs (<[th := line :: default [] (logs !! th)]> logs)) ;;
  e ← base next_noise; base (set_local th (set_p_errno e)).
Definition rand_OPERATION_END (th : Z) (op : string) (app_time : option timespec) : RM unit :=
  entered ← base (get_local th entered_sys);
  if do_logging && negb entered then
    base (set_local th (set_entered_sys true)) ;;
    syscall_time ← rand_update_time th;
    eip ← rand_get_eip th;
    match app_time with
    | None => fail UninitRead
    | Some t => rand_logOp th op eip t syscall_time
    end ;;
    base (set_local th (set_entered_sys false))
  else mret tt.

(** ** The wrappers, up to the call and after it *)
Definition begin_call (th : Z) (w : wrapped) : RM (option timespec) :=
  app_time ← rand_OPERATION_START th;
  rand_RESOLVE (w_resolve w) ;;
  mret app_time.
Definition finish_call (th : Z) (w : wrapped) (app_time : option timespec) : RM Z :=
  ret ← base (call_fp th (w_call w));
  cur_errno ← base (get_local th p_errno);
  rand_OPERATION_END th (w_name w) app_time ;;
  base (set_local th (set_p_errno cur_errno)) ;;
  mret (w_conv w ret).
Definition rand_wrapper (th : Z) (w : wrapped) : RM Z := app_time ← begin_call th w; finish_call th w app_time.
(** pthread_exit, up to the call of fp_pthread_exit, which ends the thread *)
Definition rand_pthread_exit (th : Z) : RM unit :=
  entered ← base (get_local th entered_sys);
  (if entered : bool then mret tt
   else
     app_time ← rand_OPERATION_START th;
     rand_RESOLVE "pthread_exit" ;;
     rand_OPERATION_END th "pthread_exit" app_time ;;
     base (set_local th (set_entered_sys true))) ;;
  fps ← base (gets resolved);
  if decide ("pthread_exit" ∈ fps) then mret tt else fail NullDeref.
End interceptor.

(** ** The table of the wrappers, in the order of the file *)
Definition rand_mutex_wrappers : list wrapped := plain <$>
  [ "pthread_mutex_lock"; "pthread_mutex_unlock"; "pthread_mutex_trylock"; "pthread_mutex_init";
    "pthread_mutex_destroy" ]%string.
Definition rand_thread_wrappers : list wrapped := plain <$> [ "pthread_create"; "pthread_join" ]%string.
Definition rand_cond_wrappers : list wrapped := plain <$>
  [ "pthread_cond_wait"; "pthread_cond_destroy"; "pthread_cond_timedwait"; "pthread_cond_signal";
    "pthread_cond_broadcast" ]%string.
Definition rand_rwlock_wrappers : list wrapped := plain <$>
  [ "pthread_rwlock_trywrlock"; "pthread_rwlock_wrlock"; "pthread_rwlock_rdlock"; "pthread_rwlock_tryrdlock";
    "pthread_rwlock_unlock"; "pthread_rwlock_destroy"; "pthread_rwlock_init"; "pthread_rwlock_timedwrlock";
    "pthread_rwlock_timedrdlock" ]%string.
(** fp_recv is declared to return an int, and so is ret *)
Definition rand_recv_wrapper : wrapped := Wrapped "recv" "recv" "recv" s32.
Definition rand_wrappers : list wrapped :=
  rand_mutex_wrappers ++ rand_thread_wrappers ++ rand_cond_wrappers ++ rand_rwlock_wrappers ++ [rand_recv_wrapper].

(** ** Executions: the threads' calls begin and finish in any order *)
Inductive rand_step (dlsym : string -> bool) (do_logging : bool) :
    rstate * gmap Z (wrapped * option timespec) -> rstate * gmap Z (wrapped * option timespec) -> Prop :=
| step_begin s pending th w app s' :
    pending !! th = None -> w ∈ rand_wrappers -> begin_call dlsym do_logging th w s = Ok (app, s') ->
    rand_step dlsym do_logging (s, pending) (s', <[th := (w, app)]> pending)
| step_finish s pending th w app r s' :
    pending !! th = Some (w, app) -> finish_call dlsym do_logging rand_wrappers th w app s = Ok (r, s') ->
    rand_step dlsym do_logging (s, pending) (s', delete th pending)
| step_exit s pending th s' :
    pending !! th = None -> rand_pthread_exit dlsym do_logging rand_wrappers th s = Ok (tt, s') ->
    rand_step dlsym do_logging (s, pending) (s', pending).
Definition rand_start (s : rstate) : Prop :=
  num_threads (r_base s) = 0 /\ resolved (r_base s) = ∅ /\ locals (r_base s) = ∅ /\ r_turn s = 0 /\ r_logs s = ∅.
Definition rand_reach (dlsym : string -> bool) (do_logging : bool) (c : rstate * gmap Z (wrapped * option timespec)) : Prop :=
  exists s, rand_start s /\ rtc (rand_step dlsym do_logging) (s, ∅) c.
