(* ===== verification/RandThms.v ===== *)
(** * Properties of the interceptor of the evaluation: transparency and the turns in the logs *)
From Stdlib Require Import Ascii Sorted.
From S2P Require Import Prelude Options LogText CText RtState RtBase RtTime BusyWait Profiler ProfilerThms RandIntercept.

(** ** The turns *)
Section turns.
Context (dlsym : string -> bool).
Definition turn_of (s : rstate) (th : Z) : Z := self_turn (local_of (r_base s) th).
Definition log_of (s : rstate) (th : Z) : list rand_line := default [] (r_logs s !! th).
(** [own] gives the thread that has a turn.  The threads in F have a turn that is not in their log *)
Definition turns_inv (F : Z -> Prop) (s : rstate) : Prop :=
  0 <= r_turn s /\ exists own : Z -> option Z,
    (forall n, r_turn s <= n -> own n = None) /\
    (forall th, turn_of s th = -1 \/ 0 <= turn_of s th /\ own (turn_of s th) = Some th) /\
    (forall th, Forall (fun l => 0 <= rl_turn l <= turn_of s th /\ own (rl_turn l) = Some th) (log_of s th)) /\
    (forall th, StronglySorted (fun l l' => rl_turn l' < rl_turn l) (log_of s th)) /\
    (forall th, F th -> 0 <= turn_of s th /\ Forall (fun l => rl_turn l < turn_of s th) (log_of s th)).
Lemma inv_same F s s' : (forall th, turn_of s' th = turn_of s th) -> r_turn s' = r_turn s -> r_logs s' = r_logs s ->
  turns_inv F s -> turns_inv F s'.
Proof using Type.
  intros Ht Hn Hl (H0 & own & H1 & H2 & H3 & H4 & H5). assert (forall th, log_of s' th = log_of s th) as Hlog
    by (intros th; unfold log_of; by rewrite Hl).
  split; [by rewrite Hn|]. exists own. rewrite Hn. split_and!; [done|..]; intros th; rewrite ?Ht, ?Hlog; eauto.
Qed.
Lemma inv_weaken (F F' : Z -> Prop) s : (forall th, F' th -> F th) -> turns_inv F s -> turns_inv F' s.
Proof using Type. intros HF (H0 & own & H1 & H2 & H3 & H4 & H5). split; [done|]. exists own. split_and!; eauto. Qed.

(** what the parts that are the profiler's do not change *)
Definition turns_are (k : Z -> Z) (s : pstate) : Prop := forall th, self_turn (local_of s th) = k th.
Lemma k_base {A} F (m : PM A) : (forall k, keeps (turns_are k) m) -> keeps (turns_inv F) (base m).
Proof using Type.
  intros Hm s Hs. apply wp_zoom. specialize (Hm (fun th => self_turn (local_of (r_base s) th)) (r_base s) ltac:(done)).
  eapply wp_mono; [exact Hm|]. intros a s' Hs'. revert Hs. by apply inv_same.
Qed.
Lemma turns_local k th f : (forall t, self_turn (f t) = self_turn t) -> keeps (turns_are k) (set_local th f).
Proof using Type.
  intros Hf. apply keep_modify. intros s Hs th'. rewrite local_insert. destruct (decide _) as [->|]; [rewrite Hf|]; apply Hs.
Qed.
Lemma turns_modify k f : (forall s, locals (f s) = locals s) -> keeps (turns_are k) (modify f).
Proof using Type. intros Hf. apply keep_modify. intros s Hs th. unfold local_of. rewrite Hf. apply Hs. Qed.
Hint Extern 2 (keeps (turns_are _) (set_local _ _)) => (apply turns_local; reflexivity) : profiler.
Hint Extern 2 (keeps (turns_are _) (modify _)) => (apply turns_modify; reflexivity) : profiler.
Lemma turns_read_clock k : keeps (turns_are k) read_clock.
Proof using Type. unfold read_clock. keep_steps. Qed.
Hint Resolve turns_read_clock : profiler.
Lemma turns_update_time k th : keeps (turns_are k) (update_time th).
Proof using Type. unfold update_time. keep_steps. Qed.
Lemma turns_RESOLVE k x : keeps (turns_are k) (RESOLVE dlsym x).
Proof using Type. unfold RESOLVE. keep_steps. Qed.
Lemma turns_call_fp k th x : keeps (turns_are k) (call_fp th x).
Proof using Type. unfold call_fp, next_result. keep_steps. Qed.
Lemma turns_next_trace k : keeps (turns_are k) next_trace.
Proof using Type. unfold next_trace. keep_steps. Qed.
Lemma turns_next_noise k : keeps (turns_are k) next_noise.
Proof using Type. unfold next_noise. keep_steps. Qed.
Hint Resolve turns_update_time turns_RESOLVE turns_call_fp turns_next_trace turns_next_noise : profiler.
Hint Extern 2 (keeps (turns_are _) (get_local _ _)) => (apply keep_gets) : profiler.
Hint Extern 2 (keeps (turns_are _) (gets _)) => (apply keep_gets) : profiler.
Hint Extern 3 (keeps (turns_inv _) (base _)) => (apply k_base; intros ?; keep_steps) : profiler.
Lemma k_rand_init F th : keeps (turns_inv F) (rand_initTid dlsym th).
Proof using Type. unfold rand_initTid, rand_RESOLVE, rand_update_time. keep_steps. Qed.
Hint Resolve k_rand_init : profiler.

(** a new turn belongs to the thread *)
Lemma inv_new F s th : turns_inv F s ->
  turns_inv (fun x => x = th \/ F x) (set_r_turn (r_turn s + 1) (set_r_base
    (set_locals (<[th := set_self_turn (r_turn s) (local_of (r_base s) th)]> (locals (r_base s))) (r_base s)) s)).
Proof using Type.
  intros (H0 & own & H1 & H2 & H3 & H4 & H5). set (s' := set_r_turn _ _).
  assert (Ht : forall x, turn_of s' x = if decide (x = th) then r_turn s else turn_of s x).
  { intros x. unfold turn_of. simpl. rewrite local_insert. by destruct (decide _). }
  assert (forall x n, own n = Some x -> n < r_turn s) as Hlt.
  { intros x n Hn. destruct (Z.lt_ge_cases n (r_turn s)) as [|Hge]; [done|]. by rewrite (H1 n Hge) in Hn. }
  split; [simpl; lia|]. exists (fun n => if decide (n = r_turn s) then Some th else own n).
  change (log_of s') with (log_of s). change (r_turn s') with (r_turn s + 1). split_and!.
  - intros n Hn. rewrite decide_False by lia. apply H1. lia.
  - intros x. rewrite Ht. destruct (decide (x = th)) as [->|]; [right; split; [done|by rewrite decide_True]|].
    destruct (H2 x) as [|[? Hx]]; [by left|right]. split; [done|]. by rewrite decide_False by (apply Hlt in Hx; lia).
  - intros x. eapply Forall_impl; [apply H3|]. intros l [Hl Hx]. rewrite Ht. pose proof (Hlt _ _ Hx).
    rewrite (decide_False (P := rl_turn l = r_turn s)) by lia. destruct (decide _); split; (lia || done).
  - exact H4.
  - intros x Hx. rewrite Ht. destruct (decide (x = th)) as [->|Hne].
    + split; [done|]. eapply Forall_impl; [apply H3|]. intros l [_ Hl]. by apply Hlt in Hl.
    + destruct Hx as [->|Hx]; [done|]. by apply H5.
Qed.
Lemma wp_updateTurn F s th : turns_inv F s ->
  wpx any_error (rand_updateTurn dlsym th) (fun _ => turns_inv (fun x => x = th \/ F x)) s.
Proof using Type.
  intros Hs. unfold rand_updateTurn. apply wp_bind. eapply wp_mono.
  { apply (k_base F); [|exact Hs]. intros k. apply turns_RESOLVE. }
  intros [] s1 H1. apply wp_bind, wp_gets, wp_bind, wp_zoom, wp_modify, wp_bind, wp_modify.
  apply (k_base (fun x => x = th \/ F x)); [intros k; apply turns_RESOLVE|]. by apply inv_new.
Qed.
Lemma wp_start F s th : turns_inv F s ->
  wpx any_error (rand_OPERATION_START dlsym true th) (fun _ => turns_inv (fun x => x = th \/ F x)) s.
Proof using Type.
  intros Hs. unfold rand_OPERATION_START. apply wp_bind. eapply wp_mono; [by apply k_rand_init|]. intros [] s1 H1.
  apply wp_bind. eapply wp_mono; [by apply wp_updateTurn|]. intros [] s2 H2.
  apply wp_bind. eapply wp_mono.
  { apply (k_base (fun x => x = th \/ F x)); [|exact H2]. intros k. apply turns_update_time. }
  intros t s3 H3. by apply wp_ret.
Qed.
Lemma k_nested_start (F : Z -> Prop) th : F th -> keeps (turns_inv F) (rand_OPERATION_START dlsym true th).
Proof using Type.
  intros HF s Hs. eapply wp_mono; [by apply wp_start|]. intros a s'. apply inv_weaken. tauto.
Qed.
Lemma k_rand_eip (F : Z -> Prop) th : F th -> keeps (turns_inv F) (rand_get_eip dlsym true rand_wrappers th).
Proof using Type.
  intros HF. unfold rand_get_eip, rand_nested, rand_nested_call, rand_RESOLVE.
  pose proof (k_nested_start F th HF). keep_steps.
Qed.
(** a line of the log takes the turn *)
Lemma inv_log (F : Z -> Prop) s th op eip t1 t2 : F th -> turns_inv F s ->
  turns_inv (fun x => x <> th /\ F x) (set_r_logs (<[th :=
    RandLine op eip (turn_of s th) t1 t2 (self_tid (local_of (r_base s) th)) :: log_of s th]> (r_logs s)) s).
Proof using Type.
  intros HF (H0 & own & H1 & H2 & H3 & H4 & H5). set (s' := set_r_logs _ _). set (line := RandLine _ _ _ _ _ _) in *.
  assert (Hl : forall x, log_of s' x = if decide (x = th) then line :: log_of s th else log_of s x).
  { intros x. unfold log_of. simpl. destruct (decide (x = th)) as [->|]; [by rewrite lookup_insert_eq|by rewrite lookup_insert_ne]. }
  destruct (H5 th HF) as [Hpos Hfr]. split; [done|]. exists own. change (turn_of s') with (turn_of s).
  change (r_turn s') with (r_turn s). split_and!; [done|done| | |].
  - intros x. rewrite Hl. destruct (decide (x = th)) as [->|]; [|apply H3]. constructor; [|apply H3]. simpl.
    destruct (H2 th) as [|[_ Hown]]; [lia|]. split; [lia|done].
  - intros x. rewrite Hl. destruct (decide (x = th)) as [->|]; [|apply H4]. constructor; [apply H4|exact Hfr].
  - intros x [Hne Hx]. rewrite Hl. rewrite decide_False by done. by apply H5.
Qed.
Lemma wp_end (F : Z -> Prop) s th op app : F th -> turns_inv F s ->
  wpx any_error (rand_OPERATION_END dlsym true rand_wrappers th op app) (fun _ => turns_inv (fun x => x <> th /\ F x)) s.
Proof using Type.
  intros HF Hs. unfold rand_OPERATION_END. apply wp_bind.
  eapply wp_mono; [apply (k_base F); [|exact Hs]; intros k; apply keep_gets|]. intros ent s1 H1.
  apply wp_if; intros _; [|apply wp_ret; revert H1; apply inv_weaken; tauto].
  apply wp_bind. eapply wp_mono; [apply (k_base F); [|exact H1]; intros k; by apply turns_local|]. intros [] s2 H2.
  apply wp_bind. eapply wp_mono; [apply (k_base F); [|exact H2]; intros k; apply turns_update_time|]. intros t s3 H3.
  apply wp_bind. eapply wp_mono; [by apply k_rand_eip|]. intros eip s4 H4.
  apply wp_bind. destruct app as [app|]; [|exact I]. unfold rand_logOp. apply wp_bind, wp_zoom, wp_gets.
  apply wp_bind, wp_gets, wp_bind, wp_modify. apply wp_bind.
  eapply wp_mono; [apply (k_base (fun x => x <> th /\ F x)); [intros k; apply turns_next_noise|]|].
  { pose proof (inv_log F _ th op eip app t HF H4) as Hl. revert Hl. by apply inv_same. }
  intros e s5 H5. eapply wp_mono; [apply (k_base (fun x => x <> th /\ F x)); [intros k; by apply turns_local|exact H5]|].
  intros [] s6 H6. apply (k_base (fun x => x <> th /\ F x)); [intros k; by apply turns_local|exact H6].
Qed.
End turns.

(** ** Executions *)
Section executions.
Context (dlsym : string -> bool).
Lemma k_rand_RESOLVE F x : keeps (turns_inv F) (rand_RESOLVE dlsym x).
Proof using Type. apply k_base. intros k. apply turns_RESOLVE. Qed.
Lemma begin_turns F s th w : turns_inv F s ->
  wpx any_error (begin_call dlsym true th w) (fun _ => turns_inv (fun x => x = th \/ F x)) s.
Proof using Type.
  intros Hs. unfold begin_call. apply wp_bind. eapply wp_mono; [by apply wp_start|]. intros app s1 H1.
  apply wp_bind. eapply wp_mono; [apply (k_rand_RESOLVE (fun x => x = th \/ F x)); assumption|]. intros [] s2 H2. by apply wp_ret.
Qed.
Lemma finish_turns (F : Z -> Prop) s th w app : F th -> turns_inv F s ->
  wpx any_error (finish_call dlsym true rand_wrappers th w app) (fun _ => turns_inv (fun x => x <> th /\ F x)) s.
Proof using Type.
  intros HF Hs. unfold finish_call. apply wp_bind.
  eapply wp_mono; [apply (k_base F); [intros k; apply turns_call_fp|exact Hs]|]. intros ret s1 H1.
  apply wp_bind, wp_zoom, wp_gets, wp_bind.
  eapply wp_mono; [by apply (wp_end dlsym F); [|revert H1; apply inv_same]|]. intros [] s2 H2.
  apply wp_bind. eapply wp_mono; [apply (k_base (fun x => x <> th /\ F x)); [intros k; by apply turns_local|exact H2]|].
  intros [] s3 H3. by apply wp_ret.
Qed.
Lemma exit_turns (F : Z -> Prop) s th : ~ F th -> turns_inv F s ->
  wpx any_error (rand_pthread_exit dlsym true rand_wrappers th) (fun _ => turns_inv F) s.
Proof using Type.
  intros HF Hs. unfold rand_pthread_exit. apply wp_bind.
  eapply wp_mono; [apply (k_base F); [intros k; apply keep_gets|exact Hs]|]. intros ent s1 H1. apply wp_bind.
  assert (forall s, turns_inv F s -> wpx any_error (fps ← base (gets resolved);
    if decide ("pthread_exit"%string ∈ fps) then mret tt else fail NullDeref : RM unit) (fun _ => turns_inv F) s) as Hend.
  { intros s' Hs'. apply wp_bind. eapply wp_mono; [apply (k_base F); [intros k; apply keep_gets|exact Hs']|].
    intros fps s2 H2. by destruct (decide _). }
  destruct ent; [apply wp_ret; by apply Hend|].
  apply wp_bind. eapply wp_mono; [by apply wp_start|]. intros app s2 H2.
  apply wp_bind. eapply wp_mono; [apply (k_rand_RESOLVE (fun x => x = th \/ F x)); assumption|]. intros [] s3 H3.
  apply wp_bind. eapply wp_mono; [apply (wp_end dlsym (fun x => x = th \/ F x)); [by left|exact H3]|]. intros [] s4 H4.
  assert (turns_inv F s4) as H5 by (revert H4; apply inv_weaken; intros x Hx; split; [by intros ->|by right]).
  eapply wp_mono; [apply (k_base F); [intros k; by apply turns_local|exact H5]|]. intros [] s5 H6. by apply Hend.
Qed.
Lemma wpx_run {St A} (m : M St A) (Q : A -> St -> Prop) s a s' : wpx any_error m Q s -> m s = Ok (a, s') -> Q a s'.
Proof using Type. unfold wpx. intros H Hrun. by rewrite Hrun in H. Qed.
Definition waiting (pending : gmap Z (wrapped * option timespec)) (th : Z) : Prop := is_Some (pending !! th).
Lemma step_turns c c' : rand_step dlsym true c c' -> turns_inv (waiting c.2) c.1 -> turns_inv (waiting c'.2) c'.1.
Proof using Type.
  intros Hstep Hinv.
  destruct Hstep as [s pending th w app s' Hp Hw Hrun|s pending th w app r s' Hp Hrun|s pending th s' Hp Hrun]; simpl in *.
  - eapply inv_weaken; [|exact (wpx_run _ _ _ _ _ (begin_turns (waiting pending) s th w Hinv) Hrun)].
    intros x. unfold waiting. destruct (decide (x = th)) as [->|]; [by left|]. rewrite lookup_insert_ne by done. by right.
  - assert (waiting pending th) as Hth by (by exists (w, app)).
    eapply inv_weaken; [|exact (wpx_run _ _ _ _ _ (finish_turns (waiting pending) s th w app Hth Hinv) Hrun)].
    intros x. unfold waiting. intros [? Hx]. split; [by intros ->; rewrite lookup_delete_eq in Hx|].
    by apply lookup_delete_Some in Hx as [? ?].
  - assert (~ waiting pending th) as Hth by (unfold waiting; rewrite Hp; by intros []).
    exact (wpx_run _ _ _ _ _ (exit_turns (waiting pending) s th Hth Hinv) Hrun).
Qed.
Lemma steps_turns c c' : rtc (rand_step dlsym true) c c' -> turns_inv (waiting c.2) c.1 -> turns_inv (waiting c'.2) c'.1.
Proof using Type. induction 1 as [c|c c1 c2 Hstep _ IH]; [done|]. intros Hc. by apply IH, (step_turns c). Qed.
Lemma reach_turns s pending : rand_reach dlsym true (s, pending) -> turns_inv (waiting pending) s.
Proof using Type.
  intros (s0 & (H1 & H2 & H3 & H4 & H5) & Hsteps).
  assert (turns_inv (waiting ∅) s0) as H0.
  { assert (forall th, turn_of s0 th = -1) as Ht by (intros th; unfold turn_of, local_of; by rewrite H3).
    assert (forall th, log_of s0 th = []) as Hl by (intros th; unfold log_of; by rewrite H5).
    split; [by rewrite H4|]. exists (fun _ => None). split_and!; [done|..]; intros th; rewrite ?Ht, ?Hl.
    - by left.
    - constructor.
    - constructor.
    - by intros []. }
  exact (steps_turns _ _ Hsteps H0).
Qed.
End executions.

Lemma sorted_lookup {A} (R : A -> A -> Prop) l : StronglySorted R l ->
  forall i j a b, l !! i = Some a -> l !! j = Some b -> (i < j)%nat -> R a b.
Proof.
  induction 1 as [|x l Hs IH Hx]; intros [|i] [|j] a b Ha Hb Hij; simpl in *; try done; try lia.
  - injection Ha as <-. by eapply Forall_lookup_1 in Hx.
  - apply (IH i j); (done || lia).
Qed.

(** C37: The turns in the logs of the interceptor order all logged operations.  However the
    calls of the threads overlap, and whatever calls backtrace makes while a line is being
    written, two lines, of one thread or of different threads, have different turns, and the
    turn of a line is less than the next one. *)
Theorem logged_turns_unique (dlsym : string -> bool) (s : rstate) pending (th1 th2 : Z) (l1 l2 : list rand_line)
    (i j : nat) (a b : rand_line) :
  rand_reach dlsym true (s, pending) -> r_logs s !! th1 = Some l1 -> r_logs s !! th2 = Some l2 ->
  l1 !! i = Some a -> l2 !! j = Some b ->
  0 <= rl_turn a < r_turn s /\ (rl_turn a = rl_turn b -> th1 = th2 /\ i = j).
Proof.
  intros (H0 & own & H1 & H2 & H3 & H4 & _)%reach_turns Hl1 Hl2 Ha Hb.
  pose proof (H3 th1) as Ha3. pose proof (H3 th2) as Hb3. pose proof (H4 th1) as Hs1.
  unfold log_of in *. rewrite Hl1 in Ha3, Hs1. rewrite Hl2 in Hb3. simpl in *.
  eapply Forall_lookup_1 in Ha3 as [Hra Hoa], Hb3 as [Hrb Hob]; [|done..].
  split.
  - split; [lia|]. destruct (Z.lt_ge_cases (rl_turn a) (r_turn s)) as [|Hge]; [done|]. by rewrite (H1 _ Hge) in Hoa.
  - intros Heq. rewrite Heq, Hob in Hoa. injection Hoa as ->. split; [done|]. rewrite Hl1 in Hl2. injection Hl2 as <-.
    destruct (Nat.lt_trichotomy i j) as [Hij|[Hij|Hij]]; [|done|];
      [pose proof (sorted_lookup _ _ Hs1 i j a b Ha Hb Hij)
      |pose proof (sorted_lookup _ _ Hs1 j i b a Hb Ha Hij)]; simpl in *; lia.
Qed.
(** two threads whose calls overlap: thread 8 unlocks the mutex that thread 7 waits for; the
    backtraces of thread 7 lock and unlock a mutex *)
Inductive rand_event : Type := EBegin (w : wrapped) | EFinish.
Fixpoint run_events (dlsym : string -> bool) (log : bool) (l : list (Z * rand_event))
    (c : rstate * gmap Z (wrapped * option timespec)) : option (rstate * gmap Z (wrapped * option timespec)) :=
  match l with
  | [] => Some c
  | (th, EBegin w) :: l =>
      match c.2 !! th, begin_call dlsym log th w c.1 with
      | None, Ok (app, s') => run_events dlsym log l (s', <[th := (w, app)]> c.2)
      | _, _ => None
      end
  | (th, EFinish) :: l =>
      match c.2 !! th with
      | Some (w, app) =>
          match finish_call dlsym log rand_wrappers th w app c.1 with
          | Ok (_, s') => run_events dlsym log l (s', delete th c.2)
          | Err _ => None
          end
      | None => None
      end
  end.
Definition event_ok (e : rand_event) : Prop := match e with EBegin w => w ∈ rand_wrappers | EFinish => True end.
Lemma run_events_steps dlsym log l : forall c c', Forall (fun e => event_ok e.2) l -> run_events dlsym log l c = Some c' ->
  rtc (rand_step dlsym log) c c'.
Proof.
  induction l as [|[th e] l IH]; intros [s pending] c' Hok Hrun; simpl in Hrun; [injection Hrun as <-; apply rtc_refl|].
  apply Forall_cons in Hok as [He Hok]. simpl in He. destruct e as [w|]; simpl in Hrun.
  - destruct (pending !! th) eqn:Hp; [done|]. destruct (begin_call _ _ _ _ _) as [[app s1]|] eqn:Hb; [|done].
    eapply rtc_l; [by eapply step_begin|by apply IH].
  - destruct (pending !! th) as [[w app]|] eqn:Hp; [|done].
    destruct (finish_call _ _ _ _ _ _ _) as [[r s1]|] eqn:Hb; [|done]. eapply rtc_l; [by eapply step_finish|by apply IH].
Qed.
Definition rand_demo_start : rstate :=
  RState (PState 0 0 ∅ ∅ ∅ (Timespec 0 0) ((fun n => Timespec (100 + Z.of_nat n) 0) <$> seq 0 30)
    (repeat (0, 0) 20) (repeat 25 10)
    (repeat (Trace [1; 2; 4198600; 4; 5] ["pthread_mutex_lock"; "pthread_mutex_unlock"]%string) 10)) 0 ∅.
Definition rand_demo_events : list (Z * rand_event) :=
  [(7, EBegin (plain "pthread_mutex_lock")); (8, EBegin (plain "pthread_mutex_unlock")); (8, EFinish); (7, EFinish);
   (7, EBegin (plain "pthread_mutex_unlock")); (7, EFinish)].
Definition rand_demo (log : bool) : rstate * gmap Z (wrapped * option timespec) :=
  default (rand_demo_start, ∅) (run_events (fun _ => true) log rand_demo_events (rand_demo_start, ∅)).
Example rand_demo_turns : (fun th => rl_turn <$> log_of (rand_demo true).1 th) <$> [7; 8] = [[8; 5]; [3]].
Proof. by vm_compute. Qed.
Lemma rand_demo_reach : rand_reach (fun _ => true) true ((rand_demo true).1, (rand_demo true).2).
Proof.
  rewrite <-surjective_pairing. exists rand_demo_start. split; [by split_and!|]. apply (run_events_steps _ _ rand_demo_events).
  - repeat constructor; (exact I || (apply list_elem_of_In; simpl; tauto)).
  - by vm_compute.
Qed.
Definition demo_line (th : Z) (i : nat) : rand_line :=
  default (RandLine "" 0 0 (Timespec 0 0) (Timespec 0 0) 0) (log_of (rand_demo true).1 th !! i).
Lemma logged_turns_unique_witness :
  rl_turn (demo_line 7 1) = 5 /\ rl_turn (demo_line 8 0) = 3 /\ 0 <= rl_turn (demo_line 7 1) < r_turn (rand_demo true).1.
Proof.
  split_and!; [by vm_compute|by vm_compute|..];
    apply (logged_turns_unique (fun _ => true) (rand_demo true).1 (rand_demo true).2 7 8
      (log_of (rand_demo true).1 7) (log_of (rand_demo true).1 8) 1 0 (demo_line 7 1) (demo_line 8 0));
    (exact rand_demo_reach || by vm_compute).
Defined.

(** ** Without logging *)
Lemma rand_wrappers_plain w : w ∈ rand_wrappers -> w_resolve w = w_call w.
Proof.
  intros Hw. assert (Forall (fun w => w_resolve w = w_call w) rand_wrappers) as Hall by (repeat constructor).
  rewrite Forall_forall in Hall. by apply Hall.
Qed.
(** As it is built, the interceptor does nothing but count the threads: a call of a thread
    that has its number returns what the function of the C library returns and leaves its
    errno; it does not read the clock, takes no turn, logs nothing and changes no other
    thread's variables. *)
Theorem interceptor_transparent (dlsym : string -> bool) (th : Z) (w : wrapped) (s : rstate) ret err rs :
  w ∈ rand_wrappers -> dlsym (w_call w) = true -> self_tid (local_of (r_base s) th) <> -1 ->
  p_results (r_base s) = (ret, err) :: rs ->
  exists s', rand_wrapper dlsym DO_LOGGING rand_wrappers th w s = Ok (w_conv w ret, s') /\
    r_logs s' = r_logs s /\ r_turn s' = r_turn s /\ p_clock (r_base s') = p_clock (r_base s) /\
    p_results (r_base s') = rs /\ num_threads (r_base s') = num_threads (r_base s) /\
    local_of (r_base s') th = set_p_errno err (local_of (r_base s) th) /\
    forall th', th' <> th -> local_of (r_base s') th' = local_of (r_base s) th'.
Proof.
  intros Hw Hsym Htid Hres.
  assert (wp (rand_wrapper dlsym DO_LOGGING rand_wrappers th w) (fun a s' => a = w_conv w ret /\
    r_logs s' = r_logs s /\ r_turn s' = r_turn s /\ p_clock (r_base s') = p_clock (r_base s) /\
    p_results (r_base s') = rs /\ num_threads (r_base s') = num_threads (r_base s) /\
    local_of (r_base s') th = set_p_errno err (local_of (r_base s) th) /\
    forall th', th' <> th -> local_of (r_base s') th' = local_of (r_base s) th') s) as Hwp;
    [|apply wp_elim in Hwp as (a & s' & Hrun & -> & Hrest); by exists s'].
  pose proof (shape_start th (r_base s)) as Hs. rewrite Hres in Hs.
  unfold rand_wrapper. apply wp_bind. unfold begin_call, rand_OPERATION_START, rand_initTid, DO_LOGGING.
  apply wp_bind, wp_bind, wp_bind, wp_zoom. eapply wp_get_local; [exact Hs|]. rewrite (proj2 (Z.eqb_neq _ _) Htid).
  apply wp_ret, wp_ret, wp_bind, wp_zoom. rewrite (rand_wrappers_plain w Hw). change (r_base (set_r_base ?b s)) with b.
  eapply wp_RESOLVE; [exact Hs|done|]. intros s1 H1 Hin. apply wp_ret.
  unfold finish_call. apply wp_bind, wp_zoom. eapply wp_call_fp; [exact H1|done|]. intros s2 H2.
  apply wp_bind, wp_zoom. eapply wp_get_local; [exact H2|].
  unfold rand_OPERATION_END. apply wp_bind, wp_bind, wp_zoom. eapply wp_get_local; [exact H2|]. apply wp_ret.
  apply wp_bind, wp_zoom. eapply wp_set_local; [exact H2|]. intros s3 (Hl & Ho & Hn & _ & _ & _ & Hc & Hr & _) _.
  apply wp_ret. by split_and!.
Qed.
Lemma interceptor_transparent_witness :
  exists s', rand_wrapper (fun _ => true) DO_LOGGING rand_wrappers 8 rand_recv_wrapper (rand_demo false).1 = Ok (0, s') /\
    r_logs s' = ∅.
Proof.
  destruct (interceptor_transparent (fun _ => true) 8 rand_recv_wrapper (rand_demo false).1 0 0 (repeat (0, 0) 16))
    as (s' & Hrun & Hl & _).
  - apply list_elem_of_In. simpl. tauto.
  - done.
  - by vm_compute.
  - by vm_compute.
  - exists s'. split; [exact Hrun|]. rewrite Hl. by vm_compute.
Defined.
