(* ===== verification/CodeGen.v ===== *)
(** * The generator of the interposition library: dync_hook/code_gen.cpp

    code_gen reads the list of the functions that are taken over (hook_func.def) and
    instantiates a template for each of them.  The loops that need not end ([replace]) or
    end with the input take fuel and run out of it as [OutOfFuel]; a std::out_of_range and
    an index outside a string are [OutOfBounds]. *)
From Stdlib Require Import Ascii.
From S2P Require Import Prelude LogText CText.

(** ** Substitution *)
Fixpoint replace (fuel : nat) (st pat tobe : text) : res text :=
  match fuel with
  | 0%nat => Err OutOfFuel
  | S fuel' =>
      match find pat st with
      | None => Ok st
      | Some p => replace fuel' (splice st p (length pat) tobe) pat tobe
      end
  end.

(** ** Names of types *)
Definition filter : list text := map txt
  [ "const"; "void"; "int"; "unsigned"; "pthread_mutex_t"; "restrict"; "pthread_mutexattr_t";
    "struct"; "timespec"; "time_t"; "clockid_t"; "timeval"; "timezone"; "pthread_cond_t"; "sem_t";
    "pthread_barrier_t"; "pthread_barrierattr_t"; "useconds_t"; "__useconds_t"; "sockaddr";
    "size_t"; "ssize_t"; "pid_t"; "msghdr"; "socklen_t"; "epoll_event"; "pthread_rwlock_t" ]%string.
Definition filtered (w : text) : bool := bool_decide (w ∈ filter).
Definition goodchar (ch : Ascii.ascii) : bool :=
  let n := Z.of_N (Ascii.N_of_ascii ch) in
  ((n <=? 90) && (65 <=? n)) || ((n <=? 122) && (97 <=? n)) || ((n <=? 57) && (48 <=? n)) || (n =? 95).

(** ** The parts of one definition *)
Record func_def : Type := FuncDef {
  func_ret_type : text; func_name : text; lib_path : text;
  args_with_name : text; args_without_name : text; args_only_name : text
}.

(** the loop over the characters of the argument list: (args_without_name, args_only_name) *)
Fixpoint split_args (fuel : nat) (st without only : text) : res (text * text) :=
  match fuel with
  | 0%nat => Err OutOfFuel
  | S fuel' =>
      let token := take_while goodchar st in
      let st := drop (length token) st in
      let next without only st :=
        match st with [] => Ok (without, only) | _ => split_args fuel' st without only end in
      match token with
      | _ :: _ => if filtered token then next (without ++ token) only st
                  else next without (only ++ token) st
      | [] =>
          match st with
          | [] => Ok (without, only)
          | c :: st' =>
              if Ascii.eqb c ","%char then next (without ++ [c]) (only ++ [c]) st'
              else next (without ++ [c]) only st'
          end
      end
  end.

(** [while (st[0] != '(') st = st.substr(1)]: substr throws when st is empty *)
Fixpoint trim_open (st : text) : res text :=
  match st with
  | [] => Err OutOfBounds
  | c :: st' => if Ascii.eqb c "("%char then Ok st else trim_open st'
  end.
(** [while (st[st.size() - 1] != ')') st = st.substr(0, st.size() - 1)], on the reversed string *)
Fixpoint trim_close_rev (st : text) : res text :=
  match st with
  | [] => Err OutOfBounds
  | c :: st' => if Ascii.eqb c ")"%char then Ok st else trim_close_rev st'
  end.
Definition trim_close (st : text) : res text :=
  match trim_close_rev (reverse st) with Ok r => Ok (reverse r) | Err e => Err e end.
(** the text between the outer parentheses: [st.substr(1, len - 2)] *)
Definition arg_list (st : text) : res text :=
  match trim_open st with
  | Ok st1 => match trim_close st1 with
              | Ok st2 => Ok (take (length st2 - 2) (drop 1 st2))
              | Err e => Err e
              end
  | Err e => Err e
  end.

(** ** Input *)
Definition BUFFER_SIZE : nat := 1024.
(** read_line: the result, [ret] and the rest of the input *)
Fixpoint read_line (fuel : nat) (ret fin : text) : res (bool * text * text) :=
  match fuel with
  | 0%nat => Err OutOfFuel
  | S fuel' =>
      match fgets BUFFER_SIZE fin with
      | None => Ok (false, ret, fin)
      | Some (buffer, fin') =>
          let ret := rstrip (c_str buffer) in
          match ret with [] => read_line fuel' ret fin' | _ => Ok (true, ret, fin') end
      end
  end.

(** the reader as a state monad over the rest of the input; no value at the end of the input *)
Definition R (A : Type) : Type := M text A.
Definition read_or_break : R (option text) := fun fin =>
  match read_line (S (length fin)) [] fin with
  | Ok (ok, ret, fin') => Ok (if ok : bool then Some ret else None, fin')
  | Err e => Err e
  end.
(** [if (!read_line(fin, x)) break] *)
Definition or_break {A} (k : text -> R (option A)) : R (option A) :=
  x ← read_or_break; match x with Some x => k x | None => mret None end.

(** the loop that looks for the next definition: the flag it stops at *)
Fixpoint next_def (fuel : nat) : R (option text) :=
  match fuel with
  | 0%nat => fail OutOfFuel
  | S fuel' => or_break (fun flag =>
      if bool_decide (flag = txt "STARTDEF") || bool_decide (flag = txt "START_SHORT_DEFINE")
      then mret (Some flag) else next_def fuel')
  end.
(** [while (read_line(fin, flag) && flag != "SECTION") acc += flag] *)
Fixpoint section (fuel : nat) (acc : text) : R text :=
  match fuel with
  | 0%nat => fail OutOfFuel
  | S fuel' =>
      flag ← read_or_break;
      match flag with
      | Some flag => if bool_decide (flag = txt "SECTION") then mret acc else section fuel' (acc ++ flag)
      | None => mret acc
      end
  end.

Definition lift_res {S A} (r : res A) : M S A := match r with Ok a => mret a | Err e => fail e end.

Definition start_def (fuel : nat) : R (option func_def) :=
  or_break (fun func_ret_type => or_break (fun func_name => or_break (fun lib_path =>
    args_without_name ← section fuel []; args_with_name ← section fuel []; args_only_name ← section fuel [];
    mret (Some (FuncDef func_ret_type func_name lib_path args_with_name args_without_name args_only_name))))).
Definition start_short_define : R (option func_def) :=
  or_break (fun lib_path => or_break (fun func_ret_type => or_break (fun func_name => or_break (fun st =>
    args ← lift_res (arg_list st);
    parts ← lift_res (split_args (S (length args)) args [] []);
    mret (Some (FuncDef func_ret_type func_name lib_path args parts.1 parts.2)))))).
(** one round of the loop of convert up to print_func; None: the loop ends.  Every round of
    the loops in it consumes input *)
Definition read_def : R (option func_def) := fun fin =>
  let fuel := S (length fin) in
  (flag ← next_def fuel;
   match flag with
   | None => mret None
   | Some flag => if bool_decide (flag = txt "STARTDEF") then start_def fuel else start_short_define
   end) fin.

(** ** Output *)
Record patterns : Type := Patterns {
  func_pattern : text; void_func_pattern : text; always_check_func_pattern : text; libPathPrefix : text
}.
Definition template_of (ps : patterns) (d : func_def) : text :=
  if bool_decide (func_name d = txt "pthread_create") || bool_decide (func_name d = txt "pthread_barrier_init")
  then always_check_func_pattern ps
  else if bool_decide (func_ret_type d = txt "void") then void_func_pattern ps else func_pattern ps.
Definition substitutions (ps : patterns) (d : func_def) : list (text * text) :=
  [ (txt "FUNC_RET_TYPE", func_ret_type d); (txt "FUNC_NAME", func_name d);
    (txt "ARGS_WITH_NAME", args_with_name d); (txt "ARGS_WITHOUT_NAME", args_without_name d) ] ++
  match args_only_name d with
  | [] => [ (txt ", ARGS_ONLY_NAME", []); (txt "ARGS_ONLY_NAME", []) ]
  | only => [ (txt "ARGS_ONLY_NAME", only) ]
  end ++ [ (txt "LIB_PATH", libPathPrefix ps ++ lib_path d) ].
Fixpoint replace_all (fuel : nat) (pattern : text) (l : list (text * text)) : res text :=
  match l with
  | [] => Ok pattern
  | (pat, tobe) :: l' =>
      match replace fuel pattern pat tobe with Ok pattern' => replace_all fuel pattern' l' | Err e => Err e end
  end.
Definition print_func (fuel : nat) (ps : patterns) (d : func_def) : res text :=
  replace_all fuel (template_of ps d) (substitutions ps d).
(** the line of hook_type_def.h *)
Definition print_type (d : func_def) : text :=
  txt "typedef " ++ func_ret_type d ++ txt " (*__" ++ func_name d ++ txt "_funcdef)(" ++ args_with_name d ++
  txt ");" ++ [newline].

(** the loop of convert; [fuel] is for [replace] *)
Fixpoint convert_loop (rounds fuel : nat) (ps : patterns) (fin hook_cpp types : text) : res (text * text) :=
  match rounds with
  | 0%nat => Err OutOfFuel
  | S rounds' =>
      match read_def fin with
      | Err e => Err e
      | Ok (None, _) => Ok (hook_cpp, types)
      | Ok (Some d, fin') =>
          match print_func fuel ps d with
          | Err e => Err e
          | Ok body => convert_loop rounds' fuel ps fin' (hook_cpp ++ body) (types ++ print_type d)
          end
      end
  end.
(** what convert writes into template.cpp and hook_type_def.h *)
Definition convert (fuel : nat) (ps : patterns) (fin : text) : res (text * text) :=
  convert_loop (S (length fin)) fuel ps fin [] [].
(** read_file: the C strings of the buffers one after the other *)
Fixpoint read_file (fuel : nat) (file : text) : res text :=
  match fuel with
  | 0%nat => Err OutOfFuel
  | S fuel' =>
      match fgets BUFFER_SIZE file with
      | None => Ok []
      | Some (buffer, rest) => match read_file fuel' rest with Ok r => Ok (c_str buffer ++ r) | Err e => Err e end
      end
  end.

(** ** main *)
(** [s.substr(0, s.find_last_of("/"))]: all of [s] when it has no slash *)
Definition dir_of (s : text) : text :=
  match skip_while (fun c => negb (Ascii.eqb c "/"%char)) (reverse s) with
  | [] => s
  | _ :: r => reverse r
  end.
(** [library] is the file name that dladdr gives for the caller of main; the files are the
    three templates, in the order of the arguments *)
Definition code_gen_main (fuel : nat) (library : text) (file1 file2 file3 stdin : text) : res (text * text) :=
  match read_file (S (length file1)) file1, read_file (S (length file2)) file2, read_file (S (length file3)) file3 with
  | Ok f, Ok v, Ok a => convert fuel (Patterns f v a (dir_of library)) stdin
  | _, _, _ => Err OutOfFuel
  end.
