(* ===== verification/CodeGenThms.v ===== *)
(** * Properties of the generator: replacement, argument lists and whole runs *)
From Stdlib Require Import Ascii.
From S2P Require Import Prelude LogText CText CodeGen.

(** ** replace *)
Section replace.
Context (pat tobe : text).
Implicit Types st a b x y z : text.

(** what replacing means: each occurrence that is found from left to right is replaced once *)
Inductive substituted : text -> text -> Prop :=
| subst_none st : (forall a b, st <> a ++ pat ++ b) -> substituted st st
| subst_first a b b' : find pat (a ++ pat ++ b) = Some (length a) -> substituted b b' ->
    substituted (a ++ pat ++ b) (a ++ tobe ++ b').

(** *** It ends when some character of the pattern is not in the replacement *)
Fixpoint count (c : Ascii.ascii) (l : text) : nat :=
  match l with [] => 0%nat | d :: l' => ((if Ascii.eqb d c then 1 else 0) + count c l')%nat end.
Lemma count_app c a b : count c (a ++ b) = (count c a + count c b)%nat.
Proof using Type. induction a as [|d a IH]; simpl; [done|]. rewrite IH. lia. Qed.
Lemma count_0 c l : c ∉ l -> count c l = 0%nat.
Proof using Type.
  induction l as [|d l IH]; simpl; [done|]. rewrite not_elem_of_cons. intros [Hd Hl].
  destruct (Ascii.eqb_spec d c); [by subst|]. by apply IH.
Qed.
Lemma count_pos c l : c ∈ l -> (0 < count c l)%nat.
Proof using Type. induction 1; simpl; [rewrite Ascii.eqb_refl|]; lia. Qed.

Lemma replace_ends c fuel st : c ∈ pat -> c ∉ tobe -> (count c st < fuel)%nat ->
  exists st', replace fuel st pat tobe = Ok st' /\ forall a b, st' <> a ++ pat ++ b.
Proof using Type.
  intros Hc Ht. revert st. induction fuel as [|fuel IH]; intros st Hf; [lia|]. cbn [replace].
  destruct (find pat st) as [p|] eqn:Hp; [|exists st; split; [done|by apply find_None]]. apply IH.
  pose proof (find_Some _ _ _ Hp) as Hst. unfold splice. rewrite !count_app, (count_0 c tobe) by done.
  rewrite Hst, !count_app in Hf. pose proof (count_pos c pat Hc). lia.
Qed.

(** *** It never ends when the replacement contains the pattern *)
Lemma replace_loops fuel st a b x y : tobe = a ++ pat ++ b -> st = x ++ pat ++ y ->
  replace fuel st pat tobe = Err OutOfFuel.
Proof using Type.
  intros Ht. revert st x y. induction fuel as [|fuel IH]; intros st x y ->; cbn [replace]; [done|].
  destruct (find_app pat x y) as [p Hp]. rewrite Hp.
  apply (IH _ (take p (x ++ pat ++ y) ++ a) (b ++ drop (p + length pat) (x ++ pat ++ y))).
  unfold splice. by rewrite Ht, <-!(assoc_L (++)).
Qed.

(** *** It is one left-to-right pass when the inserted text cannot be part of an occurrence *)
Section one_pass.
Context (h c : Ascii.ascii) (pt t : text) (Hpat : pat = h :: pt) (Htobe : tobe = c :: t)
        (Hh : h ∉ tobe) (Hc : c ∉ pat).

(** no occurrence starts in [x], whatever follows *)
Definition clean x : Prop := forall b, find pat (x ++ b) = (fun p => length x + p)%nat <$> find pat b.

Lemma find_skip z b : ~ pat `prefix_of` z ++ b -> z <> [] -> find pat (z ++ b) = S <$> find pat (tail z ++ b).
Proof using Type. destruct z as [|d z]; intros Hp Hz; [by destruct Hz|]. simpl in *. by rewrite decide_False by done. Qed.
Lemma clean_intro x : (forall y z b, x = y ++ z -> z <> [] -> ~ pat `prefix_of` z ++ b) -> clean x.
Proof using Type.
  induction x as [|d x IH]; intros H b; [by simpl; destruct (find pat b)|].
  rewrite find_skip; [|by apply (H [])|done]. simpl. rewrite IH.
  - by destruct (find pat b); simpl.
  - intros y z b' -> Hz. by apply (H (d :: y)).
Qed.
Lemma clean_app x y : clean x -> clean y -> clean (x ++ y).
Proof using Type.
  intros Hx Hy b. rewrite <-(assoc_L (++)), Hx, Hy, length_app. destruct (find pat b); simpl; f_equal; lia.
Qed.
Lemma prefix_split z u b : pat `prefix_of` z ++ u ++ b -> pat `prefix_of` z \/ exists w, w <> [] /\ pat = z ++ w /\ w `prefix_of` u ++ b.
Proof using Type.
  intros [k Hk]. destruct (decide (length pat <= length z)%nat) as [Hl|Hl].
  - left. exists (drop (length pat) z). rewrite <-(take_drop (length pat) z) at 1. f_equal.
    apply (f_equal (take (length pat))) in Hk. by rewrite take_app_le, take_app_length in Hk by done.
  - right. exists (drop (length z) pat).
    assert (pat = z ++ drop (length z) pat) as Hp.
    { rewrite <-(take_drop (length z) pat) at 1. f_equal.
      apply (f_equal (take (length z))) in Hk. rewrite take_app_length, take_app_le in Hk by lia. done. }
    split; [|split; [done|]].
    + intros Hn. apply (f_equal length) in Hn. rewrite length_drop in Hn. simpl in Hn. lia.
    + exists k. rewrite Hp in Hk. rewrite <-(assoc_L (++)) in Hk. by apply app_inv_head in Hk.
Qed.
Lemma clean_cut a b : find pat (a ++ pat ++ b) = Some (length a) -> clean (a ++ tobe).
Proof using All.
  intros Hf. apply clean_intro. intros y z b' Heq Hz Hp.
  apply app_eq_app in Heq as (k & [[-> ->]|[-> ->]]).
  - (* the occurrence would start in [a] *)
    destruct k as [|d k].
    + simpl in *. rewrite Htobe, Hpat in Hp. apply prefix_cons_inv_1 in Hp as ->. apply Hh. rewrite Htobe. left.
    + rewrite <-(assoc_L (++)) in Hp. apply prefix_split in Hp as [Hp|(w & Hw & Heq & Hp)].
      * eapply (find_first pat _ _ (length y) Hf); [rewrite length_app; simpl; lia|].
        rewrite <-!(assoc_L (++)), drop_app_length. by apply prefix_app_r.
      * destruct w as [|e w]; [done|]. rewrite Htobe in Hp. apply prefix_cons_inv_1 in Hp as ->.
        apply Hc. rewrite Heq. apply elem_of_app. right. left.
  - (* ... in the inserted text *)
    destruct z as [|d z]; [done|]. rewrite Hpat in Hp. apply prefix_cons_inv_1 in Hp as <-.
    apply Hh. apply elem_of_app. right. left.
Qed.

Lemma replace_clean fuel : forall x st, clean x ->
  replace fuel (x ++ st) pat tobe = match replace fuel st pat tobe with Ok r => Ok (x ++ r) | Err e => Err e end.
Proof using All.
  induction fuel as [|fuel IH]; intros x st Hx; cbn [replace]; [done|]. rewrite Hx.
  destruct (find pat st) as [p|] eqn:Hp; [|done]. cbn [fmap option_fmap option_map].
  unfold splice. rewrite take_app_add, <-Nat.add_assoc, drop_app_add, <-(assoc_L (++)).
  by rewrite IH.
Qed.
Lemma replace_substituted fuel : forall st, (length st < fuel)%nat ->
  exists st', replace fuel st pat tobe = Ok st' /\ substituted st st'.
Proof using All.
  induction fuel as [|fuel IH]; intros st Hf; [lia|]. cbn [replace].
  destruct (find pat st) as [p|] eqn:Hp.
  - pose proof (find_Some _ _ _ Hp) as Hst. pose proof (f_equal length Hst) as Hlen. rewrite !length_app in Hlen.
    assert (0 < length pat)%nat by (rewrite Hpat; simpl; lia).
    assert (length (take p st) = p) as Hlp.
    { rewrite length_take in *. assert (p <= length st)%nat; [|lia].
      destruct (decide (p <= length st)%nat); [done|]. rewrite length_drop in Hlen. lia. }
    set (b := drop (p + length pat) st) in *. destruct (IH b) as (b' & Hb & Hs); [lia|].
    exists (take p st ++ tobe ++ b'). split.
    + unfold splice. rewrite (assoc_L (++)), replace_clean.
      * fold b. by rewrite Hb, <-(assoc_L (++)).
      * apply (clean_cut _ b). by rewrite <-Hst, Hlp.
    + rewrite Hst at 1. constructor; [|done]. by rewrite <-Hst, Hlp.
  - exists st. split; [done|]. constructor. by apply find_None.
Qed.
End one_pass.
End replace.

(** ** The argument list of a short definition *)

(** [st] up to the first character for which [p] is false *)
Lemma take_while_app p w st : forallb p w = true -> take_while p (w ++ st) = w ++ take_while p st.
Proof. induction w as [|c w IH]; simpl; [done|]. intros [-> Hw]%andb_true_iff. by rewrite IH. Qed.
Lemma take_while_prefix p st : exists r, st = take_while p st ++ r.
Proof.
  induction st as [|c st [r IH]]; simpl; [by exists []|]. destruct (p c); [|by exists (c :: st)].
  exists r. simpl. by f_equal.
Qed.
Lemma take_while_drop p st : drop (length (take_while p st)) st = skip_while p st.
Proof. induction st as [|c st IH]; simpl; [done|]. by destruct (p c). Qed.

(** more fuel than characters changes nothing *)
Lemma split_args_fuel f1 : forall f2 st wo on, (length st < f1)%nat -> (length st < f2)%nat ->
  split_args f1 st wo on = split_args f2 st wo on.
Proof.
  induction f1 as [|f1 IH]; intros [|f2] st wo on H1 H2; [lia..|]. cbn [split_args].
  destruct (take_while_prefix goodchar st) as [r Hr]. pose proof (f_equal length Hr) as Hl. rewrite length_app in Hl.
  destruct (take_while goodchar st) as [|c w]; simpl in *.
  - destruct st as [|c st]; [done|]. simpl in *.
    destruct (Ascii.eqb c ","%char); destruct st as [|d st]; (done || apply IH; simpl in *; lia).
  - destruct (drop _ st) as [|d st'] eqn:Hd; [by destruct (filtered _)|].
    apply (f_equal length) in Hd. rewrite length_drop in Hd. simpl in Hd.
    destruct (filtered _); apply IH; simpl in *; lia.
Qed.
Definition split_all (st without only : text) : res (text * text) := split_args (S (length st)) st without only.

Lemma split_all_nil wo on : split_all [] wo on = Ok (wo, on).
Proof. done. Qed.
(** [next] of the loop *)
Lemma split_next fuel st wo on : (length st < fuel)%nat ->
  match st with [] => Ok (wo, on) | _ => split_args fuel st wo on end = split_all st wo on.
Proof. destruct st; [done|]. intros H. apply split_args_fuel; [done|]. simpl. lia. Qed.

Definition bounded (st : text) : bool := match st with [] => true | c :: _ => negb (goodchar c) end.
Lemma split_token w st wo on : w <> [] -> forallb goodchar w = true -> bounded st = true ->
  split_all (w ++ st) wo on = if filtered w then split_all st (wo ++ w) on else split_all st wo (on ++ w).
Proof.
  intros Hw Hg Hb. unfold split_all at 1. cbn [split_args]. rewrite take_while_app by done.
  assert (take_while goodchar st = []) as -> by (destruct st as [|c st]; simpl in *; [done|by destruct (goodchar c)]).
  rewrite app_nil_r, drop_app_length. destruct w as [|d w]; [done|]. simpl length.
  destruct (filtered _); apply split_next; rewrite length_app; lia.
Qed.
Lemma split_other c st wo on : goodchar c = false ->
  split_all (c :: st) wo on =
  split_all st (wo ++ [c]) (if Ascii.eqb c ","%char then on ++ [c] else on).
Proof.
  intros Hg. unfold split_all at 1. cbn [split_args take_while]. rewrite Hg. cbn [length drop].
  destruct (Ascii.eqb c ","%char); apply split_next; lia.
Qed.

(** a type is written as words that are names of types and other characters, the last one
    another character: each piece is a word, which can be empty, and the character after it *)
Definition piece : Type := text * Ascii.ascii.
Definition piece_text (p : piece) : text := p.1 ++ [p.2].
Definition piece_ok (p : piece) : bool :=
  forallb goodchar p.1 && (bool_decide (p.1 = []) || filtered p.1) &&
  negb (goodchar p.2) && negb (Ascii.eqb p.2 ","%char).
Record param : Type := Param { p_type : list piece; p_name : text }.
Definition type_text (p : param) : text := mjoin (piece_text <$> p_type p).
Definition decl (p : param) : text := type_text p ++ p_name p.
Definition param_ok (p : param) : bool :=
  forallb piece_ok (p_type p) && negb (bool_decide (p_name p = [])) &&
  forallb goodchar (p_name p) && negb (filtered (p_name p)).
(** the items of a list with commas between them *)
Fixpoint commas (l : list text) : text :=
  match l with [] => [] | [x] => x | x :: l' => x ++ ","%char :: commas l' end.

Lemma split_piece p st wo on : piece_ok p = true ->
  split_all (piece_text p ++ st) wo on = split_all st (wo ++ piece_text p) on.
Proof.
  unfold piece_ok, piece_text. destruct p as [w c]. simpl. rewrite !andb_true_iff, !negb_true_iff, orb_true_iff.
  intros [[[Hg Hf] Hc] Hcomma]. rewrite <-(assoc_L (++)).
  assert (split_all ([c] ++ st) (wo ++ w) on = split_all st (wo ++ w ++ [c]) on) as Hlast.
  { simpl. by rewrite split_other, Hcomma, (assoc_L (++)) by done. }
  destruct (decide (w = [])) as [->|Hw]; [by rewrite app_nil_r in Hlast|].
  destruct Hf as [Hf|Hf]; [by apply bool_decide_eq_true in Hf|].
  rewrite split_token, Hf by (done || simpl; by rewrite Hc). done.
Qed.
Lemma split_decl p st wo on : param_ok p = true -> bounded st = true ->
  split_all (decl p ++ st) wo on = split_all st (wo ++ type_text p) (on ++ p_name p).
Proof.
  unfold param_ok, decl, type_text. destruct p as [ps n]. simpl. rewrite !andb_true_iff, !negb_true_iff, forallb_forall.
  intros [[[Hps Hn] Hg] Hf] Hb. apply bool_decide_eq_false in Hn. rewrite <-(assoc_L (++)). revert wo.
  induction ps as [|p ps IH]; intros wo; simpl.
  - by rewrite split_token, Hf, app_nil_r by done.
  - rewrite <-(assoc_L (++)), split_piece by (apply Hps; by left).
    rewrite IH by (intros q Hq; apply Hps; by right). by rewrite <-(assoc_L (++)).
Qed.

(** C39: For an argument list of a short definition whose parameters are declared by known
    types and names that are not types, the generated call passes exactly the names in
    their order, and the generated prototype has exactly the types. *)
Theorem short_define_args (ps : list param) : Forall (fun p => param_ok p = true) ps ->
  split_args (S (length (commas (decl <$> ps)))) (commas (decl <$> ps)) [] [] =
  Ok (commas (type_text <$> ps), commas (p_name <$> ps)).
Proof.
  intros Hps. change (split_all (commas (decl <$> ps)) [] [] = Ok (commas (type_text <$> ps), commas (p_name <$> ps))).
  assert (forall wo on, split_all (commas (decl <$> ps)) wo on =
    Ok (wo ++ commas (type_text <$> ps), on ++ commas (p_name <$> ps))) as H; [|by rewrite H].
  induction Hps as [|p ps Hp Hps IH]; intros wo on; simpl; [by rewrite !app_nil_r|].
  destruct ps as [|q ps]; simpl in *.
  - rewrite <-(app_nil_r (decl p)), split_decl by done. done.
  - rewrite split_decl, split_other by done. simpl. by rewrite IH, <-!(assoc_L (++)).
Qed.

Lemma short_define_args_witness :
  let ps := [ Param [(txt "const", " "%char); (txt "struct", " "%char); (txt "timespec", " "%char); ([], "*"%char)] (txt "req");
              Param [([], " "%char); (txt "int", " "%char)] (txt "flags") ] in
  commas (decl <$> ps) = txt "const struct timespec *req, int flags" /\
  split_args (S (length (commas (decl <$> ps)))) (commas (decl <$> ps)) [] [] =
  Ok (txt "const struct timespec *, int ", txt "req,flags").
Proof. intros ps. split; [done|]. apply (short_define_args ps). repeat constructor. Defined.

(** The loop of replace ends when the pattern has a character that the replacement does
    not have, and then no occurrence is left; it runs for ever when the replacement contains
    the pattern and the text has an occurrence. *)
Theorem replace_termination (st pat tobe : text) :
  ((exists c, c ∈ pat /\ c ∉ tobe) ->
     exists fuel st', replace fuel st pat tobe = Ok st' /\ forall a b, st' <> a ++ pat ++ b) /\
  ((exists a b, tobe = a ++ pat ++ b) -> (exists x y, st = x ++ pat ++ y) ->
     forall fuel, replace fuel st pat tobe = Err OutOfFuel).
Proof.
  split.
  - intros (c & Hc & Ht). exists (S (count c st)). apply (replace_ends _ _ c); [done..|lia].
  - intros (a & b & Ht) (x & y & Hs) fuel. by eapply replace_loops.
Qed.

(** C38: When the first character of the pattern is not in the replacement and the first
    character of the replacement is not in the pattern, replace returns within as many
    rounds as the text has characters, and what it does is one pass that replaces every
    occurrence found from left to right. *)
Theorem replace_simultaneous (h c : Ascii.ascii) (pt t st : text) :
  h ∉ c :: t -> c ∉ h :: pt ->
  exists st', replace (S (length st)) st (h :: pt) (c :: t) = Ok st' /\ substituted (h :: pt) (c :: t) st st'.
Proof. intros Hh Hc. eapply replace_substituted; [done..|lia]. Qed.
Lemma replace_simultaneous_witness :
  let st := txt "ret = tern_FUNC_NAME(eip); // FUNC_NAME" in
  replace 40 st (txt "FUNC_NAME") (txt "sem_wait") = Ok (txt "ret = tern_sem_wait(eip); // sem_wait") /\
  exists st', replace (S (length st)) st (txt "FUNC_NAME") (txt "sem_wait") = Ok st' /\
    substituted (txt "FUNC_NAME") (txt "sem_wait") st st'.
Proof.
  intros st. split; [vm_compute; reflexivity|].
  apply replace_simultaneous; rewrite !not_elem_of_cons; repeat split; (done || apply not_elem_of_nil).
Defined.

(** ** A run on the definitions of two functions *)
Definition lines (l : list string) : text := mjoin ((fun s => txt s ++ [newline]) <$> l).
Definition example_defs : text := lines
  [ "STARTDEF"; "int "; "pthread_mutex_lock"; "/libpthread.so.0"; "pthread_mutex_t *"; "SECTION";
    "pthread_mutex_t *mutex"; "SECTION"; "mutex"; "SECTION"; "ENDDEF"; "";
    "START_SHORT_DEFINE"; "/libpthread.so.0"; "void"; "pthread_exit"; "(void *retval)"; "END_SHORT_DEFINE";
    "START_SHORT_DEFINE"; "/libc.so.6"; "pid_t"; "fork"; "()"; "END_SHORT_DEFINE" ]%string.
Definition example_patterns : patterns := Patterns
  (lines [ "FUNC_RET_TYPE FUNC_NAME(ARGS_WITH_NAME) { return tern_FUNC_NAME(eip, ARGS_ONLY_NAME); }" ]%string)
  (lines [ "FUNC_RET_TYPE FUNC_NAME(ARGS_WITH_NAME) { tern_FUNC_NAME(eip, ARGS_ONLY_NAME); }" ]%string)
  (lines [ "" ]%string) (txt "/lib").
Example convert_run : convert 100 example_patterns example_defs = Ok
  (lines [ "int pthread_mutex_lock(pthread_mutex_t *mutex) { return tern_pthread_mutex_lock(eip, mutex); }";
           "void pthread_exit(void *retval) { tern_pthread_exit(eip, retval); }";
           "pid_t fork() { return tern_fork(eip); }" ]%string,
   lines [ "typedef int (*__pthread_mutex_lock_funcdef)(pthread_mutex_t *mutex);";
           "typedef void (*__pthread_exit_funcdef)(void *retval);";
           "typedef pid_t (*__fork_funcdef)();" ]%string).
Proof. vm_compute. reflexivity. Qed.

(** ** The generator reads its input to the end *)
Section reading.
Definition not_fuel (e : error) : Prop := e <> OutOfFuel.

Lemma read_line_ok fuel : forall ret fin, (length fin < fuel)%nat ->
  match read_line fuel ret fin with
  | Ok (ok, _, fin') => (length fin' + (if ok : bool then 1 else 0) <= length fin)%nat
  | Err e => not_fuel e
  end.
Proof.
  induction fuel as [|fuel IH]; intros ret fin Hf; [lia|]. cbn [read_line].
  destruct (fgets BUFFER_SIZE fin) as [[buf fin']|] eqn:Hg; [|lia].
  apply fgets_lt in Hg; [|unfold BUFFER_SIZE; lia]. destruct (rstrip _) eqn:Hr; [|lia].
  specialize (IH [] fin' ltac:(lia)). destruct (read_line _ _ _) as [[[ok r] fin2]|]; [|done]. lia.
Qed.
(** a reader that consumes input when it gives a value, and never runs out of fuel *)
Definition consumes {A} (m : R (option A)) (n : nat) : Prop := forall fin, (length fin <= n)%nat ->
  wpx not_fuel m (fun r fin' => (length fin' <= length fin)%nat /\ (r <> None -> (length fin' < length fin)%nat)) fin.

Lemma or_break_ok {A} (k : text -> R (option A)) n :
  (forall x fin, (length fin < n)%nat -> wpx not_fuel (k x) (fun _ fin' => (length fin' <= length fin)%nat) fin) ->
  consumes (or_break k) n.
Proof.
  intros Hk fin Hn. unfold or_break. apply wp_bind. unfold wpx at 1, read_or_break.
  pose proof (read_line_ok (S (length fin)) [] fin ltac:(lia)) as H.
  destruct (read_line _ _ _) as [[[[] r] fin']|]; [|apply wp_ret; split; [lia|done]|done].
  eapply wp_mono; [apply Hk; lia|]. simpl. intros a fin2 H2. split; lia.
Qed.
Lemma consumes_le {A} (m : R (option A)) n fin : consumes m n -> (length fin <= n)%nat ->
  wpx not_fuel m (fun _ fin' => (length fin' <= length fin)%nat) fin.
Proof. intros H Hn. eapply wp_mono; [by apply H|]. simpl. tauto. Qed.
Lemma section_ok fuel : forall acc fin, (length fin < fuel)%nat ->
  wpx not_fuel (section fuel acc) (fun _ fin' => (length fin' <= length fin)%nat) fin.
Proof.
  induction fuel as [|fuel IH]; intros acc fin Hf; [lia|]. cbn [section]. apply wp_bind. unfold wpx at 1, read_or_break.
  pose proof (read_line_ok (S (length fin)) [] fin ltac:(lia)) as H.
  destruct (read_line _ _ _) as [[[[] r] fin']|]; [|apply wp_ret; lia|done].
  destruct (bool_decide _); [apply wp_ret; lia|]. eapply wp_mono; [apply IH; lia|]. simpl. lia.
Qed.
Lemma next_def_ok fuel : forall n, (n < fuel)%nat -> consumes (next_def fuel) n.
Proof.
  induction fuel as [|fuel IH]; intros n Hf; [lia|]. cbn [next_def]. apply or_break_ok. intros x fin Hl.
  destruct (_ || _); [by apply wp_ret|]. by apply (consumes_le _ (length fin)); [apply IH; lia|].
Qed.
Lemma lift_ok {A} (r : res A) Q fin : r <> Err OutOfFuel -> (forall a, Q a fin) -> wpx not_fuel (lift_res r : R A) Q fin.
Proof. destruct r; intros H HQ; [apply HQ|]. by intros ->. Qed.

Lemma trim_open_fuel st : trim_open st <> Err OutOfFuel.
Proof. induction st as [|c st IH]; simpl; [done|]. by destruct (Ascii.eqb c _). Qed.
Lemma trim_close_fuel st : trim_close_rev st <> Err OutOfFuel.
Proof. induction st as [|c st IH]; simpl; [done|]. by destruct (Ascii.eqb c _). Qed.
Lemma arg_list_fuel st : arg_list st <> Err OutOfFuel.
Proof.
  unfold arg_list, trim_close. pose proof (trim_open_fuel st). destruct (trim_open st) as [st1|]; [|congruence].
  pose proof (trim_close_fuel (reverse st1)). destruct (trim_close_rev _); [done|congruence].
Qed.
Lemma split_args_ends fuel : forall st wo on, (length st < fuel)%nat -> split_args fuel st wo on <> Err OutOfFuel.
Proof.
  induction fuel as [|fuel IH]; intros st wo on Hf; [lia|]. cbn [split_args].
  assert (forall st' wo on, (length st' < length st)%nat ->
    match st' with [] => Ok (wo, on) | _ => split_args fuel st' wo on end <> Err OutOfFuel) as Hnext.
  { intros [|d st'] wo' on' Hl; [done|]. apply IH. lia. }
  destruct (take_while_prefix goodchar st) as [r Hr]. pose proof (f_equal length Hr) as Hl. rewrite length_app in Hl.
  destruct (take_while goodchar st) as [|c w]; cbn [length drop app] in *.
  - rewrite drop_0. destruct st as [|c st]; [done|]. destruct (Ascii.eqb c ","%char); apply Hnext; simpl; lia.
  - destruct (filtered _); apply Hnext; change (drop (S (length w)) st) with (drop (length (c :: w)) st);
      rewrite length_drop; simpl; lia.
Qed.

Lemma start_def_ok fuel n : (n < fuel)%nat -> consumes (start_def fuel) n.
Proof.
  intros Hf. apply or_break_ok. intros x1 f1 H1. apply (consumes_le _ (length f1)); [|done].
  apply or_break_ok. intros x2 f2 H2. apply (consumes_le _ (length f2)); [|done].
  apply or_break_ok. intros x3 f3 H3. apply wp_bind.
  eapply wp_mono; [apply section_ok; lia|]. intros a1 f4 H4. apply wp_bind. cbn beta in H4.
  eapply wp_mono; [apply section_ok; lia|]. intros a2 f5 H5. apply wp_bind. cbn beta in H5.
  eapply wp_mono; [apply section_ok; lia|]. intros a3 f6 H6. cbn beta in H6. apply wp_ret. lia.
Qed.
Lemma start_short_ok n : consumes start_short_define n.
Proof.
  apply or_break_ok. intros x1 f1 H1. apply (consumes_le _ (length f1)); [|done].
  apply or_break_ok. intros x2 f2 H2. apply (consumes_le _ (length f2)); [|done].
  apply or_break_ok. intros x3 f3 H3. apply (consumes_le _ (length f3)); [|done].
  apply or_break_ok. intros x4 f4 H4. apply wp_bind. apply lift_ok; [apply arg_list_fuel|]. intros args.
  apply wp_bind. apply lift_ok; [apply split_args_ends; lia|]. intros parts. by apply wp_ret.
Qed.
Lemma read_def_ok n : consumes read_def n.
Proof.
  intros fin Hn. unfold read_def. change (wpx not_fuel (A:=option func_def)
    (flag ← next_def (S (length fin)); match flag with None => mret None | Some flag =>
       if bool_decide (flag = txt "STARTDEF") then start_def (S (length fin)) else start_short_define end)
    (fun r fin' => (length fin' <= length fin)%nat /\ (r <> None -> (length fin' < length fin)%nat)) fin).
  apply wp_bind. eapply wp_mono; [by apply (next_def_ok _ (length fin)); [lia|]|]. simpl.
  intros [flag|] fin1 [H1 H2]; [|by apply wp_ret]. specialize (H2 ltac:(done)).
  destruct (bool_decide _).
  - eapply wp_mono; [apply (start_def_ok _ (length fin1)); lia|]. simpl. intros r fin2 [H3 _]. split; lia.
  - eapply wp_mono; [by apply (start_short_ok (length fin1))|]. simpl. intros r fin2 [H3 _]. split; lia.
Qed.
End reading.

(** the definitions that are read from the input, in their order *)
Fixpoint definitions (rounds : nat) (fin : text) : list func_def :=
  match rounds with
  | 0%nat => []
  | S rounds' => match read_def fin with Ok (Some d, fin') => d :: definitions rounds' fin' | _ => [] end
  end.
(** each inserted text lacks a character of the name it is inserted for *)
Definition insertable (ps : patterns) (d : func_def) : Prop :=
  Forall (fun s => exists c, c ∈ s.1 /\ c ∉ s.2) (substitutions ps d).

Lemma replace_mono f1 : forall f2 st pat tobe, (f1 <= f2)%nat -> replace f1 st pat tobe <> Err OutOfFuel ->
  replace f2 st pat tobe = replace f1 st pat tobe.
Proof.
  induction f1 as [|f1 IH]; intros [|f2] st pat tobe Hf; cbn [replace]; [done|done|lia|].
  destruct (find pat st); [apply IH; lia|done].
Qed.
Lemma replace_all_ends l : Forall (fun s => exists c, c ∈ s.1 /\ c ∉ s.2) l -> forall pattern,
  exists f0, forall f, (f0 <= f)%nat -> replace_all f pattern l <> Err OutOfFuel.
Proof.
  induction 1 as [|[pat tobe] l (c & Hc & Ht) _ IH]; intros pattern; [by exists 0%nat|].
  destruct (replace_ends pat tobe c (S (count c pattern)) pattern) as (st' & Hr & _); [done|done|lia|].
  destruct (IH st') as [f1 Hf1]. exists (Nat.max (S (count c pattern)) f1). intros f Hf. cbn [replace_all].
  rewrite (replace_mono (S (count c pattern)) f), Hr; [apply Hf1; lia|lia|congruence].
Qed.
Lemma convert_loop_ends ps rounds : forall fin, (length fin < rounds)%nat ->
  Forall (insertable ps) (definitions rounds fin) ->
  exists f0, forall f hook types, (f0 <= f)%nat -> convert_loop rounds f ps fin hook types <> Err OutOfFuel.
Proof.
  induction rounds as [|rounds IH]; intros fin Hr; [lia|]. cbn [convert_loop definitions].
  pose proof (read_def_ok (length fin) fin ltac:(done)) as Hd. unfold wpx in Hd.
  destruct (read_def fin) as [[[d|] fin']|e]; [|by exists 0%nat|by exists 0%nat; intros ? ? ? ? [= ->]].
  destruct Hd as [_ Hd]. specialize (Hd ltac:(done)). intros [Hins Hl]%Forall_cons.
  destruct (IH fin' ltac:(lia) Hl) as [f1 H1]. destruct (replace_all_ends _ Hins (template_of ps d)) as [f2 H2].
  exists (Nat.max f1 f2). intros f hook types Hf. specialize (H2 f ltac:(lia)). unfold print_func.
  destruct (replace_all _ _ _); [apply H1; lia|congruence].
Qed.

(** C40: convert returns on every input whose definitions can be inserted into the templates:
    the loops that look for a definition, read its sections, trim the argument list and
    split it all end, whatever the input is, and so do the replacements. *)
Theorem convert_terminates (ps : patterns) (fin : text) :
  Forall (insertable ps) (definitions (S (length fin)) fin) ->
  exists fuel, forall f, (fuel <= f)%nat -> convert f ps fin <> Err OutOfFuel.
Proof.
  intros H. destruct (convert_loop_ends ps (S (length fin)) fin ltac:(lia) H) as [f0 H0].
  exists f0. intros f Hf. by apply H0.
Qed.

(** decides [insertable] *)
Definition insertableb (ps : patterns) (d : func_def) : bool :=
  forallb (fun s => existsb (fun c => bool_decide (c ∉ s.2)) s.1) (substitutions ps d).
Lemma insertableb_ok ps d : insertableb ps d = true -> insertable ps d.
Proof.
  unfold insertableb, insertable. rewrite forallb_forall. intros H. apply Forall_forall. intros s Hs.
  specialize (H s (proj1 (list_elem_of_In _ _) Hs)). apply existsb_exists in H as (c & Hc & Hn).
  exists c. split; [by apply list_elem_of_In|]. by apply bool_decide_eq_true in Hn.
Qed.
Lemma convert_terminates_witness :
  (func_name <$> definitions (S (length example_defs)) example_defs) =
    [txt "pthread_mutex_lock"; txt "pthread_exit"; txt "fork"] /\
  exists fuel, forall f, (fuel <= f)%nat -> convert f example_patterns example_defs <> Err OutOfFuel.
Proof.
  split; [vm_compute; reflexivity|]. apply convert_terminates. apply Forall_forall. intros d Hd. apply insertableb_ok.
  revert d Hd. apply Forall_forall.
  assert (forallb (insertableb example_patterns) (definitions (S (length example_defs)) example_defs) = true) as H
    by (vm_compute; reflexivity).
  apply Forall_forall. intros d Hd. by apply (proj1 (forallb_forall _ _) H), list_elem_of_In.
Defined.

(** the pieces of a file that has no NUL character make up the whole file, and reading ends *)
Lemma read_file_all fuel : forall file, (length file < fuel)%nat -> Forall (fun c => c <> "000"%char) file ->
  read_file fuel file = Ok file.
Proof.
  induction fuel as [|fuel IH]; intros file Hf Hn; [lia|]. cbn [read_file].
  destruct (fgets BUFFER_SIZE file) as [[buf rest]|] eqn:Hg; [|by destruct file].
  pose proof (fgets_lt BUFFER_SIZE file _ _ ltac:(unfold BUFFER_SIZE; lia) Hg) as Hl.
  pose proof (fgets_split _ _ _ _ Hg) as Hs.
  rewrite Hs in Hn. apply Forall_app in Hn as [Hb Hr].
  rewrite IH by (done || lia). rewrite Hs. f_equal. f_equal. unfold c_str. clear -Hb.
  induction Hb as [|c buf Hc _ IH]; simpl; [done|]. destruct (Ascii.eqb_spec c "000"%char); [done|]. simpl. by f_equal.
Qed.
Example main_run :
  code_gen_main 100 (txt "/lib/x86_64/libc.so.6") (func_pattern example_patterns) (void_func_pattern example_patterns)
    (txt "LIB_PATH") (lines ["START_SHORT_DEFINE"; "/libpthread.so.0"; "int"; "pthread_create"; "(void)"])%string =
  Ok (txt "/lib/x86_64/libpthread.so.0", lines ["typedef int (*__pthread_create_funcdef)(void);"])%string.
Proof. vm_compute. reflexivity. Qed.
